(** * share-file.online: the transport engine, embedded and verified

    A shallow embedding of the browser-to-browser transfer engine
    (src/webrtc/peerClient.js, src/services/signaling.js and the main
    module) together with the properties its specification states.

    Conventions of the embedding.
    - A JavaScript number that the code only uses as an integer is a [Z].
    - A JavaScript string is a [string]: a sequence of 8-bit code units.
      Every literal, alphabet and separator of the code is ASCII.
    - Binary data (ArrayBuffer, Uint8Array, Blob) is a [list byte].
    - Map and Set objects are stdpp's [gmap] and [gset].
    - What the browser decides (the state of a data channel, the clock,
      whether a send throws) is an explicit input of the model. *)

From Stdlib Require Import ZArith Lia List String Ascii Bool.
From Stdlib.Strings Require Import Byte.
From stdpp Require Import base option gmap strings list.

Import ListNotations.
Local Open Scope string_scope.
Local Open Scope Z_scope.
Local Open Scope list_scope.

(* ===================================================================== *)
(** * Part I. The model                                                   *)
(* ===================================================================== *)

(** ** JavaScript strings *)
Module Js.

Definition LF : ascii := ascii_of_nat 10.
Definition CR : ascii := ascii_of_nat 13.

(** WhiteSpace and LineTerminator code units, as [String.prototype.trim]
    reads them (the ones below 256). *)
Definition isWhiteSpace (c : ascii) : bool :=
  let n := nat_of_ascii c in
  (Nat.eqb n 9 || Nat.eqb n 10 || Nat.eqb n 11 || Nat.eqb n 12
   || Nat.eqb n 13 || Nat.eqb n 32 || Nat.eqb n 160)%bool.

Definition isEmpty (s : string) : bool :=
  match s with EmptyString => true | _ => false end.

Fixpoint dropLeading (p : ascii -> bool) (s : string) : string :=
  match s with
  | EmptyString => EmptyString
  | String c t => if p c then dropLeading p t else s
  end.

Fixpoint dropTrailing (p : ascii -> bool) (s : string) : string :=
  match s with
  | EmptyString => EmptyString
  | String c t =>
      match dropTrailing p t with
      | EmptyString => if p c then EmptyString else String c EmptyString
      | t' => String c t'
      end
  end.

(** [s.trim()] *)
Definition trim (s : string) : string :=
  dropTrailing isWhiteSpace (dropLeading isWhiteSpace s).

(** [s.startsWith(p)] *)
Fixpoint startsWith (p s : string) : bool :=
  match p with
  | EmptyString => true
  | String a p' =>
      match s with
      | EmptyString => false
      | String b s' => (Ascii.eqb a b && startsWith p' s')%bool
      end
  end.

(** [s.includes(needle)] *)
Fixpoint includes (needle s : string) : bool :=
  (startsWith needle s
   || match s with
      | EmptyString => false
      | String _ t => includes needle t
      end)%bool.

(** [s.endsWith(suffix)] *)
Fixpoint endsWith (suffix s : string) : bool :=
  (String.eqb s suffix
   || match s with
      | EmptyString => false
      | String _ t => endsWith suffix t
      end)%bool.

Definition consHead (c : ascii) (parts : list string) : list string :=
  match parts with
  | [] => [String c EmptyString]
  | h :: r => String c h :: r
  end.

(** [s.split(sep)] for a separator of one code unit. *)
Fixpoint split (sep : ascii) (s : string) : list string :=
  match s with
  | EmptyString => [EmptyString]
  | String c t =>
      if Ascii.eqb c sep then EmptyString :: split sep t
      else consHead c (split sep t)
  end.

(** [s.split(/\r?\n/)]: a line ends at a line feed, and a carriage return
    right before it belongs to the separator. *)
Fixpoint splitLines (s : string) : list string :=
  match s with
  | EmptyString => [EmptyString]
  | String c t =>
      if Ascii.eqb c LF then EmptyString :: splitLines t
      else
        let rest := splitLines t in
        match t with
        | String d _ =>
            if (Ascii.eqb c CR && Ascii.eqb d LF)%bool then rest
            else consHead c rest
        | EmptyString => consHead c rest
        end
  end.

(** [parts.join(sep)] *)
Definition join (sep : string) (parts : list string) : string :=
  String.concat sep parts.

Definition isDigit (c : ascii) : bool :=
  let n := nat_of_ascii c in (Nat.leb 48 n && Nat.leb n 57)%bool.

Fixpoint allChars (p : ascii -> bool) (s : string) : bool :=
  match s with
  | EmptyString => true
  | String c t => (p c && allChars p t)%bool
  end.

(** [Number(s)] for a string of decimal digits. *)
Fixpoint digitsValue (acc : Z) (s : string) : Z :=
  match s with
  | EmptyString => acc
  | String c t => digitsValue (acc * 10 + (Z.of_nat (nat_of_ascii c) - 48)) t
  end.

(** ASCII part of [s.toUpperCase()]. *)
Definition upperChar (c : ascii) : ascii :=
  let n := nat_of_ascii c in
  if (Nat.leb 97 n && Nat.leb n 122)%bool then ascii_of_nat (n - 32) else c.

Fixpoint toUpperCase (s : string) : string :=
  match s with
  | EmptyString => EmptyString
  | String c t => String (upperChar c) (toUpperCase t)
  end.

Definition lowerChar (c : ascii) : ascii :=
  let n := nat_of_ascii c in
  if (Nat.leb 65 n && Nat.leb n 90)%bool then ascii_of_nat (n + 32) else c.

Fixpoint toLowerCase (s : string) : string :=
  match s with
  | EmptyString => EmptyString
  | String c t => String (lowerChar c) (toLowerCase t)
  end.

Fixpoint drop (n : nat) (s : string) : string :=
  match n, s with
  | O, _ => s
  | S n', String _ t => drop n' t
  | S _, EmptyString => EmptyString
  end.

(** [s.slice(0, n)] *)
Fixpoint take (n : nat) (s : string) : string :=
  match n, s with
  | S n', String c t => String c (take n' t)
  | _, _ => EmptyString
  end.

(** [s.replace(/[...]/g, "")] for a character class: the code units the
    class matches are deleted, [keep] holds for the others. *)
Fixpoint filterChars (keep : ascii -> bool) (s : string) : string :=
  match s with
  | EmptyString => EmptyString
  | String c t => if keep c then String c (filterChars keep t) else filterChars keep t
  end.

(** [s.replace(/[...]/g, fn)]: every code unit the class matches is
    replaced by what [fn] returns for it; [fn] is the identity on the
    others. *)
Fixpoint replaceEach (fn : ascii -> string) (s : string) : string :=
  match s with
  | EmptyString => EmptyString
  | String c t => (fn c ++ replaceEach fn t)%string
  end.

Definition digitChar (d : Z) : ascii := ascii_of_nat (Z.to_nat (48 + d)).

Fixpoint decimalAux (fuel : nat) (n : Z) (acc : string) : string :=
  match fuel with
  | O => acc
  | S fuel' =>
      let acc' := String (digitChar (n mod 10)) acc in
      if (n / 10 =? 0)%Z then acc' else decimalAux fuel' (n / 10) acc'
  end.

(** [String(n)], as in a template literal, for an integer [0 <= n] below
    10^21: its decimal digits. A number has at most as many decimal
    digits as binary ones. *)
Definition decimal (n : Z) : string :=
  decimalAux (S (Z.to_nat (Z.log2 n))) n EmptyString.

End Js.

(** ** src/webrtc/peerClient.js *)
Module PeerClient.

Definition FILE_CHUNK_SIZE : Z := 256 * 1024.
Definition FILE_FRAME_HEADER_BYTES : Z := 8.
Definition HEARTBEAT_TIMEOUT_MS : Z := 30000.

(** [isValidIpv4(ip)]; an absent argument ([undefined], [null]) is [None]. *)
Definition validOctet (p : string) : bool :=
  (* /^\d{1,3}$/ , then 0 <= Number(p) <= 255 *)
  (Nat.leb 1 (String.length p) && Nat.leb (String.length p) 3
   && Js.allChars Js.isDigit p
   && Z.leb 0 (Js.digitsValue 0 p) && Z.leb (Js.digitsValue 0 p) 255)%bool.

Definition isValidIpv4 (ip : option string) : bool :=
  let s := Js.trim (default EmptyString ip) in
  if Js.isEmpty s then false
  else
    let parts := Js.split "." s in
    if negb (Nat.eqb (List.length parts) 4) then false
    else forallb validOctet parts.

(** [normalizeLanIpOverride(value)] *)
Definition normalizeLanIpOverride (value : option string) : string :=
  let s := Js.trim (default EmptyString value) in
  if Js.isEmpty s then EmptyString
  else if isValidIpv4 (Some s) then s else EmptyString.

(** The body of the [for] loop of [rewriteMdnsHostCandidatesInSdp] for one
    line: [Some line'] when the line is rewritten ([changed = true]),
    [None] when a [continue] leaves it alone. *)
Definition rewriteCandidateLine (ip line : string) : option string :=
  if (Js.isEmpty line || negb (Js.startsWith "a=candidate:" line))%bool then None
  else if negb (Js.includes " typ host" line) then None
  else
    let parts := Js.split " " line in
    if Nat.ltb (List.length parts) 6 then None
    else
      match parts !! 4%nat with
      | None => None
      | Some addr =>
          if (Js.isEmpty addr || negb (Js.endsWith ".local" addr))%bool then None
          else Some (Js.join " " (<[4%nat := ip]> parts))
      end.

Definition rewriteMdnsHostCandidatesInSdp (sdp : string) (ipv4 : option string)
  : string :=
  let ip := normalizeLanIpOverride ipv4 in
  if Js.isEmpty ip then sdp
  else
    let text := sdp in
    if Js.isEmpty text then text
    else
      let sep := if Js.includes (String Js.CR (String Js.LF EmptyString)) text
                 then String Js.CR (String Js.LF EmptyString)
                 else String Js.LF EmptyString in
      let lines := Js.splitLines text in
      let changed := existsb (fun l => bool_decide (is_Some (rewriteCandidateLine ip l))) lines in
      let lines' := List.map (fun l => default l (rewriteCandidateLine ip l)) lines in
      if changed then Js.join sep lines' else text.

(** *** 32-bit integers *)

(** JavaScript's bitwise operators work on 32-bit two's complement
    integers: [ToInt32] wraps, [<<] wraps its result, [>>] keeps the sign. *)
Definition toInt32 (x : Z) : Z := (x + 2147483648) mod 4294967296 - 2147483648.

Definition shiftLeft (x n : Z) : Z := toInt32 (Z.shiftl x n).      (* x << n *)
Definition shiftRight (x n : Z) : Z := Z.shiftr x n.               (* x >> n *)

Definition byteZ (b : byte) : Z := Z.of_N (Byte.to_N b).

(** The element a [Uint8Array] stores for a number in 0..255. *)
Definition byteOfZ (x : Z) : byte :=
  default x00 (Byte.of_N (Z.to_N x)).

Definition charCode (c : ascii) : Z := Z.of_nat (nat_of_ascii c).

(** *** Base 32 *)

Definition BASE32_ALPHABET : string := "ABCDEFGHIJKLMNOPQRSTUVWXYZ234567".

(** [BASE32_ALPHABET[i]] *)
Definition alphabetAt (i : Z) : ascii :=
  default "?"%char (String.get (Z.to_nat i) BASE32_ALPHABET).

(** [BASE32_LOOKUP[ch]]: filled with -1, then [arr[charCodeAt(i)] = i]. *)
Definition BASE32_LOOKUP (ch : Z) : Z :=
  List.fold_left
    (fun acc i => if (charCode (alphabetAt (Z.of_nat i)) =? ch)%Z then Z.of_nat i else acc)
    (List.seq 0 (String.length BASE32_ALPHABET)) (-1).

Definition pushChar (out : string) (c : ascii) : string :=
  (out ++ String c EmptyString)%string.

(** [while (bits >= 5) { bits -= 5; out += ALPHABET[(buffer >> bits) & 31]; }]
    Every pass takes 5 from [bits], so [bits] passes are enough. *)
Fixpoint encodeDrain (fuel : nat) (buffer bits : Z) (out : string) : Z * string :=
  match fuel with
  | O => (bits, out)
  | S fuel' =>
      if (5 <=? bits)%Z then
        let bits := bits - 5 in
        encodeDrain fuel' buffer bits
          (pushChar out (alphabetAt (Z.land (shiftRight buffer bits) 31)))
      else (bits, out)
  end.

Fixpoint encodeLoop (data : list byte) (buffer bits : Z) (out : string)
  : Z * Z * string :=
  match data with
  | [] => (buffer, bits, out)
  | b :: rest =>
      let buffer := Z.lor (shiftLeft buffer 8) (byteZ b) in
      let bits := bits + 8 in
      let '(bits, out) := encodeDrain (Z.to_nat bits) buffer bits out in
      encodeLoop rest buffer bits out
  end.

(** [base32EncodeBytes(bytes)] *)
Definition base32EncodeBytes (data : list byte) : string :=
  let '(buffer, bits, out) := encodeLoop data 0 0 EmptyString in
  if (0 <? bits)%Z
  then pushChar out (alphabetAt (Z.land (shiftLeft buffer (5 - bits)) 31))
  else out.

(** [while (bits >= 8) { bits -= 8; out.push((buffer >> bits) & 0xff); }] *)
Fixpoint decodeDrain (fuel : nat) (buffer bits : Z) (out : list byte)
  : Z * list byte :=
  match fuel with
  | O => (bits, out)
  | S fuel' =>
      if (8 <=? bits)%Z then
        let bits := bits - 8 in
        decodeDrain fuel' buffer bits
          (out ++ [byteOfZ (Z.land (shiftRight buffer bits) 255)])
      else (bits, out)
  end.

(** The [for] loop of [base32DecodeToBytes]; [None] is the thrown
    "Invalid base32 character". *)
Fixpoint decodeLoop (s : string) (buffer bits : Z) (out : list byte)
  : option (list byte) :=
  match s with
  | EmptyString => Some out
  | String c rest =>
      let ch := charCode c in
      if ((ch =? 10) || (ch =? 13) || (ch =? 9) || (ch =? 32))%Z%bool
      then decodeLoop rest buffer bits out
      else
        let val := if (ch <? 256)%Z then BASE32_LOOKUP ch else -1 in
        if (val <? 0)%Z then None
        else
          let buffer := Z.lor (shiftLeft buffer 5) val in
          let bits := bits + 5 in
          let '(bits, out) := decodeDrain (Z.to_nat bits) buffer bits out in
          decodeLoop rest buffer bits out
  end.

(** [base32DecodeToBytes(input)] *)
Definition base32DecodeToBytes (input : string) : option (list byte) :=
  let s := Js.dropTrailing (Ascii.eqb "="%char) (Js.toUpperCase input) in
  decodeLoop s 0 0 [].

(** *** The signal codec *)

Definition SIGNAL_PREFIX_GZIP : string := "SHR1:".
Definition SIGNAL_PREFIX_RAW : string := "SHR0:".
Definition SIGNAL_PREFIX_GZIP_B32 : string := "SHR2:".
Definition SIGNAL_PREFIX_RAW_B32 : string := "SHR3:".

(** The fields of [webrtcConfig] the codec reads. *)
Record WebrtcConfig : Type := mkWebrtcConfig {
  useStun : bool;
  useSignalCompression : bool;
  useUnorderedFileChannel : bool;
  useFastTransfer : bool;
  useLanIpOverride : bool;
  lanIpOverride : string
}.

(** [{ stun, fileUnordered, fast }], each 0 or 1. *)
Record SignalCfg : Type := mkSignalCfg {
  stun : Z;
  fileUnordered : Z;
  fast : Z
}.

(** The object [{ t, s, c }] that travels as JSON. *)
Record SignalJson : Type := mkSignalJson {
  json_t : string;
  json_s : string;
  json_c : SignalCfg
}.

(** An [RTCSessionDescription]. *)
Record SessionDescription : Type := mkSessionDescription {
  descType : string;
  sdp : string
}.

(** What [decodeSignal] returns: [{ type, sdp, cfg }]. *)
Record DecodedSignal : Type := mkDecodedSignal {
  decodedType : string;
  decodedSdp : string;
  decodedCfg : SignalCfg
}.

(** What the browser provides to the codec. A [None] is a thrown error or
    a rejected promise. *)
Record Platform : Type := mkPlatform {
  hasStreamCompression : bool;
  (* new Blob([payload]).stream().pipeThrough(new CompressionStream("gzip")) *)
  gzip : list byte -> option (list byte);
  (* new Blob([bytes]).stream().pipeThrough(new DecompressionStream("gzip")) *)
  gunzip : list byte -> option (list byte);
  (* JSON.stringify, then the UTF-8 bytes of the Blob *)
  jsonBytes : SignalJson -> list byte;
  (* new Response(...).json() *)
  parseJson : list byte -> option SignalJson;
  (* atob, as the bytes of the binary string *)
  atob : string -> option (list byte)
}.

Definition flag (b : bool) : Z := if b then 1 else 0.

(** [encodeSignal(desc)]; [desc] is [None] for [null]. *)
Definition encodeSignal (pf : Platform) (cfg : WebrtcConfig)
    (desc : option SessionDescription) : option string :=
  match desc with
  | None => None
  | Some d =>
      if (Js.isEmpty (descType d) || Js.isEmpty (sdp d))%bool then None
      else
        let sdp' :=
          if useLanIpOverride cfg
          then rewriteMdnsHostCandidatesInSdp (sdp d) (Some (lanIpOverride cfg))
          else sdp d in
        let c := mkSignalCfg (flag (useStun cfg)) (flag (useUnorderedFileChannel cfg))
                   (flag (useFastTransfer cfg)) in
        let payload := jsonBytes pf (mkSignalJson (descType d) sdp' c) in
        let raw := (SIGNAL_PREFIX_RAW_B32 ++ base32EncodeBytes payload)%string in
        if (useSignalCompression cfg && hasStreamCompression pf)%bool then
          match gzip pf payload with
          | Some buf => Some (SIGNAL_PREFIX_GZIP_B32 ++ base32EncodeBytes buf)%string
          | None => Some raw                 (* fall back to raw encoding *)
          end
        else Some raw
  end.

Fixpoint replaceChar (from to : ascii) (s : string) : string :=
  match s with
  | EmptyString => EmptyString
  | String c t => String (if Ascii.eqb c from then to else c) (replaceChar from to t)
  end.

Fixpoint repeatChar (c : ascii) (n : nat) : string :=
  match n with
  | O => EmptyString
  | S n' => String c (repeatChar c n')
  end.

(** [base64UrlDecodeToBytes(b64url)] *)
Definition base64UrlDecodeToBytes (pf : Platform) (b64url : string)
  : option (list byte) :=
  let b64 := replaceChar "_"%char "/"%char (replaceChar "-"%char "+"%char b64url) in
  let pad := (String.length b64 mod 4)%nat in
  let b64 := if Nat.eqb pad 0 then b64
             else (b64 ++ repeatChar "="%char (4 - pad))%string in
  atob pf b64.

Definition decoded (json : SignalJson) : DecodedSignal :=
  mkDecodedSignal (json_t json) (json_s json) (json_c json).

(** [decodeSignal(code)] *)
Definition decodeSignal (pf : Platform) (code : string) : option DecodedSignal :=
  let trimmed := Js.trim code in
  if Js.isEmpty trimmed then None
  else if Js.startsWith SIGNAL_PREFIX_GZIP_B32 trimmed then
    if negb (hasStreamCompression pf) then None
    else
      bytes ← base32DecodeToBytes (Js.drop 5 trimmed);
      plain ← gunzip pf bytes;
      decoded <$> parseJson pf plain
  else if Js.startsWith SIGNAL_PREFIX_RAW_B32 trimmed then
    bytes ← base32DecodeToBytes (Js.drop 5 trimmed);
    decoded <$> parseJson pf bytes
  else if Js.startsWith SIGNAL_PREFIX_GZIP trimmed then
    if negb (hasStreamCompression pf) then None
    else
      bytes ← base64UrlDecodeToBytes pf (Js.drop 5 trimmed);
      plain ← gunzip pf bytes;
      decoded <$> parseJson pf plain
  else if Js.startsWith SIGNAL_PREFIX_RAW trimmed then
    bytes ← base64UrlDecodeToBytes pf (Js.drop 5 trimmed);
    decoded <$> parseJson pf bytes
  else None.

(** [navigator.deviceMemory] is one of 0.25, 0.5, 1, 2, 4, 8 (GiB), or
    absent; the model counts it in quarters of a GiB, 0 when absent. *)
Definition DC_BUFFER_HIGH_WATER_MARK (memQuarters : Z) : Z :=
  if (8 * 4 <=? memQuarters)%Z then 64 * 1024 * 1024
  else if (4 * 4 <=? memQuarters)%Z then 32 * 1024 * 1024
  else if ((0 <? memQuarters)%Z && (memQuarters <? 2 * 4)%Z)%bool then 8 * 1024 * 1024
  else 16 * 1024 * 1024.

Definition DC_BUFFER_LOW_WATER_MARK (memQuarters : Z) : Z :=
  Z.max (1024 * 1024) (DC_BUFFER_HIGH_WATER_MARK memQuarters / 4).

(** [isDcSendQueueFullError(err)], on the error's message. *)
Definition isDcSendQueueFullError (message : string) : bool :=
  Js.includes "send queue is full" (Js.toLowerCase message).

(** [streamIdMatchesBase(baseId, streamId)] *)
Definition streamIdMatchesBase (baseId streamId : string) : bool :=
  let base := Js.trim baseId in
  let id := Js.trim streamId in
  if (Js.isEmpty base || Js.isEmpty id)%bool then false
  else (String.eqb id base || Js.startsWith (base ++ ":")%string id)%bool.

(** *** Messages handed to the upper layer ([onData]) *)

(** The objects [onData] receives: parsed control messages, and the
    [file-chunk] and [file-channel-closed] events the client builds. *)
Inductive PeerMsg : Type :=
| MsgText (text : string)
| MsgFileMeta (id sid : string) (sc : Z) (name : string) (size : Z)
| MsgFileAccept (id : string)
| MsgFileAcceptAck (id : string)
| MsgFileDone (id : string)
| MsgFileCancel (id reason : string)
| MsgFileChannelClosed (streamId : string)
| MsgFileChunk (streamId : string) (seq : Z) (data : list byte).

(** A call of one of the two callbacks the client was constructed with. *)
Inductive Upcall : Type :=
| OnStatusChange (status : string)
| OnData (msg : PeerMsg).

(** The liveness fields of a [PeerClient]. *)
Record PeerState : Type := mkPeerState {
  lastPeerActivityAt : Z;
  peerTimedOut : bool
}.

(** How a handler ends: it returns, or it throws. *)
Inductive Outcome : Type :=
| Returned (st : PeerState) (calls : list Upcall)
| Threw (err : string).

(** [markPeerActivity()] at time [now]. *)
Definition markPeerActivity (now : Z) (st : PeerState) : PeerState * list Upcall :=
  if peerTimedOut st
  then (mkPeerState now false, [OnStatusChange "connected"])
  else (mkPeerState now false, []).

(** *** Frames *)

(** [new DataView(buf).getUint32(off)]: big-endian; a [RangeError] when
    four bytes are not there. *)
Definition getUint32 (buf : list byte) (off : nat) : option Z :=
  match List.skipn off buf with
  | b0 :: b1 :: b2 :: b3 :: _ =>
      Some (((byteZ b0 * 256 + byteZ b1) * 256 + byteZ b2) * 256 + byteZ b3)
  | _ => None
  end.

(** [bytes.slice(from, to)] of a Blob or an ArrayBuffer, [0 <= from]. *)
Definition sliceBytes (bytes : list byte) (from to : Z) : list byte :=
  List.firstn (Z.to_nat (to - from)) (List.skipn (Z.to_nat from) bytes).

Definition byteLength (bytes : list byte) : Z := Z.of_nat (List.length bytes).

(** What arrives as [e.data] on a file channel. *)
Inductive MessageData : Type :=
| DataAbsent                                   (* null, undefined *)
| DataString (s : string)
| DataBlob (bytes : list byte)
| DataArrayBuffer (bytes : list byte)
| DataTypedArray (buffer : list byte) (byteOffset byteLength : Z)
| DataOther.                                   (* any other object *)

(** The header arithmetic both paths of [handleFileFrame] share:
    [len = declaredLen && declaredLen <= payloadLen ? declaredLen : payloadLen]. *)
Definition frameLen (declaredLen total : Z) : Z :=
  let payloadLen := Z.max 0 (total - FILE_FRAME_HEADER_BYTES) in
  if (negb (declaredLen =? 0)%Z && (declaredLen <=? payloadLen)%Z)%bool
  then declaredLen else payloadLen.

(** The part of [handleFileFrame] after [buf] is known (the ArrayBuffer
    path, lines 867-877). *)
Definition handleBufferFrame (now : Z) (st : PeerState) (id : string)
    (buf : list byte) : Outcome :=
  if (byteLength buf <? FILE_FRAME_HEADER_BYTES)%Z then Returned st []
  else
    match getUint32 buf 0, getUint32 buf 4 with
    | Some seq, Some declaredLen =>
        let len := frameLen declaredLen (byteLength buf) in
        let payload :=
          sliceBytes buf FILE_FRAME_HEADER_BYTES (FILE_FRAME_HEADER_BYTES + len) in
        let '(st', calls) := markPeerActivity now st in
        Returned st' (calls ++ [OnData (MsgFileChunk id seq payload)])
    | _, _ => Threw "RangeError"
    end.

(** [handleFileFrame(id, data)]. [blobArrayBuffer] says whether the
    browser's Blob has the [arrayBuffer] method (the fast path). *)
Definition handleFileFrame (blobArrayBuffer : bool) (now : Z) (st : PeerState)
    (id : string) (data : MessageData) : Outcome :=
  match data with
  | DataAbsent => Returned st []
  | DataString _ => Returned st []
  | DataBlob bytes =>
      if (byteLength bytes <? FILE_FRAME_HEADER_BYTES)%Z then Returned st []
      else if blobArrayBuffer then
        let headerBuf := sliceBytes bytes 0 FILE_FRAME_HEADER_BYTES in
        match getUint32 headerBuf 0, getUint32 headerBuf 4 with
        | Some seq, Some declaredLen =>
            let len := frameLen declaredLen (byteLength bytes) in
            let payload :=
              sliceBytes bytes FILE_FRAME_HEADER_BYTES (FILE_FRAME_HEADER_BYTES + len) in
            let '(st', calls) := markPeerActivity now st in
            Returned st' (calls ++ [OnData (MsgFileChunk id seq payload)])
        | _, _ => Threw "RangeError"
        end
      else handleBufferFrame now st id bytes
  | DataArrayBuffer bytes => handleBufferFrame now st id bytes
  | DataTypedArray buffer byteOffset len =>
      handleBufferFrame now st id (sliceBytes buffer byteOffset (byteOffset + len))
  | DataOther => Returned st []
  end.

(** The number of bytes a message carries ([size], [byteLength]). *)
Definition messageBytes (data : MessageData) : option (list byte) :=
  match data with
  | DataBlob bytes | DataArrayBuffer bytes => Some bytes
  | DataTypedArray buffer byteOffset len =>
      Some (sliceBytes buffer byteOffset (byteOffset + len))
  | _ => None
  end.

(** The payload the specification describes: the next [min(len, trailing)]
    bytes after the header. *)
Definition specPayload (bytes : list byte) (declaredLen : Z) : list byte :=
  let trailing := byteLength bytes - FILE_FRAME_HEADER_BYTES in
  sliceBytes bytes FILE_FRAME_HEADER_BYTES
    (FILE_FRAME_HEADER_BYTES + Z.min declaredLen trailing).

(** [view.setUint32(off, v)] on a fresh 4-byte field: [ToUint32(v)],
    big-endian. *)
Definition setUint32 (v : Z) : list byte :=
  let u := v mod 4294967296 in
  [byteOfZ (u / 16777216); byteOfZ (u / 65536 mod 256);
   byteOfZ (u / 256 mod 256); byteOfZ (u mod 256)].

(** *** Stream ids and channel counts *)

(** [fileStreamIdForIndex(baseId, index)]; [index] is the loop counter of
    [ensureFileTxChannels], an integer. *)
Definition fileStreamIdForIndex (baseId : string) (index : Z) : string :=
  let base := Js.trim baseId in
  if Js.isEmpty base then EmptyString
  else if (index <=? 0)%Z then base
  else (base ++ ":" ++ Js.decimal index)%string.

(** [getFastFileChannelCount()]; [memQuarters] as for the watermarks,
    [hardwareConcurrency] is 0 when the browser does not tell. *)
Definition getFastFileChannelCount (useFastTransfer : bool)
    (memQuarters hardwareConcurrency : Z) : Z :=
  if negb useFastTransfer then 1
  else
    let count :=
      if (8 * 4 <=? memQuarters)%Z then 4
      else if (4 * 4 <=? memQuarters)%Z then 3 else 2 in
    let count :=
      if ((0 <? hardwareConcurrency)%Z && (hardwareConcurrency <=? 4)%Z)%bool
      then Z.min count 2 else count in
    Z.max 1 (Z.min 8 count).

(** The ids [ensureFileTxChannels({ count })] asks [openFileChannel] for:
    [n = Math.max(1, Math.floor(count) || 1)] of them. *)
Definition fileTxChannelIds (baseId : string) (count : Z) : list string :=
  let n := Z.max 1 (if (count =? 0)%Z then 1 else count) in
  List.map (fun i => fileStreamIdForIndex baseId (Z.of_nat i))
    (List.seq 0 (Z.to_nat n)).

(** *** Liveness *)

Definition HEARTBEAT_INTERVAL_MS : Z := 1200.

(** The callback [startHeartbeat] hands to [setInterval], at time [now];
    [dcOpen] says whether the control channel is there and open. The ping
    it sends is not part of the liveness state. *)
Definition heartbeatTick (now : Z) (dcOpen : bool) (st : PeerState)
  : PeerState * list Upcall :=
  if negb dcOpen then (st, [])
  else
    let idleFor := now - lastPeerActivityAt st in
    if ((HEARTBEAT_TIMEOUT_MS <? idleFor)%Z && negb (peerTimedOut st))%bool
    then (mkPeerState (lastPeerActivityAt st) true, [OnStatusChange "peer-timeout"])
    else (st, []).

(** [startHeartbeat()], as far as the liveness fields go. *)
Definition startHeartbeat (now : Z) : PeerState := mkPeerState now false.

(** What happens to the liveness fields while a heartbeat runs. *)
Inductive LivenessEvent : Type :=
| Tick (now : Z) (dcOpen : bool)      (* the interval fires *)
| Activity (now : Z).                 (* a message or a frame arrives *)

Definition livenessStep (ev : LivenessEvent) (st : PeerState)
  : PeerState * list Upcall :=
  match ev with
  | Tick now dcOpen => heartbeatTick now dcOpen st
  | Activity now => markPeerActivity now st
  end.

Fixpoint livenessRun (events : list LivenessEvent) (st : PeerState)
  : PeerState * list Upcall :=
  match events with
  | [] => (st, [])
  | ev :: rest =>
      let '(st1, calls1) := livenessStep ev st in
      let '(st2, calls2) := livenessRun rest st1 in
      (st2, calls1 ++ calls2)
  end.

(** *** ICE configuration *)

(** The fields of [webrtcConfig] that [setupPC] reads. *)
Record TurnConfig : Type := mkTurnConfig {
  cfgUseStun : bool;
  useTurn : bool;
  turnUrl : string;
  turnUsername : string;
  turnCredential : string;
  forceTurnRelay : bool
}.

(** An entry of [iceServers]; an absent [username] or [credential] is
    [None]. *)
Record IceServer : Type := mkIceServer {
  urls : string;
  username : option string;
  credential : option string
}.

(** [pcConfig]: the servers, and whether [iceTransportPolicy] is
    ["relay"]. *)
Record PcConfig : Type := mkPcConfig {
  iceServers : list IceServer;
  relayOnly : bool
}.

(** The configuration [setupPC] builds (lines 379-398). *)
Definition pcConfig (cfg : TurnConfig) : PcConfig :=
  let stunServers :=
    if cfgUseStun cfg
    then [mkIceServer "stun:stun.l.google.com:19302" None None] else [] in
  let turnServers :=
    if useTurn cfg then
      let url := Js.trim (turnUrl cfg) in
      if negb (Js.isEmpty url) then
        let u := Js.trim (turnUsername cfg) in
        let p := turnCredential cfg in
        [mkIceServer url
           (if negb (Js.isEmpty u) then Some u else None)
           (if negb (Js.isEmpty p) then Some p else None)]
      else []
    else [] in
  mkPcConfig (stunServers ++ turnServers)
    (useTurn cfg && forceTurnRelay cfg && negb (Js.isEmpty (Js.trim (turnUrl cfg)))).

End PeerClient.

(** ** src/services/signaling.js *)
Module SignalingService.

(** A field of a bus payload: any JSON value may arrive. *)
Inductive JsVal : Type :=
| JUndefined
| JNull
| JBool (b : bool)
| JNum (n : Z)
| JStr (s : string).

(** ToBoolean. *)
Definition truthy (v : JsVal) : bool :=
  match v with
  | JUndefined | JNull => false
  | JBool b => b
  | JNum n => negb (n =? 0)%Z
  | JStr s => negb (Js.isEmpty s)
  end.

(** [v === s] for a string [s]. *)
Definition strictEqStr (v : JsVal) (s : string) : bool :=
  match v with
  | JStr t => String.eqb t s
  | _ => false
  end.

(** [packet?.payload]: [None] when the packet or its payload is absent. *)
Record Payload : Type := mkPayload { senderId : JsVal; dataStr : JsVal }.

Definition Packet : Type := option Payload.

(** [Number.prototype.toString(36)] of a non-negative integer. *)
Definition digit36 (d : Z) : ascii :=
  if (d <? 10)%Z then ascii_of_nat (Z.to_nat (48 + d))
  else ascii_of_nat (Z.to_nat (87 + d)).

Fixpoint toString36Aux (fuel : nat) (n : Z) (acc : string) : string :=
  match fuel with
  | O => acc
  | S fuel' =>
      let acc' := String (digit36 (n mod 36)) acc in
      if (n / 36 =? 0)%Z then acc' else toString36Aux fuel' (n / 36) acc'
  end.

Definition toString36 (n : Z) : string :=
  toString36Aux (S (Z.to_nat (Z.log2 n))) n EmptyString.

(** [makeClientId()]. [uuid] is what [crypto.randomUUID()] returns, when
    the browser has it and it does not throw; [random36] is
    [Math.random().toString(36).slice(2)] and [now] is [Date.now()]. *)
Definition makeClientId (uuid : option string) (random36 : string) (now : Z)
  : string :=
  match uuid with
  | Some u => u
  | None => (random36 ++ toString36 now)%string
  end.

(** The fields of a service this model needs; [onMessage] is [None] until
    the upper layer registers its handler. The handler's effect is the
    list of strings it has been called with. *)
Record Service : Type := mkService {
  clientId : string;
  onMessageSet : bool;
  delivered : list JsVal
}.

(** The listener [connect] installs for the broadcast event [msg]. *)
Definition onBroadcast (svc : Service) (packet : Packet) : Service :=
  let senderId := match packet with Some p => senderId p | None => JUndefined end in
  let dataStr := match packet with Some p => dataStr p | None => JUndefined end in
  if negb (truthy dataStr) then svc
  else if (truthy senderId && strictEqStr senderId (clientId svc))%bool then svc
  else if onMessageSet svc
       then mkService (clientId svc) (onMessageSet svc) (delivered svc ++ [dataStr])%list
       else svc.

(** The two fields [emitError] keeps: [_lastErrorAt] and [_lastErrorMsg]. *)
Record ErrorState : Type := mkErrorState {
  lastErrorAt : Z;
  lastErrorMsg : string
}.

(** What the constructor sets. *)
Definition initialErrorState : ErrorState := mkErrorState 0 EmptyString.

(** [emitError(err)] for an error of message [msg] at time [now]
    ([Date.now()]): the new fields, and whether it goes on to [onError]. *)
Definition emitError (msg : string) (now : Z) (st : ErrorState) : ErrorState * bool :=
  if (String.eqb msg (lastErrorMsg st) && (now - lastErrorAt st <? 4000)%Z)%bool
  then (st, false)
  else (mkErrorState now msg, true).

(** A sequence of errors, each with its time; the result lists the ones
    that reach [onError]. *)
Fixpoint emitErrors (errs : list (string * Z)) (st : ErrorState)
  : ErrorState * list (string * Z) :=
  match errs with
  | [] => (st, [])
  | (msg, now) :: rest =>
      let '(st1, called) := emitError msg now st in
      let '(st2, calls) := emitErrors rest st1 in
      (st2, if called then (msg, now) :: calls else calls)
  end.

End SignalingService.

(** ** The main module: the sender *)
Module Sender.
Import PeerClient.

(** A data channel as the sender sees it at one moment. *)
Record Channel : Type := mkChannel {
  readyOpen : bool;          (* readyState === "open" *)
  bufferedAmount : Z
}.

(** What [dc.send] does at one moment. *)
Inductive SendOutcome : Type :=
| SendOk
| SendThrows (message : string).

(** Everything outside the sender that the code reads at one moment. *)
Record World : Type := mkWorld {
  aborted : bool;            (* signal.aborted *)
  ctrlOpen : bool;           (* peer.dc.readyState === "open" *)
  channels : list Channel;   (* the states of fileDcs, in order *)
  nowMs : Z;
  sendOutcome : SendOutcome
}.

(** The environment: the world at each tick. The sender looks at the world
    once per loop iteration and once per wait, and each look is a tick. *)
Definition Env : Type := nat -> World.

(** A frame handed to [dc.send]: the channel's index in [fileDcs], the
    values written to the header, and the slice of the file. *)
Record Frame : Type := mkFrame {
  fchannel : nat;
  fseq : Z;
  flen : Z;
  fpayload : list byte
}.

(** [getSendChunkSize(overheadBytes)]; [maxMessageSize] is
    [peer.pc.sctp.maxMessageSize], and anything that is not a positive
    finite number counts as 0. *)
Definition getSendChunkSize (maxMessageSize overheadBytes : Z) : Z :=
  let max := if (0 <? maxMessageSize)%Z then maxMessageSize else 0 in
  let base := if negb (max =? 0)%Z then Z.min FILE_CHUNK_SIZE max else FILE_CHUNK_SIZE in
  let overhead := Z.max 0 overheadBytes in
  Z.max 1 (base - overhead).

Definition MiB : Z := 1024 * 1024.

Definition minHighWaterMark (payloadChunkSize : Z) : Z :=
  Z.max (1 * MiB) (payloadChunkSize * 4).

Definition lowFor (highWaterMark : Z) : Z :=
  Z.max (512 * 1024) (highWaterMark / 4).

(** The watermark set up before the first frame (lines 526-531). *)
Definition initialHighWaterMark (dcHigh payloadChunkSize channelCount : Z) : Z :=
  let minHigh := minHighWaterMark payloadChunkSize in
  let total := Z.max dcHigh (minHigh * channelCount) in
  Z.max minHigh (total / channelCount).

(** The adjustment in the [catch] of the chunk loop (line 724). *)
Definition halveHighWaterMark (payloadChunkSize highWaterMark : Z) : Z :=
  Z.max (minHighWaterMark payloadChunkSize) (highWaterMark / 2).

Definition openChannels (chs : list Channel) : list Channel :=
  List.filter readyOpen chs.

(** [hasBackpressureEverywhere()]: [None] is JavaScript's [null]. *)
Definition hasBackpressureEverywhere (chs : list Channel) (highWaterMark : Z)
  : option bool :=
  match openChannels chs with
  | [] => None
  | open => Some (forallb (fun dc => negb (bufferedAmount dc <? highWaterMark)%Z) open)
  end.

(** [pickChannel()]: the index of the channel picked and the new
    round-robin cursor. *)
Definition pickChannel (chs : list Channel) (rrIndex : nat) (highWaterMark : Z)
  : option (nat * nat) :=
  let n := List.length chs in
  let usable (i : nat) :=
    let idx := ((rrIndex + i) mod n)%nat in
    match chs !! idx with
    | Some dc => (readyOpen dc && (bufferedAmount dc <? highWaterMark)%Z)%bool
    | None => false
    end in
  match List.find usable (List.seq 0 n) with
  | Some i => let idx := ((rrIndex + i) mod n)%nat in Some (idx, ((idx + 1) mod n)%nat)
  | None => None
  end.

(** The index of [getOpenChannels()[0]]. *)
Fixpoint firstOpen (chs : list Channel) (i : nat) : option nat :=
  match chs with
  | [] => None
  | dc :: rest => if readyOpen dc then Some i else firstOpen rest (S i)
  end.

(** The local variables of [sendFileChunks], the tick, and the frames sent
    so far. *)
Record SendState : Type := mkSendState {
  offset : Z;
  seq : Z;
  rrIndex : nat;
  highWaterMark : Z;
  lowWaterMark : Z;
  tick : nat;
  sent : list Frame
}.

Definition tickOf (st : SendState) : SendState :=
  mkSendState (offset st) (seq st) (rrIndex st) (highWaterMark st)
    (lowWaterMark st) (S (tick st)) (sent st).

(** How [sendFileChunks] ends. [OutOfFuel] is the model's own: the loops
    of the code run for as long as the channels stay full. *)
Inductive Result : Type :=
| Returned (st : SendState)
| Threw (err : string) (st : SendState)
| OutOfFuel (st : SendState).

(** [await waitForAnyBuffer(...)] and [await peer.waitForBuffer(...)]:
    the wait ends when a channel drains, closes or times out, and rejects
    when the signal aborts. Waiting is one tick. *)
Definition waitRejects (env : Env) (st : SendState) (target : Z) : bool :=
  let w := env (tick st) in
  match openChannels (channels w) with
  | [] => false
  | open =>
      if existsb (fun dc => (bufferedAmount dc <? Z.max 0 target)%Z) open then false
      else aborted w
  end.

(** [await peer.waitForBuffer(dc, ...)] on the channel of index [dc]. *)
Definition waitForBufferRejects (env : Env) (st : SendState) (dc : nat)
    (high : Z) : bool :=
  let w := env (tick st) in
  match channels w !! dc with
  | None => false
  | Some c =>
      if negb (readyOpen c) then false
      else if (bufferedAmount c <=? Z.max 0 high)%Z then false
      else aborted w
  end.

(** How one iteration of the inner [while] ends. *)
Inductive Iter : Type :=
| IterNext (st : SendState)                 (* the frame was sent *)
| IterBreak (st : SendState) (hit : bool)   (* [break], or the condition failed *)
| IterThrow (err : string) (st : SendState).

Section Pump.
Variables (file : list byte) (payloadChunkSize : Z) (timeBudgetMs : Z).
Variable env : Env.

Definition size : Z := byteLength file.

(** One iteration of the inner loop (lines 702-747). *)
Definition innerIter (deadline : Z) (st : SendState) : Iter :=
  let w := env (tick st) in
  let st := tickOf st in
  if negb ((offset st <? size)%Z && (nowMs w <? deadline)%Z) then IterBreak st false
  else if aborted w then IterThrow "AbortError" st
  else if negb (ctrlOpen w) then IterThrow "Connection lost" st
  else
    match pickChannel (channels w) (rrIndex st) (highWaterMark st) with
    | None => IterBreak st true
    | Some (idx, rr') =>
        let end_ := Z.min (offset st + payloadChunkSize) size in
        let payloadLen := Z.max 0 (end_ - offset st) in
        let frame := mkFrame idx (seq st) payloadLen (sliceBytes file (offset st) end_) in
        match sendOutcome w with
        | SendThrows message =>
            if negb (isDcSendQueueFullError message)
            then IterThrow message
                   (mkSendState (offset st) (seq st) rr' (highWaterMark st)
                      (lowWaterMark st) (tick st) (sent st))
            else
              let high' := halveHighWaterMark payloadChunkSize (highWaterMark st) in
              let low' := lowFor high' in
              let drainTarget := Z.min low' (1024 * 1024) in
              let st' := mkSendState (offset st) (seq st) rr' high' low'
                           (tick st) (sent st) in
              if waitRejects env st' drainTarget
              then IterThrow "AbortError" (tickOf st')
              else IterBreak (tickOf st') true
        | SendOk =>
            IterNext (mkSendState end_ (seq st + 1) rr' (highWaterMark st)
                        (lowWaterMark st) (tick st) (sent st ++ [frame]))
        end
    end.

(** The inner loop. [IterNext] as its result means the fuel ran out. *)
Fixpoint inner (fuel : nat) (deadline : Z) (st : SendState) : Iter :=
  match fuel with
  | O => IterNext st
  | S fuel' =>
      match innerIter deadline st with
      | IterNext st' => inner fuel' deadline st'
      | other => other
      end
  end.

(** The inner loop sends at least one byte per completed iteration, so the
    bytes left bound its iterations. *)
Definition innerFuel (st : SendState) : nat := S (Z.to_nat (size - offset st)).

(** The outer loop (lines 683-755) and what follows it. *)
Fixpoint outer (fuel : nat) (st : SendState) : Result :=
  match fuel with
  | O => OutOfFuel st
  | S fuel' =>
      if negb (offset st <? size)%Z then Returned st
      else
        let w := env (tick st) in
        let st := tickOf st in
        if aborted w then Threw "AbortError" st
        else if negb (ctrlOpen w) then Threw "Connection lost" st
        else if Nat.eqb (List.length (openChannels (channels w))) 0
             then Threw "File channel closed" st
        else
          match hasBackpressureEverywhere (channels w) (highWaterMark st) with
          | Some true =>
              if waitRejects env st (highWaterMark st)
              then Threw "AbortError" (tickOf st)
              else outer fuel' (tickOf st)
          | None => Threw "File channel closed" st
          | Some false =>
              let deadline := nowMs w + timeBudgetMs in
              match inner (innerFuel st) deadline st with
              | IterThrow err st' => Threw err st'
              | IterNext st' => OutOfFuel st'
              | IterBreak st' hit =>
                  if (size <=? offset st')%Z then Returned st'
                  else if hit then
                    if waitRejects env st' (highWaterMark st')
                    then Threw "AbortError" (tickOf st')
                    else outer fuel' (tickOf st')
                  else outer fuel' (tickOf st')        (* yieldToMain *)
              end
          end
  end.

(** The retry loop of the empty file (lines 629-638). *)
Fixpoint sendEmptyHeader (fuel : nat) (dc0 : nat) (st : SendState) : Result :=
  match fuel with
  | O => OutOfFuel st
  | S fuel' =>
      let w := env (tick st) in
      let st := tickOf st in
      if aborted w then Threw "AbortError" st
      else
        match sendOutcome w with
        | SendOk =>
            Returned (mkSendState (offset st) (seq st) (rrIndex st) (highWaterMark st)
                        (lowWaterMark st) (tick st)
                        (sent st ++ [mkFrame dc0 0 0 []]))
        | SendThrows message =>
            if negb (isDcSendQueueFullError message) then Threw message st
            else if waitForBufferRejects env st dc0 0 then Threw "AbortError" (tickOf st)
            else sendEmptyHeader fuel' dc0 (tickOf st)
        end
  end.

(** [sendFileChunks(id, fileDcs, signal)] for a staged file, from the
    first check of the control channel on. [dcHigh] is
    [DC_BUFFER_HIGH_WATER_MARK]. *)
Definition sendFileChunks (dcHigh : Z) (fuel : nat) : Result :=
  let w := env O in
  let st0 := mkSendState 0 0 O 0 0 1 [] in
  if negb (ctrlOpen w) then Threw "Connection not established" st0
  else
    let channelCount := Z.of_nat (List.length (openChannels (channels w))) in
    if (channelCount =? 0)%Z then Threw "File channel not ready" st0
    else if aborted w then Threw "AbortError" st0
    else
      let high := initialHighWaterMark dcHigh payloadChunkSize channelCount in
      let st := mkSendState 0 0 O high (lowFor high) 1 [] in
      if (size =? 0)%Z then
        match firstOpen (channels w) O with
        | None => Threw "File channel not ready" st
        | Some dc0 =>
            if waitForBufferRejects env st dc0 (highWaterMark st)
            then Threw "AbortError" (tickOf st)
            else sendEmptyHeader fuel dc0 (tickOf st)
        end
      else outer fuel st.

End Pump.

(** The frames the specification lists for a file: frame [i] carries the
    bytes from [i*C] up to [min((i+1)*C, S)]. *)
Definition chunkFrame (file : list byte) (C : Z) (i : Z) : Z * Z * list byte :=
  let S := byteLength file in
  let from := i * C in
  let to := Z.min ((i + 1) * C) S in
  (i, to - from, sliceBytes file from to).

Definition chunkCount (S C : Z) : Z := (S + C - 1) / C.        (* ceil(S/C) *)

Definition expectedFrames (file : list byte) (C : Z) : list (Z * Z * list byte) :=
  List.map (fun i => chunkFrame file C (Z.of_nat i))
    (List.seq 0 (Z.to_nat (chunkCount (byteLength file) C))).

Definition frameContent (f : Frame) : Z * Z * list byte :=
  (fseq f, flen f, fpayload f).

(** The message handed to [dc.send] for a frame (lines 716-718, and
    [headerBuf] alone for the empty file): the 8-byte header, then the
    slice. *)
Definition frameBlob (f : Frame) : list byte :=
  setUint32 (fseq f) ++ setUint32 (flen f) ++ fpayload f.

(** [timeBudgetMs] (line 657). *)
Definition timeBudgetMs (useFastTransfer : bool) : Z :=
  if useFastTransfer then 180 else 32.

(** A world in which every send hits the browser's queue limit. *)
Definition fullWorld : World :=
  mkWorld false true [mkChannel true 0] 0
    (SendThrows "Failed to execute 'send' on 'RTCDataChannel': RTCDataChannel send queue is full").

Definition fullEnv : Env := fun _ => fullWorld.

(** A world in which nothing goes wrong: one open, empty channel. *)
Definition calmWorld : World :=
  mkWorld false true [mkChannel true 0] 0 SendOk.

Definition calmEnv : Env := fun _ => calmWorld.

End Sender.

(** ** The main module: transfers *)
Module Main.
Import PeerClient.

(** The writable stream of the file being saved. *)
Record Sink : Type := mkSink {
  written : list byte;
  closed : bool;
  sinkAborted : bool
}.

(** The state object [file-meta] creates for an incoming transfer. *)
Record Incoming : Type := mkIncoming {
  fileId : string;
  streamId : string;
  streamCount : Z;
  name : string;
  size : Z;
  acceptAcked : bool;
  acceptResendTimer : bool;   (* whether the resend timer runs *)
  received : Z;
  expectedSeq : Z;
  pendingChunks : gmap Z (list byte);
  needsAccept : bool;
  accepted : bool;
  cancelled : bool;
  chunks : option (list (list byte));
  writer : option Sink;   (* the file's writable stream *)
  writeQueue : list (list byte * Z);
  writeQueueStart : nat;
  writeQueuedBytes : Z;
  (* history: every call of commitChunk, with the seq it commits *)
  committed : list (Z * list byte)
}.

Definition set_acceptAcked (v : bool) (r : Incoming) : Incoming :=
  mkIncoming (fileId r) (streamId r) (streamCount r) (name r) (size r) v
    (acceptResendTimer r) (received r) (expectedSeq r) (pendingChunks r)
    (needsAccept r) (accepted r) (cancelled r) (chunks r) (writer r)
    (writeQueue r) (writeQueueStart r) (writeQueuedBytes r) (committed r).

Definition set_acceptResendTimer (v : bool) (r : Incoming) : Incoming :=
  mkIncoming (fileId r) (streamId r) (streamCount r) (name r) (size r)
    (acceptAcked r) v (received r) (expectedSeq r) (pendingChunks r)
    (needsAccept r) (accepted r) (cancelled r) (chunks r) (writer r)
    (writeQueue r) (writeQueueStart r) (writeQueuedBytes r) (committed r).

Definition set_received (v : Z) (r : Incoming) : Incoming :=
  mkIncoming (fileId r) (streamId r) (streamCount r) (name r) (size r)
    (acceptAcked r) (acceptResendTimer r) v (expectedSeq r) (pendingChunks r)
    (needsAccept r) (accepted r) (cancelled r) (chunks r) (writer r)
    (writeQueue r) (writeQueueStart r) (writeQueuedBytes r) (committed r).

Definition set_expectedSeq (v : Z) (r : Incoming) : Incoming :=
  mkIncoming (fileId r) (streamId r) (streamCount r) (name r) (size r)
    (acceptAcked r) (acceptResendTimer r) (received r) v (pendingChunks r)
    (needsAccept r) (accepted r) (cancelled r) (chunks r) (writer r)
    (writeQueue r) (writeQueueStart r) (writeQueuedBytes r) (committed r).

Definition set_pendingChunks (v : gmap Z (list byte)) (r : Incoming) : Incoming :=
  mkIncoming (fileId r) (streamId r) (streamCount r) (name r) (size r)
    (acceptAcked r) (acceptResendTimer r) (received r) (expectedSeq r) v
    (needsAccept r) (accepted r) (cancelled r) (chunks r) (writer r)
    (writeQueue r) (writeQueueStart r) (writeQueuedBytes r) (committed r).

Definition set_accepted (v : bool) (r : Incoming) : Incoming :=
  mkIncoming (fileId r) (streamId r) (streamCount r) (name r) (size r)
    (acceptAcked r) (acceptResendTimer r) (received r) (expectedSeq r)
    (pendingChunks r) (needsAccept r) v (cancelled r) (chunks r) (writer r)
    (writeQueue r) (writeQueueStart r) (writeQueuedBytes r) (committed r).

Definition set_cancelled (v : bool) (r : Incoming) : Incoming :=
  mkIncoming (fileId r) (streamId r) (streamCount r) (name r) (size r)
    (acceptAcked r) (acceptResendTimer r) (received r) (expectedSeq r)
    (pendingChunks r) (needsAccept r) (accepted r) v (chunks r) (writer r)
    (writeQueue r) (writeQueueStart r) (writeQueuedBytes r) (committed r).

Definition set_chunks (v : option (list (list byte))) (r : Incoming) : Incoming :=
  mkIncoming (fileId r) (streamId r) (streamCount r) (name r) (size r)
    (acceptAcked r) (acceptResendTimer r) (received r) (expectedSeq r)
    (pendingChunks r) (needsAccept r) (accepted r) (cancelled r) v (writer r)
    (writeQueue r) (writeQueueStart r) (writeQueuedBytes r) (committed r).

Definition set_writer (v : option Sink) (r : Incoming) : Incoming :=
  mkIncoming (fileId r) (streamId r) (streamCount r) (name r) (size r)
    (acceptAcked r) (acceptResendTimer r) (received r) (expectedSeq r)
    (pendingChunks r) (needsAccept r) (accepted r) (cancelled r) (chunks r) v
    (writeQueue r) (writeQueueStart r) (writeQueuedBytes r) (committed r).

Definition set_writeQueue (v : list (list byte * Z)) (r : Incoming) : Incoming :=
  mkIncoming (fileId r) (streamId r) (streamCount r) (name r) (size r)
    (acceptAcked r) (acceptResendTimer r) (received r) (expectedSeq r)
    (pendingChunks r) (needsAccept r) (accepted r) (cancelled r) (chunks r)
    (writer r) v (writeQueueStart r) (writeQueuedBytes r) (committed r).

Definition set_writeQueueStart (v : nat) (r : Incoming) : Incoming :=
  mkIncoming (fileId r) (streamId r) (streamCount r) (name r) (size r)
    (acceptAcked r) (acceptResendTimer r) (received r) (expectedSeq r)
    (pendingChunks r) (needsAccept r) (accepted r) (cancelled r) (chunks r)
    (writer r) (writeQueue r) v (writeQueuedBytes r) (committed r).

Definition set_writeQueuedBytes (v : Z) (r : Incoming) : Incoming :=
  mkIncoming (fileId r) (streamId r) (streamCount r) (name r) (size r)
    (acceptAcked r) (acceptResendTimer r) (received r) (expectedSeq r)
    (pendingChunks r) (needsAccept r) (accepted r) (cancelled r) (chunks r)
    (writer r) (writeQueue r) (writeQueueStart r) v (committed r).

Definition set_committed (v : list (Z * list byte)) (r : Incoming) : Incoming :=
  mkIncoming (fileId r) (streamId r) (streamCount r) (name r) (size r)
    (acceptAcked r) (acceptResendTimer r) (received r) (expectedSeq r)
    (pendingChunks r) (needsAccept r) (accepted r) (cancelled r) (chunks r)
    (writer r) (writeQueue r) (writeQueueStart r) (writeQueuedBytes r) v.

(** [outgoingTransfers.get(id)]: whether the controller is aborted, and
    whether [file-meta] was sent. *)
Record OutState : Type := mkOutState {
  aborted : bool;
  metaSent : bool
}.

(** The module's variables. Transfer state objects are shared between
    [incomingFiles] and [peer.receiving], so they live in a store and both
    hold references. *)
Record App : Type := mkApp {
  objs : gmap nat Incoming;   (* the transfer state objects, by reference *)
  nextRef : nat;
  incomingFiles : gmap string nat;   (* id -> state object *)
  receiving : option nat;   (* peer.receiving *)
  receivedFiles : gmap string (list (list byte) * string);
  (* completion ops waiting for the transfer list *)
  pendingUiOps : list string;
  ctrlOut : list PeerMsg;   (* what was sent on the control channel *)
  fileChannels : list string;   (* the keys of peer.fileChannels *)
  fileTxId : string;
  stagedFiles : gmap string (string * list byte);   (* id -> (name, bytes) *)
  outgoingQueue : list string;
  outgoingQueuedIds : gset string;
  outgoingCancelledIds : gset string;
  (* id -> { controller, metaSent } *)
  outgoingTransfers : gmap string OutState;
  fileAcceptWaiters : gset string;
  fileAcceptEarly : gset string;
  fileDoneWaiters : gset string
}.

Definition set_objs (v : gmap nat Incoming) (r : App) : App :=
  mkApp v (nextRef r) (incomingFiles r) (receiving r) (receivedFiles r)
    (pendingUiOps r) (ctrlOut r) (fileChannels r) (fileTxId r) (stagedFiles r)
    (outgoingQueue r) (outgoingQueuedIds r) (outgoingCancelledIds r)
    (outgoingTransfers r) (fileAcceptWaiters r) (fileAcceptEarly r)
    (fileDoneWaiters r).

Definition set_nextRef (v : nat) (r : App) : App :=
  mkApp (objs r) v (incomingFiles r) (receiving r) (receivedFiles r)
    (pendingUiOps r) (ctrlOut r) (fileChannels r) (fileTxId r) (stagedFiles r)
    (outgoingQueue r) (outgoingQueuedIds r) (outgoingCancelledIds r)
    (outgoingTransfers r) (fileAcceptWaiters r) (fileAcceptEarly r)
    (fileDoneWaiters r).

Definition set_incomingFiles (v : gmap string nat) (r : App) : App :=
  mkApp (objs r) (nextRef r) v (receiving r) (receivedFiles r) (pendingUiOps
    r) (ctrlOut r) (fileChannels r) (fileTxId r) (stagedFiles r)
    (outgoingQueue r) (outgoingQueuedIds r) (outgoingCancelledIds r)
    (outgoingTransfers r) (fileAcceptWaiters r) (fileAcceptEarly r)
    (fileDoneWaiters r).

Definition set_receiving (v : option nat) (r : App) : App :=
  mkApp (objs r) (nextRef r) (incomingFiles r) v (receivedFiles r)
    (pendingUiOps r) (ctrlOut r) (fileChannels r) (fileTxId r) (stagedFiles r)
    (outgoingQueue r) (outgoingQueuedIds r) (outgoingCancelledIds r)
    (outgoingTransfers r) (fileAcceptWaiters r) (fileAcceptEarly r)
    (fileDoneWaiters r).

Definition set_receivedFiles (v : gmap string (list (list byte) * string)) (r : App) : App :=
  mkApp (objs r) (nextRef r) (incomingFiles r) (receiving r) v (pendingUiOps
    r) (ctrlOut r) (fileChannels r) (fileTxId r) (stagedFiles r)
    (outgoingQueue r) (outgoingQueuedIds r) (outgoingCancelledIds r)
    (outgoingTransfers r) (fileAcceptWaiters r) (fileAcceptEarly r)
    (fileDoneWaiters r).

Definition set_pendingUiOps (v : list string) (r : App) : App :=
  mkApp (objs r) (nextRef r) (incomingFiles r) (receiving r) (receivedFiles
    r) v (ctrlOut r) (fileChannels r) (fileTxId r) (stagedFiles r)
    (outgoingQueue r) (outgoingQueuedIds r) (outgoingCancelledIds r)
    (outgoingTransfers r) (fileAcceptWaiters r) (fileAcceptEarly r)
    (fileDoneWaiters r).

Definition set_ctrlOut (v : list PeerMsg) (r : App) : App :=
  mkApp (objs r) (nextRef r) (incomingFiles r) (receiving r) (receivedFiles
    r) (pendingUiOps r) v (fileChannels r) (fileTxId r) (stagedFiles r)
    (outgoingQueue r) (outgoingQueuedIds r) (outgoingCancelledIds r)
    (outgoingTransfers r) (fileAcceptWaiters r) (fileAcceptEarly r)
    (fileDoneWaiters r).

Definition set_fileChannels (v : list string) (r : App) : App :=
  mkApp (objs r) (nextRef r) (incomingFiles r) (receiving r) (receivedFiles
    r) (pendingUiOps r) (ctrlOut r) v (fileTxId r) (stagedFiles r)
    (outgoingQueue r) (outgoingQueuedIds r) (outgoingCancelledIds r)
    (outgoingTransfers r) (fileAcceptWaiters r) (fileAcceptEarly r)
    (fileDoneWaiters r).

Definition set_stagedFiles (v : gmap string (string * list byte)) (r : App) : App :=
  mkApp (objs r) (nextRef r) (incomingFiles r) (receiving r) (receivedFiles
    r) (pendingUiOps r) (ctrlOut r) (fileChannels r) (fileTxId r) v
    (outgoingQueue r) (outgoingQueuedIds r) (outgoingCancelledIds r)
    (outgoingTransfers r) (fileAcceptWaiters r) (fileAcceptEarly r)
    (fileDoneWaiters r).

Definition set_outgoingQueue (v : list string) (r : App) : App :=
  mkApp (objs r) (nextRef r) (incomingFiles r) (receiving r) (receivedFiles
    r) (pendingUiOps r) (ctrlOut r) (fileChannels r) (fileTxId r) (stagedFiles
    r) v (outgoingQueuedIds r) (outgoingCancelledIds r) (outgoingTransfers r)
    (fileAcceptWaiters r) (fileAcceptEarly r) (fileDoneWaiters r).

Definition set_outgoingQueuedIds (v : gset string) (r : App) : App :=
  mkApp (objs r) (nextRef r) (incomingFiles r) (receiving r) (receivedFiles
    r) (pendingUiOps r) (ctrlOut r) (fileChannels r) (fileTxId r) (stagedFiles
    r) (outgoingQueue r) v (outgoingCancelledIds r) (outgoingTransfers r)
    (fileAcceptWaiters r) (fileAcceptEarly r) (fileDoneWaiters r).

Definition set_outgoingCancelledIds (v : gset string) (r : App) : App :=
  mkApp (objs r) (nextRef r) (incomingFiles r) (receiving r) (receivedFiles
    r) (pendingUiOps r) (ctrlOut r) (fileChannels r) (fileTxId r) (stagedFiles
    r) (outgoingQueue r) (outgoingQueuedIds r) v (outgoingTransfers r)
    (fileAcceptWaiters r) (fileAcceptEarly r) (fileDoneWaiters r).

Definition set_outgoingTransfers (v : gmap string OutState) (r : App) : App :=
  mkApp (objs r) (nextRef r) (incomingFiles r) (receiving r) (receivedFiles
    r) (pendingUiOps r) (ctrlOut r) (fileChannels r) (fileTxId r) (stagedFiles
    r) (outgoingQueue r) (outgoingQueuedIds r) (outgoingCancelledIds r) v
    (fileAcceptWaiters r) (fileAcceptEarly r) (fileDoneWaiters r).

Definition set_fileAcceptWaiters (v : gset string) (r : App) : App :=
  mkApp (objs r) (nextRef r) (incomingFiles r) (receiving r) (receivedFiles
    r) (pendingUiOps r) (ctrlOut r) (fileChannels r) (fileTxId r) (stagedFiles
    r) (outgoingQueue r) (outgoingQueuedIds r) (outgoingCancelledIds r)
    (outgoingTransfers r) v (fileAcceptEarly r) (fileDoneWaiters r).

Definition set_fileAcceptEarly (v : gset string) (r : App) : App :=
  mkApp (objs r) (nextRef r) (incomingFiles r) (receiving r) (receivedFiles
    r) (pendingUiOps r) (ctrlOut r) (fileChannels r) (fileTxId r) (stagedFiles
    r) (outgoingQueue r) (outgoingQueuedIds r) (outgoingCancelledIds r)
    (outgoingTransfers r) (fileAcceptWaiters r) v (fileDoneWaiters r).

Definition set_fileDoneWaiters (v : gset string) (r : App) : App :=
  mkApp (objs r) (nextRef r) (incomingFiles r) (receiving r) (receivedFiles
    r) (pendingUiOps r) (ctrlOut r) (fileChannels r) (fileTxId r) (stagedFiles
    r) (outgoingQueue r) (outgoingQueuedIds r) (outgoingCancelledIds r)
    (outgoingTransfers r) (fileAcceptWaiters r) (fileAcceptEarly r) v.

Definition initialApp (fileTxId : string) : App :=
  mkApp ∅ O ∅ None ∅ [] [] [] fileTxId ∅ [] ∅ ∅ ∅ ∅ ∅ ∅.

(** What the browser says when an event is handled. *)
Record Browser : Type := mkBrowser {
  ctrlOpen : bool;       (* peer.dc.readyState === "open" *)
  ctrlThrows : bool;     (* dc.send throws *)
  hasPicker : bool;      (* window.showSaveFilePicker is a function *)
  pickerOk : bool;       (* the user picks a file and it can be created *)
  listAttached : bool;   (* the element transfer-list exists *)
  elementPresent : bool; (* the element of the file exists *)
  writeFails : bool      (* writer.write rejects *)
}.

(** [peer.send(data)]: [None] when [dc.send] throws. *)
Definition peerSend (b : Browser) (msg : PeerMsg) (app : App) : option App :=
  if ctrlOpen b then
    if ctrlThrows b then None
    else Some (set_ctrlOut (ctrlOut app ++ [msg]) app)
  else Some app.

(** [try { peer.send(data); } catch {}] *)
Definition tryPeerSend (b : Browser) (msg : PeerMsg) (app : App) : App :=
  default app (peerSend b msg app).

(** Update of the state object behind a reference. *)
Definition update (ref : nat) (f : Incoming -> Incoming) (app : App) : App :=
  set_objs (alter f ref (objs app)) app.

(** [closeFileChannelsByPrefix(prefix)] *)
Definition closeFileChannelsByPrefix (prefix : string) (app : App) : App :=
  let base := Js.trim prefix in
  if Js.isEmpty base then app
  else set_fileChannels
         (List.filter
            (fun id => negb (String.eqb id base || Js.startsWith (base ++ ":")%string id))
            (fileChannels app))
         app.

(** [cancelIncomingFile(id, { notifyPeer, reason })] *)
Definition cancelIncomingFile (b : Browser) (id : string) (notifyPeer : bool)
    (reason : string) (app : App) : App :=
  let fileId' := Js.trim id in
  if Js.isEmpty fileId' then app
  else
    match incomingFiles app !! fileId' with
    | None => app
    | Some ref =>
        match objs app !! ref with
        | None => app
        | Some state =>
            let app := update ref (fun r => set_acceptResendTimer false (set_cancelled true r)) app in
            let app := set_incomingFiles (delete fileId' (incomingFiles app)) app in
            let app :=
              match receiving app with
              | Some cur =>
                  match objs app !! cur with
                  | Some r => if String.eqb (fileId r) fileId'
                              then set_receiving None app else app
                  | None => app
                  end
              | None => app
              end in
            let app :=
              if (notifyPeer && ctrlOpen b)%bool
              then tryPeerSend b (MsgFileCancel fileId' reason) app else app in
            let app :=
              if negb (Js.isEmpty (streamId state))
              then closeFileChannelsByPrefix (streamId state) app else app in
            update ref
              (fun r => set_writeQueuedBytes 0
                          (set_writeQueueStart O
                             (set_writeQueue [] (set_writer None r))))
              app
        end
    end.

(** [flushFileWrites(state)] awaited: every queued item goes to the writer,
    in order. A rejected write cancels the transfer. *)
Definition flushFileWrites (b : Browser) (ref : nat) (app : App) : App :=
  match objs app !! ref with
  | None => app
  | Some state =>
      match writer state with
      | None => app
      | Some w =>
          let items := List.skipn (writeQueueStart state) (writeQueue state) in
          match items with
          | [] => app
          | _ =>
              if writeFails b
              then cancelIncomingFile b (fileId state) true "Failed to write file" app
              else
                let bytes := List.concat (List.map fst items) in
                let total := List.fold_right Z.add 0 (List.map snd items) in
                update ref
                  (fun r =>
                     set_writeQueuedBytes (Z.max 0 (writeQueuedBytes r - total))
                       (set_writeQueueStart (List.length (writeQueue r))
                          (set_writer
                             (Some (mkSink (written w ++ bytes) (closed w) (sinkAborted w)))
                             r)))
                  app
          end
      end
  end.

(** [commitChunk(data)] for the chunk of sequence number [seqNo]. The call
    [void flushFileWrites(r)] only schedules the write. *)
Definition commitChunk (seqNo : Z) (data : list byte) (r : Incoming) : Incoming :=
  let r := set_committed (committed r ++ [(seqNo, data)]) r in
  let chunkBytes := byteLength data in
  if (chunkBytes <=? 0)%Z then r
  else
    let r :=
      match writer r, chunks r with
      | Some _, _ =>
          set_writeQueuedBytes (writeQueuedBytes r + chunkBytes)
            (set_writeQueue (writeQueue r ++ [(data, chunkBytes)]) r)
      | None, Some cs => set_chunks (Some (cs ++ [data])) r
      | None, None => r
      end in
    set_received (received r + chunkBytes) r.

(** The loop [while (r.pendingChunks.has(r.expectedSeq))]. *)
Fixpoint drainPending (fuel : nat) (r : Incoming) : Incoming :=
  match fuel with
  | O => r
  | S fuel' =>
      match pendingChunks r !! expectedSeq r with
      | None => r
      | Some next =>
          let r := set_pendingChunks (delete (expectedSeq r) (pendingChunks r)) r in
          let r := commitChunk (expectedSeq r) next r in
          drainPending fuel' (set_expectedSeq (expectedSeq r + 1) r)
      end
  end.

(** Line 1943: a chunk ahead of its turn is kept, unless one with its
    sequence number is kept already. *)
Definition bufferChunk (seqNo : Z) (chunk : list byte) (r : Incoming) : Incoming :=
  match pendingChunks r !! seqNo with
  | Some _ => r
  | None => set_pendingChunks (<[seqNo := chunk]> (pendingChunks r)) r
  end.

(** Lines 1947-1954: commit the chunk whose turn it is, then every kept
    chunk that follows without a gap. Each pass of the loop deletes an
    entry, so the size of the map bounds it. *)
Definition commitAndDrain (seqNo : Z) (chunk : list byte) (r : Incoming) : Incoming :=
  let r := commitChunk seqNo chunk r in
  let r := set_expectedSeq (expectedSeq r + 1) r in
  drainPending (stdpp.base.size (pendingChunks r)) r.

(** The op the completion block hands to [enqueueUiOp], as far as it
    touches the module's variables. *)
Definition completionUiOp (b : Browser) (id : string) (app : App) : App :=
  if negb (elementPresent b) then app
  else
    match incomingFiles app !! id with
    | Some _ => set_incomingFiles (delete id (incomingFiles app)) app
    | None => app
    end.

(** The completion block (lines 1972-2030) for the object behind [ref]. *)
Definition completeTransfer (b : Browser) (ref : nat) (app : App) : App :=
  let app :=
    match objs app !! ref with
    | Some r =>
        match writer r with
        | Some _ =>
            let app := flushFileWrites b ref app in
            update ref
              (fun r => match writer r with
                        | Some w => set_writer (Some (mkSink (written w) true (sinkAborted w))) r
                        | None => r
                        end)
              app
        | None => app
        end
    | None => app
    end in
  match objs app !! ref with
  | None => app
  | Some r =>
      let app :=
        match writer r with
        | None =>
            set_receivedFiles
              (<[fileId r := (default [] (chunks r), name r)]> (receivedFiles app)) app
        | Some _ => app
        end in
      let app := tryPeerSend b (MsgFileDone (fileId r)) app in
      let app := set_receiving None app in
      if listAttached b
      then completionUiOp b (fileId r) app
      else set_pendingUiOps (pendingUiOps app ++ [fileId r]) app
  end.

(** The [file-chunk] branch of [onPeerData]. *)
Definition onFileChunk (b : Browser) (streamId' : string) (seqNo : Z)
    (chunk : list byte) (app : App) : App :=
  match receiving app with
  | None => app
  | Some ref =>
      match objs app !! ref with
      | None => app
      | Some r =>
          if cancelled r then app
          else if (needsAccept r && negb (accepted r))%bool then app
          else if (accepted r && negb (bool_decide (is_Some (writer r))))%bool
          then cancelIncomingFile b (fileId r) true "Couldn't create the save file" app
          else
            let app :=
              if negb (acceptAcked r)
              then update ref (fun r => set_acceptResendTimer false (set_acceptAcked true r)) app
              else app in
            let sid := Js.trim streamId' in
            if (negb (Js.isEmpty (streamId r)) && negb (Js.isEmpty sid)
                && negb (streamIdMatchesBase (streamId r) sid))%bool then app
            else if (seqNo <? 0)%Z then app
            else if (seqNo <? expectedSeq r)%Z then app            (* duplicate/late *)
            else if (expectedSeq r <? seqNo)%Z
            then update ref (bufferChunk seqNo chunk) app
            else
              let app := update ref (commitAndDrain seqNo chunk) app in
              match objs app !! ref with
              | None => app
              | Some r' =>
                  if (size r' <=? received r')%Z
                  then completeTransfer b ref app
                  else app
              end
      end
  end.

(** The [file-meta] branch of [onPeerData]. *)
Definition onFileMeta (id sid : string) (sc : Z) (name' : string) (size' : Z)
    (app : App) : App :=
  match receiving app with
  | Some _ => app
  | None =>
      let id' := Js.trim id in
      if (Js.isEmpty id' || (size' <? 0)%Z)%bool then app
      else
        let state :=
          mkIncoming id' (Js.trim sid) (Z.max 1 (if (sc =? 0)%Z then 1 else sc))
            name' size' false false 0 0 ∅ true false false None None [] O 0 [] in
        let ref := nextRef app in
        set_receiving (Some ref)
          (set_incomingFiles (<[id' := ref]> (incomingFiles app))
             (set_nextRef (S ref) (set_objs (<[ref := state]> (objs app)) app)))
  end.

(** [window.acceptFile(id)] *)
Definition acceptFile (b : Browser) (id : string) (app : App) : App :=
  let fileId' := Js.trim id in
  if Js.isEmpty fileId' then app
  else
    match incomingFiles app !! fileId' with
    | None => app
    | Some ref =>
        match objs app !! ref with
        | None => app
        | Some state =>
            if accepted state then app
            else
              let picked :=
                match writer state with
                | Some _ => Some app
                | None =>
                    if negb (hasPicker b) then None
                    else if negb (pickerOk b) then None
                    else Some (update ref
                                 (fun r => set_chunks None
                                             (set_writer (Some (mkSink [] false false)) r))
                                 app)
                end in
              match picked with
              | None => app
              | Some app =>
                  if negb (ctrlOpen b) then app
                  else
                    match peerSend b (MsgFileAccept fileId') app with
                    | None => app
                    | Some app =>
                        update ref
                          (fun r => set_acceptResendTimer true
                                      (set_acceptAcked false (set_accepted true r)))
                          app
                    end
              end
        end
    end.

(** [cancelQueuedOutgoingJob(id, reason)]: the queue without the first job
    of that id, when there is one. *)
Fixpoint removeFirst (id : string) (queue : list string) : option (list string) :=
  match queue with
  | [] => None
  | j :: rest =>
      if String.eqb j id then Some rest
      else option_map (cons j) (removeFirst id rest)
  end.

(** [cancelOutgoingFile(id, { notifyPeer, reason })] *)
Definition cancelOutgoingFile (b : Browser) (id : string) (notifyPeer : bool)
    (reason : string) (app : App) : App :=
  let fileId' := Js.trim id in
  if Js.isEmpty fileId' then app
  else if (negb (bool_decide (is_Some (outgoingTransfers app !! fileId')))
           && negb (bool_decide (fileId' ∈ outgoingQueuedIds app)))%bool
  then set_stagedFiles (delete fileId' (stagedFiles app)) app
  else
    let app := set_fileAcceptEarly (fileAcceptEarly app ∖ {[fileId']}) app in
    match outgoingTransfers app !! fileId' with
    | Some state =>
        let app :=
          if (notifyPeer && metaSent state && ctrlOpen b)%bool
          then tryPeerSend b (MsgFileCancel fileId' reason) app else app in
        (* rejectFileAccept, controller.abort: the waiters of this transfer end *)
        let app := set_fileAcceptWaiters (fileAcceptWaiters app ∖ {[fileId']}) app in
        let app := set_fileDoneWaiters (fileDoneWaiters app ∖ {[fileId']}) app in
        let app :=
          set_outgoingTransfers
            (<[fileId' := mkOutState true (metaSent state)]> (outgoingTransfers app)) app in
        closeFileChannelsByPrefix (fileTxId app) app
    | None =>
        match removeFirst fileId' (outgoingQueue app) with
        | Some queue =>
            set_outgoingCancelledIds (outgoingCancelledIds app ∖ {[fileId']})
              (set_outgoingQueuedIds (outgoingQueuedIds app ∖ {[fileId']})
                 (set_outgoingQueue queue app))
        | None =>
            set_outgoingCancelledIds (outgoingCancelledIds app ∪ {[fileId']}) app
        end
    end.

(** [doSendFile(id)], lines 310-315: the number of channels a transfer
    uses. [remoteStriping] is [remoteCaps?.striping]. *)
Definition sendStreamCount (useFastTransfer remoteStriping : bool)
    (memQuarters hardwareConcurrency : Z) : Z :=
  if useFastTransfer then
    let desired := getFastFileChannelCount useFastTransfer memQuarters hardwareConcurrency in
    if (remoteStriping && (1 <? desired)%Z)%bool then desired else 1
  else 1.

(** [doSendFile(id)], first part: up to the registration of the transfer.
    [None] is a thrown error. *)
Definition doSendFileBegin (b : Browser) (id : string) (app : App) : option App :=
  match stagedFiles app !! id with
  | None => Some app
  | Some _ =>
      if negb (ctrlOpen b) then None
      else if bool_decide (id ∈ outgoingCancelledIds app) then None
      else Some (set_outgoingTransfers
                   (<[id := mkOutState false false]> (outgoingTransfers app)) app)
  end.

(** [doSendFile(id)], lines 318-334: after the channels are there, send
    [file-meta] and record it. *)
Definition doSendFileMeta (b : Browser) (id : string) (streamCount' : Z)
    (app : App) : option App :=
  match stagedFiles app !! id, outgoingTransfers app !! id with
  | Some (name', bytes), Some state =>
      if aborted state then None
      else
        match peerSend b (MsgFileMeta id (fileTxId app) streamCount' name'
                            (byteLength bytes)) app with
        | None => None
        | Some app =>
            Some (set_outgoingTransfers
                    (alter (fun s => mkOutState (aborted s) true) id
                       (outgoingTransfers app)) app)
        end
  | _, _ => Some app
  end.

(** [doSendFile(id)], the [finally] block. *)
Definition doSendFileFinally (id : string) (app : App) : App :=
  set_outgoingTransfers (delete id (outgoingTransfers app)) app.

(** [resolveFileAccept(id)] *)
Definition resolveFileAccept (id : string) (app : App) : App :=
  let fileId' := Js.trim id in
  if Js.isEmpty fileId' then app
  else if bool_decide (fileId' ∈ fileAcceptWaiters app)
  then set_fileAcceptWaiters (fileAcceptWaiters app ∖ {[fileId']}) app
  else if bool_decide (is_Some (outgoingTransfers app !! fileId'))
  then set_fileAcceptEarly (fileAcceptEarly app ∪ {[fileId']}) app
  else app.

(** [onPeerData(msg)] *)
Definition onPeerData (b : Browser) (msg : PeerMsg) (app : App) : App :=
  match msg with
  | MsgText _ => app
  | MsgFileAccept id =>
      let id' := Js.trim id in
      if Js.isEmpty id' then app
      else tryPeerSend b (MsgFileAcceptAck id') (resolveFileAccept id' app)
  | MsgFileAcceptAck id =>
      let id' := Js.trim id in
      if Js.isEmpty id' then app
      else
        match incomingFiles app !! id' with
        | Some ref =>
            update ref (fun r => set_acceptResendTimer false (set_acceptAcked true r)) app
        | None => app
        end
  | MsgFileDone id =>
      let id' := Js.trim id in
      if Js.isEmpty id' then app
      else set_fileDoneWaiters (fileDoneWaiters app ∖ {[id']}) app
  | MsgFileMeta id sid sc name' size' => onFileMeta id sid sc name' size' app
  | MsgFileCancel id reason =>
      let id' := Js.trim id in
      if Js.isEmpty id' then app
      else
        let reason' :=
          if Js.isEmpty (Js.trim reason) then "Canceled by the other side"
          else Js.trim reason in
        cancelIncomingFile b id' false reason'
          (cancelOutgoingFile b id' false reason' app)
  | MsgFileChannelClosed streamId' =>
      let sid := Js.trim streamId' in
      match receiving app with
      | Some ref =>
          match objs app !! ref with
          | Some r =>
              if (negb (Js.isEmpty sid) && negb (Js.isEmpty (streamId r))
                  && streamIdMatchesBase (streamId r) sid
                  && String.eqb sid (streamId r))%bool
              then cancelIncomingFile b (fileId r) false "File channel closed" app
              else app
          | None => app
          end
      | None => app
      end
  | MsgFileChunk streamId' seqNo data => onFileChunk b streamId' seqNo data app
  end.

(** [window.cancelSend] and [window.cancelReceive]. *)
Definition cancelSend (b : Browser) (id : string) (app : App) : App :=
  cancelOutgoingFile b id true "Canceled" app.

Definition cancelReceive (b : Browser) (id : string) (app : App) : App :=
  cancelIncomingFile b id true "Canceled" app.

(** [flushUiOps()]: the completion ops that waited for the list. *)
Definition flushUiOps (b : Browser) (app : App) : App :=
  if negb (listAttached b) then app
  else set_pendingUiOps []
         (List.fold_left (fun app id => completionUiOp b id app) (pendingUiOps app) app).

(** What can happen to the module, one event at a time. *)
Inductive Event : Type :=
| PeerData (msg : PeerMsg)
| AcceptFile (id : string)
| CancelSend (id : string)
| CancelReceive (id : string)
| FlushUiOps.

Definition step (b : Browser) (ev : Event) (app : App) : App :=
  match ev with
  | PeerData msg => onPeerData b msg app
  | AcceptFile id => acceptFile b id app
  | CancelSend id => cancelSend b id app
  | CancelReceive id => cancelReceive b id app
  | FlushUiOps => flushUiOps b app
  end.

(** A run: each event comes with what the browser says at that time. *)
Definition run (events : list (Browser * Event)) (app : App) : App :=
  List.fold_left (fun app be => step be.1 be.2 app) events app.

(** The callback of [escapeHtml]'s [replace]: what stands for one
    character. The double quote is character 34. *)
Definition escapeChar (ch : ascii) : string :=
  if Ascii.eqb ch "&"%char then "&amp;"
  else if Ascii.eqb ch "<"%char then "&lt;"
  else if Ascii.eqb ch ">"%char then "&gt;"
  else if Ascii.eqb ch (ascii_of_nat 34) then "&quot;"
  else if Ascii.eqb ch "'"%char then "&#39;"
  else String ch EmptyString.

(** [escapeHtml(input)] *)
Definition escapeHtml (input : string) : string :=
  Js.replaceEach escapeChar input.

(** [window.handleCloudInput(el)] on an input whose value is [value]: the
    value it writes back, and what it sets [disabled] to on the connect
    button. *)
Definition handleCloudInput (value : string) : string * bool :=
  let val := Js.take 6 (Js.filterChars Js.isDigit value) in
  (val, negb (Nat.eqb (String.length val) 6)).

End Main.

(* ===================================================================== *)
(** * Part II. Properties                                                 *)
(* ===================================================================== *)

Module PeerClientSpec.
Import PeerClient.

Example isValidIpv4_ok : isValidIpv4 (Some " 192.168.1.20 ") = true.
Proof. reflexivity. Qed.

Example isValidIpv4_256 : isValidIpv4 (Some "192.168.1.256") = false.
Proof. reflexivity. Qed.

(** *** Host-candidate rewriting *)

Lemma normalize_invalid (ov : option string) :
  isValidIpv4 ov = false -> normalizeLanIpOverride ov = EmptyString.
Proof.
  unfold normalizeLanIpOverride, isValidIpv4.
  destruct (Js.isEmpty (Js.trim (default EmptyString ov))) eqn:He; [reflexivity|].
  intros Hv.
  assert (Hidem : Js.trim (Js.trim (default EmptyString ov))
                  = Js.trim (default EmptyString ov)).
  { unfold Js.trim.
    set (p := Js.isWhiteSpace).
    assert (Hlead : forall s, Js.dropLeading p (Js.dropTrailing p s)
                              = Js.dropTrailing p s
                              \/ exists c t, s = String c t /\ p c = true).
    { intros s. destruct s as [|c t]; [left; reflexivity|].
      destruct (p c) eqn:Hc; [right; eauto|].
      left. simpl. destruct (Js.dropTrailing p t); rewrite ?Hc; simpl; rewrite Hc; reflexivity. }
    assert (Hnolead : forall s, match Js.dropLeading p s with
                                | String c _ => p c = false
                                | EmptyString => True
                                end).
    { induction s as [|c t IH]; simpl; [exact I|].
      destruct (p c) eqn:Hc; [exact IH|exact Hc]. }
    assert (Htrail : forall s, Js.dropTrailing p (Js.dropTrailing p s)
                               = Js.dropTrailing p s).
    { induction s as [|c t IH]; simpl; [reflexivity|].
      destruct (Js.dropTrailing p t) as [|c' t'] eqn:Ht.
      - destruct (p c) eqn:Hc; simpl; rewrite ?Hc; reflexivity.
      - simpl in *. rewrite IH. reflexivity. }
    generalize (Hnolead (default EmptyString ov)).
    destruct (Hlead (Js.dropLeading p (default EmptyString ov))) as [H|(c & t & H1 & H2)].
    - intros _. rewrite H. apply Htrail.
    - rewrite H1. intros Hc. congruence. }
  simpl. rewrite Hidem, He, Hv. reflexivity.
Qed.

(** C8. Rewriting host candidates with an override that is absent or is
    not a valid IPv4 address is the identity on the description. *)
Theorem rewrite_invalid_override_is_identity (sdp : string) (ov : option string) :
  ov = None \/ isValidIpv4 ov = false ->
  rewriteMdnsHostCandidatesInSdp sdp ov = sdp.
Proof.
  intros H.
  assert (Hv : isValidIpv4 ov = false) by (destruct H as [->|H]; [reflexivity|exact H]).
  unfold rewriteMdnsHostCandidatesInSdp.
  rewrite (normalize_invalid ov Hv). reflexivity.
Qed.

Lemma rewrite_invalid_override_witness :
  rewriteMdnsHostCandidatesInSdp
    "a=candidate:1 1 udp 2113937151 abcd-12.local 54321 typ host"
    (Some "10.0.0.256")
  = "a=candidate:1 1 udp 2113937151 abcd-12.local 54321 typ host".
Proof.
  apply (rewrite_invalid_override_is_identity _ (Some "10.0.0.256")).
  right. reflexivity.
Defined.

(** The rewrite is not the identity in general: a valid override replaces
    the address of a [.local] host candidate. *)
Example rewrite_valid_override :
  rewriteMdnsHostCandidatesInSdp
    "a=candidate:1 1 udp 2113937151 abcd-12.local 54321 typ host"
    (Some "10.0.0.7")
  = "a=candidate:1 1 udp 2113937151 10.0.0.7 54321 typ host".
Proof. reflexivity. Qed.

(** *** Frame parsing *)

Lemma long_buffer_inv (bytes : list byte) :
  FILE_FRAME_HEADER_BYTES <= byteLength bytes ->
  exists b0 b1 b2 b3 b4 b5 b6 b7 rest,
    bytes = b0 :: b1 :: b2 :: b3 :: b4 :: b5 :: b6 :: b7 :: rest.
Proof.
  unfold byteLength, FILE_FRAME_HEADER_BYTES. intros H.
  do 8 (destruct bytes as [|? bytes]; [simpl in H; lia|]).
  eauto 10.
Qed.

Lemma handleBufferFrame_long now st id bytes :
  FILE_FRAME_HEADER_BYTES <= byteLength bytes ->
  exists seq declaredLen,
    getUint32 bytes 0 = Some seq /\ getUint32 bytes 4 = Some declaredLen /\
    handleBufferFrame now st id bytes =
      Returned (fst (markPeerActivity now st))
        (snd (markPeerActivity now st)
         ++ [OnData (MsgFileChunk id seq
               (sliceBytes bytes FILE_FRAME_HEADER_BYTES
                  (FILE_FRAME_HEADER_BYTES + frameLen declaredLen (byteLength bytes))))]).
Proof.
  intros Hlen.
  destruct (long_buffer_inv bytes Hlen)
    as (b0 & b1 & b2 & b3 & b4 & b5 & b6 & b7 & rest & ->).
  unfold handleBufferFrame.
  destruct (Z.ltb_spec (byteLength (b0 :: b1 :: b2 :: b3 :: b4 :: b5 :: b6 :: b7 :: rest))
              FILE_FRAME_HEADER_BYTES) as [Hlt|_]; [lia|].
  do 2 eexists. split; [reflexivity|]. split; [reflexivity|].
  cbn [getUint32 List.skipn].
  destruct (markPeerActivity now st) as [st' calls]. reflexivity.
Qed.

(** C10. A message that is a string, or that is shorter than the frame
    header, is dropped: the handler returns, calls nothing, and the client
    state is what it was. *)
Theorem short_or_text_frame_discarded
    (blobArrayBuffer : bool) (now : Z) (st : PeerState) (id : string)
    (data : MessageData) :
  (exists s, data = DataString s)
  \/ (exists bytes, messageBytes data = Some bytes
                    /\ byteLength bytes < FILE_FRAME_HEADER_BYTES) ->
  handleFileFrame blobArrayBuffer now st id data = Returned st [].
Proof.
  intros [[s ->]|(bytes & Hb & Hlt)]; [reflexivity|].
  assert (Hbuf : handleBufferFrame now st id bytes = Returned st []).
  { unfold handleBufferFrame.
    destruct (Z.ltb_spec (byteLength bytes) FILE_FRAME_HEADER_BYTES); [reflexivity|lia]. }
  destruct data; simpl in Hb; try discriminate; injection Hb as <-; simpl.
  - destruct (Z.ltb_spec (byteLength bytes0) FILE_FRAME_HEADER_BYTES); [reflexivity|lia].
  - exact Hbuf.
  - exact Hbuf.
Qed.

Lemma short_or_text_frame_witness :
  handleFileFrame true 5 (mkPeerState 0 true) "tx"
    (DataArrayBuffer [x00; x00; x00; x01; x00; x00; x00])
  = Returned (mkPeerState 0 true) [].
Proof.
  apply short_or_text_frame_discarded.
  right. exists [x00; x00; x00; x01; x00; x00; x00].
  split; [reflexivity|]. vm_compute. reflexivity.
Defined.

(** C4, as the code has it. A binary message of at least 8 bytes yields
    exactly one [file-chunk]: its [seq] is the big-endian word at offset 0,
    and its payload is the next [min(len, trailing)] bytes when the declared
    [len] is not zero, and every trailing byte when it is zero. *)
Theorem frame_payload_clamped
    (blobArrayBuffer : bool) (now : Z) (st : PeerState) (id : string)
    (data : MessageData) (bytes : list byte) :
  messageBytes data = Some bytes ->
  FILE_FRAME_HEADER_BYTES <= byteLength bytes ->
  exists seq declaredLen,
    getUint32 bytes 0 = Some seq /\ getUint32 bytes 4 = Some declaredLen /\
    handleFileFrame blobArrayBuffer now st id data =
      Returned (fst (markPeerActivity now st))
        (snd (markPeerActivity now st)
         ++ [OnData (MsgFileChunk id seq
               (if (declaredLen =? 0)%Z
                then List.skipn 8 bytes
                else specPayload bytes declaredLen))]).
Proof.
  intros Hb Hlen.
  destruct (handleBufferFrame_long now st id bytes Hlen)
    as (seq & dl & Hseq & Hdl & Hbuf).
  exists seq, dl. split; [exact Hseq|]. split; [exact Hdl|].
  assert (Hpay :
    sliceBytes bytes FILE_FRAME_HEADER_BYTES
      (FILE_FRAME_HEADER_BYTES + frameLen dl (byteLength bytes))
    = if (dl =? 0)%Z then List.skipn 8 bytes else specPayload bytes dl).
  { unfold frameLen, specPayload, sliceBytes, FILE_FRAME_HEADER_BYTES in *.
    assert (Hdl0 : 0 <= dl).
    { destruct (long_buffer_inv bytes Hlen)
        as (b0 & b1 & b2 & b3 & b4 & b5 & b6 & b7 & rest & ->).
      cbn in Hdl. injection Hdl as <-. unfold byteZ. lia. }
    assert (Hsk : List.length (List.skipn (Z.to_nat 8) bytes)
                  = Z.to_nat (byteLength bytes - 8)).
    { rewrite List.length_skipn. unfold byteLength. lia. }
    destruct (Z.eqb_spec dl 0) as [->|Hnz]; simpl negb; cbv iota.
    - simpl andb. cbv iota.
      replace (8 + Z.max 0 (byteLength bytes - 8) - 8) with (byteLength bytes - 8) by lia.
      rewrite <- Hsk. apply List.firstn_all.
    - simpl andb.
      destruct (Z.leb_spec dl (Z.max 0 (byteLength bytes - 8))) as [Hle|Hgt].
      + replace (Z.min dl (byteLength bytes - 8)) with dl by lia. reflexivity.
      + replace (Z.min dl (byteLength bytes - 8)) with (byteLength bytes - 8) by lia.
        replace (8 + Z.max 0 (byteLength bytes - 8) - 8) with (byteLength bytes - 8) by lia.
        replace (8 + (byteLength bytes - 8) - 8) with (byteLength bytes - 8) by lia.
        reflexivity. }
  rewrite <- Hpay.
  destruct data; simpl in Hb; try discriminate; injection Hb as <-; simpl.
  - destruct (Z.ltb_spec (byteLength bytes0) FILE_FRAME_HEADER_BYTES) as [Hlt|_]; [lia|].
    destruct blobArrayBuffer; [|exact Hbuf].
    destruct (long_buffer_inv bytes0 Hlen)
      as (b0 & b1 & b2 & b3 & b4 & b5 & b6 & b7 & rest & ->).
    cbn in Hseq, Hdl. injection Hseq as <-. injection Hdl as <-.
    cbn [sliceBytes getUint32 List.skipn List.firstn Z.to_nat Z.sub Z.add
         FILE_FRAME_HEADER_BYTES Z.opp Z.pos_sub Pos.to_nat Pos.iter_op Nat.add].
    destruct (markPeerActivity now st) as [st' calls]. reflexivity.
  - exact Hbuf.
  - exact Hbuf.
Qed.

Lemma frame_payload_clamped_witness :
  exists seq declaredLen,
    getUint32 [x00; x00; x00; x02; x00; x00; x00; x09; x41; x42] 0 = Some seq /\
    getUint32 [x00; x00; x00; x02; x00; x00; x00; x09; x41; x42] 4 = Some declaredLen /\
    handleFileFrame false 7 (mkPeerState 0 false) "tx"
      (DataBlob [x00; x00; x00; x02; x00; x00; x00; x09; x41; x42]) =
      Returned (fst (markPeerActivity 7 (mkPeerState 0 false)))
        (snd (markPeerActivity 7 (mkPeerState 0 false))
         ++ [OnData (MsgFileChunk "tx" seq
               (if (declaredLen =? 0)%Z
                then List.skipn 8 [x00; x00; x00; x02; x00; x00; x00; x09; x41; x42]
                else specPayload [x00; x00; x00; x02; x00; x00; x00; x09; x41; x42]
                       declaredLen))]).
Proof.
  apply (frame_payload_clamped false 7 (mkPeerState 0 false) "tx"
           (DataBlob [x00; x00; x00; x02; x00; x00; x00; x09; x41; x42])).
  - reflexivity.
  - vm_compute. discriminate.
Defined.

(** C4 as stated fails for a header that declares [len = 0] in front of
    trailing bytes: the code hands over both trailing bytes, where
    [min(len, trailing)] is 0. *)
Lemma zero_len_frame_keeps_trailing_bytes :
  handleFileFrame true 0 (mkPeerState 0 false) "tx"
    (DataArrayBuffer [x00; x00; x00; x07; x00; x00; x00; x00; xaa; xbb])
  = Returned (mkPeerState 0 false) [OnData (MsgFileChunk "tx" 7 [xaa; xbb])]
  /\ specPayload [x00; x00; x00; x07; x00; x00; x00; x00; xaa; xbb] 0 = [].
Proof. split; reflexivity. Qed.

End PeerClientSpec.

Module SignalingSpec.
Import SignalingService.

Lemma toString36Aux_nonempty fuel n acc :
  fuel <> O -> toString36Aux fuel n acc <> EmptyString.
Proof.
  revert n acc. induction fuel as [|fuel IH]; intros n acc Hf; [congruence|].
  simpl. destruct (n / 36 =? 0)%Z; [discriminate|].
  destruct fuel as [|fuel']; [discriminate|]. apply IH. discriminate.
Qed.

(** A client id is never the empty string, given that a UUID is not. *)
Lemma makeClientId_nonempty uuid random36 now :
  uuid <> Some EmptyString -> makeClientId uuid random36 now <> EmptyString.
Proof.
  unfold makeClientId. destruct uuid as [u|]; [congruence|].
  intros _ H.
  destruct random36; simpl in H; [|discriminate].
  revert H. apply toString36Aux_nonempty. discriminate.
Qed.

Example toString36_example : toString36 1700000000000 = "loyw3v28".
Proof. vm_compute. reflexivity. Qed.

(** C9. A payload whose [senderId] is the service's own client id is never
    handed to [onMessage]; a payload with another [senderId] and a
    non-empty [dataStr] is handed to it, once and unchanged. *)
Theorem self_echo_suppressed (svc : Service) (p : Payload) :
  clientId svc <> EmptyString ->
  (senderId p = JStr (clientId svc) ->
     onBroadcast svc (Some p) = svc)
  /\ (forall d, onMessageSet svc = true ->
        senderId p <> JStr (clientId svc) ->
        dataStr p = JStr d -> d <> EmptyString ->
        delivered (onBroadcast svc (Some p)) = (delivered svc ++ [JStr d])%list).
Proof.
  intros Hid. split.
  - intros Hs. unfold onBroadcast. rewrite Hs. simpl.
    destruct (truthy (dataStr p)); simpl; [|reflexivity].
    rewrite String.eqb_refl.
    destruct (clientId svc); [congruence|reflexivity].
  - intros d Hset Hne Hd Hdne. unfold onBroadcast. rewrite Hd. simpl.
    destruct d as [|c d']; [congruence|]. simpl.
    assert (Hs : strictEqStr (senderId p) (clientId svc) = false).
    { destruct (senderId p) as [| |b|n|s] eqn:E; simpl; try reflexivity.
      destruct (String.eqb_spec s (clientId svc)); [congruence|reflexivity]. }
    rewrite Hs, andb_false_r, Hset. reflexivity.
Qed.

Lemma self_echo_suppressed_witness :
  (senderId (mkPayload (JStr "me") (JStr "x")) = JStr (clientId (mkService "me" true [])) ->
     onBroadcast (mkService "me" true []) (Some (mkPayload (JStr "me") (JStr "x")))
     = mkService "me" true [])
  /\ (forall d, onMessageSet (mkService "me" true []) = true ->
        senderId (mkPayload (JStr "me") (JStr "x")) <> JStr (clientId (mkService "me" true [])) ->
        dataStr (mkPayload (JStr "me") (JStr "x")) = JStr d -> d <> EmptyString ->
        delivered (onBroadcast (mkService "me" true []) (Some (mkPayload (JStr "me") (JStr "x"))))
        = (delivered (mkService "me" true []) ++ [JStr d])%list).
Proof.
  apply (self_echo_suppressed (mkService "me" true []) (mkPayload (JStr "me") (JStr "x"))).
  simpl. discriminate.
Defined.

End SignalingSpec.

Module SenderSpec.
Import PeerClient Sender.

Definition iterState (r : Iter) : SendState :=
  match r with
  | IterNext st | IterBreak st _ | IterThrow _ st => st
  end.

Definition resultState (r : Result) : SendState :=
  match r with
  | Returned st | Threw _ st | OutOfFuel st => st
  end.

Lemma getSendChunkSize_pos maxMessageSize overhead :
  1 <= getSendChunkSize maxMessageSize overhead.
Proof. unfold getSendChunkSize. lia. Qed.

Lemma minHighWaterMark_floor C : 1 * MiB <= minHighWaterMark C.
Proof. unfold minHighWaterMark. lia. Qed.

Section ChunkLoop.
Variables (file : list byte) (C : Z) (timeBudgetMs : Z) (env : Env).
Hypothesis C_pos : 1 <= C.

Local Abbreviation sz := (byteLength file).

(** The loop invariant: [seq] frames are out, they are the first [seq]
    frames of the file, and [offset] is where frame [seq] starts. *)
Definition Inv (st : SendState) : Prop :=
  0 <= seq st
  /\ offset st = Z.min (seq st * C) sz
  /\ (seq st = 0 \/ (seq st - 1) * C < sz)
  /\ List.map frameContent (sent st)
     = List.map (fun i => chunkFrame file C (Z.of_nat i))
         (List.seq 0 (Z.to_nat (seq st))).

Lemma Inv_tickOf st : Inv st -> Inv (tickOf st).
Proof. intros H. exact H. Qed.

Lemma innerIter_Inv deadline st :
  Inv st -> Inv (iterState (innerIter file C env deadline st)).
Proof.
  intros (Hseq & Hoff & Hlast & Hsent).
  unfold innerIter, Sender.size. cbn [tickOf offset seq rrIndex highWaterMark lowWaterMark tick sent].
  destruct (Z.ltb_spec (offset st) sz) as [Hlt|Hge]; cbn [andb negb];
    [|repeat split; assumption].
  destruct (nowMs (env (tick st)) <? deadline)%Z; cbn [negb];
    [|repeat split; assumption].
  destruct (aborted (env (tick st))); [repeat split; assumption|].
  destruct (ctrlOpen (env (tick st))); cbn [negb]; [|repeat split; assumption].
  destruct (pickChannel _ _ _) as [[idx rr']|]; [|repeat split; assumption].
  destruct (sendOutcome (env (tick st))) as [|message].
  - (* the frame is sent *)
    cbn [iterState]. unfold Inv. cbn [offset seq sent].
    assert (Hfrom : offset st = seq st * C) by lia.
    assert (Hto : Z.min (offset st + C) sz = Z.min ((seq st + 1) * C) sz)
      by (rewrite Hfrom; f_equal; ring).
    repeat split.
    + lia.
    + exact Hto.
    + right. replace (seq st + 1 - 1) with (seq st) by ring. lia.
    + replace (Z.to_nat (seq st + 1)) with (Datatypes.S (Z.to_nat (seq st))) by lia.
      rewrite List.seq_S, !List.map_app, Hsent. cbn [List.map Nat.add].
      f_equal. unfold frameContent, chunkFrame. cbn [fseq flen fpayload].
      rewrite Z2Nat.id by exact Hseq.
      rewrite <- Hto, <- Hfrom. do 3 f_equal. lia.
  - destruct (isDcSendQueueFullError message); cbn [negb].
    + destruct (waitRejects _ _ _); repeat split; assumption.
    + repeat split; assumption.
Qed.

Lemma inner_Inv fuel deadline st :
  Inv st -> Inv (iterState (inner file C env fuel deadline st)).
Proof.
  revert st. induction fuel as [|fuel IH]; intros st HI; [exact HI|].
  cbn [inner].
  pose proof (innerIter_Inv deadline st HI) as Hstep.
  destruct (innerIter file C env deadline st) as [st'|st' hit|err st'];
    [apply IH; exact Hstep|exact Hstep|exact Hstep].
Qed.

(** Whatever way the pump ends, what it has sent is an initial part of the
    file's frames. *)
Lemma outer_Inv fuel st :
  Inv st -> Inv (resultState (outer file C timeBudgetMs env fuel st)).
Proof.
  revert st. induction fuel as [|fuel IH]; intros st HI; [exact HI|].
  cbn [outer].
  destruct (offset st <? Sender.size file)%Z; cbn [negb]; [|exact HI].
  destruct (aborted (env (tick st))); [exact HI|].
  destruct (ctrlOpen (env (tick st))); cbn [negb]; [|exact HI].
  destruct (Nat.eqb _ 0); [exact HI|].
  destruct (hasBackpressureEverywhere _ _) as [[|]|]; [| |exact HI].
  - destruct (waitRejects _ _ _); [exact HI|]. apply IH. exact HI.
  - pose proof (inner_Inv (innerFuel file (tickOf st))
                  (nowMs (env (tick st)) + timeBudgetMs) (tickOf st)
                  (Inv_tickOf st HI)) as Hin.
    destruct (inner _ _ _ _ _ _) as [st'|st' hit|err st']; cbn [iterState] in Hin;
      [exact Hin| |exact Hin].
    destruct (Sender.size file <=? offset st')%Z; [exact Hin|].
    destruct hit.
    + destruct (waitRejects _ _ _); [exact Hin|]. apply IH. exact Hin.
    + apply IH. exact Hin.
Qed.

Lemma outer_Returned_done fuel st st' :
  outer file C timeBudgetMs env fuel st = Returned st' -> sz <= offset st'.
Proof.
  revert st. induction fuel as [|fuel IH]; intros st; [discriminate|].
  cbn [outer]. unfold Sender.size.
  destruct (Z.ltb_spec (offset st) sz) as [Hlt|Hge]; cbn [negb];
    [|intros [= <-]; exact Hge].
  destruct (aborted (env (tick st))); [discriminate|].
  destruct (ctrlOpen (env (tick st))); cbn [negb]; [|discriminate].
  destruct (Nat.eqb _ 0); [discriminate|].
  destruct (hasBackpressureEverywhere _ _) as [[|]|]; [| |discriminate].
  - destruct (waitRejects _ _ _); [discriminate|]. apply IH.
  - destruct (inner _ _ _ _ _ _) as [st1|st1 hit|err st1]; [discriminate| |discriminate].
    destruct (Z.leb_spec sz (offset st1)) as [Hle|Hgt].
    + intros [= <-]. exact Hle.
    + destruct hit; [destruct (waitRejects _ _ _); [discriminate|]|]; apply IH.
Qed.


End ChunkLoop.

(** In the calm world the pump needs no more than one round. *)
Section Calm.
Variables (file : list byte) (C : Z) (timeBudgetMs : Z).
Hypothesis C_pos : 1 <= C.
Hypothesis budget_pos : 0 < timeBudgetMs.



End Calm.




(** *** Watermarks *)

(** The pump never holds a high watermark below [minHighWaterMark]. *)
Lemma initialHighWaterMark_floor dcHigh C n :
  minHighWaterMark C <= initialHighWaterMark dcHigh C n.
Proof. unfold initialHighWaterMark. lia. Qed.

Lemma halveHighWaterMark_floor C high :
  minHighWaterMark C <= halveHighWaterMark C high.
Proof. unfold halveHighWaterMark. lia. Qed.

(** The retry loop of the empty file never touches the watermark. *)
Lemma empty_file_retry_keeps_watermark env fuel dc0 st :
  highWaterMark (resultState (sendEmptyHeader env fuel dc0 st)) = highWaterMark st.
Proof.
  revert st. induction fuel as [|fuel IH]; intros st; [reflexivity|].
  cbn [sendEmptyHeader].
  destruct (aborted (env (tick st))); [reflexivity|].
  destruct (sendOutcome (env (tick st))) as [|message]; [reflexivity|].
  destruct (isDcSendQueueFullError message); cbn [negb]; [|reflexivity].
  destruct (waitForBufferRejects _ _ _ _); [reflexivity|].
  rewrite IH. reflexivity.
Qed.

(** C6, as the code has it. When a send in the chunk loop throws a
    queue-full error, nothing is sent and the new high watermark is
    [max(minHighWaterMark, floor(high / 2))]: it is at least 1 MiB, it is
    at most [high / 2 + chunkSize] as long as the halved value is not below
    [minHighWaterMark], and it does not exceed the previous one. *)
Theorem queue_full_halves_high_watermark
    (file : list byte) (maxMessageSize : Z) (env : Env) (deadline : Z)
    (st : SendState) (message : string) (pick : nat * nat) :
  let C := getSendChunkSize maxMessageSize FILE_FRAME_HEADER_BYTES in
  offset st < byteLength file ->
  nowMs (env (tick st)) < deadline ->
  aborted (env (tick st)) = false ->
  ctrlOpen (env (tick st)) = true ->
  pickChannel (channels (env (tick st))) (rrIndex st) (highWaterMark st) = Some pick ->
  sendOutcome (env (tick st)) = SendThrows message ->
  isDcSendQueueFullError message = true ->
  let st' := iterState (innerIter file C env deadline st) in
  sent st' = sent st /\ offset st' = offset st /\ seq st' = seq st
  /\ highWaterMark st' = Z.max (minHighWaterMark C) (highWaterMark st / 2)
  /\ 1 * MiB <= highWaterMark st'
  /\ (minHighWaterMark C <= highWaterMark st / 2 ->
      highWaterMark st' <= highWaterMark st / 2 + C)
  /\ (minHighWaterMark C <= highWaterMark st ->
      highWaterMark st' <= highWaterMark st).
Proof.
  intros C Hoff Hnow Hab Hctrl Hpick Hsend Hfull st'.
  assert (HC : 1 <= C) by apply getSendChunkSize_pos.
  assert (Hst' : sent st' = sent st /\ offset st' = offset st /\ seq st' = seq st
                 /\ highWaterMark st' = halveHighWaterMark C (highWaterMark st)).
  { unfold st', innerIter, Sender.size.
    cbn [tickOf offset seq rrIndex highWaterMark lowWaterMark tick sent].
    destruct (Z.ltb_spec (offset st) (byteLength file)); [|lia].
    destruct (Z.ltb_spec (nowMs (env (tick st))) deadline); [|lia].
    cbn [andb negb]. rewrite Hab, Hctrl. cbn [negb]. rewrite Hpick.
    destruct pick as [idx rr']. rewrite Hsend, Hfull. cbn [negb].
    destruct (waitRejects _ _ _); cbn [iterState tickOf sent offset seq highWaterMark];
      repeat split; reflexivity. }
  destruct Hst' as (Hs & Ho & Hq & Hh).
  repeat split; try assumption.
  - rewrite Hh. pose proof (halveHighWaterMark_floor C (highWaterMark st)).
    pose proof (minHighWaterMark_floor C). lia.
  - intros Hhalf. rewrite Hh. unfold halveHighWaterMark. lia.
  - intros Hmin. rewrite Hh. unfold halveHighWaterMark.
    pose proof (minHighWaterMark_floor C) as Hfl. unfold MiB in Hfl.
    assert (highWaterMark st / 2 <= highWaterMark st)
      by (apply Z.div_le_upper_bound; lia).
    lia.
Qed.

Lemma queue_full_halves_high_watermark_witness :
  sent (iterState (innerIter [x01] (getSendChunkSize 0 FILE_FRAME_HEADER_BYTES)
                     fullEnv 180 (mkSendState 0 0 O (16 * MiB) (4 * MiB) 1 [])))
  = []
  /\ highWaterMark
       (iterState (innerIter [x01] (getSendChunkSize 0 FILE_FRAME_HEADER_BYTES)
                     fullEnv 180 (mkSendState 0 0 O (16 * MiB) (4 * MiB) 1 [])))
     = 8 * MiB.
Proof.
  pose proof (queue_full_halves_high_watermark [x01] 0 fullEnv 180
                (mkSendState 0 0 O (16 * MiB) (4 * MiB) 1 [])
                "Failed to execute 'send' on 'RTCDataChannel': RTCDataChannel send queue is full"
                (O, O)) as H.
  cbv zeta in H.
  destruct H as (Hs & _ & _ & Hh & _).
  - vm_compute. reflexivity.
  - vm_compute. reflexivity.
  - reflexivity.
  - reflexivity.
  - vm_compute. reflexivity.
  - reflexivity.
  - vm_compute. reflexivity.
  - split; [exact Hs|]. rewrite Hh. vm_compute. reflexivity.
Defined.

(** C6 as stated fails once the watermark has reached its floor. With the
    default chunk of 262136 bytes and a 16 MiB start, four queue-full
    errors bring the watermark to 1 MiB; the fifth leaves it there, above
    [high / 2 + chunkSize = 786424]. *)
Lemma high_watermark_stays_at_floor :
  exists st st',
    sendFileChunks [x01] (getSendChunkSize 0 FILE_FRAME_HEADER_BYTES) 180
      fullEnv (16 * MiB) 4 = OutOfFuel st
    /\ highWaterMark st = 1048576
    /\ isDcSendQueueFullError
         "Failed to execute 'send' on 'RTCDataChannel': RTCDataChannel send queue is full"
       = true
    /\ innerIter [x01] (getSendChunkSize 0 FILE_FRAME_HEADER_BYTES) fullEnv 180 st
       = IterBreak st' true
    /\ highWaterMark st' = 1048576
    /\ highWaterMark st / 2 + getSendChunkSize 0 FILE_FRAME_HEADER_BYTES = 786424.
Proof.
  eexists. eexists.
  split; [vm_compute; reflexivity|].
  split; [reflexivity|].
  split; [vm_compute; reflexivity|].
  split; [vm_compute; reflexivity|].
  split; reflexivity.
Qed.

(** The boundary scenario of the specification, [size = 2 * chunkSize + 1],
    with a chunk of 2 bytes: three frames. *)
Example five_bytes_in_three_frames :
  sent (resultState
          (sendFileChunks [x01; x02; x03; x04; x05] (getSendChunkSize 10 8) 180
             calmEnv (16 * MiB) 1))
  = [mkFrame 0 0 2 [x01; x02]; mkFrame 0 1 2 [x03; x04]; mkFrame 0 2 1 [x05]].
Proof. vm_compute. reflexivity. Qed.

End SenderSpec.

Module MainSpec.
Import PeerClient Main.

(** *** What a transfer has taken in so far *)

(** The part of a state object that resequencing reads and writes. *)
Definition progress (r : Incoming)
  : list (Z * list byte) * Z * gmap Z (list byte) * Z :=
  (committed r, expectedSeq r, pendingChunks r, received r).

(** What no operation but resequencing changes: the identity of the
    transfer, its declared size, and its progress. *)
Definition snapshot (r : Incoming)
  : string * Z * (list (Z * list byte) * Z * gmap Z (list byte) * Z) :=
  (fileId r, size r, progress r).

Definition snapshotOf (app : App) (ref : nat)
  : option (string * Z * (list (Z * list byte) * Z * gmap Z (list byte) * Z)) :=
  snapshot <$> objs app !! ref.

(** [from, from + 1, ..., from + n - 1] *)
Definition seqZ (from : Z) (n : nat) : list Z :=
  List.map (fun i => from + Z.of_nat i) (List.seq 0 n).

Definition totalBytes (log : list (Z * list byte)) : Z :=
  List.fold_right Z.add 0 (List.map (fun e => byteLength e.2) log).

(** The kept chunks that follow [from] without a gap. *)
Fixpoint successors (pending : gmap Z (list byte)) (from : Z) (fuel : nat)
  : list (Z * list byte) :=
  match fuel with
  | O => []
  | S fuel' =>
      match pending !! from with
      | Some c => (from, c) :: successors pending (from + 1) fuel'
      | None => []
      end
  end.

(** The invariant of a state object (section 3 of the specification). *)
Definition RInv (r : Incoming) : Prop :=
  0 <= expectedSeq r
  /\ List.map fst (committed r) = seqZ 0 (Z.to_nat (expectedSeq r))
  /\ (forall k c, pendingChunks r !! k = Some c -> expectedSeq r < k)
  /\ received r = totalBytes (committed r).

Definition AppInv (app : App) : Prop :=
  forall ref r, objs app !! ref = Some r -> RInv r.

Lemma seqZ_S from n : seqZ from (S n) = seqZ from n ++ [from + Z.of_nat n].
Proof. unfold seqZ. rewrite List.seq_S, List.map_app. reflexivity. Qed.

Lemma seqZ_app from n m :
  seqZ from (n + m) = seqZ from n ++ seqZ (from + Z.of_nat n) m.
Proof.
  induction m as [|m IH].
  - rewrite Nat.add_0_r. unfold seqZ at 3. simpl. rewrite List.app_nil_r. reflexivity.
  - rewrite Nat.add_succ_r, !seqZ_S, IH, <- List.app_assoc. do 3 f_equal. lia.
Qed.

Lemma totalBytes_app l1 l2 : totalBytes (l1 ++ l2) = totalBytes l1 + totalBytes l2.
Proof.
  unfold totalBytes. induction l1 as [|x l1 IH]; simpl; [reflexivity|].
  rewrite IH. lia.
Qed.

Lemma totalBytes_cons k c l : totalBytes ((k, c) :: l) = byteLength c + totalBytes l.
Proof. reflexivity. Qed.

Lemma successors_fst pending from fuel :
  List.map fst (successors pending from fuel)
  = seqZ from (List.length (successors pending from fuel)).
Proof.
  revert from. induction fuel as [|fuel IH]; intros from; simpl; [reflexivity|].
  destruct (pending !! from) as [c|]; [|reflexivity].
  simpl. rewrite IH.
  change (S (List.length (successors pending (from + 1) fuel)))
    with (1 + List.length (successors pending (from + 1) fuel))%nat.
  rewrite (seqZ_app from 1). unfold seqZ at 2. simpl.
  rewrite Z.add_0_r. reflexivity.
Qed.

Lemma successors_delete pending e from fuel :
  e < from ->
  successors (delete e pending) from fuel = successors pending from fuel.
Proof.
  revert from. induction fuel as [|fuel IH]; intros from Hlt; simpl; [reflexivity|].
  rewrite lookup_delete_ne by lia.
  destruct (pending !! from); [|reflexivity].
  f_equal. apply IH. lia.
Qed.

(** *** One chunk *)

Lemma commitChunk_progress seqNo data r :
  progress (commitChunk seqNo data r)
  = (committed r ++ [(seqNo, data)], expectedSeq r, pendingChunks r,
     received r + byteLength data).
Proof.
  unfold commitChunk, progress.
  destruct (Z.leb_spec (byteLength data) 0) as [Hle|Hgt].
  - cbn. do 2 f_equal. unfold byteLength in *. lia.
  - cbn [set_committed writer chunks]. destruct (writer r), (chunks r); reflexivity.
Qed.

(** The drain loop commits exactly the run of kept successors, and stops
    at the first gap. *)
Lemma drainPending_progress fuel r :
  (stdpp.base.size (pendingChunks r) <= fuel)%nat ->
  let run := successors (pendingChunks r) (expectedSeq r) fuel in
  let r' := drainPending fuel r in
  committed r' = committed r ++ run
  /\ expectedSeq r' = expectedSeq r + Z.of_nat (List.length run)
  /\ received r' = received r + totalBytes run
  /\ pendingChunks r' !! expectedSeq r' = None
  /\ (forall k, pendingChunks r' !! k =
                if bool_decide (expectedSeq r <= k < expectedSeq r')
                then None else pendingChunks r !! k).
Proof.
  revert r. induction fuel as [|fuel IH]; intros r Hsize; cbn [drainPending successors].
  - assert (Hempty : pendingChunks r = ∅) by (apply map_size_empty_inv; lia).
    cbn [List.length]. rewrite List.app_nil_r, Z.add_0_r.
    repeat split; try reflexivity.
    + unfold totalBytes. simpl. lia.
    + rewrite Hempty. apply lookup_empty.
    + intros k. rewrite bool_decide_eq_false_2 by lia. reflexivity.
  - destruct (pendingChunks r !! expectedSeq r) as [next|] eqn:Hnext.
    + set (r1 := set_expectedSeq _ _).
      pose proof (commitChunk_progress (expectedSeq r) next
                    (set_pendingChunks (delete (expectedSeq r) (pendingChunks r)) r)) as Hc.
      unfold progress in Hc. cbn [set_pendingChunks committed expectedSeq pendingChunks received] in Hc.
      injection Hc as Hc1 Hc2 Hc3 Hc4.
      assert (Hr1 : committed r1 = committed r ++ [(expectedSeq r, next)]
                    /\ expectedSeq r1 = expectedSeq r + 1
                    /\ pendingChunks r1 = delete (expectedSeq r) (pendingChunks r)
                    /\ received r1 = received r + byteLength next).
      { unfold r1. cbn [set_expectedSeq committed expectedSeq pendingChunks received
                        set_pendingChunks].
        rewrite Hc1, Hc2, Hc3, Hc4. repeat split; reflexivity. }
      destruct Hr1 as (H1 & H2 & H3 & H4).
      assert (Hsz : (stdpp.base.size (pendingChunks r1) <= fuel)%nat).
      { rewrite H3, map_size_delete_Some by eauto. lia. }
      destruct (IH r1 Hsz) as (I1 & I2 & I3 & I4 & I5).
      rewrite H3, H2, successors_delete in I1, I2, I3 by lia.
      rewrite H2 in I5.
      cbn [List.length]. repeat split.
      * rewrite I1, H1, <- List.app_assoc. reflexivity.
      * rewrite I2. lia.
      * rewrite I3, H4.
        rewrite totalBytes_cons. lia.
      * exact I4.
      * intros k. rewrite I5, H3.
        destruct (decide (k = expectedSeq r)) as [->|Hne].
        -- rewrite lookup_delete_eq.
           rewrite (bool_decide_eq_true_2 (expectedSeq r <= expectedSeq r < _)) by lia.
           destruct (bool_decide _); reflexivity.
        -- rewrite lookup_delete_ne by congruence.
           apply (f_equal (fun b : bool => if b then None else pendingChunks r !! k)).
           apply bool_decide_ext. lia.
    + cbn [List.length]. rewrite List.app_nil_r, Z.add_0_r.
      repeat split; try reflexivity.
      * unfold totalBytes. simpl. lia.
      * exact Hnext.
      * intros k. rewrite bool_decide_eq_false_2 by lia. reflexivity.
Qed.

(** Commit and drain, as one step on the progress of a transfer. *)
Lemma commitAndDrain_progress chunk r :
  let e := expectedSeq r in
  let run := (e, chunk) :: successors (pendingChunks r) (e + 1)
                             (stdpp.base.size (pendingChunks r)) in
  let r' := commitAndDrain e chunk r in
  committed r' = committed r ++ run
  /\ expectedSeq r' = e + Z.of_nat (List.length run)
  /\ received r' = received r + totalBytes run
  /\ pendingChunks r' !! expectedSeq r' = None
  /\ (forall k, pendingChunks r' !! k =
                if bool_decide (e + 1 <= k < expectedSeq r')
                then None else pendingChunks r !! k).
Proof.
  intros e run r'. unfold r', commitAndDrain.
  pose proof (commitChunk_progress e chunk r) as Hc. unfold progress in Hc.
  injection Hc as Hc1 Hc2 Hc3 Hc4.
  set (r1 := set_expectedSeq _ _).
  assert (Hr1 : committed r1 = committed r ++ [(e, chunk)]
                /\ expectedSeq r1 = e + 1
                /\ pendingChunks r1 = pendingChunks r
                /\ received r1 = received r + byteLength chunk).
  { unfold r1. cbn [set_expectedSeq committed expectedSeq pendingChunks received].
    rewrite Hc1, Hc2, Hc3, Hc4. repeat split; reflexivity. }
  destruct Hr1 as (H1 & H2 & H3 & H4).
  destruct (drainPending_progress (stdpp.base.size (pendingChunks r1)) r1 (le_n _))
    as (I1 & I2 & I3 & I4 & I5).
  rewrite H3 in I1, I2, I3, I4, I5 |- *.
  rewrite H2 in I1, I2, I3, I5.
  unfold run. cbn [List.length]. repeat split.
  - rewrite I1, H1, <- List.app_assoc. reflexivity.
  - rewrite I2. lia.
  - rewrite I3, H4.
    rewrite totalBytes_cons. lia.
  - exact I4.
  - exact I5.
Qed.

(** *** Operations that leave the progress of every transfer alone *)

Definition Framed (app app' : App) : Prop :=
  forall ref, snapshotOf app' ref = snapshotOf app ref.

Lemma Framed_refl app : Framed app app.
Proof. intros ref. reflexivity. Qed.

Lemma Framed_trans app1 app2 app3 :
  Framed app1 app2 -> Framed app2 app3 -> Framed app1 app3.
Proof. intros H12 H23 ref. rewrite H23. apply H12. Qed.

Lemma alter_snapshot (f : Incoming -> Incoming) i (m : gmap nat Incoming) ref :
  (forall r, snapshot (f r) = snapshot r) ->
  snapshot <$> alter f i m !! ref = snapshot <$> m !! ref.
Proof.
  intros Hf. destruct (decide (i = ref)) as [->|Hne].
  - rewrite lookup_alter_eq. destruct (m !! ref); simpl; [rewrite Hf|]; reflexivity.
  - rewrite lookup_alter_ne by exact Hne. reflexivity.
Qed.

Ltac app_fields :=
  cbn [objs update set_objs set_nextRef set_incomingFiles set_receiving
       set_receivedFiles set_pendingUiOps set_ctrlOut set_fileChannels
       set_stagedFiles set_outgoingQueue set_outgoingQueuedIds
       set_outgoingCancelledIds set_outgoingTransfers set_fileAcceptWaiters
       set_fileAcceptEarly set_fileDoneWaiters] in *.

Ltac framed :=
  unfold Framed, snapshotOf; intros; app_fields;
  repeat (rewrite alter_snapshot by (intros; reflexivity));
  reflexivity.

Lemma Framed_tryPeerSend b msg app : Framed app (tryPeerSend b msg app).
Proof.
  unfold tryPeerSend, peerSend.
  destruct (ctrlOpen b), (ctrlThrows b); framed.
Qed.

Lemma Framed_closeFileChannels prefix app :
  Framed app (closeFileChannelsByPrefix prefix app).
Proof. unfold closeFileChannelsByPrefix. destruct (Js.isEmpty _); framed. Qed.

Lemma objs_tryPeerSend b msg app : objs (tryPeerSend b msg app) = objs app.
Proof.
  unfold tryPeerSend, peerSend. destruct (ctrlOpen b), (ctrlThrows b); reflexivity.
Qed.

Lemma objs_closeFileChannels prefix app :
  objs (closeFileChannelsByPrefix prefix app) = objs app.
Proof. unfold closeFileChannelsByPrefix. destruct (Js.isEmpty _); reflexivity. Qed.

Lemma Framed_cancelIncomingFile b id notifyPeer reason app :
  Framed app (cancelIncomingFile b id notifyPeer reason app).
Proof.
  unfold cancelIncomingFile.
  destruct (Js.isEmpty (Js.trim id)); [apply Framed_refl|].
  destruct (incomingFiles app !! Js.trim id) as [ref|]; [|apply Framed_refl].
  destruct (objs app !! ref) as [state|]; [|apply Framed_refl].
  unfold Framed, snapshotOf. intros ref'.
  set (app1 := set_incomingFiles _ _).
  set (app2 := match receiving app1 with Some _ => _ | None => _ end).
  set (app3 := if (notifyPeer && ctrlOpen b)%bool then _ else app2).
  set (app4 := if negb _ then _ else app3).
  assert (H4 : objs app4 = objs app3).
  { unfold app4. destruct (negb _); [apply objs_closeFileChannels|reflexivity]. }
  assert (H3 : objs app3 = objs app2).
  { unfold app3. destruct (_ && _)%bool; [apply objs_tryPeerSend|reflexivity]. }
  assert (H2 : objs app2 = objs app1).
  { unfold app2. destruct (receiving app1) as [cur|]; [|reflexivity].
    destruct (objs app1 !! cur) as [r|]; [|reflexivity].
    destruct (String.eqb _ _); reflexivity. }
  cbn [update objs set_objs]. rewrite H4, H3, H2. unfold app1.
  framed.
Qed.

Lemma Framed_flushFileWrites b ref app : Framed app (flushFileWrites b ref app).
Proof.
  unfold flushFileWrites.
  destruct (objs app !! ref) as [state|]; [|apply Framed_refl].
  destruct (writer state) as [w|]; [|apply Framed_refl].
  destruct (List.skipn _ _); [apply Framed_refl|].
  destruct (writeFails b); [apply Framed_cancelIncomingFile|framed].
Qed.

Lemma Framed_completionUiOp b id app : Framed app (completionUiOp b id app).
Proof.
  unfold completionUiOp. destruct (negb _); [apply Framed_refl|].
  destruct (incomingFiles app !! id); framed.
Qed.

Lemma Framed_completeTransfer b ref app : Framed app (completeTransfer b ref app).
Proof.
  unfold completeTransfer.
  set (app1 := match objs app !! ref with Some _ => _ | None => _ end).
  assert (H1 : Framed app app1).
  { unfold app1. destruct (objs app !! ref) as [r|]; [|apply Framed_refl].
    destruct (writer r); [|apply Framed_refl].
    eapply Framed_trans; [apply (Framed_flushFileWrites b ref)|].
    unfold Framed, snapshotOf. intros ref'. cbn [update objs set_objs].
    apply alter_snapshot. intros r0. destruct (writer r0); reflexivity. }
  clearbody app1.
  destruct (objs app1 !! ref) as [r|]; [|exact H1].
  eapply Framed_trans; [exact H1|].
  set (app2 := match writer r with None => _ | Some _ => app1 end).
  assert (H2 : Framed app1 app2) by (unfold app2; destruct (writer r); framed).
  eapply Framed_trans; [exact H2|].
  destruct (listAttached b).
  - eapply Framed_trans; [|apply Framed_completionUiOp].
    eapply Framed_trans; [apply (Framed_tryPeerSend b (MsgFileDone (fileId r)))|].
    framed.
  - eapply Framed_trans; [apply (Framed_tryPeerSend b (MsgFileDone (fileId r)))|].
    framed.
Qed.

Lemma Framed_acceptFile b id app : Framed app (acceptFile b id app).
Proof.
  unfold acceptFile.
  destruct (Js.isEmpty (Js.trim id)); [apply Framed_refl|].
  destruct (incomingFiles app !! Js.trim id) as [ref|]; [|apply Framed_refl].
  destruct (objs app !! ref) as [state|]; [|apply Framed_refl].
  destruct (accepted state); [apply Framed_refl|].
  assert (Hsend : forall app0,
             Framed app0
               (if negb (ctrlOpen b) then app0
                else match peerSend b (MsgFileAccept (Js.trim id)) app0 with
                     | Some app1 =>
                         update ref
                           (fun r => set_acceptResendTimer true
                                       (set_acceptAcked false (set_accepted true r)))
                           app1
                     | None => app0
                     end)).
  { intros app0. destruct (negb (ctrlOpen b)); [apply Framed_refl|].
    unfold peerSend. destruct (ctrlOpen b), (ctrlThrows b); framed. }
  destruct (writer state); [apply Hsend|].
  destruct (negb (hasPicker b)); [apply Framed_refl|].
  destruct (negb (pickerOk b)); [apply Framed_refl|].
  eapply Framed_trans; [|apply Hsend]. framed.
Qed.

Lemma Framed_cancelOutgoingFile b id notifyPeer reason app :
  Framed app (cancelOutgoingFile b id notifyPeer reason app).
Proof.
  unfold cancelOutgoingFile.
  destruct (Js.isEmpty (Js.trim id)); [apply Framed_refl|].
  destruct (_ && _)%bool; [framed|].
  cbn [outgoingTransfers set_fileAcceptEarly].
  destruct (outgoingTransfers app !! Js.trim id) as [state|].
  - eapply Framed_trans; [|apply Framed_closeFileChannels].
    destruct (_ && _)%bool.
    + eapply Framed_trans;
        [apply Framed_trans with (app2 := set_fileAcceptEarly
                                            (fileAcceptEarly app ∖ {[Js.trim id]}) app);
         [framed|apply (Framed_tryPeerSend b (MsgFileCancel (Js.trim id) reason))]|].
      framed.
    + framed.
  - cbn [outgoingQueue]. destruct (removeFirst _ _); framed.
Qed.

Lemma Framed_flushUiOps b app : Framed app (flushUiOps b app).
Proof.
  unfold flushUiOps. destruct (negb _); [apply Framed_refl|].
  eapply Framed_trans; [|framed].
  generalize (pendingUiOps app). intros ops. revert app.
  induction ops as [|op ops IH]; intros app; [apply Framed_refl|].
  cbn [List.fold_left].
  eapply Framed_trans; [apply (Framed_completionUiOp b op)|apply IH].
Qed.

(** *** The invariant *)

Lemma RInv_progress r r' : progress r' = progress r -> RInv r -> RInv r'.
Proof.
  unfold progress, RInv. intros [= -> -> -> ->]. exact id.
Qed.

Lemma AppInv_Framed app app' : Framed app app' -> AppInv app -> AppInv app'.
Proof.
  intros HF HI ref r' Hr'.
  specialize (HF ref). unfold snapshotOf in HF. rewrite Hr' in HF.
  destruct (objs app !! ref) as [r|] eqn:Hr; [|discriminate].
  assert (HP : progress r' = progress r) by (unfold snapshot in HF; simpl in HF; congruence).
  exact (RInv_progress r r' HP (HI ref r Hr)).
Qed.

Lemma AppInv_update ref f app :
  AppInv app ->
  (forall r, objs app !! ref = Some r -> RInv r -> RInv (f r)) ->
  AppInv (update ref f app).
Proof.
  intros HI Hf ref' r'. cbn [update objs set_objs].
  destruct (decide (ref = ref')) as [<-|Hne].
  - rewrite lookup_alter_eq.
    destruct (objs app !! ref) as [r|] eqn:Hr; [|discriminate].
    intros [= <-]. apply (Hf r); [reflexivity|exact (HI ref r Hr)].
  - rewrite lookup_alter_ne by exact Hne. apply HI.
Qed.

Lemma RInv_bufferChunk seqNo chunk r :
  expectedSeq r < seqNo -> RInv r -> RInv (bufferChunk seqNo chunk r).
Proof.
  intros Hlt (H0 & Hlog & Hpend & Hrec). unfold bufferChunk.
  destruct (pendingChunks r !! seqNo); [repeat split; assumption|].
  repeat split; try assumption.
  cbn [set_pendingChunks pendingChunks expectedSeq]. intros k c.
  destruct (decide (seqNo = k)) as [<-|Hne].
  - intros _. exact Hlt.
  - rewrite lookup_insert_ne by exact Hne. apply Hpend.
Qed.

Lemma RInv_commitAndDrain chunk r :
  RInv r -> RInv (commitAndDrain (expectedSeq r) chunk r).
Proof.
  intros (H0 & Hlog & Hpend & Hrec).
  destruct (commitAndDrain_progress chunk r) as (C1 & C2 & C3 & C4 & C5).
  set (r' := commitAndDrain (expectedSeq r) chunk r) in *.
  set (tail := successors (pendingChunks r) (expectedSeq r + 1)
                 (stdpp.base.size (pendingChunks r))) in *.
  cbn [List.length] in C2.
  repeat split.
  - lia.
  - rewrite C1, List.map_app, Hlog. cbn [List.map fst].
    unfold tail. rewrite successors_fst. fold tail. rewrite C2.
    replace (Z.to_nat (expectedSeq r + Z.of_nat (S (List.length tail))))
      with (Z.to_nat (expectedSeq r) + (1 + List.length tail))%nat by lia.
    rewrite seqZ_app, (seqZ_app _ 1). cbn [seqZ List.seq List.map].
    rewrite Z2Nat.id by exact H0.
    replace (0 + expectedSeq r + Z.of_nat 0) with (expectedSeq r) by lia.
    replace (0 + expectedSeq r + Z.of_nat 1) with (expectedSeq r + 1) by lia.
    reflexivity.
  - intros k c Hk'. pose proof Hk' as Hk. rewrite C5 in Hk.
    destruct (bool_decide (expectedSeq r + 1 <= k < expectedSeq r')) eqn:Hin;
      [discriminate|].
    apply bool_decide_eq_false_1 in Hin.
    pose proof (Hpend k c Hk) as Hgt.
    destruct (decide (k = expectedSeq r')) as [->|Hne]; [congruence|]. lia.
  - rewrite C3, C1, totalBytes_app, Hrec. reflexivity.
Qed.

Lemma AppInv_initial txId : AppInv (initialApp txId).
Proof. intros ref r Hr. cbn in Hr. rewrite lookup_empty in Hr. discriminate. Qed.

Lemma AppInv_onFileMeta id sid sc name' size' app :
  AppInv app -> AppInv (onFileMeta id sid sc name' size' app).
Proof.
  intros HI. unfold onFileMeta.
  destruct (receiving app); [exact HI|].
  destruct (_ || _)%bool; [exact HI|].
  intros ref r. app_fields.
  destruct (decide (nextRef app = ref)) as [<-|Hne].
  - rewrite lookup_insert_eq. intros [= <-].
    repeat split; cbn; try lia; try reflexivity.
    intros k c Hk. rewrite lookup_empty in Hk. discriminate.
  - rewrite lookup_insert_ne by exact Hne. apply HI.
Qed.

Lemma AppInv_onFileChunk b sid seqNo chunk app :
  AppInv app -> AppInv (onFileChunk b sid seqNo chunk app).
Proof.
  intros HI. unfold onFileChunk.
  destruct (receiving app) as [ref|]; [|exact HI].
  destruct (objs app !! ref) as [r|] eqn:Hr; [|exact HI].
  destruct (cancelled r); [exact HI|].
  destruct (_ && _)%bool; [exact HI|].
  destruct (_ && _)%bool;
    [exact (AppInv_Framed _ _ (Framed_cancelIncomingFile _ _ _ _ _) HI)|].
  set (app1 := if negb (acceptAcked r) then _ else app).
  assert (H1 : AppInv app1 /\
               exists r1, objs app1 !! ref = Some r1 /\ expectedSeq r1 = expectedSeq r).
  { unfold app1. destruct (negb (acceptAcked r)).
    - split.
      + apply AppInv_update; [exact HI|]. intros r0 _. apply RInv_progress. reflexivity.
      + eexists. cbn [update objs set_objs]. rewrite lookup_alter_eq, Hr.
        split; reflexivity.
    - split; [exact HI|]. exists r. split; [exact Hr|reflexivity]. }
  destruct H1 as (HI1 & r1 & Hr1 & He1). clearbody app1.
  destruct (_ && _)%bool; [exact HI1|].
  destruct (seqNo <? 0); [exact HI1|].
  destruct (Z.ltb_spec seqNo (expectedSeq r)) as [Hlt|Hge]; [exact HI1|].
  destruct (Z.ltb_spec (expectedSeq r) seqNo) as [Hgt|Hle].
  - apply AppInv_update; [exact HI1|]. intros r0 Hr0.
    apply RInv_bufferChunk. rewrite Hr1 in Hr0. injection Hr0 as <-. lia.
  - assert (seqNo = expectedSeq r) by lia. subst seqNo.
    set (app2 := update ref _ app1).
    assert (HI2 : AppInv app2).
    { apply AppInv_update; [exact HI1|]. intros r0 Hr0.
      rewrite Hr1 in Hr0. injection Hr0 as <-. rewrite <- He1.
      apply RInv_commitAndDrain. }
    destruct (objs app2 !! ref) as [r2|]; [|exact HI2].
    destruct (size r2 <=? received r2); [|exact HI2].
    exact (AppInv_Framed _ _ (Framed_completeTransfer b ref app2) HI2).
Qed.

Lemma AppInv_onPeerData b msg app : AppInv app -> AppInv (onPeerData b msg app).
Proof.
  intros HI. destruct msg; cbn [onPeerData].
  - exact HI.
  - apply AppInv_onFileMeta. exact HI.
  - destruct (Js.isEmpty _); [exact HI|].
    eapply AppInv_Framed; [apply Framed_tryPeerSend|].
    unfold resolveFileAccept. destruct (Js.isEmpty _); [exact HI|].
    destruct (bool_decide _); [exact HI|]. destruct (bool_decide _); exact HI.
  - destruct (Js.isEmpty _); [exact HI|].
    destruct (incomingFiles app !! _); [|exact HI].
    apply AppInv_update; [exact HI|]. intros r0 _. apply RInv_progress. reflexivity.
  - destruct (Js.isEmpty _); exact HI.
  - destruct (Js.isEmpty _); [exact HI|].
    eapply AppInv_Framed; [apply Framed_cancelIncomingFile|].
    eapply AppInv_Framed; [apply Framed_cancelOutgoingFile|]. exact HI.
  - destruct (receiving app) as [ref|]; [|exact HI].
    destruct (objs app !! ref) as [r|]; [|exact HI].
    destruct (_ && _)%bool; [|exact HI].
    eapply AppInv_Framed; [apply Framed_cancelIncomingFile|]. exact HI.
  - apply AppInv_onFileChunk. exact HI.
Qed.

Lemma AppInv_step b ev app : AppInv app -> AppInv (step b ev app).
Proof.
  intros HI. destruct ev; cbn [step].
  - apply AppInv_onPeerData. exact HI.
  - exact (AppInv_Framed _ _ (Framed_acceptFile _ _ _) HI).
  - exact (AppInv_Framed _ _ (Framed_cancelOutgoingFile _ _ _ _ _) HI).
  - exact (AppInv_Framed _ _ (Framed_cancelIncomingFile _ _ _ _ _) HI).
  - exact (AppInv_Framed _ _ (Framed_flushUiOps _ _) HI).
Qed.

Lemma AppInv_run events app : AppInv app -> AppInv (run events app).
Proof.
  revert app. induction events as [|[b ev] events IH]; intros app HI; [exact HI|].
  cbn [run List.fold_left]. apply IH. apply AppInv_step. exact HI.
Qed.

(** *** Resequencing (C1) *)




(** *** What a step sends on the control channel (C3, C7) *)

(** The messages a step has added to the control channel. *)
Definition emitted (app app' : App) : list PeerMsg :=
  List.skipn (List.length (ctrlOut app)) (ctrlOut app').

Definition Emits (P : PeerMsg -> Prop) (app app' : App) : Prop :=
  exists new, ctrlOut app' = ctrlOut app ++ new /\ List.Forall P new.

Definition notDone (m : PeerMsg) : Prop := forall id, m <> MsgFileDone id.

Lemma Emits_same P app app' : ctrlOut app' = ctrlOut app -> Emits P app app'.
Proof. intros H. exists []. rewrite H, List.app_nil_r. split; [reflexivity|constructor]. Qed.

Lemma Emits_refl P app : Emits P app app.
Proof. apply Emits_same. reflexivity. Qed.

Lemma Emits_trans P app1 app2 app3 :
  Emits P app1 app2 -> Emits P app2 app3 -> Emits P app1 app3.
Proof.
  intros (n1 & H1 & F1) (n2 & H2 & F2). exists (n1 ++ n2).
  rewrite H2, H1, List.app_assoc. split; [reflexivity|].
  apply List.Forall_app. split; assumption.
Qed.

Lemma Emits_weaken (P Q : PeerMsg -> Prop) app app' :
  (forall m, P m -> Q m) -> Emits P app app' -> Emits Q app app'.
Proof.
  intros HPQ (new & H & F). exists new. split; [exact H|].
  eapply List.Forall_impl; [exact HPQ|exact F].
Qed.

Lemma Emits_emitted P app app' : Emits P app app' -> List.Forall P (emitted app app').
Proof.
  intros (new & H & F). unfold emitted. rewrite H.
  rewrite List.skipn_app, List.skipn_all, Nat.sub_diag. exact F.
Qed.

Lemma Emits_tryPeerSend (P : PeerMsg -> Prop) b msg app :
  P msg -> Emits P app (tryPeerSend b msg app).
Proof.
  intros HP. unfold tryPeerSend, peerSend.
  destruct (ctrlOpen b), (ctrlThrows b); try apply Emits_refl.
  exists [msg]. split; [reflexivity|]. constructor; [exact HP|constructor].
Qed.

Lemma ctrlOut_closeFileChannels prefix app :
  ctrlOut (closeFileChannelsByPrefix prefix app) = ctrlOut app.
Proof. unfold closeFileChannelsByPrefix. destruct (Js.isEmpty _); reflexivity. Qed.

Ltac quiet := apply Emits_same; reflexivity.

Lemma Quiet_cancelIncomingFile b id notifyPeer reason app :
  Emits notDone app (cancelIncomingFile b id notifyPeer reason app).
Proof.
  unfold cancelIncomingFile.
  destruct (Js.isEmpty (Js.trim id)); [apply Emits_refl|].
  destruct (incomingFiles app !! Js.trim id) as [ref|]; [|apply Emits_refl].
  destruct (objs app !! ref) as [state|]; [|apply Emits_refl].
  set (app1 := set_incomingFiles _ _).
  set (app2 := match receiving app1 with Some _ => _ | None => _ end).
  set (app3 := if (notifyPeer && ctrlOpen b)%bool then _ else app2).
  set (app4 := if negb _ then _ else app3).
  assert (H1 : Emits notDone app app1) by quiet.
  assert (H2 : Emits notDone app1 app2).
  { unfold app2. destruct (receiving app1) as [cur|]; [|apply Emits_refl].
    destruct (objs app1 !! cur) as [r|]; [|apply Emits_refl].
    destruct (String.eqb _ _); quiet. }
  assert (H3 : Emits notDone app2 app3).
  { unfold app3. destruct (_ && _)%bool; [|apply Emits_refl].
    apply Emits_tryPeerSend. intros i. discriminate. }
  assert (H4 : Emits notDone app3 app4).
  { unfold app4. destruct (negb _); [|apply Emits_refl].
    apply Emits_same. apply ctrlOut_closeFileChannels. }
  eapply Emits_trans; [exact H1|]. eapply Emits_trans; [exact H2|].
  eapply Emits_trans; [exact H3|]. eapply Emits_trans; [exact H4|]. quiet.
Qed.

Lemma Quiet_flushFileWrites b ref app :
  Emits notDone app (flushFileWrites b ref app).
Proof.
  unfold flushFileWrites.
  destruct (objs app !! ref) as [state|]; [|apply Emits_refl].
  destruct (writer state) as [w|]; [|apply Emits_refl].
  destruct (List.skipn _ _); [apply Emits_refl|].
  destruct (writeFails b); [apply Quiet_cancelIncomingFile|quiet].
Qed.

Lemma Quiet_completionUiOp b id app : Emits notDone app (completionUiOp b id app).
Proof.
  unfold completionUiOp. destruct (negb _); [apply Emits_refl|].
  destruct (incomingFiles app !! id); quiet.
Qed.

(** The completion block sends [file-done] for the transfer it completes,
    and for no other. *)
Lemma completeTransfer_emits b ref app r0 :
  objs app !! ref = Some r0 ->
  Emits (fun m => notDone m \/ m = MsgFileDone (fileId r0)) app
    (completeTransfer b ref app).
Proof.
  intros Hr0. unfold completeTransfer.
  set (app1 := match objs app !! ref with Some _ => _ | None => _ end).
  assert (H1 : Framed app app1 /\ Emits notDone app app1).
  { unfold app1. rewrite Hr0.
    destruct (writer r0); [|split; [apply Framed_refl|apply Emits_refl]].
    split.
    - eapply Framed_trans; [apply (Framed_flushFileWrites b ref)|].
      unfold Framed, snapshotOf. intros ref'. cbn [update objs set_objs].
      apply alter_snapshot. intros r1. destruct (writer r1); reflexivity.
    - eapply Emits_trans; [apply (Quiet_flushFileWrites b ref)|]. quiet. }
  destruct H1 as (HF & HQ). clearbody app1.
  pose proof (HF ref) as Hsnap. unfold snapshotOf in Hsnap. rewrite Hr0 in Hsnap.
  destruct (objs app1 !! ref) as [r|];
    [|eapply Emits_weaken; [|exact HQ]; intros m Hm; left; exact Hm].
  assert (Hid : fileId r = fileId r0) by (unfold snapshot in Hsnap; simpl in Hsnap; congruence).
  eapply Emits_trans; [eapply Emits_weaken; [|exact HQ]; intros m Hm; left; exact Hm|].
  set (app2 := match writer r with None => _ | Some _ => app1 end).
  assert (H2 : Emits (fun m => notDone m \/ m = MsgFileDone (fileId r0)) app1 app2)
    by (unfold app2; destruct (writer r); quiet).
  eapply Emits_trans; [exact H2|].
  assert (H3 : Emits (fun m => notDone m \/ m = MsgFileDone (fileId r0)) app2
                 (set_receiving None (tryPeerSend b (MsgFileDone (fileId r)) app2))).
  { eapply Emits_trans; [apply (Emits_tryPeerSend _ b (MsgFileDone (fileId r)))|quiet].
    right. rewrite Hid. reflexivity. }
  destruct (listAttached b).
  - eapply Emits_trans; [exact H3|].
    eapply Emits_weaken; [|apply Quiet_completionUiOp]. intros m Hm; left; exact Hm.
  - eapply Emits_trans; [exact H3|]. quiet.
Qed.

Lemma Quiet_acceptFile b id app : Emits notDone app (acceptFile b id app).
Proof.
  unfold acceptFile.
  destruct (Js.isEmpty (Js.trim id)); [apply Emits_refl|].
  destruct (incomingFiles app !! Js.trim id) as [ref|]; [|apply Emits_refl].
  destruct (objs app !! ref) as [state|]; [|apply Emits_refl].
  destruct (accepted state); [apply Emits_refl|].
  assert (Hsend : forall app0,
             Emits notDone app0
               (if negb (ctrlOpen b) then app0
                else match peerSend b (MsgFileAccept (Js.trim id)) app0 with
                     | Some app1 =>
                         update ref
                           (fun r => set_acceptResendTimer true
                                       (set_acceptAcked false (set_accepted true r)))
                           app1
                     | None => app0
                     end)).
  { intros app0. destruct (negb (ctrlOpen b)); [apply Emits_refl|].
    unfold peerSend.
    destruct (ctrlOpen b), (ctrlThrows b); try apply Emits_refl; try quiet.
    exists [MsgFileAccept (Js.trim id)]. split; [reflexivity|].
    constructor; [intros i; discriminate|constructor]. }
  destruct (writer state); [apply Hsend|].
  destruct (negb (hasPicker b)); [apply Emits_refl|].
  destruct (negb (pickerOk b)); [apply Emits_refl|].
  eapply Emits_trans; [|apply Hsend]. quiet.
Qed.

Lemma Quiet_flushUiOps b app : Emits notDone app (flushUiOps b app).
Proof.
  unfold flushUiOps. destruct (negb _); [apply Emits_refl|].
  assert (Hfold : forall ops app0,
             Emits notDone app0
               (List.fold_left (fun app id => completionUiOp b id app) ops app0)).
  { induction ops as [|op ops IH]; intros app0; [apply Emits_refl|].
    cbn [List.fold_left].
    eapply Emits_trans; [apply (Quiet_completionUiOp b op)|apply IH]. }
  eapply Emits_trans; [apply Hfold|quiet].
Qed.

(** [cancelOutgoingFile] sends [file-cancel] exactly when the caller asks
    for it, the transfer is active with [metaSent] set, and the control
    channel takes the message. *)
Definition cancelNotifies (b : Browser) (id : string) (notifyPeer : bool)
    (app : App) : bool :=
  (negb (Js.isEmpty (Js.trim id))
   && notifyPeer
   && match outgoingTransfers app !! Js.trim id with
      | Some state => metaSent state
      | None => false
      end
   && ctrlOpen b && negb (ctrlThrows b))%bool.

Lemma ctrlOut_cancelOutgoingFile b id notifyPeer reason app :
  ctrlOut (cancelOutgoingFile b id notifyPeer reason app)
  = ctrlOut app
    ++ (if cancelNotifies b id notifyPeer app
        then [MsgFileCancel (Js.trim id) reason] else []).
Proof.
  unfold cancelOutgoingFile, cancelNotifies.
  destruct (Js.isEmpty (Js.trim id)); cbn [negb andb];
    [rewrite List.app_nil_r; reflexivity|].
  destruct (outgoingTransfers app !! Js.trim id) as [state|] eqn:Hst.
  - rewrite (bool_decide_eq_true_2 (is_Some (Some state))) by eauto.
    cbn [negb andb outgoingTransfers set_fileAcceptEarly]. rewrite Hst.
    rewrite ctrlOut_closeFileChannels. app_fields.
    cbn [ctrlOut set_outgoingTransfers set_fileDoneWaiters set_fileAcceptWaiters].
    unfold tryPeerSend, peerSend.
    destruct notifyPeer, (metaSent state), (ctrlOpen b), (ctrlThrows b);
      cbn [andb negb default ctrlOut set_ctrlOut set_fileAcceptEarly];
      rewrite ?List.app_nil_r; reflexivity.
  - rewrite andb_false_r. cbn [andb]. rewrite List.app_nil_r.
    rewrite (bool_decide_eq_false_2 (is_Some None)) by (intros [? ?]; discriminate).
    cbn [negb andb].
    destruct (negb (bool_decide _)); [reflexivity|].
    cbn [outgoingTransfers set_fileAcceptEarly]. rewrite Hst.
    cbn [outgoingQueue]. destruct (removeFirst _ _); reflexivity.
Qed.

Lemma Quiet_cancelOutgoingFile b id notifyPeer reason app :
  Emits notDone app (cancelOutgoingFile b id notifyPeer reason app).
Proof.
  eexists. split; [apply ctrlOut_cancelOutgoingFile|].
  destruct (cancelNotifies _ _ _ _); repeat constructor. intros i. discriminate.
Qed.

Lemma quiet_no_done app app' id :
  Emits notDone app app' -> ~ List.In (MsgFileDone id) (emitted app app').
Proof.
  intros HE Hin. apply Emits_emitted in HE.
  rewrite List.Forall_forall in HE. exact (HE _ Hin id eq_refl).
Qed.

Lemma Quiet_onFileMeta id sid sc name' size' app :
  Emits notDone app (onFileMeta id sid sc name' size' app).
Proof.
  unfold onFileMeta. destruct (receiving app); [apply Emits_refl|].
  destruct (_ || _)%bool; [apply Emits_refl|quiet].
Qed.

(** A [file-done] among the messages of a [file-chunk] step comes from the
    completion block, which runs only under [received >= size]. *)
Lemma onFileChunk_done b sid seqNo chunk app id :
  List.In (MsgFileDone id) (emitted app (onFileChunk b sid seqNo chunk app)) ->
  exists ref r',
    receiving app = Some ref
    /\ objs (onFileChunk b sid seqNo chunk app) !! ref = Some r'
    /\ fileId r' = id /\ size r' <= received r'.
Proof.
  unfold onFileChunk.
  destruct (receiving app) as [ref|]; [|intros H; exfalso; revert H; apply quiet_no_done, Emits_refl].
  destruct (objs app !! ref) as [r|] eqn:Hr;
    [|intros H; exfalso; revert H; apply quiet_no_done, Emits_refl].
  destruct (cancelled r);
    [intros H; exfalso; revert H; apply quiet_no_done, Emits_refl|].
  destruct (_ && _)%bool;
    [intros H; exfalso; revert H; apply quiet_no_done, Emits_refl|].
  destruct (_ && _)%bool;
    [intros H; exfalso; revert H; apply quiet_no_done, Quiet_cancelIncomingFile|].
  set (app1 := if negb (acceptAcked r) then _ else app).
  assert (H1 : ctrlOut app1 = ctrlOut app)
    by (unfold app1; destruct (negb (acceptAcked r)); reflexivity).
  clearbody app1.
  destruct (_ && _)%bool;
    [intros H; exfalso; revert H; apply quiet_no_done, Emits_same, H1|].
  destruct (seqNo <? 0);
    [intros H; exfalso; revert H; apply quiet_no_done, Emits_same, H1|].
  destruct (seqNo <? expectedSeq r);
    [intros H; exfalso; revert H; apply quiet_no_done, Emits_same, H1|].
  destruct (expectedSeq r <? seqNo);
    [intros H; exfalso; revert H; apply quiet_no_done, Emits_same, H1|].
  set (app2 := update ref _ app1).
  assert (H2 : ctrlOut app2 = ctrlOut app) by exact H1.
  destruct (objs app2 !! ref) as [r2|] eqn:Hr2;
    [|intros H; exfalso; revert H; apply quiet_no_done, Emits_same, H2].
  destruct (Z.leb_spec (size r2) (received r2)) as [Hle|_];
    [|intros H; exfalso; revert H; apply quiet_no_done, Emits_same, H2].
  intros Hin.
  assert (Hem : emitted app (completeTransfer b ref app2)
                = emitted app2 (completeTransfer b ref app2))
    by (unfold emitted; rewrite H2; reflexivity).
  rewrite Hem in Hin.
  pose proof (Emits_emitted _ _ _ (completeTransfer_emits b ref app2 r2 Hr2)) as HF.
  rewrite List.Forall_forall in HF.
  destruct (HF _ Hin) as [Hnd|Heq]; [exfalso; exact (Hnd id eq_refl)|].
  injection Heq as ->.
  pose proof (Framed_completeTransfer b ref app2 ref) as Hsnap.
  unfold snapshotOf in Hsnap. rewrite Hr2 in Hsnap.
  destruct (objs (completeTransfer b ref app2) !! ref) as [r'|] eqn:Hfin; [|discriminate].
  exists ref, r'. split; [reflexivity|]. split; [exact Hfin|].
  unfold snapshot, progress in Hsnap. simpl in Hsnap.
  injection Hsnap as S1 S2 _ _ _ S6. rewrite S1, S2, S6. split; [reflexivity|exact Hle].
Qed.

(** C3, as the code has it. Whenever a step sends [file-done] for a
    transfer, that transfer is the one being received and its byte counter
    is at least its declared size. *)
Theorem file_done_after_all_bytes
    (b : Browser) (ev : Event) (app : App) (id : string) :
  List.In (MsgFileDone id) (emitted app (step b ev app)) ->
  exists ref r',
    receiving app = Some ref
    /\ objs (step b ev app) !! ref = Some r'
    /\ fileId r' = id /\ size r' <= received r'.
Proof.
  destruct ev as [msg|id'|id'|id'|]; cbn [step].
  - destruct msg; cbn [onPeerData]; [| | | | | | |apply onFileChunk_done];
      (intros H; exfalso; revert H; apply quiet_no_done).
    + apply Emits_refl.
    + apply Quiet_onFileMeta.
    + destruct (Js.isEmpty _); [apply Emits_refl|].
      eapply Emits_trans; [|apply Emits_tryPeerSend; intros i; discriminate].
      unfold resolveFileAccept. destruct (Js.isEmpty _); [apply Emits_refl|].
      destruct (bool_decide _); [quiet|]. destruct (bool_decide _); quiet.
    + destruct (Js.isEmpty _); [apply Emits_refl|].
      destruct (incomingFiles app !! _); quiet.
    + destruct (Js.isEmpty _); quiet.
    + destruct (Js.isEmpty _); [apply Emits_refl|].
      eapply Emits_trans; [apply Quiet_cancelOutgoingFile|apply Quiet_cancelIncomingFile].
    + destruct (receiving app) as [ref|]; [|apply Emits_refl].
      destruct (objs app !! ref) as [r|]; [|apply Emits_refl].
      destruct (_ && _)%bool; [apply Quiet_cancelIncomingFile|apply Emits_refl].
  - intros H; exfalso; revert H; apply quiet_no_done, Quiet_acceptFile.
  - intros H; exfalso; revert H; apply quiet_no_done, Quiet_cancelOutgoingFile.
  - intros H; exfalso; revert H; apply quiet_no_done, Quiet_cancelIncomingFile.
  - intros H; exfalso; revert H; apply quiet_no_done, Quiet_flushUiOps.
Qed.

(** A browser in which everything works. *)
Definition okBrowser : Browser := mkBrowser true false true true true true false.

(** The receiver has accepted the 3-byte file [f] on stream [tx]. *)
Definition acceptedApp : App :=
  run [(okBrowser, PeerData (MsgFileMeta "f" "tx" 1 "a.bin" 3));
       (okBrowser, AcceptFile "f")]
    (initialApp "me").

Lemma file_done_after_all_bytes_witness :
  exists ref r',
    receiving acceptedApp = Some ref
    /\ objs (step okBrowser (PeerData (MsgFileChunk "tx" 0 [x01; x02; x03])) acceptedApp)
       !! ref = Some r'
    /\ fileId r' = "f" /\ size r' <= received r'.
Proof.
  apply (file_done_after_all_bytes okBrowser
           (PeerData (MsgFileChunk "tx" 0 [x01; x02; x03])) acceptedApp "f").
  vm_compute. left. reflexivity.
Defined.

(** C3 as stated fails when the chunks carry more bytes than [file-meta]
    declared: [file-done] goes out with [received = 5] for a transfer of
    declared size 3. *)
Lemma file_done_with_surplus_bytes :
  exists r',
    objs (step okBrowser (PeerData (MsgFileChunk "tx" 0 [x01; x02; x03; x04; x05]))
            acceptedApp) !! O = Some r'
    /\ emitted acceptedApp
         (step okBrowser (PeerData (MsgFileChunk "tx" 0 [x01; x02; x03; x04; x05]))
            acceptedApp)
       = [MsgFileDone "f"]
    /\ fileId r' = "f" /\ size r' = 3 /\ received r' = 5.
Proof.
  eexists. split; [vm_compute; reflexivity|].
  split; [vm_compute; reflexivity|].
  repeat split; reflexivity.
Qed.

(** The scenario E2E-3 of the specification in small: chunk 1 arrives
    first and is kept, chunk 0 commits both. *)
Example reordered_chunks_commit_in_order :
  (committed <$>
     objs (run [(okBrowser, PeerData (MsgFileChunk "tx:1" 1 [x03]));
                (okBrowser, PeerData (MsgFileChunk "tx" 0 [x01; x02]))]
             acceptedApp) !! O)
  = Some [(0, [x01; x02]); (1, [x03])].
Proof. vm_compute. reflexivity. Qed.

(** *** Cancelling an outgoing transfer (C7) *)

(** C7, as the code has it. Cancelling an outgoing transfer sends
    [file-cancel] if and only if the caller asked to notify the peer, the
    transfer is active with [file-meta] recorded as sent, and the control
    channel is open and takes the message; and it sends nothing else. *)
Theorem cancel_outgoing_notifies_peer
    (b : Browser) (id reason : string) (notifyPeer : bool) (app : App) :
  emitted app (cancelOutgoingFile b id notifyPeer reason app)
  = if cancelNotifies b id notifyPeer app
    then [MsgFileCancel (Js.trim id) reason] else [].
Proof.
  unfold emitted. rewrite ctrlOut_cancelOutgoingFile.
  rewrite List.skipn_app, List.skipn_all, Nat.sub_diag. reflexivity.
Qed.

(** [doSendFile] records [metaSent] right after it has handed [file-meta]
    to the control channel. *)
Lemma doSendFileMeta_records b id sc app app' name' bytes state :
  stagedFiles app !! id = Some (name', bytes) ->
  outgoingTransfers app !! id = Some state ->
  doSendFileMeta b id sc app = Some app' ->
  (metaSent <$> outgoingTransfers app' !! id) = Some true
  /\ emitted app app'
     = if ctrlOpen b
       then [MsgFileMeta id (fileTxId app) sc name' (byteLength bytes)] else [].
Proof.
  intros Hs Ho. unfold doSendFileMeta, peerSend, emitted. rewrite Hs, Ho.
  destruct (aborted state); [discriminate|].
  destruct (ctrlOpen b); [destruct (ctrlThrows b); [discriminate|]|];
    intros [= <-]; app_fields; cbn [outgoingTransfers ctrlOut set_ctrlOut set_outgoingTransfers];
    rewrite lookup_alter_eq, Ho; split; try reflexivity.
  - rewrite List.skipn_app, List.skipn_all, Nat.sub_diag. reflexivity.
  - rewrite List.skipn_all. reflexivity.
Qed.

(** The sender has staged the file [f1] and sent its [file-meta]. *)
Definition metaSentApp : option App :=
  app0 ← doSendFileBegin okBrowser "f1"
            (set_stagedFiles {["f1" := ("a.bin", [x01; x02; x03])]} (initialApp "me"));
  doSendFileMeta okBrowser "f1" 1 app0.

(** C7 as stated fails when the cancel is the peer's: [file-meta] was
    sent, the transfer is cancelled, and no [file-cancel] goes back. *)
Lemma peer_cancel_is_not_echoed :
  exists app,
    metaSentApp = Some app
    /\ ctrlOut app = [MsgFileMeta "f1" "me" 1 "a.bin" 3]
    /\ (metaSent <$> outgoingTransfers app !! "f1") = Some true
    /\ emitted app (onPeerData okBrowser (MsgFileCancel "f1" "stop") app) = []
    /\ (aborted <$>
          outgoingTransfers (onPeerData okBrowser (MsgFileCancel "f1" "stop") app)
          !! "f1") = Some true.
Proof.
  eexists. split; [vm_compute; reflexivity|].
  repeat split; vm_compute; reflexivity.
Qed.

End MainSpec.

Module SignalSpec.
Import PeerClient.

(** *** Arithmetic of the 32-bit buffer *)

Lemma pow2_pos k : 0 <= k -> 0 < 2 ^ k.
Proof. intros H. apply Z.pow_pos_nonneg; lia. Qed.

(** Only the low 32 bits of a number survive [ToInt32], and they all do. *)
Lemma toInt32_mod x k : 0 <= k <= 32 -> toInt32 x mod 2 ^ k = x mod 2 ^ k.
Proof.
  intros Hk. unfold toInt32.
  pose proof (Z.div_mod (x + 2147483648) 4294967296 ltac:(lia)) as Hdm.
  replace ((x + 2147483648) mod 4294967296 - 2147483648)
    with (x + (- ((x + 2147483648) / 4294967296) * 2 ^ (32 - k)) * 2 ^ k).
  - apply Z_mod_plus_full.
  - rewrite <- Z.mul_assoc, <- Z.pow_add_r by lia.
    replace (32 - k + k) with 32 by lia.
    change (2 ^ 32) with 4294967296. lia.
Qed.

Lemma lor_low X v w :
  0 <= w -> 0 <= v < 2 ^ w -> X mod 2 ^ w = 0 -> Z.lor X v = X + v.
Proof.
  intros Hw Hv HX.
  assert (Hland : Z.land X v = 0).
  { apply Z.bits_inj'. intros n Hn. rewrite Z.land_spec, Z.bits_0.
    destruct (Z.lt_ge_cases n w) as [Hlt|Hge].
    - rewrite <- (Z.mod_pow2_bits_low X w n Hlt), HX, Z.bits_0. reflexivity.
    - rewrite <- (Z.mod_small v (2 ^ w) Hv).
      rewrite Z.mod_pow2_bits_high by lia. apply andb_false_r. }
  rewrite (Z.add_nocarry_lxor _ _ Hland). symmetry. apply Z.lxor_lor. exact Hland.
Qed.

(** Pushing [w] fresh bits below the [bits] pending ones of the buffer. *)
Lemma push_bits buffer bits v w :
  0 <= bits -> 0 <= w -> bits + w <= 32 -> 0 <= v < 2 ^ w ->
  Z.lor (shiftLeft buffer w) v mod 2 ^ (bits + w)
  = (buffer mod 2 ^ bits) * 2 ^ w + v.
Proof.
  intros Hb Hw Hsum Hv. unfold shiftLeft.
  rewrite Z.shiftl_mul_pow2 by exact Hw.
  pose proof (pow2_pos w Hw) as Hpw. pose proof (pow2_pos bits Hb) as Hpb.
  assert (HX : toInt32 (buffer * 2 ^ w) mod 2 ^ w = 0).
  { rewrite toInt32_mod by lia. apply Z_mod_mult. }
  rewrite (lor_low _ v w Hw Hv HX).
  rewrite <- Zplus_mod_idemp_l, toInt32_mod by lia.
  rewrite Z.pow_add_r by lia.
  rewrite Z.mul_mod_distr_r by lia.
  apply Z.mod_small.
  pose proof (Z.mod_pos_bound buffer (2 ^ bits) Hpb). nia.
Qed.

(** Taking the [w] bits above the low [k] ones. *)
Lemma take_bits buffer k w :
  0 <= k -> 0 <= w ->
  Z.land (shiftRight buffer k) (Z.ones w) = (buffer / 2 ^ k) mod 2 ^ w
  /\ buffer mod 2 ^ (k + w)
     = ((buffer / 2 ^ k) mod 2 ^ w) * 2 ^ k + buffer mod 2 ^ k.
Proof.
  intros Hk Hw. unfold shiftRight.
  rewrite Z.land_ones, Z.shiftr_div_pow2 by lia. split; [reflexivity|].
  rewrite Z.pow_add_r by lia.
  rewrite Z.rem_mul_r by (pose proof (pow2_pos k Hk); pose proof (pow2_pos w Hw); lia).
  lia.
Qed.

(** *** Bytes and digits as numbers *)

Lemma byteZ_range b : 0 <= byteZ b < 256.
Proof. unfold byteZ. pose proof (Byte.to_N_bounded b). lia. Qed.

Lemma byteZ_byteOfZ x : 0 <= x < 256 -> byteZ (byteOfZ x) = x.
Proof.
  intros Hx. unfold byteZ, byteOfZ.
  destruct (Byte.of_N (Z.to_N x)) as [b|] eqn:Hb.
  - apply Byte.to_of_N in Hb. simpl. rewrite Hb. lia.
  - apply Byte.of_N_None_iff in Hb. lia.
Qed.

Lemma byteZ_inj b1 b2 : byteZ b1 = byteZ b2 -> b1 = b2.
Proof.
  unfold byteZ. intros H.
  assert (Hn : Byte.to_N b1 = Byte.to_N b2) by lia.
  pose proof (Byte.of_to_N b1) as H1. rewrite Hn, Byte.of_to_N in H1. congruence.
Qed.

(** The number a byte string spells, most significant byte first. *)
Definition value256 (l : list byte) : Z :=
  List.fold_left (fun acc b => acc * 256 + byteZ b) l 0.

Lemma value256_snoc l b : value256 (l ++ [b]) = value256 l * 256 + byteZ b.
Proof. unfold value256. rewrite List.fold_left_app. reflexivity. Qed.

Lemma value256_inj l1 l2 :
  List.length l1 = List.length l2 -> value256 l1 = value256 l2 -> l1 = l2.
Proof.
  revert l2. induction l1 as [|b1 l1 IH] using List.rev_ind; intros l2 Hlen Hval.
  - destruct l2; [reflexivity|discriminate].
  - destruct l2 as [|b2 l2] using List.rev_ind.
    + rewrite List.length_app in Hlen. simpl in Hlen. lia.
    + clear IHl2. rewrite !List.length_app in Hlen. simpl in Hlen.
      rewrite !value256_snoc in Hval.
      pose proof (byteZ_range b1). pose proof (byteZ_range b2).
      assert (Hb : byteZ b1 = byteZ b2) by lia.
      assert (Hv : value256 l1 = value256 l2) by lia.
      rewrite (byteZ_inj _ _ Hb), (IH l2); [reflexivity|lia|exact Hv].
Qed.

(** The number a base-32 string spells, 5 bits a character. *)
Fixpoint value32From (acc : Z) (s : string) : Z :=
  match s with
  | EmptyString => acc
  | String c t => value32From (acc * 32 + BASE32_LOOKUP (charCode c)) t
  end.

Definition value32 (s : string) : Z := value32From 0 s.

Lemma value32From_push acc s c :
  value32From acc (pushChar s c)
  = value32From acc s * 32 + BASE32_LOOKUP (charCode c).
Proof.
  revert acc. induction s as [|d s IH]; intros acc; [reflexivity|].
  cbn. apply IH.
Qed.

Lemma length_pushChar s c : String.length (pushChar s c) = S (String.length s).
Proof. induction s as [|d s IH]; cbn; [reflexivity|]. rewrite <- IH. reflexivity. Qed.

(** *** The alphabet *)

Definition isAlphabetChar (c : ascii) : bool :=
  (0 <=? BASE32_LOOKUP (charCode c))%Z.

Lemma alphabetAt_lookup v :
  0 <= v < 32 ->
  BASE32_LOOKUP (charCode (alphabetAt v)) = v
  /\ isAlphabetChar (alphabetAt v) = true.
Proof.
  intros Hv.
  assert (Hn : exists n : nat, (n < 32)%nat /\ v = Z.of_nat n)
    by (exists (Z.to_nat v); lia).
  destruct Hn as (n & Hn & ->).
  do 32 (destruct n as [|n]; [split; vm_compute; reflexivity|]). lia.
Qed.

(** An alphabet character is an upper-case letter or a digit: it is not
    white space, not the padding sign, and upper-casing keeps it. *)
Lemma alphabet_char_plain c :
  isAlphabetChar c = true ->
  Js.upperChar c = c /\ Ascii.eqb "="%char c = false
  /\ Js.isWhiteSpace c = false
  /\ ((charCode c =? 10) || (charCode c =? 13) || (charCode c =? 9)
      || (charCode c =? 32))%bool = false
  /\ (charCode c <? 256)%Z = true
  /\ 0 <= BASE32_LOOKUP (charCode c) < 32.
Proof.
  destruct c as [[] [] [] [] [] [] [] []]; vm_compute; intros H;
    try discriminate H; repeat split; congruence.
Qed.

Lemma allChars_pushChar p s c :
  Js.allChars p (pushChar s c) = (Js.allChars p s && p c)%bool.
Proof.
  unfold pushChar. induction s as [|d s IH]; simpl; [apply andb_true_r|].
  rewrite IH. apply andb_assoc.
Qed.

(** *** The encoder *)

(** Between two bytes: [n] bytes spelling [V] are in, the characters out
    spell all of [V] but its last [bits] bits, and those are the low bits
    of the buffer. *)
Definition EncInv (n : nat) (V : Z) (buffer bits : Z) (out : string) : Prop :=
  0 <= bits
  /\ 8 * Z.of_nat n = 5 * Z.of_nat (String.length out) + bits
  /\ V = value32 out * 2 ^ bits + buffer mod 2 ^ bits
  /\ Js.allChars isAlphabetChar out = true.

Lemma encodeDrain_spec fuel n V buffer bits out :
  EncInv n V buffer bits out -> bits < 5 * (Z.of_nat fuel + 1) ->
  EncInv n V buffer (encodeDrain fuel buffer bits out).1
    (encodeDrain fuel buffer bits out).2
  /\ (encodeDrain fuel buffer bits out).1 < 5.
Proof.
  revert bits out. induction fuel as [|fuel IH]; intros bits out HI Hfuel.
  - cbn. split; [exact HI|lia].
  - cbn [encodeDrain]. destruct (Z.leb_spec 5 bits) as [Hge|Hlt];
      [|cbn; split; [exact HI|lia]].
    apply IH; [|lia].
    destruct HI as (Hb & Hlen & HV & Hal).
    set (bits1 := bits - 5).
    destruct (take_bits buffer bits1 5 ltac:(lia) ltac:(lia)) as (Hland & Hsplit).
    change (Z.ones 5) with 31 in Hland. rewrite Hland.
    set (v := (buffer / 2 ^ bits1) mod 2 ^ 5) in *.
    assert (Hv : 0 <= v < 32) by (apply Z.mod_pos_bound; reflexivity).
    destruct (alphabetAt_lookup v Hv) as (Hlook & Hchar).
    repeat split.
    + lia.
    + rewrite length_pushChar. lia.
    + unfold value32. rewrite value32From_push, Hlook. fold (value32 out).
      rewrite HV. replace bits with (bits1 + 5) by lia.
      rewrite Hsplit, Z.pow_add_r by lia. change (2 ^ 5) with 32. ring.
    + rewrite allChars_pushChar, Hal, Hchar. reflexivity.
Qed.

Lemma encodeLoop_spec data n V buffer bits out :
  EncInv n V buffer bits out -> bits < 5 ->
  let r := encodeLoop data buffer bits out in
  EncInv (n + List.length data)
    (List.fold_left (fun acc b => acc * 256 + byteZ b) data V) r.1.1 r.1.2 r.2
  /\ r.1.2 < 5.
Proof.
  revert n V buffer bits out.
  induction data as [|b data IH]; intros n V buffer bits out HI Hlt.
  - cbn. rewrite Nat.add_0_r. split; [exact HI|exact Hlt].
  - cbn [encodeLoop List.fold_left List.length].
    set (buffer1 := Z.lor (shiftLeft buffer 8) (byteZ b)).
    assert (HI1 : EncInv (S n) (V * 256 + byteZ b) buffer1 (bits + 8) out).
    { destruct HI as (Hb & Hlen & HV & Hal). repeat split.
      - lia.
      - lia.
      - unfold buffer1.
        rewrite (push_bits buffer bits (byteZ b) 8) by (try lia; apply byteZ_range).
        rewrite HV, Z.pow_add_r by lia. change (2 ^ 8) with 256. ring.
      - exact Hal. }
    destruct (encodeDrain_spec (Z.to_nat (bits + 8)) (S n) (V * 256 + byteZ b)
                buffer1 (bits + 8) out HI1) as (HI2 & Hlt2).
    { destruct HI as (Hb & _). lia. }
    destruct (encodeDrain (Z.to_nat (bits + 8)) buffer1 (bits + 8) out)
      as [bits2 out2]. cbn [fst snd] in HI2, Hlt2.
    replace (n + S (List.length data))%nat with (S n + List.length data)%nat by lia.
    apply IH; assumption.
Qed.

(** What [base32EncodeBytes] returns: alphabet characters only, spelling
    the bytes followed by [pad] zero bits, [pad < 5]. *)
Lemma base32EncodeBytes_spec data :
  exists pad,
    0 <= pad < 5
    /\ 5 * Z.of_nat (String.length (base32EncodeBytes data))
       = 8 * Z.of_nat (List.length data) + pad
    /\ value32 (base32EncodeBytes data) = value256 data * 2 ^ pad
    /\ Js.allChars isAlphabetChar (base32EncodeBytes data) = true.
Proof.
  unfold base32EncodeBytes.
  assert (HI0 : EncInv 0 0 0 0 EmptyString) by (repeat split; cbn; lia).
  destruct (encodeLoop_spec data O 0 0 0 EmptyString HI0 ltac:(lia)) as (HI & Hlt).
  fold (value256 data) in HI.
  destruct (encodeLoop data 0 0 EmptyString) as [[buffer bits] out].
  cbn [fst snd Nat.add] in HI, Hlt.
  destruct HI as (Hb & Hlen & HV & Hal).
  destruct (Z.ltb_spec 0 bits) as [Hpos|Hzero].
  - exists (5 - bits).
    assert (Hland : Z.land (shiftLeft buffer (5 - bits)) 31
                    = (buffer mod 2 ^ bits) * 2 ^ (5 - bits)).
    { change 31 with (Z.ones 5). rewrite Z.land_ones by lia.
      unfold shiftLeft. rewrite toInt32_mod, Z.shiftl_mul_pow2 by lia.
      replace (2 ^ 5) with (2 ^ bits * 2 ^ (5 - bits))
        by (rewrite <- Z.pow_add_r by lia; f_equal; lia).
      apply Z.mul_mod_distr_r; apply Z.pow_nonzero; lia. }
    rewrite Hland.
    set (v := (buffer mod 2 ^ bits) * 2 ^ (5 - bits)).
    assert (Hv : 0 <= v < 32).
    { unfold v.
      pose proof (Z.mod_pos_bound buffer (2 ^ bits) (pow2_pos bits Hb)).
      pose proof (pow2_pos (5 - bits) ltac:(lia)).
      assert (2 ^ bits * 2 ^ (5 - bits) = 32)
        by (rewrite <- Z.pow_add_r by lia; replace (bits + (5 - bits)) with 5 by lia;
            reflexivity).
      nia. }
    destruct (alphabetAt_lookup v Hv) as (Hlook & Hchar).
    repeat split; try lia.
    + rewrite length_pushChar. lia.
    + unfold value32. rewrite value32From_push, Hlook. fold (value32 out).
      rewrite HV. unfold v.
      replace 32 with (2 ^ bits * 2 ^ (5 - bits))
        by (rewrite <- Z.pow_add_r by lia; replace (bits + (5 - bits)) with 5 by lia;
            reflexivity).
      ring.
    + rewrite allChars_pushChar, Hal, Hchar. reflexivity.
  - exists 0. assert (bits = 0) by lia. subst bits.
    repeat split; try lia.
    + rewrite HV. change (2 ^ 0) with 1. rewrite Z.mod_1_r. ring.
    + exact Hal.
Qed.

(** *** The decoder *)

Definition DecInv (n : nat) (V : Z) (buffer bits : Z) (out : list byte) : Prop :=
  0 <= bits
  /\ 5 * Z.of_nat n = 8 * Z.of_nat (List.length out) + bits
  /\ V = value256 out * 2 ^ bits + buffer mod 2 ^ bits.

Lemma decodeDrain_spec fuel n V buffer bits out :
  DecInv n V buffer bits out -> bits < 8 * (Z.of_nat fuel + 1) ->
  DecInv n V buffer (decodeDrain fuel buffer bits out).1
    (decodeDrain fuel buffer bits out).2
  /\ (decodeDrain fuel buffer bits out).1 < 8.
Proof.
  revert bits out. induction fuel as [|fuel IH]; intros bits out HI Hfuel.
  - cbn. split; [exact HI|lia].
  - cbn [decodeDrain]. destruct (Z.leb_spec 8 bits) as [Hge|Hlt];
      [|cbn; split; [exact HI|lia]].
    apply IH; [|lia].
    destruct HI as (Hb & Hlen & HV).
    set (bits1 := bits - 8).
    destruct (take_bits buffer bits1 8 ltac:(lia) ltac:(lia)) as (Hland & Hsplit).
    change (Z.ones 8) with 255 in Hland. rewrite Hland.
    set (v := (buffer / 2 ^ bits1) mod 2 ^ 8) in *.
    assert (Hv : 0 <= v < 256) by (apply Z.mod_pos_bound; reflexivity).
    repeat split.
    + lia.
    + rewrite List.length_app. cbn [List.length]. lia.
    + rewrite value256_snoc, (byteZ_byteOfZ v Hv), HV.
      replace bits with (bits1 + 8) by lia.
      rewrite Hsplit, Z.pow_add_r by lia. change (2 ^ 8) with 256. ring.
Qed.

Lemma decodeLoop_spec s n V buffer bits out :
  Js.allChars isAlphabetChar s = true ->
  DecInv n V buffer bits out -> bits < 8 ->
  exists buffer' bits' out',
    decodeLoop s buffer bits out = Some out'
    /\ DecInv (n + String.length s) (value32From V s) buffer' bits' out'
    /\ bits' < 8.
Proof.
  revert n V buffer bits out.
  induction s as [|c s IH]; intros n V buffer bits out Hal HI Hlt.
  - exists buffer, bits, out. cbn. rewrite Nat.add_0_r.
    split; [reflexivity|]. split; [exact HI|exact Hlt].
  - cbn [Js.allChars] in Hal. apply andb_true_iff in Hal. destruct Hal as (Hc & Hal).
    destruct (alphabet_char_plain c Hc) as (_ & _ & _ & Hws & H256 & Hval).
    cbn [decodeLoop value32From String.length].
    rewrite Hws, H256.
    destruct (Z.ltb_spec (BASE32_LOOKUP (charCode c)) 0) as [|_]; [lia|].
    set (val := BASE32_LOOKUP (charCode c)) in *.
    set (buffer1 := Z.lor (shiftLeft buffer 5) val).
    assert (HI1 : DecInv (S n) (V * 32 + val) buffer1 (bits + 5) out).
    { destruct HI as (Hb & Hlen & HV). repeat split.
      - lia.
      - lia.
      - unfold buffer1.
        rewrite (push_bits buffer bits val 5) by (try lia; exact Hval).
        rewrite HV, Z.pow_add_r by lia. change (2 ^ 5) with 32. ring. }
    destruct (decodeDrain_spec (Z.to_nat (bits + 5)) (S n) (V * 32 + val)
                buffer1 (bits + 5) out HI1) as (HI2 & Hlt2).
    { destruct HI as (Hb & _). lia. }
    destruct (decodeDrain (Z.to_nat (bits + 5)) buffer1 (bits + 5) out)
      as [bits2 out2]. cbn [fst snd] in HI2, Hlt2.
    replace (n + S (String.length s))%nat with (S n + String.length s)%nat by lia.
    apply IH; assumption.
Qed.

Lemma toUpperCase_alphabet s :
  Js.allChars isAlphabetChar s = true -> Js.toUpperCase s = s.
Proof.
  induction s as [|c s IH]; cbn; [reflexivity|].
  intros H. apply andb_true_iff in H. destruct H as (Hc & Hs).
  destruct (alphabet_char_plain c Hc) as (Hup & _). rewrite Hup, (IH Hs). reflexivity.
Qed.

Lemma dropTrailing_none p s :
  Js.allChars (fun c => negb (p c)) s = true -> Js.dropTrailing p s = s.
Proof.
  induction s as [|c s IH]; cbn; [reflexivity|].
  intros H. apply andb_true_iff in H. destruct H as (Hc & Hs).
  rewrite (IH Hs). destruct s; [|reflexivity].
  destruct (p c); [discriminate|reflexivity].
Qed.

Lemma allChars_impl (p q : ascii -> bool) s :
  (forall c, p c = true -> q c = true) ->
  Js.allChars p s = true -> Js.allChars q s = true.
Proof.
  intros Hpq. induction s as [|c s IH]; cbn; [reflexivity|].
  intros H. apply andb_true_iff in H. destruct H as (Hc & Hs).
  rewrite (Hpq c Hc), (IH Hs). reflexivity.
Qed.

(** Decoding inverts encoding, for every byte string. *)
Lemma base32_roundtrip data :
  base32DecodeToBytes (base32EncodeBytes data) = Some data.
Proof.
  destruct (base32EncodeBytes_spec data) as (pad & Hpad & Hlen & Hval & Hal).
  unfold base32DecodeToBytes.
  rewrite (toUpperCase_alphabet _ Hal).
  rewrite dropTrailing_none.
  2:{ revert Hal. apply allChars_impl. intros c Hc.
      destruct (alphabet_char_plain c Hc) as (_ & Heq & _). rewrite Heq. reflexivity. }
  assert (HI0 : DecInv 0 0 0 0 []) by (repeat split; cbn; lia).
  destruct (decodeLoop_spec (base32EncodeBytes data) O 0 0 0 [] Hal HI0 ltac:(lia))
    as (buffer' & bits' & out' & Hdec & (Hb & Hlen' & HV) & Hlt).
  rewrite Hdec. f_equal. symmetry.
  fold (value32 (base32EncodeBytes data)) in HV. cbn [Nat.add] in Hlen'.
  assert (Hbits : bits' = pad) by lia.
  assert (Hn : List.length data = List.length out') by lia.
  subst bits'.
  apply value256_inj; [exact Hn|].
  rewrite Hval in HV.
  pose proof (Z.mod_pos_bound buffer' (2 ^ pad) (pow2_pos pad Hb)) as Hrem.
  pose proof (pow2_pos pad Hb) as Hpow.
  assert (Hdiv : value256 data = (value256 out' * 2 ^ pad + buffer' mod 2 ^ pad) / 2 ^ pad)
    by (rewrite <- HV; symmetry; apply Z.div_mul; lia).
  rewrite Hdiv. rewrite Z.div_add_l by lia. rewrite Z.div_small by exact Hrem. ring.
Qed.

(** *** Signals (C2) *)

(** The payload [encodeSignal] serialises for a description. *)
Definition signalPayload (cfg : WebrtcConfig) (d : SessionDescription) : SignalJson :=
  mkSignalJson (descType d)
    (if useLanIpOverride cfg
     then rewriteMdnsHostCandidatesInSdp (sdp d) (Some (lanIpOverride cfg))
     else sdp d)
    (mkSignalCfg (flag (useStun cfg)) (flag (useUnorderedFileChannel cfg))
       (flag (useFastTransfer cfg))).

Lemma trim_signal (prefix body : string) :
  Js.allChars (fun c => negb (Js.isWhiteSpace c)) prefix = true ->
  prefix <> EmptyString ->
  Js.allChars isAlphabetChar body = true ->
  Js.trim (prefix ++ body) = (prefix ++ body)%string.
Proof.
  intros Hp Hne Hb. unfold Js.trim.
  assert (Hall : Js.allChars (fun c => negb (Js.isWhiteSpace c)) (prefix ++ body) = true).
  { clear Hne. induction prefix as [|c prefix IH]; simpl.
    - revert Hb. apply allChars_impl. intros c Hc.
      destruct (alphabet_char_plain c Hc) as (_ & _ & Hws & _). rewrite Hws. reflexivity.
    - simpl in Hp. apply andb_true_iff in Hp. destruct Hp as (Hc & Hp).
      rewrite Hc, (IH Hp). reflexivity. }
  assert (Hlead : Js.dropLeading Js.isWhiteSpace (prefix ++ body) = (prefix ++ body)%string).
  { destruct prefix as [|c prefix]; [congruence|]. simpl in *.
    apply andb_true_iff in Hp. destruct Hp as (Hc & _).
    destruct (Js.isWhiteSpace c); [discriminate|reflexivity]. }
  rewrite Hlead. apply dropTrailing_none. exact Hall.
Qed.






(** A stand-in for the browser's codecs, good for one payload: "JSON" is
    the description's bytes and parses back to that payload, "gzip"
    reverses the bytes. *)
Definition loopback (payload : SignalJson) : Platform :=
  mkPlatform true
    (fun bytes => Some (List.rev bytes))
    (fun bytes => Some (List.rev bytes))
    (fun json => List.map byte_of_ascii (list_ascii_of_string (json_s json)))
    (fun _ => Some payload)
    (fun _ => None).

Definition sampleConfig : WebrtcConfig :=
  mkWebrtcConfig true true true true false EmptyString.

Definition sampleOffer : SessionDescription :=
  mkSessionDescription "offer" "v=0 o=- 42 2 IN IP4 127.0.0.1".


Example encode_offer_compressed :
  encodeSignal (loopback (signalPayload sampleConfig sampleOffer)) sampleConfig
    (Some (mkSessionDescription "offer" "hi"))
  = Some "SHR2:NFUA".
Proof. vm_compute. reflexivity. Qed.

End SignalSpec.

(* ===================================================================== *)
(** * Part III. Further properties of the code                           *)
(* ===================================================================== *)

(** ** Facts about the string operations *)
Module JsFacts.

Local Arguments String.append : simpl nomatch.

Definition notWhite (c : ascii) : bool := negb (Js.isWhiteSpace c).

Lemma append_nil_r (s : string) : (s ++ "")%string = s.
Proof. induction s as [|c s IH]; simpl; [reflexivity|]. rewrite IH. reflexivity. Qed.

Lemma append_assoc (s t u : string) : ((s ++ t) ++ u = s ++ (t ++ u))%string.
Proof. induction s as [|c s IH]; simpl; [reflexivity|]. rewrite IH. reflexivity. Qed.

Lemma allChars_app p s t :
  Js.allChars p (s ++ t) = (Js.allChars p s && Js.allChars p t)%bool.
Proof.
  induction s as [|c s IH]; simpl; [reflexivity|].
  rewrite IH, andb_assoc. reflexivity.
Qed.

(** *** Trimming *)

Lemma dropLeading_all p s : Js.allChars p s = true -> Js.dropLeading p s = "".
Proof.
  induction s as [|c s IH]; simpl; [reflexivity|].
  intros H. apply andb_true_iff in H. destruct H as (Hc & Hs).
  rewrite Hc. apply IH. exact Hs.
Qed.

Lemma dropLeading_app_all p w s :
  Js.allChars p w = true -> Js.dropLeading p (w ++ s) = Js.dropLeading p s.
Proof.
  induction w as [|c w IH]; simpl; [reflexivity|].
  intros H. apply andb_true_iff in H. destruct H as (Hc & Hw).
  rewrite Hc. apply IH. exact Hw.
Qed.

Lemma dropTrailing_all p s : Js.allChars p s = true -> Js.dropTrailing p s = "".
Proof.
  induction s as [|c s IH]; simpl; [reflexivity|].
  intros H. apply andb_true_iff in H. destruct H as (Hc & Hs).
  rewrite (IH Hs), Hc. reflexivity.
Qed.

Lemma dropTrailing_app_all p s w :
  Js.allChars p w = true -> Js.dropTrailing p (s ++ w) = Js.dropTrailing p s.
Proof.
  intros Hw. induction s as [|c s IH]; simpl.
  - apply dropTrailing_all. exact Hw.
  - rewrite IH. reflexivity.
Qed.

(** What [dropTrailing] leaves does not end in a dropped character, so
    dropping again changes nothing. *)
Lemma dropTrailing_idem p s :
  Js.dropTrailing p (Js.dropTrailing p s) = Js.dropTrailing p s.
Proof.
  induction s as [|c s IH]; simpl; [reflexivity|].
  destruct (Js.dropTrailing p s) as [|d r] eqn:E.
  - destruct (p c) eqn:Hc; simpl; [reflexivity|]. rewrite Hc. reflexivity.
  - simpl in *. rewrite IH. reflexivity.
Qed.

Lemma dropLeading_idem p s :
  Js.dropLeading p (Js.dropLeading p s) = Js.dropLeading p s.
Proof.
  induction s as [|c s IH]; simpl; [reflexivity|].
  destruct (p c) eqn:Hc; [exact IH|]. simpl. rewrite Hc. reflexivity.
Qed.

(** The first character of [dropTrailing p s] is the first of [s]. *)
Lemma dropTrailing_head p c s :
  p c = false -> exists r, Js.dropTrailing p (String c s) = String c r.
Proof.
  intros Hc. simpl. destruct (Js.dropTrailing p s); [rewrite Hc|]; eexists; reflexivity.
Qed.

Lemma dropLeading_head p s :
  Js.dropLeading p s = "" \/ exists c r, Js.dropLeading p s = String c r /\ p c = false.
Proof.
  induction s as [|c s IH]; simpl; [left; reflexivity|].
  destruct (p c) eqn:Hc; [exact IH|]. right. exists c, s. split; [reflexivity|exact Hc].
Qed.

Lemma dropLeading_fix p c r : p c = false -> Js.dropLeading p (String c r) = String c r.
Proof. intros H. simpl. rewrite H. reflexivity. Qed.

Lemma trim_idem s : Js.trim (Js.trim s) = Js.trim s.
Proof.
  unfold Js.trim.
  destruct (dropLeading_head Js.isWhiteSpace s) as [E|(c & r & E & Hc)]; rewrite E.
  - reflexivity.
  - destruct (dropTrailing_head Js.isWhiteSpace c r Hc) as (r' & E').
    rewrite E'. rewrite (dropLeading_fix _ _ _ Hc). rewrite <- E'.
    apply dropTrailing_idem.
Qed.

Lemma trim_around w1 s w2 :
  Js.allChars Js.isWhiteSpace w1 = true ->
  Js.allChars Js.isWhiteSpace w2 = true ->
  Js.trim (w1 ++ s ++ w2) = Js.trim s.
Proof.
  intros H1 H2. unfold Js.trim. rewrite (dropLeading_app_all _ _ _ H1).
  destruct (dropLeading_head Js.isWhiteSpace s) as [E|(c & r & E & Hc)].
  - rewrite E.
    assert (Hs : Js.allChars Js.isWhiteSpace s = true).
    { clear -E. induction s as [|c s IH]; simpl in *; [reflexivity|].
      destruct (Js.isWhiteSpace c); [apply IH; exact E|discriminate]. }
    rewrite dropLeading_all by (rewrite allChars_app, Hs, H2; reflexivity).
    reflexivity.
  - assert (Hsplit : exists w, s = (w ++ String c r)%string
                               /\ Js.allChars Js.isWhiteSpace w = true).
    { clear -E. induction s as [|d s IH]; simpl in *; [discriminate|].
      destruct (Js.isWhiteSpace d) eqn:Hd.
      - destruct (IH E) as (w & -> & Hw). exists (String d w). simpl.
        rewrite Hd, Hw. split; reflexivity.
      - exists "". split; [simpl; congruence|reflexivity]. }
    destruct Hsplit as (w & -> & Hw).
    rewrite append_assoc, !(dropLeading_app_all _ _ _ Hw).
    change (String c r ++ w2)%string with (String c (r ++ w2)).
    rewrite !(dropLeading_fix _ _ _ Hc).
    change (String c (r ++ w2)) with (String c r ++ w2)%string.
    apply dropTrailing_app_all. exact H2.
Qed.

(** A string that starts and ends with characters that are not white space
    is its own trim. *)
Lemma dropTrailing_app_keep p s t :
  Js.dropTrailing p t <> "" ->
  Js.dropTrailing p (s ++ t) = (s ++ Js.dropTrailing p t)%string.
Proof.
  intros Ht. induction s as [|c s IH]; simpl; [reflexivity|].
  rewrite IH. destruct (s ++ Js.dropTrailing p t)%string eqn:E; [|reflexivity].
  destruct s; simpl in E; [contradiction|discriminate].
Qed.

Lemma trim_head s :
  Js.trim s = "" \/ exists c r, Js.trim s = String c r /\ Js.isWhiteSpace c = false.
Proof.
  unfold Js.trim.
  destruct (dropLeading_head Js.isWhiteSpace s) as [E|(c & r & E & Hc)]; rewrite E.
  - left. reflexivity.
  - right. destruct (dropTrailing_head Js.isWhiteSpace c r Hc) as (r' & E').
    exists c, r'. split; [exact E'|exact Hc].
Qed.

(** A trimmed, non-empty string followed by characters that are not white
    space is its own trim. *)
Lemma trim_app_plain s t :
  Js.trim s <> "" -> t <> "" -> Js.allChars notWhite t = true ->
  Js.trim (Js.trim s ++ t) = (Js.trim s ++ t)%string.
Proof.
  intros Hs Ht Hplain.
  destruct (trim_head s) as [E|(c & r & E & Hc)]; [contradiction|].
  assert (Hfix : Js.dropTrailing Js.isWhiteSpace (Js.trim s) = Js.trim s).
  { unfold Js.trim. apply dropTrailing_idem. }
  unfold Js.trim at 1. rewrite E. change (String c r ++ t)%string with (String c (r ++ t)).
  rewrite (dropLeading_fix _ _ _ Hc).
  change (String c (r ++ t)) with (String c r ++ t)%string.
  rewrite dropTrailing_app_keep.
  - rewrite (SignalSpec.dropTrailing_none _ _ Hplain). reflexivity.
  - rewrite (SignalSpec.dropTrailing_none _ _ Hplain). exact Ht.
Qed.

(** *** Prefixes and substrings *)

Lemma startsWith_app p t : Js.startsWith p (p ++ t) = true.
Proof.
  induction p as [|c p IH]; simpl; [reflexivity|].
  rewrite Ascii.eqb_refl, IH. reflexivity.
Qed.

Lemma startsWith_inv p s :
  Js.startsWith p s = true -> exists t, s = (p ++ t)%string.
Proof.
  revert s. induction p as [|c p IH]; intros s; simpl.
  - intros _. exists s. reflexivity.
  - destruct s as [|d s]; [discriminate|].
    intros H. apply andb_true_iff in H. destruct H as (Hc & Hp).
    apply Ascii.eqb_eq in Hc. subst d.
    destruct (IH s Hp) as (t & ->). exists t. reflexivity.
Qed.

Lemma includes_startsWith needle s :
  Js.startsWith needle s = true -> Js.includes needle s = true.
Proof. intros H. destruct s; simpl; rewrite H; reflexivity. Qed.

Lemma includes_app needle a b : Js.includes needle (a ++ needle ++ b) = true.
Proof.
  induction a as [|c a IH].
  - change ("" ++ needle ++ b)%string with (needle ++ b)%string.
    apply includes_startsWith, startsWith_app.
  - change (String c a ++ needle ++ b)%string with (String c (a ++ needle ++ b)).
    cbn [Js.includes]. rewrite IH. apply orb_true_r.
Qed.

(** *** Splitting and joining *)

Definition lacks (sep : ascii) (s : string) : bool :=
  Js.allChars (fun c => negb (Ascii.eqb c sep)) s.

Lemma split_nonempty sep s : Js.split sep s <> [].
Proof.
  destruct s as [|c s]; simpl; [discriminate|].
  destruct (Ascii.eqb c sep); [discriminate|].
  unfold Js.consHead. destruct (Js.split sep s); discriminate.
Qed.

Lemma join_consHead sep c parts :
  parts <> [] ->
  Js.join sep (Js.consHead c parts) = String c (Js.join sep parts).
Proof.
  unfold Js.join, Js.consHead. destruct parts as [|h [|h' r]]; [contradiction| |];
    intros _; reflexivity.
Qed.

(** Joining what [split] returns gives the string back. *)
Lemma join_split sep s : Js.join (String sep "") (Js.split sep s) = s.
Proof.
  induction s as [|c s IH]; simpl; [reflexivity|].
  destruct (Ascii.eqb_spec c sep) as [->|Hne].
  - pose proof (split_nonempty sep s) as Hn.
    unfold Js.join in *. cbn [String.concat].
    destruct (Js.split sep s) as [|h r] eqn:E; [contradiction|].
    rewrite IH. reflexivity.
  - rewrite join_consHead by apply split_nonempty. rewrite IH. reflexivity.
Qed.

Lemma split_plain sep s : lacks sep s = true -> Js.split sep s = [s].
Proof.
  unfold lacks. induction s as [|c s IH]; simpl; [reflexivity|].
  intros H. apply andb_true_iff in H. destruct H as (Hc & Hs).
  destruct (Ascii.eqb c sep); [discriminate|].
  rewrite (IH Hs). reflexivity.
Qed.

Lemma split_app_sep sep s t :
  lacks sep s = true ->
  Js.split sep (s ++ String sep t) = s :: Js.split sep t.
Proof.
  unfold lacks. induction s as [|c s IH]; simpl.
  - intros _. rewrite Ascii.eqb_refl. reflexivity.
  - intros H. apply andb_true_iff in H. destruct H as (Hc & Hs).
    destruct (Ascii.eqb c sep); [discriminate|].
    rewrite (IH Hs). reflexivity.
Qed.

(** Splitting a join of parts that do not hold the separator gives the
    parts back. *)
Lemma split_join sep parts :
  parts <> [] -> forallb (lacks sep) parts = true ->
  Js.split sep (Js.join (String sep "") parts) = parts.
Proof.
  induction parts as [|x parts IH]; [contradiction|].
  intros _ H. simpl in H. apply andb_true_iff in H. destruct H as (Hx & Hrest).
  destruct parts as [|y r].
  - apply split_plain. exact Hx.
  - unfold Js.join in *.
    change (String.concat (String sep "") (x :: y :: r))
      with (x ++ String sep (String.concat (String sep "") (y :: r)))%string.
    rewrite (split_app_sep _ _ _ Hx). f_equal. apply IH; [discriminate|exact Hrest].
Qed.

Lemma split_lacks sep s : forallb (lacks sep) (Js.split sep s) = true.
Proof.
  induction s as [|c s IH]; simpl; [reflexivity|].
  destruct (Ascii.eqb c sep) eqn:Hc.
  - simpl. exact IH.
  - unfold Js.consHead. destruct (Js.split sep s) as [|h r]; simpl in *.
    + unfold lacks. simpl. rewrite Hc. reflexivity.
    + apply andb_true_iff in IH. destruct IH as (Hh & Hr).
      unfold lacks in *. simpl. rewrite Hc, Hh, Hr. reflexivity.
Qed.

(** *** Decimal numerals *)

Lemma nat_of_digitChar d : 0 <= d < 10 -> nat_of_ascii (Js.digitChar d) = Z.to_nat (48 + d).
Proof.
  intros H. unfold Js.digitChar. apply nat_ascii_embedding. lia.
Qed.

Lemma isDigit_digitChar d : 0 <= d < 10 -> Js.isDigit (Js.digitChar d) = true.
Proof.
  intros H. unfold Js.isDigit. rewrite (nat_of_digitChar d H).
  apply andb_true_iff. split; apply Nat.leb_le; lia.
Qed.

Lemma decimalAux_digits fuel n acc :
  Js.allChars Js.isDigit acc = true ->
  Js.allChars Js.isDigit (Js.decimalAux fuel n acc) = true.
Proof.
  revert n acc. induction fuel as [|fuel IH]; intros n acc Hacc; simpl; [exact Hacc|].
  assert (Hacc' : Js.allChars Js.isDigit (String (Js.digitChar (n mod 10)) acc) = true).
  { simpl. rewrite isDigit_digitChar by (apply Z.mod_pos_bound; lia). exact Hacc. }
  destruct (n / 10 =? 0); [exact Hacc'|]. apply IH. exact Hacc'.
Qed.

Lemma decimalAux_nonempty fuel n acc : Js.decimalAux (S fuel) n acc <> "".
Proof.
  revert n acc. induction fuel as [|fuel IH]; intros n acc.
  - simpl. destruct (n / 10 =? 0); discriminate.
  - change (Js.decimalAux (S (S fuel)) n acc)
      with (let acc' := String (Js.digitChar (n mod 10)) acc in
            if (n / 10 =? 0)%Z then acc' else Js.decimalAux (S fuel) (n / 10) acc').
    cbv zeta. destruct (n / 10 =? 0); [discriminate|apply IH].
Qed.

Lemma decimalAux_value fuel n acc v :
  0 <= n < 2 ^ Z.of_nat fuel -> (0 < fuel)%nat ->
  exists k, 0 <= k /\
    Js.digitsValue v (Js.decimalAux fuel n acc) = Js.digitsValue (v * 10 ^ k + n) acc.
Proof.
  revert n acc. induction fuel as [|fuel IH]; intros n acc Hn Hf; [lia|].
  simpl Js.decimalAux.
  assert (Hd : 0 <= n mod 10 < 10) by (apply Z.mod_pos_bound; lia).
  destruct (Z.eqb_spec (n / 10) 0) as [Hz|Hnz].
  - exists 1. split; [lia|]. simpl Js.digitsValue. rewrite (nat_of_digitChar _ Hd).
    f_equal. rewrite Z2Nat.id by lia.
    pose proof (Z.div_mod n 10 ltac:(lia)). lia.
  - assert (Hq : 0 <= n / 10) by (apply Z.div_pos; lia).
    assert (Hn10 : 10 <= n).
    { destruct (Z_lt_le_dec n 10) as [Hlt|]; [|assumption].
      rewrite Z.div_small in Hnz by lia. contradiction. }
    assert (Hfuel : (0 < fuel)%nat).
    { destruct fuel; [|lia]. simpl in Hn. lia. }
    assert (Hq2 : n / 10 < 2 ^ Z.of_nat fuel).
    { rewrite Nat2Z.inj_succ, Z.pow_succ_r in Hn by lia.
      apply Z.div_lt_upper_bound; lia. }
    destruct (IH (n / 10) (String (Js.digitChar (n mod 10)) acc) (conj Hq Hq2) Hfuel)
      as (k & Hk & E).
    exists (k + 1). split; [lia|]. rewrite E. simpl Js.digitsValue.
    rewrite (nat_of_digitChar _ Hd). f_equal. rewrite Z2Nat.id by lia.
    rewrite Z.pow_add_r by lia.
    pose proof (Z.div_mod n 10 ltac:(lia)). lia.
Qed.

Lemma decimal_digits n : Js.allChars Js.isDigit (Js.decimal n) = true.
Proof. apply decimalAux_digits. reflexivity. Qed.

Lemma decimal_nonempty n : Js.decimal n <> "".
Proof. apply decimalAux_nonempty. Qed.

(** Reading the numeral of [n] gives [n]. *)
Lemma decimal_value n : 0 <= n -> Js.digitsValue 0 (Js.decimal n) = n.
Proof.
  intros Hn. unfold Js.decimal.
  destruct (decimalAux_value (S (Z.to_nat (Z.log2 n))) n "" 0) as (k & Hk & E).
  - split; [exact Hn|]. rewrite Nat2Z.inj_succ, Z2Nat.id by apply Z.log2_nonneg.
    destruct (Z.eq_dec n 0) as [->|Hne]; [reflexivity|].
    apply Z.log2_spec. lia.
  - lia.
  - rewrite E. simpl. lia.
Qed.

Lemma isDigit_notWhite c : Js.isDigit c = true -> notWhite c = true.
Proof.
  unfold Js.isDigit, notWhite, Js.isWhiteSpace.
  intros H. apply andb_true_iff in H. destruct H as (H1 & H2).
  apply Nat.leb_le in H1, H2.
  apply negb_true_iff.
  repeat (apply orb_false_intro); apply Nat.eqb_neq; lia.
Qed.

End JsFacts.

(** ** Addresses and candidate lines *)
Module AddressSpec.
Import PeerClient JsFacts.

Local Arguments String.append : simpl nomatch.

(** One group of a dotted quad: one to three decimal digits that read as a
    number up to 255. *)
Definition octet (p : string) : Prop :=
  (1 <= String.length p <= 3)%nat
  /\ Js.allChars Js.isDigit p = true
  /\ Js.digitsValue 0 p <= 255.

Lemma digitsValue_nonneg s acc :
  0 <= acc -> Js.allChars Js.isDigit s = true -> 0 <= Js.digitsValue acc s.
Proof.
  revert acc. induction s as [|c s IH]; intros acc Hacc; simpl; [intros _; exact Hacc|].
  intros H. apply andb_true_iff in H. destruct H as (Hc & Hs).
  apply IH; [|exact Hs].
  unfold Js.isDigit in Hc. apply andb_true_iff in Hc. destruct Hc as (H1 & _).
  apply Nat.leb_le in H1. lia.
Qed.

Lemma validOctet_octet p : validOctet p = true <-> octet p.
Proof.
  unfold validOctet, octet. rewrite !andb_true_iff, !Nat.leb_le, !Z.leb_le. split.
  - intros ((((H1 & H2) & H3) & _) & H5). repeat split; assumption.
  - intros ((H1 & H2) & H3 & H4). repeat split; try assumption.
    apply digitsValue_nonneg; [lia|exact H3].
Qed.

Definition isDot (c : ascii) : bool := Ascii.eqb c ".".

Lemma isDigit_not_dot c : Js.isDigit c = true -> negb (Ascii.eqb c ".") = true.
Proof.
  unfold Js.isDigit. intros H. apply andb_true_iff in H. destruct H as (H1 & _).
  apply Nat.leb_le in H1. destruct (Ascii.eqb_spec c "."); [subst; vm_compute in H1; lia|reflexivity].
Qed.

Lemma octet_lacks_dot p : octet p -> lacks "." p = true.
Proof.
  intros (_ & Hd & _). unfold lacks. revert Hd. apply SignalSpec.allChars_impl.
  exact isDigit_not_dot.
Qed.

Lemma isValidIpv4_quad (ip : string) :
  isValidIpv4 (Some ip) = true <->
  exists a b c d,
    Js.trim ip = (a ++ "." ++ b ++ "." ++ c ++ "." ++ d)%string
    /\ octet a /\ octet b /\ octet c /\ octet d.
Proof.
  unfold isValidIpv4. change (default EmptyString (Some ip)) with ip. split.
  - destruct (Js.isEmpty (Js.trim ip)); [discriminate|].
    pose proof (join_split "." (Js.trim ip)) as Hjoin.
    destruct (Js.split "." (Js.trim ip)) as [|a [|b [|c [|d [|e r]]]]]; try discriminate.
    cbn [List.length Nat.eqb negb forallb]. rewrite !andb_true_iff.
    intros (Ha & Hb & Hc & Hd & _).
    exists a, b, c, d. split; [symmetry; exact Hjoin|].
    repeat split; apply validOctet_octet; assumption.
  - intros (a & b & c & d & E & Ha & Hb & Hc & Hd). rewrite E.
    assert (Hne : Js.isEmpty (a ++ "." ++ b ++ "." ++ c ++ "." ++ d) = false).
    { destruct Ha as ((Hlen & _) & _). destruct a; [simpl in Hlen; lia|reflexivity]. }
    rewrite Hne.
    change (a ++ "." ++ b ++ "." ++ c ++ "." ++ d)%string
      with (Js.join "." [a; b; c; d]).
    rewrite split_join.
    + cbn [List.length Nat.eqb negb forallb].
      rewrite !(proj2 (validOctet_octet _)) by assumption. reflexivity.
    + discriminate.
    + cbn [forallb]. rewrite !octet_lacks_dot by assumption. reflexivity.
Qed.

(** X1. [isValidIpv4] accepts exactly the strings that are, once trimmed,
    four groups of one to three decimal digits joined by dots, each group
    reading as a number between 0 and 255. *)
Theorem isValidIpv4_dotted_quad (ip : string) :
  isValidIpv4 (Some ip) = true <->
  exists a b c d,
    Js.trim ip = (a ++ "." ++ b ++ "." ++ c ++ "." ++ d)%string
    /\ octet a /\ octet b /\ octet c /\ octet d.
Proof. apply isValidIpv4_quad. Qed.

(** A valid address holds digits and dots only. *)
Lemma valid_chars ip :
  isValidIpv4 (Some ip) = true ->
  Js.allChars (fun c => (Js.isDigit c || isDot c)%bool) (Js.trim ip) = true.
Proof.
  intros H. apply isValidIpv4_quad in H.
  destruct H as (a & b & c & d & E & (_ & Ha & _) & (_ & Hb & _) & (_ & Hc & _) & (_ & Hd & _)).
  rewrite E.
  assert (Hw : forall p, Js.allChars Js.isDigit p = true ->
                         Js.allChars (fun c => (Js.isDigit c || isDot c)%bool) p = true).
  { intros p. apply SignalSpec.allChars_impl. intros x ->. reflexivity. }
  rewrite !allChars_app, (Hw a Ha), (Hw b Hb), (Hw c Hc), (Hw d Hd). reflexivity.
Qed.

Lemma normalize_cases (value : option string) :
  let ip := normalizeLanIpOverride value in
  (ip = "" \/
   (ip = Js.trim (default "" value) /\ isValidIpv4 (Some ip) = true /\ Js.trim ip = ip))
  /\ normalizeLanIpOverride (Some ip) = ip.
Proof.
  cbv zeta. set (s := Js.trim (default "" value)).
  assert (Hs : Js.trim s = s) by apply trim_idem.
  assert (Hn : normalizeLanIpOverride value
               = if Js.isEmpty s then "" else if isValidIpv4 (Some s) then s else "")
    by reflexivity.
  assert (Hempty : normalizeLanIpOverride (Some "") = "") by reflexivity.
  destruct (Js.isEmpty s) eqn:He; [rewrite Hn; split; [left; reflexivity|exact Hempty]|].
  destruct (isValidIpv4 (Some s)) eqn:Hv; rewrite Hn;
    [|split; [left; reflexivity|exact Hempty]].
  split.
  - right. repeat split; [exact Hv|exact Hs].
  - unfold normalizeLanIpOverride. change (default EmptyString (Some s)) with s.
    rewrite Hs, He, Hv. reflexivity.
Qed.

(** X2. What [normalizeLanIpOverride] returns is empty, or it is the trimmed
    argument and a valid address; normalising it again changes nothing. *)
Theorem normalize_gives_valid_or_empty (value : option string) :
  let ip := normalizeLanIpOverride value in
  (ip = "" \/
   (ip = Js.trim (default "" value) /\ isValidIpv4 (Some ip) = true /\ Js.trim ip = ip))
  /\ normalizeLanIpOverride (Some ip) = ip.
Proof. apply normalize_cases. Qed.

Lemma endsWith_chars p suffix s :
  Js.endsWith suffix s = true -> Js.allChars p s = true -> Js.allChars p suffix = true.
Proof.
  induction s as [|c s IH]; cbn [Js.endsWith]; intros H Hs.
  - rewrite orb_false_r in H. apply String.eqb_eq in H. subst. reflexivity.
  - apply orb_true_iff in H. destruct H as [H|H].
    + apply String.eqb_eq in H. subst. exact Hs.
    + simpl in Hs. apply andb_true_iff in Hs. apply IH; [exact H|apply Hs].
Qed.

Lemma forallb_insert {A} (p : A -> bool) (l : list A) i x :
  forallb p l = true -> p x = true -> forallb p (<[i := x]> l) = true.
Proof.
  revert i. induction l as [|y l IH]; intros i Hl Hx; [reflexivity|].
  simpl in Hl. apply andb_true_iff in Hl. destruct Hl as (Hy & Hl).
  destruct i as [|i]; simpl.
  - rewrite Hx, Hl. reflexivity.
  - rewrite Hy, (IH i Hl Hx). reflexivity.
Qed.

(** X3. With a valid override, a candidate line that is rewritten keeps all
    its space-separated fields but the fifth, which becomes the override;
    the field replaced was an address ending in [.local]; and the result
    is not rewritten again. *)
Theorem rewritten_candidate_keeps_fields
    (override : option string) (line line' : string) :
  rewriteCandidateLine (normalizeLanIpOverride override) line = Some line' ->
  normalizeLanIpOverride override <> "" ->
  Js.split " " line' = <[4%nat := normalizeLanIpOverride override]> (Js.split " " line)
  /\ (exists addr, Js.split " " line !! 4%nat = Some addr
                   /\ Js.endsWith ".local" addr = true)
  /\ rewriteCandidateLine (normalizeLanIpOverride override) line' = None.
Proof.
  set (ip := normalizeLanIpOverride override). intros Hrw Hne.
  destruct (normalize_cases override) as ([E|(_ & Hv & Ht)] & _);
    [contradiction|].
  fold ip in Hv, Ht.
  pose proof (valid_chars ip Hv) as Hchars. rewrite Ht in Hchars.
  assert (Hsp : lacks " " ip = true).
  { unfold lacks. revert Hchars. apply SignalSpec.allChars_impl. intros c Hc.
    destruct (Ascii.eqb_spec c " "); [subst; discriminate|reflexivity]. }
  assert (Hlocal : Js.endsWith ".local" ip = false).
  { destruct (Js.endsWith ".local" ip) eqn:El; [|reflexivity].
    pose proof (endsWith_chars _ _ _ El Hchars) as Hbad. discriminate. }
  assert (Hip : Js.isEmpty ip = false) by (destruct ip; [contradiction|reflexivity]).
  unfold rewriteCandidateLine in Hrw.
  destruct (Js.isEmpty line || negb (Js.startsWith "a=candidate:" line))%bool; [discriminate|].
  destruct (negb (Js.includes " typ host" line)); [discriminate|].
  destruct (Nat.ltb_spec (List.length (Js.split " " line)) 6) as [|Hlen]; [discriminate|].
  destruct (Js.split " " line !! 4%nat) as [addr|] eqn:Haddr; [|discriminate].
  destruct (Js.endsWith ".local" addr) eqn:Hends;
    [|rewrite orb_true_r in Hrw; discriminate].
  destruct (Js.isEmpty addr); [discriminate|].
  injection Hrw as <-.
  assert (Hsplit : Js.split " " (Js.join " " (<[4%nat := ip]> (Js.split " " line)))
                   = <[4%nat := ip]> (Js.split " " line)).
  { apply split_join.
    - intros E. apply (f_equal List.length) in E.
      rewrite length_insert in E. simpl in E. lia.
    - apply forallb_insert; [apply split_lacks|exact Hsp]. }
  split; [exact Hsplit|]. split; [exists addr; split; [reflexivity|exact Hends]|].
  unfold rewriteCandidateLine. rewrite Hsplit.
  rewrite list_lookup_insert_eq by (rewrite <- Nat.le_succ_l; lia).
  rewrite Hip, Hlocal. cbn [negb orb].
  destruct (_ || _)%bool; [reflexivity|].
  destruct (negb _); [reflexivity|].
  destruct (Nat.ltb _ _); reflexivity.
Qed.

End AddressSpec.

(** ** The description, line by line *)
Module SdpSpec.
Import PeerClient JsFacts.
Local Arguments String.append : simpl nomatch.

Definition CRLF : string := String Js.CR (String Js.LF "").
Definition LFs : string := String Js.LF "".

(** The text ends with a carriage return. *)
Fixpoint endsCR (s : string) : bool :=
  match s with
  | EmptyString => false
  | String c t => match t with EmptyString => Ascii.eqb c Js.CR | _ => endsCR t end
  end.

(** No line but the last ends with a carriage return. *)
Fixpoint initsNoCR (ls : list string) : bool :=
  match ls with
  | [] => true
  | l :: rest => match rest with [] => true | _ => negb (endsCR l) && initsNoCR rest end
  end.

(** *** Reading back what [join] wrote *)

Lemma splitLines_plain l : lacks Js.LF l = true -> Js.splitLines l = [l].
Proof.
  unfold lacks. induction l as [|c t IH]; [reflexivity|].
  cbn [Js.allChars Js.splitLines]. intros H. apply andb_true_iff in H.
  destruct H as (Hc & Ht). apply negb_true_iff in Hc. rewrite Hc, (IH Ht).
  destruct t as [|d t']; [reflexivity|].
  cbn [Js.allChars] in Ht. apply andb_true_iff in Ht. destruct Ht as (Hd & _).
  apply negb_true_iff in Hd. rewrite Hd, andb_false_r. reflexivity.
Qed.

Lemma splitLines_LF l rest :
  lacks Js.LF l = true -> endsCR l = false ->
  Js.splitLines (l ++ String Js.LF rest) = l :: Js.splitLines rest.
Proof.
  unfold lacks. induction l as [|c t IH]; intros Hl Hcr.
  - change ("" ++ String Js.LF rest)%string with (String Js.LF rest).
    cbn [Js.splitLines]. rewrite Ascii.eqb_refl. reflexivity.
  - change (String c t ++ String Js.LF rest)%string with (String c (t ++ String Js.LF rest)).
    cbn [Js.allChars] in Hl. apply andb_true_iff in Hl. destruct Hl as (Hc & Ht).
    apply negb_true_iff in Hc. cbn [Js.splitLines]. rewrite Hc.
    destruct t as [|d t'].
    + change ("" ++ String Js.LF rest)%string with (String Js.LF rest).
      cbn [endsCR] in Hcr. rewrite Hcr. cbn [andb Js.splitLines].
      rewrite Ascii.eqb_refl. reflexivity.
    + rewrite (IH Ht Hcr).
      change (String d t' ++ String Js.LF rest)%string
        with (String d (t' ++ String Js.LF rest)).
      cbv beta iota.
      cbn [Js.allChars] in Ht. apply andb_true_iff in Ht. destruct Ht as (Hd & _).
      apply negb_true_iff in Hd. rewrite Hd, andb_false_r. reflexivity.
Qed.

Lemma splitLines_CRLF l rest :
  lacks Js.LF l = true ->
  Js.splitLines (l ++ String Js.CR (String Js.LF rest)) = l :: Js.splitLines rest.
Proof.
  unfold lacks. induction l as [|c t IH]; intros Hl.
  - change ("" ++ String Js.CR (String Js.LF rest))%string
      with (String Js.CR (String Js.LF rest)).
    cbn [Js.splitLines]. change (Ascii.eqb Js.CR Js.LF) with false.
    rewrite !Ascii.eqb_refl. reflexivity.
  - change (String c t ++ String Js.CR (String Js.LF rest))%string
      with (String c (t ++ String Js.CR (String Js.LF rest))).
    cbn [Js.allChars] in Hl. apply andb_true_iff in Hl. destruct Hl as (Hc & Ht).
    apply negb_true_iff in Hc. cbn [Js.splitLines]. rewrite Hc, (IH Ht).
    destruct t as [|d t'].
    + change ("" ++ String Js.CR (String Js.LF rest))%string
        with (String Js.CR (String Js.LF rest)).
      cbv beta iota.
      change (Ascii.eqb Js.CR Js.LF) with false. rewrite andb_false_r. reflexivity.
    + change (String d t' ++ String Js.CR (String Js.LF rest))%string
        with (String d (t' ++ String Js.CR (String Js.LF rest))).
      cbv beta iota.
      cbn [Js.allChars] in Ht. apply andb_true_iff in Ht. destruct Ht as (Hd & _).
      apply negb_true_iff in Hd. rewrite Hd, andb_false_r. reflexivity.
Qed.

Lemma join_cons sep l l2 r :
  Js.join sep (l :: l2 :: r) = (l ++ sep ++ Js.join sep (l2 :: r))%string.
Proof. reflexivity. Qed.

Lemma splitLines_join_LF ls :
  ls <> [] -> forallb (lacks Js.LF) ls = true -> initsNoCR ls = true ->
  Js.splitLines (Js.join LFs ls) = ls.
Proof.
  induction ls as [|l ls IH]; [contradiction|]. intros _ Hl Hcr.
  cbn [forallb] in Hl. apply andb_true_iff in Hl. destruct Hl as (Hl & Hls).
  destruct ls as [|l2 r]; [apply splitLines_plain; exact Hl|].
  cbn [initsNoCR] in Hcr. apply andb_true_iff in Hcr. destruct Hcr as (Hcr & Hrest).
  apply negb_true_iff in Hcr.
  rewrite join_cons. unfold LFs at 1.
  change (String Js.LF "" ++ Js.join LFs (l2 :: r))%string
    with (String Js.LF (Js.join LFs (l2 :: r))).
  rewrite (splitLines_LF l _ Hl Hcr). f_equal. apply IH; [discriminate|exact Hls|exact Hrest].
Qed.

Lemma splitLines_join_CRLF ls :
  ls <> [] -> forallb (lacks Js.LF) ls = true ->
  Js.splitLines (Js.join CRLF ls) = ls.
Proof.
  induction ls as [|l ls IH]; [contradiction|]. intros _ Hl.
  cbn [forallb] in Hl. apply andb_true_iff in Hl. destruct Hl as (Hl & Hls).
  destruct ls as [|l2 r]; [apply splitLines_plain; exact Hl|].
  rewrite join_cons. unfold CRLF at 1.
  change (String Js.CR (String Js.LF "") ++ Js.join CRLF (l2 :: r))%string
    with (String Js.CR (String Js.LF (Js.join CRLF (l2 :: r)))).
  rewrite (splitLines_CRLF l _ Hl). f_equal. apply IH; [discriminate|exact Hls].
Qed.

(** *** The lines [split] makes *)

Lemma splitLines_nonempty s : Js.splitLines s <> [].
Proof.
  induction s as [|c t IH]; cbn [Js.splitLines]; [discriminate|].
  destruct (Ascii.eqb c Js.LF); [discriminate|].
  assert (Hc : Js.consHead c (Js.splitLines t) <> [])
    by (unfold Js.consHead; destruct (Js.splitLines t); discriminate).
  destruct t as [|d t']; [exact Hc|].
  destruct (_ && _)%bool; [exact IH|exact Hc].
Qed.

Lemma forallb_consHead c ls :
  Ascii.eqb c Js.LF = false -> forallb (lacks Js.LF) ls = true ->
  forallb (lacks Js.LF) (Js.consHead c ls) = true.
Proof.
  intros Hc Hls. unfold Js.consHead. destruct ls as [|h r].
  - cbn. rewrite Hc. reflexivity.
  - cbn [forallb] in *. apply andb_true_iff in Hls. destruct Hls as (Hh & Hr).
    unfold lacks in *. cbn [Js.allChars]. rewrite Hc, Hh, Hr. reflexivity.
Qed.

Lemma splitLines_lacks s : forallb (lacks Js.LF) (Js.splitLines s) = true.
Proof.
  induction s as [|c t IH]; [reflexivity|]. cbn [Js.splitLines].
  destruct (Ascii.eqb c Js.LF) eqn:Hc; [cbn [forallb]; rewrite IH; reflexivity|].
  pose proof (forallb_consHead c _ Hc IH) as Hh.
  destruct t as [|d t']; [exact Hh|].
  destruct (_ && _)%bool; [exact IH|exact Hh].
Qed.

(** A text whose first line is empty and not its only one begins with a
    line end. *)
Lemma first_line_empty s r :
  Js.splitLines s = EmptyString :: r -> r <> [] ->
  Js.startsWith LFs s = true \/ Js.startsWith CRLF s = true.
Proof.
  destruct s as [|c t]; cbn [Js.splitLines].
  - intros [= <-] Hr. contradiction.
  - destruct (Ascii.eqb_spec c Js.LF) as [->|Hc]; [intros _ _; left; reflexivity|].
    assert (Hcons : Js.consHead c (Js.splitLines t) = EmptyString :: r -> False).
    { unfold Js.consHead. destruct (Js.splitLines t); discriminate. }
    destruct t as [|d t']; [intros E; destruct (Hcons E)|].
    destruct (Ascii.eqb_spec c Js.CR) as [->|Hcr]; cbn [andb];
      [|intros E; destruct (Hcons E)].
    destruct (Ascii.eqb_spec d Js.LF) as [->|Hd]; [intros _ _; right; reflexivity|].
    intros E; destruct (Hcons E).
Qed.

Lemma endsCR_cons c l :
  endsCR (String c l) = match l with EmptyString => Ascii.eqb c Js.CR | _ => endsCR l end.
Proof. reflexivity. Qed.

Lemma splitLines_initsNoCR s :
  Js.includes CRLF s = false -> initsNoCR (Js.splitLines s) = true.
Proof.
  induction s as [|c t IH]; [reflexivity|].
  intros Hinc.
  assert (Hhere : Js.startsWith CRLF (String c t) = false
                  /\ Js.includes CRLF t = false).
  { cbn [Js.includes] in Hinc. apply orb_false_iff in Hinc. exact Hinc. }
  destruct Hhere as (Hhere & Hlater). specialize (IH Hlater).
  pose proof (splitLines_nonempty t) as Hne.
  cbn [Js.splitLines].
  destruct (Ascii.eqb_spec c Js.LF) as [->|Hc].
  - destruct (Js.splitLines t) as [|l r] eqn:E; [contradiction|].
    cbn [initsNoCR endsCR negb andb]. cbn [initsNoCR] in IH. exact IH.
  - assert (Hcons : (forall d t', t = String d t' ->
                       (Ascii.eqb c Js.CR && Ascii.eqb d Js.LF)%bool = false) ->
                    initsNoCR (Js.consHead c (Js.splitLines t)) = true).
    { intros Hpair. destruct (Js.splitLines t) as [|l r] eqn:E; [contradiction|].
      unfold Js.consHead. destruct r as [|l2 r']; [reflexivity|].
      cbn [initsNoCR] in *. apply andb_true_iff in IH. destruct IH as (Hl & Hr).
      rewrite Hr, andb_true_r. rewrite endsCR_cons.
      destruct l as [|x l']; [|exact Hl].
      destruct (first_line_empty t (l2 :: r') E ltac:(discriminate)) as [Hs|Hs].
      - destruct t as [|d t']; [discriminate|].
        specialize (Hpair d t' eq_refl).
        cbn [Js.startsWith LFs] in Hs. apply andb_true_iff in Hs. destruct Hs as (Hd & _).
        apply Ascii.eqb_eq in Hd. subst d. rewrite Ascii.eqb_refl, andb_true_r in Hpair.
        rewrite Hpair. reflexivity.
      - exfalso. destruct t as [|d t']; [discriminate|].
        cbn [Js.includes] in Hlater. rewrite Hs in Hlater. discriminate. }
    destruct t as [|d t']; [apply Hcons; intros; discriminate|].
    destruct (Ascii.eqb c Js.CR && Ascii.eqb d Js.LF)%bool eqn:Hpair.
    + exfalso. apply andb_true_iff in Hpair. destruct Hpair as (H1 & H2).
      apply Ascii.eqb_eq in H1, H2. subst c d. discriminate Hhere.
    + apply Hcons. intros d0 t0 [= <- <-]. exact Hpair.
Qed.

(** *** What rewriting does to a line *)

Lemma lacks_split c sep s :
  lacks c s = true -> forallb (lacks c) (Js.split sep s) = true.
Proof.
  unfold lacks. induction s as [|x t IH]; [reflexivity|].
  cbn [Js.allChars Js.split]. intros H. apply andb_true_iff in H. destruct H as (Hx & Ht).
  specialize (IH Ht).
  destruct (Ascii.eqb x sep); [cbn [forallb Js.allChars]; exact IH|].
  unfold Js.consHead. destruct (Js.split sep t) as [|h r].
  - cbn. rewrite Hx. reflexivity.
  - cbn [forallb] in *. apply andb_true_iff in IH. destruct IH as (Hh & Hr).
    cbn [Js.allChars]. rewrite Hx, Hh, Hr. reflexivity.
Qed.

Lemma lacks_join c sep parts :
  lacks c sep = true -> forallb (lacks c) parts = true ->
  lacks c (Js.join sep parts) = true.
Proof.
  intros Hsep. induction parts as [|x parts IH]; [reflexivity|].
  cbn [forallb]. intros H. apply andb_true_iff in H. destruct H as (Hx & Hp).
  destruct parts as [|y r]; [exact Hx|].
  rewrite join_cons. unfold lacks in *. rewrite !allChars_app, Hx, Hsep, (IH Hp).
  reflexivity.
Qed.

Lemma endsCR_app a b : b <> "" -> endsCR (a ++ b) = endsCR b.
Proof.
  intros Hb. induction a as [|c a IH]; [reflexivity|].
  change (String c a ++ b)%string with (String c (a ++ b)).
  rewrite endsCR_cons. destruct (a ++ b)%string eqn:E; [|exact IH].
  destruct a; [contradiction|discriminate].
Qed.

Lemma endsCR_join parts :
  endsCR (Js.join " " parts) = endsCR (List.last parts "").
Proof.
  induction parts as [|x parts IH]; [reflexivity|].
  destruct parts as [|y r]; [reflexivity|].
  rewrite join_cons, endsCR_app by discriminate.
  change (" " ++ Js.join " " (y :: r))%string with (String " " (Js.join " " (y :: r))).
  rewrite endsCR_cons.
  change (List.last (x :: y :: r) "") with (List.last (y :: r) "").
  rewrite <- IH. destruct (Js.join " " (y :: r)); reflexivity.
Qed.

Lemma last_insert_4 (ip : string) (parts : list string) :
  (6 <= List.length parts)%nat ->
  List.last (<[4%nat := ip]> parts) "" = List.last parts "".
Proof.
  destruct parts as [|p0 [|p1 [|p2 [|p3 [|p4 [|p5 r]]]]]]; simpl; try lia.
  reflexivity.
Qed.

Lemma rewriteCandidateLine_Some ip line line' :
  rewriteCandidateLine ip line = Some line' ->
  line' = Js.join " " (<[4%nat := ip]> (Js.split " " line))
  /\ (6 <= List.length (Js.split " " line))%nat.
Proof.
  unfold rewriteCandidateLine.
  destruct (Js.isEmpty line || negb (Js.startsWith "a=candidate:" line))%bool;
    [discriminate|].
  destruct (negb (Js.includes " typ host" line)); [discriminate|].
  destruct (Nat.ltb_spec (List.length (Js.split " " line)) 6) as [|Hlen]; [discriminate|].
  destruct (Js.split " " line !! 4%nat) as [addr|]; [|discriminate].
  destruct (Js.isEmpty addr || negb (Js.endsWith ".local" addr))%bool; [discriminate|].
  intros [= <-]. split; [reflexivity|exact Hlen].
Qed.

(** An address of digits and dots. *)
Definition plainIp (ip : string) : Prop :=
  ip <> "" /\ Js.allChars (fun c => (Js.isDigit c || AddressSpec.isDot c)%bool) ip = true.

Lemma normalized_plain ov :
  normalizeLanIpOverride ov <> "" -> plainIp (normalizeLanIpOverride ov).
Proof.
  intros Hne. split; [exact Hne|].
  destruct (AddressSpec.normalize_cases ov) as ([E|(_ & Hv & Ht)] & _); [contradiction|].
  pose proof (AddressSpec.valid_chars _ Hv) as Hc. rewrite Ht in Hc. exact Hc.
Qed.

Lemma plainIp_lacks ip c :
  plainIp ip -> Js.isDigit c = false -> AddressSpec.isDot c = false -> lacks c ip = true.
Proof.
  intros (_ & Hc) Hd Hdot. unfold lacks. revert Hc. apply SignalSpec.allChars_impl.
  intros x Hx. destruct (Ascii.eqb_spec x c) as [->|]; [|reflexivity].
  rewrite Hd, Hdot in Hx. discriminate.
Qed.

Section Line.
Variable ip : string.
Hypothesis ip_plain : plainIp ip.

Definition rewriteLine (l : string) : string := default l (rewriteCandidateLine ip l).

Lemma rewritten_stable line line' :
  rewriteCandidateLine ip line = Some line' -> rewriteCandidateLine ip line' = None.
Proof.
  intros Hrw. apply rewriteCandidateLine_Some in Hrw. destruct Hrw as (-> & Hlen).
  assert (Hsp : lacks " " ip = true) by (apply plainIp_lacks; [exact ip_plain| |]; reflexivity).
  assert (Hlocal : Js.endsWith ".local" ip = false).
  { destruct (Js.endsWith ".local" ip) eqn:El; [|reflexivity].
    pose proof (AddressSpec.endsWith_chars _ _ _ El (proj2 ip_plain)) as Hbad.
    discriminate. }
  assert (Hip : Js.isEmpty ip = false).
  { destruct ip_plain as (Hne & _). destruct ip; [contradiction|reflexivity]. }
  assert (Hsplit : Js.split " " (Js.join " " (<[4%nat := ip]> (Js.split " " line)))
                   = <[4%nat := ip]> (Js.split " " line)).
  { apply split_join.
    - intros E. apply (f_equal List.length) in E.
      rewrite length_insert in E. simpl in E. lia.
    - apply AddressSpec.forallb_insert; [apply split_lacks|exact Hsp]. }
  unfold rewriteCandidateLine. rewrite Hsplit.
  rewrite list_lookup_insert_eq by (rewrite <- Nat.le_succ_l; lia).
  rewrite Hip, Hlocal. cbn [negb orb].
  destruct (_ || _)%bool; [reflexivity|].
  destruct (negb _); [reflexivity|].
  destruct (Nat.ltb _ _); reflexivity.
Qed.

Lemma rewriteLine_stable l : rewriteCandidateLine ip (rewriteLine l) = None.
Proof.
  unfold rewriteLine. destruct (rewriteCandidateLine ip l) as [l'|] eqn:E; cbn [default].
  - apply (rewritten_stable l l' E).
  - exact E.
Qed.

Lemma rewriteLine_lacks l : lacks Js.LF l = true -> lacks Js.LF (rewriteLine l) = true.
Proof.
  intros Hl. unfold rewriteLine.
  destruct (rewriteCandidateLine ip l) as [l'|] eqn:E; cbn [default]; [|exact Hl].
  apply rewriteCandidateLine_Some in E. destruct E as (-> & _).
  apply lacks_join; [reflexivity|].
  apply AddressSpec.forallb_insert; [apply lacks_split; exact Hl|].
  apply plainIp_lacks; [exact ip_plain| |]; reflexivity.
Qed.

Lemma rewriteLine_endsCR l : endsCR (rewriteLine l) = endsCR l.
Proof.
  unfold rewriteLine.
  destruct (rewriteCandidateLine ip l) as [l'|] eqn:E; [|reflexivity].
  change (endsCR l' = endsCR l).
  apply rewriteCandidateLine_Some in E. destruct E as (-> & Hlen).
  rewrite endsCR_join, last_insert_4 by exact Hlen.
  rewrite <- endsCR_join. change (String " " "") with (String " " EmptyString).
  rewrite (join_split " " l). reflexivity.
Qed.

Lemma map_rewriteLine_lacks ls :
  forallb (lacks Js.LF) ls = true -> forallb (lacks Js.LF) (List.map rewriteLine ls) = true.
Proof.
  induction ls as [|l ls IH]; [reflexivity|]. cbn [forallb List.map].
  intros H. apply andb_true_iff in H. destruct H as (Hl & Hls).
  rewrite (rewriteLine_lacks l Hl), (IH Hls). reflexivity.
Qed.

Lemma map_rewriteLine_initsNoCR ls :
  initsNoCR (List.map rewriteLine ls) = initsNoCR ls.
Proof.
  induction ls as [|l ls IH]; [reflexivity|].
  destruct ls as [|l2 r]; [reflexivity|].
  change (initsNoCR (List.map rewriteLine (l :: l2 :: r)))
    with (negb (endsCR (rewriteLine l)) && initsNoCR (List.map rewriteLine (l2 :: r)))%bool.
  rewrite IH, rewriteLine_endsCR. reflexivity.
Qed.

Lemma map_rewriteLine_stable ls :
  existsb (fun l => bool_decide (is_Some (rewriteCandidateLine ip l)))
    (List.map rewriteLine ls) = false.
Proof.
  induction ls as [|l ls IH]; [reflexivity|]. cbn [List.map existsb].
  rewrite rewriteLine_stable, IH. reflexivity.
Qed.

Lemma map_rewriteLine_unchanged ls :
  existsb (fun l => bool_decide (is_Some (rewriteCandidateLine ip l))) ls = false ->
  List.map rewriteLine ls = ls.
Proof.
  induction ls as [|l ls IH]; [reflexivity|]. cbn [List.map existsb].
  intros H. apply orb_false_iff in H. destruct H as (Hl & Hls).
  rewrite (IH Hls). f_equal. unfold rewriteLine.
  destruct (rewriteCandidateLine ip l); [discriminate Hl|reflexivity].
Qed.

(** The text the rewrite returns for a description that is not empty. *)
Definition rewritten (text : string) : string :=
  let sep := if Js.includes CRLF text then CRLF else LFs in
  let lines := Js.splitLines text in
  if existsb (fun l => bool_decide (is_Some (rewriteCandidateLine ip l))) lines
  then Js.join sep (List.map rewriteLine lines) else text.

Lemma rewritten_lines text :
  Js.splitLines (rewritten text) = List.map rewriteLine (Js.splitLines text).
Proof.
  unfold rewritten.
  destruct (existsb _ (Js.splitLines text)) eqn:Hch;
    [|symmetry; apply map_rewriteLine_unchanged; exact Hch].
  assert (Hne : List.map rewriteLine (Js.splitLines text) <> []).
  { pose proof (splitLines_nonempty text). destruct (Js.splitLines text);
      [contradiction|discriminate]. }
  pose proof (map_rewriteLine_lacks _ (splitLines_lacks text)) as Hl.
  destruct (Js.includes CRLF text) eqn:Hinc.
  - apply splitLines_join_CRLF; assumption.
  - apply splitLines_join_LF; [assumption|assumption|].
    rewrite map_rewriteLine_initsNoCR. apply splitLines_initsNoCR. exact Hinc.
Qed.

Lemma rewritten_idem text : rewritten (rewritten text) = rewritten text.
Proof.
  unfold rewritten at 1. rewrite rewritten_lines, map_rewriteLine_stable. reflexivity.
Qed.

End Line.

Lemma rewrite_unfold sdp ov :
  rewriteMdnsHostCandidatesInSdp sdp ov
  = if Js.isEmpty (normalizeLanIpOverride ov) then sdp
    else if Js.isEmpty sdp then sdp
    else rewritten (normalizeLanIpOverride ov) sdp.
Proof. reflexivity. Qed.

(** X4. The rewrite works line by line. Read line by line, what
    [rewriteMdnsHostCandidatesInSdp] returns is the description it was
    given with every [.local] host candidate line rewritten and every other
    line as it was: no line is added, lost, merged or split, whatever the
    line ends of the description are. Rewriting what it returned again
    changes nothing. *)
Theorem sdp_rewrite_is_line_by_line (sdp : string) (ov : option string) :
  let ip := normalizeLanIpOverride ov in
  let out := rewriteMdnsHostCandidatesInSdp sdp ov in
  Js.splitLines out
  = List.map (fun l => if Js.isEmpty ip then l else default l (rewriteCandidateLine ip l))
      (Js.splitLines sdp)
  /\ rewriteMdnsHostCandidatesInSdp out ov = out.
Proof.
  cbv zeta. rewrite !rewrite_unfold.
  destruct (Js.isEmpty (normalizeLanIpOverride ov)) eqn:Hip.
  - rewrite List.map_id. split; reflexivity.
  - assert (Hplain : plainIp (normalizeLanIpOverride ov)).
    { apply normalized_plain. intros E. rewrite E in Hip. discriminate. }
    destruct (Js.isEmpty sdp) eqn:Hsdp.
    + rewrite Hsdp. split; [|reflexivity].
      destruct sdp; [|discriminate]. cbn [Js.splitLines List.map]. unfold rewriteCandidateLine.
      reflexivity.
    + split.
      * apply rewritten_lines. exact Hplain.
      * rewrite rewritten_idem by exact Hplain.
        destruct (Js.isEmpty (rewritten (normalizeLanIpOverride ov) sdp)); reflexivity.
Qed.

End SdpSpec.

(** ** Stream ids *)
Module StreamSpec.
Import PeerClient Main JsFacts.

Local Arguments String.append : simpl nomatch.

Lemma length_append (s t : string) :
  String.length (s ++ t) = (String.length s + String.length t)%nat.
Proof. induction s as [|c s IH]; simpl; [reflexivity|]. rewrite IH. reflexivity. Qed.

Lemma suffix_notWhite i :
  Js.allChars notWhite (":" ++ Js.decimal i) = true.
Proof.
  change (":" ++ Js.decimal i)%string with (String ":" (Js.decimal i)).
  cbn [Js.allChars]. rewrite (SignalSpec.allChars_impl Js.isDigit notWhite).
  - reflexivity.
  - exact isDigit_notWhite.
  - apply decimal_digits.
Qed.

(** Every id [fileStreamIdForIndex] makes from a base belongs to that
    base. *)
Lemma stream_id_matches baseId i :
  Js.trim baseId <> "" ->
  streamIdMatchesBase baseId (fileStreamIdForIndex baseId i) = true
  /\ Js.trim (fileStreamIdForIndex baseId i) = fileStreamIdForIndex baseId i
  /\ fileStreamIdForIndex baseId i <> "".
Proof.
  intros Hne. unfold streamIdMatchesBase, fileStreamIdForIndex.
  assert (He : Js.isEmpty (Js.trim baseId) = false)
    by (destruct (Js.trim baseId); [contradiction|reflexivity]).
  rewrite He. destruct (i <=? 0).
  - rewrite trim_idem, He, String.eqb_refl. repeat split; [exact Hne].
  - rewrite trim_app_plain; [|exact Hne|discriminate|apply suffix_notWhite].
    assert (He2 : Js.isEmpty (Js.trim baseId ++ ":" ++ Js.decimal i) = false).
    { destruct (Js.trim baseId); [contradiction|reflexivity]. }
    rewrite He2. cbn [orb].
    rewrite <- append_assoc, startsWith_app, orb_true_r.
    repeat split. rewrite append_assoc. intros E. rewrite E in He2. discriminate.
Qed.

Lemma stream_id_inj baseId i j :
  Js.trim baseId <> "" -> 0 <= i -> 0 <= j ->
  fileStreamIdForIndex baseId i = fileStreamIdForIndex baseId j -> i = j.
Proof.
  intros Hne Hi Hj. unfold fileStreamIdForIndex.
  assert (He : Js.isEmpty (Js.trim baseId) = false)
    by (destruct (Js.trim baseId); [contradiction|reflexivity]).
  rewrite He.
  assert (Hlen : forall k, Js.trim baseId <> (Js.trim baseId ++ ":" ++ Js.decimal k)%string).
  { intros k E. apply (f_equal String.length) in E. rewrite length_append in E.
    change (":" ++ Js.decimal k)%string with (String ":" (Js.decimal k)) in E.
    simpl in E. lia. }
  destruct (Z.leb_spec i 0), (Z.leb_spec j 0); intros E.
  - lia.
  - exfalso. exact (Hlen j E).
  - exfalso. symmetry in E. exact (Hlen i E).
  - apply String.app_inj in E.
    change (":" ++ Js.decimal i)%string with (String ":" (Js.decimal i)) in E.
    change (":" ++ Js.decimal j)%string with (String ":" (Js.decimal j)) in E.
    injection E as E. apply (f_equal (Js.digitsValue 0)) in E.
    rewrite !decimal_value in E by lia. exact E.
Qed.

Lemma channel_count_range useFast mem hc :
  1 <= getFastFileChannelCount useFast mem hc <= 4.
Proof.
  unfold getFastFileChannelCount.
  destruct useFast; cbn [negb]; [|lia].
  destruct (8 * 4 <=? mem), (4 * 4 <=? mem), ((0 <? hc) && (hc <=? 4))%bool; lia.
Qed.

(** X5. The channels a transfer opens. For a transfer id that is not blank
    there are between one and four of them, exactly one unless fast
    transfer is on and the peer announced striping; the first carries the
    base id itself, the ids are pairwise different, and each of them
    belongs to the base as [streamIdMatchesBase] reads it. *)
Theorem transfer_channel_ids
    (fileTxId : string) (useFast striping : bool) (mem hc : Z) :
  Js.trim fileTxId <> "" ->
  let ids := fileTxChannelIds fileTxId (sendStreamCount useFast striping mem hc) in
  (1 <= List.length ids <= 4)%nat
  /\ ((useFast && striping)%bool = false -> ids = [Js.trim fileTxId])
  /\ ids !! 0%nat = Some (Js.trim fileTxId)
  /\ NoDup ids
  /\ Forall (fun id => streamIdMatchesBase fileTxId id = true) ids.
Proof.
  intros Hne ids.
  assert (Hcount : 1 <= sendStreamCount useFast striping mem hc <= 4).
  { unfold sendStreamCount. pose proof (channel_count_range useFast mem hc).
    destruct useFast; [|lia]. destruct (striping && _)%bool; lia. }
  set (n := sendStreamCount useFast striping mem hc) in *.
  assert (Hids : ids = List.map (fun i => fileStreamIdForIndex fileTxId (Z.of_nat i))
                         (List.seq 0 (Z.to_nat n))).
  { unfold ids, fileTxChannelIds. destruct (Z.eqb_spec n 0); [lia|].
    rewrite Z.max_r by lia. reflexivity. }
  assert (He : Js.isEmpty (Js.trim fileTxId) = false)
    by (destruct (Js.trim fileTxId); [contradiction|reflexivity]).
  assert (Hfirst : fileStreamIdForIndex fileTxId 0 = Js.trim fileTxId).
  { unfold fileStreamIdForIndex. rewrite He. reflexivity. }
  repeat split.
  - rewrite Hids, List.length_map, List.length_seq. lia.
  - rewrite Hids, List.length_map, List.length_seq. lia.
  - intros Hoff. rewrite Hids.
    assert (Hn : n = 1).
    { unfold n, sendStreamCount. destruct useFast; [|reflexivity].
      simpl in Hoff. rewrite Hoff. reflexivity. }
    rewrite Hn. change (Z.to_nat 1) with 1%nat. cbn [List.seq List.map].
    change (Z.of_nat 0) with 0. rewrite Hfirst. reflexivity.
  - rewrite Hids. destruct (Z.to_nat n) as [|m] eqn:Em; [lia|].
    cbn [List.seq List.map lookup list_lookup].
    change (Z.of_nat 0) with 0. rewrite Hfirst. reflexivity.
  - rewrite Hids. apply NoDup_fmap_2_strong; [|apply NoDup_seq].
    intros i j _ _ E. apply stream_id_inj in E; [lia|exact Hne|lia|lia].
  - rewrite Hids. apply Forall_forall. intros id Hin.
    apply list_elem_of_In, List.in_map_iff in Hin. destruct Hin as (i & <- & _).
    apply stream_id_matches. exact Hne.
Qed.

End StreamSpec.

(** ** Base 32 *)
Module Base32Spec.
Import PeerClient JsFacts SignalSpec.

Local Arguments String.append : simpl nomatch.

(** The characters of [BASE32_ALPHABET]. *)
Definition inAlphabet (c : ascii) : bool :=
  Js.includes (String c EmptyString) BASE32_ALPHABET.

Lemma all_ascii (P : ascii -> Prop) :
  (forall b0 b1 b2 b3 b4 b5 b6 b7, P (Ascii b0 b1 b2 b3 b4 b5 b6 b7)) -> forall c, P c.
Proof. intros H [b0 b1 b2 b3 b4 b5 b6 b7]. apply H. Qed.

Lemma isAlphabetChar_inAlphabet c : isAlphabetChar c = inAlphabet c.
Proof.
  revert c. apply all_ascii.
  intros [] [] [] [] [] [] [] []; vm_compute; reflexivity.
Qed.

Lemma upper_lower_alphabet c :
  isAlphabetChar c = true -> Js.upperChar (Js.lowerChar c) = c.
Proof.
  destruct c as [[] [] [] [] [] [] [] []]; vm_compute; intros H;
    try discriminate H; reflexivity.
Qed.

Lemma toUpperCase_toLowerCase s :
  Js.allChars isAlphabetChar s = true -> Js.toUpperCase (Js.toLowerCase s) = s.
Proof.
  induction s as [|c s IH]; simpl; [reflexivity|].
  intros H. apply andb_true_iff in H. destruct H as (Hc & Hs).
  rewrite (upper_lower_alphabet c Hc), (IH Hs). reflexivity.
Qed.

Lemma toUpperCase_idem s : Js.toUpperCase (Js.toUpperCase s) = Js.toUpperCase s.
Proof.
  induction s as [|c s IH]; simpl; [reflexivity|]. rewrite IH. f_equal.
  revert c. apply all_ascii.
  intros [] [] [] [] [] [] [] []; vm_compute; reflexivity.
Qed.

(** X6. Base 32 round trip: decoding what [base32EncodeBytes] returns gives
    the bytes back, also after the text was put in lower case. The text
    has [ceil(8n/5)] characters for [n] bytes, all of them from the
    alphabet: there is no padding. *)
Theorem base32_decode_inverts_encode (data : list byte) :
  base32DecodeToBytes (base32EncodeBytes data) = Some data
  /\ base32DecodeToBytes (Js.toLowerCase (base32EncodeBytes data)) = Some data
  /\ Z.of_nat (String.length (base32EncodeBytes data))
     = (8 * Z.of_nat (List.length data) + 4) / 5
  /\ Js.allChars inAlphabet (base32EncodeBytes data) = true.
Proof.
  destruct (base32EncodeBytes_spec data) as (pad & Hpad & Hlen & _ & Hal).
  split; [apply base32_roundtrip|]. split; [|split].
  - unfold base32DecodeToBytes. rewrite (toUpperCase_toLowerCase _ Hal).
    pose proof (base32_roundtrip data) as Hrt. unfold base32DecodeToBytes in Hrt.
    rewrite (toUpperCase_alphabet _ Hal) in Hrt. exact Hrt.
  - apply Z.div_unique with (r := 4 - pad); lia.
  - revert Hal. apply allChars_impl. intros c Hc.
    rewrite <- isAlphabetChar_inAlphabet. exact Hc.
Qed.

(** The code units the decoder skips: line feed, carriage return, tab and
    space. *)
Definition isSkipped (c : ascii) : bool :=
  ((charCode c =? 10) || (charCode c =? 13) || (charCode c =? 9)
   || (charCode c =? 32))%bool.

Definition isPad (c : ascii) : bool := Ascii.eqb "="%char c.

Lemma upperChar_cases c :
  isSkipped (Js.upperChar c) = isSkipped c /\ isPad (Js.upperChar c) = isPad c.
Proof.
  revert c. apply all_ascii.
  intros [] [] [] [] [] [] [] []; vm_compute; split; reflexivity.
Qed.

Lemma decodeLoop_bad_char u c rest buffer bits out :
  isSkipped c = false -> isAlphabetChar c = false ->
  decodeLoop (u ++ String c rest) buffer bits out = None.
Proof.
  intros Hskip Hbad. revert buffer bits out.
  induction u as [|d u IH]; intros buffer bits out.
  - change ("" ++ String c rest)%string with (String c rest).
    cbn [decodeLoop]. unfold isSkipped in Hskip. rewrite Hskip.
    unfold isAlphabetChar in Hbad.
    destruct (charCode c <? 256).
    + destruct (Z.ltb_spec (BASE32_LOOKUP (charCode c)) 0) as [|Hge]; [reflexivity|].
      apply Z.leb_gt in Hbad. lia.
    + reflexivity.
  - change (String d u ++ String c rest)%string with (String d (u ++ String c rest)).
    cbn [decodeLoop].
    destruct (_ || _)%bool; [apply IH|].
    destruct (_ <? 0); [reflexivity|].
    destruct (decodeDrain _ _ _ _). apply IH.
Qed.

Lemma toUpperCase_app s t :
  Js.toUpperCase (s ++ t) = (Js.toUpperCase s ++ Js.toUpperCase t)%string.
Proof. induction s as [|c s IH]; simpl; [reflexivity|]. rewrite IH. reflexivity. Qed.

(** X7. The decoder throws on any text that holds an ASCII character which
    is neither a letter or digit of the alphabet (in either case), nor one
    of the four skipped white space characters, nor [=]. *)
Theorem base32_decode_rejects_foreign_char (before after : string) (c : ascii) :
  (charCode c <? 128)%Z = true ->
  isAlphabetChar (Js.upperChar c) = false ->
  isSkipped c = false ->
  isPad c = false ->
  base32DecodeToBytes (before ++ String c after) = None.
Proof.
  intros _ Hbad Hskip Hpad. unfold base32DecodeToBytes.
  rewrite toUpperCase_app. cbn [Js.toUpperCase].
  destruct (upperChar_cases c) as (Hs & Hp). rewrite <- Hs in Hskip. rewrite <- Hp in Hpad.
  assert (Hkeep : Js.dropTrailing (Ascii.eqb "=") (String (Js.upperChar c) (Js.toUpperCase after))
                  = String (Js.upperChar c)
                      (Js.dropTrailing (Ascii.eqb "=") (Js.toUpperCase after))).
  { cbn [Js.dropTrailing]. unfold isPad in Hpad.
    destruct (Js.dropTrailing _ _); [rewrite Hpad|]; reflexivity. }
  rewrite dropTrailing_app_keep by (rewrite Hkeep; discriminate).
  rewrite Hkeep. apply decodeLoop_bad_char; assumption.
Qed.

Lemma filterChars_toUpperCase s :
  Js.toUpperCase (Js.filterChars (fun c => negb (isSkipped c)) s)
  = Js.filterChars (fun c => negb (isSkipped c)) (Js.toUpperCase s).
Proof.
  induction s as [|c s IH]; simpl; [reflexivity|].
  destruct (upperChar_cases c) as (Hs & _). rewrite Hs.
  destruct (isSkipped c); simpl; rewrite IH; reflexivity.
Qed.

Lemma decodeLoop_filter s buffer bits out :
  decodeLoop (Js.filterChars (fun c => negb (isSkipped c)) s) buffer bits out
  = decodeLoop s buffer bits out.
Proof.
  revert buffer bits out. induction s as [|c s IH]; intros buffer bits out; [reflexivity|].
  cbn [Js.filterChars decodeLoop]. fold (isSkipped c).
  destruct (isSkipped c) eqn:Hc; cbn [negb]; [apply IH|].
  cbn [decodeLoop]. fold (isSkipped c). rewrite Hc.
  destruct (_ <? 0); [reflexivity|].
  destruct (decodeDrain _ _ _ _). apply IH.
Qed.

Lemma noPad_toUpperCase s :
  Js.allChars (fun c => negb (isPad c)) s = true ->
  Js.allChars (fun c => negb (isPad c)) (Js.toUpperCase s) = true.
Proof.
  induction s as [|c s IH]; simpl; [reflexivity|].
  intros H. apply andb_true_iff in H. destruct H as (Hc & Hs).
  destruct (upperChar_cases c) as (_ & Hp). rewrite Hp, Hc, (IH Hs). reflexivity.
Qed.

Lemma noPad_filter keep s :
  Js.allChars (fun c => negb (isPad c)) s = true ->
  Js.allChars (fun c => negb (isPad c)) (Js.filterChars keep s) = true.
Proof.
  induction s as [|c s IH]; simpl; [reflexivity|].
  intros H. apply andb_true_iff in H. destruct H as (Hc & Hs).
  destruct (keep c); simpl; [rewrite Hc|]; apply IH; exact Hs.
Qed.

(** X8. Line feeds, carriage returns, tabs and spaces inside a text without
    [=] do not matter to the decoder: with them taken out, it returns the
    same bytes, or throws as before. *)
Theorem base32_decode_skips_white_space (s : string) :
  Js.allChars (fun c => negb (isPad c)) s = true ->
  base32DecodeToBytes (Js.filterChars (fun c => negb (isSkipped c)) s)
  = base32DecodeToBytes s.
Proof.
  intros Hs. unfold base32DecodeToBytes.
  rewrite filterChars_toUpperCase.
  pose proof (noPad_toUpperCase s Hs) as Hu.
  rewrite (dropTrailing_none (Ascii.eqb "=") _ Hu).
  rewrite (dropTrailing_none (Ascii.eqb "=") _ (noPad_filter _ _ Hu)).
  apply decodeLoop_filter.
Qed.

End Base32Spec.

(** ** Frames on the wire *)
Module FrameSpec.
Import PeerClient Sender SenderSpec.

(** *** Headers *)

Lemma length_setUint32 v : List.length (setUint32 v) = 4%nat.
Proof. reflexivity. Qed.

Lemma getUint32_setUint32 v rest :
  getUint32 (setUint32 v ++ rest) 0 = Some (v mod 4294967296).
Proof.
  unfold getUint32, setUint32. cbn [List.skipn List.app]. f_equal.
  pose proof (Z.mod_pos_bound v 4294967296 ltac:(lia)) as Hu.
  set (u := v mod 4294967296) in *.
  rewrite !SignalSpec.byteZ_byteOfZ.
  - Z.to_euclidean_division_equations. lia.
  - apply Z.mod_pos_bound. lia.
  - apply Z.mod_pos_bound. lia.
  - apply Z.mod_pos_bound. lia.
  - split; [apply Z.div_pos; lia|apply Z.div_lt_upper_bound; lia].
Qed.

Lemma getUint32_second v4 v rest :
  getUint32 (setUint32 v4 ++ setUint32 v ++ rest) 4 = Some (v mod 4294967296).
Proof.
  rewrite <- (getUint32_setUint32 v rest). reflexivity.
Qed.

(** *** What the pump has sent, however it ended *)

Section Outcome.
Variables (file : list byte) (C : Z).
Hypothesis C_pos : 1 <= C.

Definition planned (n : nat) : list (Z * Z * list byte) :=
  List.map (fun i => chunkFrame file C (Z.of_nat i)) (List.seq 0 n).

(** The frames sent are the first [n] chunks of the file, and chunk [n-1]
    starts inside the file (or is the header of the empty file). *)
Definition Shape (st : SendState) : Prop :=
  exists n : nat,
    List.map frameContent (sent st) = planned n
    /\ (n = O \/ (Z.of_nat n - 1) * C < byteLength file
        \/ (byteLength file = 0 /\ n = 1%nat)).

Lemma Inv_Shape st : Inv file C st -> Shape st.
Proof.
  intros (Hseq & _ & Hlast & Hsent). exists (Z.to_nat (seq st)).
  split; [exact Hsent|]. destruct Hlast as [E|Hlt]; [left; lia|].
  right. left. rewrite Z2Nat.id by exact Hseq. exact Hlt.
Qed.

Lemma sendEmptyHeader_Shape env fuel dc0 st :
  byteLength file = 0 -> sent st = [] ->
  Shape (resultState (sendEmptyHeader env fuel dc0 st)).
Proof.
  intros Hz. revert st. induction fuel as [|fuel IH]; intros st Hst.
  - cbn [sendEmptyHeader resultState]. exists O. rewrite Hst.
    split; [reflexivity|left; reflexivity].
  - cbn [sendEmptyHeader].
    assert (H0 : Shape (tickOf st)).
    { exists O. cbn [tickOf sent]. rewrite Hst. split; [reflexivity|left; reflexivity]. }
    destruct (aborted (env (tick st))); [exact H0|].
    destruct (sendOutcome (env (tick st))) as [|message].
    + cbn [resultState]. exists 1%nat. cbn [sent tickOf]. rewrite Hst. split.
      * unfold planned, chunkFrame, frameContent. cbn [List.map List.seq fseq flen fpayload List.app].
        rewrite Hz. change (Z.of_nat 0) with 0.
        assert (Hfile : file = []) by (destruct file; [reflexivity|unfold byteLength in Hz; simpl in Hz; lia]).
        rewrite Hfile. unfold sliceBytes. rewrite List.skipn_nil, List.firstn_nil.
        do 3 f_equal. lia.
      * right. right. split; [exact Hz|reflexivity].
    + destruct (isDcSendQueueFullError message); cbn [negb]; [|exact H0].
      destruct (waitForBufferRejects _ _ _ _); [exact H0|].
      apply IH. exact Hst.
Qed.

Lemma sendFileChunks_Shape budget env dcHigh fuel :
  Shape (resultState (sendFileChunks file C budget env dcHigh fuel)).
Proof.
  assert (H0 : forall st, sent st = [] -> Shape st).
  { intros st Hst. exists O. rewrite Hst. split; [reflexivity|left; reflexivity]. }
  unfold sendFileChunks, Sender.size.
  destruct (ctrlOpen (env O)); cbn [negb]; [|apply H0; reflexivity].
  destruct (_ =? 0)%Z; [apply H0; reflexivity|].
  destruct (aborted (env O)); [apply H0; reflexivity|].
  destruct (Z.eqb_spec (byteLength file) 0) as [Hz|Hnz].
  - destruct (firstOpen _ _) as [dc0|]; [|apply H0; reflexivity].
    destruct (waitForBufferRejects _ _ _ _); [apply H0; reflexivity|].
    apply sendEmptyHeader_Shape; [exact Hz|reflexivity].
  - apply Inv_Shape. apply outer_Inv; [exact C_pos|].
    unfold Inv. cbn [seq offset sent]. repeat split; try lia.
    unfold byteLength. lia.
Qed.

Lemma length_sliceBytes from to :
  0 <= from <= to -> to <= byteLength file ->
  byteLength (sliceBytes file from to) = to - from.
Proof.
  intros H1 H2. unfold byteLength, sliceBytes in *.
  rewrite List.length_firstn, List.length_skipn. lia.
Qed.

Lemma planned_shape (n i : nat) :
  (n = O \/ (Z.of_nat n - 1) * C < byteLength file
   \/ (byteLength file = 0 /\ n = 1%nat)) ->
  (i < n)%nat ->
  let '(s, len, payload) := chunkFrame file C (Z.of_nat i) in
  s = Z.of_nat i /\ len = byteLength payload /\ 0 <= len <= C.
Proof.
  intros Hn Hi. unfold chunkFrame.
  assert (Hsz : 0 <= byteLength file) by (unfold byteLength; lia).
  assert (Hstart : Z.of_nat i * C <= byteLength file).
  { destruct Hn as [->|[Hlt|(Hz & ->)]]; [lia| |].
    - assert (Z.of_nat i * C <= (Z.of_nat n - 1) * C) by nia. lia.
    - assert (i = O) by lia. subst i. lia. }
  split; [reflexivity|]. split.
  - rewrite length_sliceBytes; [reflexivity| |]; nia.
  - nia.
Qed.

End Outcome.

(** X9. However [sendFileChunks] ends (it returns, throws, or is still
    waiting), the frames it has handed to the channels are an initial part
    of the file's frames: sequence numbers count from 0 without a gap or a
    repeat, frame [i] carries the bytes from [i*C], and a frame whose send
    threw is not counted. Each header's length field is the length of the
    payload, at most the chunk size. *)
Theorem sent_frames_are_initial_part
    (file : list byte) (maxMessageSize dcHigh : Z) (useFastTransfer : bool)
    (env : Env) (fuel : nat) :
  let C := getSendChunkSize maxMessageSize FILE_FRAME_HEADER_BYTES in
  let st := resultState (sendFileChunks file C (timeBudgetMs useFastTransfer)
                           env dcHigh fuel) in
  List.map frameContent (sent st)
    `prefix_of` (if (byteLength file =? 0)%Z then [(0, 0, [])] else expectedFrames file C)
  /\ List.map fseq (sent st)
     = List.map Z.of_nat (List.seq 0 (List.length (sent st)))
  /\ Forall (fun f => flen f = byteLength (fpayload f) /\ 0 <= flen f <= C) (sent st).
Proof.
  intros C st.
  assert (HC : 1 <= C) by apply getSendChunkSize_pos.
  destruct (sendFileChunks_Shape file C HC (timeBudgetMs useFastTransfer) env dcHigh fuel)
    as (n & Hsent & Hn).
  fold st in Hsent.
  assert (Hlen : List.length (sent st) = n).
  { rewrite <- (List.length_map frameContent), Hsent. unfold planned.
    rewrite List.length_map, List.length_seq. reflexivity. }
  assert (Hsz : 0 <= byteLength file) by (unfold byteLength; lia).
  split; [|split].
  - rewrite Hsent.
    destruct (Z.eqb_spec (byteLength file) 0) as [Hz|Hnz].
    + assert (Hfile : file = [])
        by (destruct file; [reflexivity|unfold byteLength in Hz; simpl in Hz; lia]).
      destruct Hn as [->|[Hlt|(_ & ->)]].
      * apply prefix_nil.
      * assert (En : n = O) by nia. rewrite En. apply prefix_nil.
      * unfold planned, chunkFrame. cbn [List.map List.seq]. rewrite Hz, Hfile.
        change (Z.of_nat 0) with 0. unfold sliceBytes.
        rewrite List.skipn_nil, List.firstn_nil.
        replace (Z.min ((0 + 1) * C) 0 - 0 * C) with 0 by lia. reflexivity.
    + unfold expectedFrames. fold (planned file C (Z.to_nat (chunkCount (byteLength file) C))).
      assert (Hle : (n <= Z.to_nat (chunkCount (byteLength file) C))%nat).
      { destruct Hn as [->|[Hlt|(Hz & _)]]; [lia| |lia].
        unfold chunkCount.
        assert (Z.of_nat n <= (byteLength file + C - 1) / C); [|lia].
        apply Z.div_le_lower_bound; nia. }
      exists (List.map (fun i => chunkFrame file C (Z.of_nat i))
                (List.seq n (Z.to_nat (chunkCount (byteLength file) C) - n))).
      unfold planned. rewrite <- List.map_app, <- List.seq_app. do 2 f_equal. lia.
  - rewrite <- (List.map_map frameContent (fun x => fst (fst x))), Hsent, Hlen.
    unfold planned. rewrite List.map_map. reflexivity.
  - apply Forall_forall. intros f Hf.
    apply list_elem_of_In, (List.in_map frameContent) in Hf. rewrite Hsent in Hf.
    unfold planned in Hf. apply List.in_map_iff in Hf. destruct Hf as (i & Hi & Hin).
    apply List.in_seq in Hin.
    pose proof (planned_shape file C HC n i Hn ltac:(lia)) as Hshape.
    rewrite Hi in Hshape. unfold frameContent in Hshape. tauto.
Qed.

(** X10. Sender and receiver agree on the frame format. Every message the
    pump hands to a channel, when it arrives at [handleFileFrame] as a Blob
    or as an ArrayBuffer, is passed on as one [file-chunk] with the
    sequence number and exactly the payload of the frame, as long as the
    sequence number fits in 32 bits. *)
Theorem sent_frame_is_parsed_back
    (file : list byte) (maxMessageSize dcHigh : Z) (useFastTransfer : bool)
    (env : Env) (fuel : nat) (f : Frame)
    (blobArrayBuffer : bool) (now : Z) (pst : PeerState) (id : string) :
  let C := getSendChunkSize maxMessageSize FILE_FRAME_HEADER_BYTES in
  let st := resultState (sendFileChunks file C (timeBudgetMs useFastTransfer)
                           env dcHigh fuel) in
  f ∈ sent st ->
  fseq f < 4294967296 ->
  let expected :=
    PeerClient.Returned (markPeerActivity now pst).1
      ((markPeerActivity now pst).2 ++ [OnData (MsgFileChunk id (fseq f) (fpayload f))]) in
  handleFileFrame blobArrayBuffer now pst id (DataBlob (frameBlob f)) = expected
  /\ handleFileFrame blobArrayBuffer now pst id (DataArrayBuffer (frameBlob f)) = expected.
Proof.
  intros C st Hf Hseq expected.
  assert (HC : 1 <= C) by apply getSendChunkSize_pos.
  assert (HCmax : C <= FILE_CHUNK_SIZE).
  { unfold C, getSendChunkSize, FILE_FRAME_HEADER_BYTES, FILE_CHUNK_SIZE.
    repeat match goal with |- context [if ?b then _ else _] => destruct b end; lia. }
  destruct (sendFileChunks_Shape file C HC (timeBudgetMs useFastTransfer) env dcHigh fuel)
    as (n & Hsent & Hn).
  fold st in Hsent.
  assert (Hshape : 0 <= fseq f /\ flen f = byteLength (fpayload f) /\ 0 <= flen f <= C).
  { apply list_elem_of_In, (List.in_map frameContent) in Hf. rewrite Hsent in Hf.
    unfold planned in Hf. apply List.in_map_iff in Hf. destruct Hf as (i & Hi & Hin).
    apply List.in_seq in Hin.
    pose proof (planned_shape file C HC n i Hn ltac:(lia)) as Hs.
    rewrite Hi in Hs. unfold frameContent in Hs. destruct Hs as (-> & Hl & Hr).
    split; [lia|]. split; assumption. }
  destruct Hshape as (Hseq0 & Hlen & Hrange).
  assert (Hbuf : handleBufferFrame now pst id (frameBlob f) = expected).
  { unfold handleBufferFrame, frameBlob.
    assert (Htotal : byteLength (setUint32 (fseq f) ++ setUint32 (flen f) ++ fpayload f)
                     = 8 + flen f).
    { unfold byteLength in *. rewrite !List.length_app, !length_setUint32. lia. }
    rewrite Htotal.
    destruct (Z.ltb_spec (8 + flen f) FILE_FRAME_HEADER_BYTES) as [Hlt|_];
      [unfold FILE_FRAME_HEADER_BYTES in Hlt; lia|].
    rewrite getUint32_setUint32, getUint32_second.
    rewrite !Z.mod_small by (unfold FILE_CHUNK_SIZE in HCmax; lia).
    assert (Hfl : frameLen (flen f) (8 + flen f) = flen f).
    { unfold frameLen, FILE_FRAME_HEADER_BYTES.
      replace (Z.max 0 (8 + flen f - 8)) with (flen f) by lia.
      destruct (_ && _)%bool; reflexivity. }
    rewrite Hfl.
    assert (Hpay : sliceBytes (setUint32 (fseq f) ++ setUint32 (flen f) ++ fpayload f)
                     FILE_FRAME_HEADER_BYTES (FILE_FRAME_HEADER_BYTES + flen f)
                   = fpayload f).
    { unfold sliceBytes, FILE_FRAME_HEADER_BYTES.
      change (Z.to_nat 8) with 8%nat. cbn [setUint32 List.app List.skipn].
      replace (Z.to_nat (8 + flen f - 8)) with (List.length (fpayload f))
        by (unfold byteLength in Hlen; lia).
      apply List.firstn_all. }
    rewrite Hpay. unfold expected. destruct (markPeerActivity now pst). reflexivity. }
  split; [|exact Hbuf].
  cbn [handleFileFrame].
  assert (Htotal : byteLength (frameBlob f) = 8 + flen f).
  { unfold frameBlob, byteLength in *. rewrite !List.length_app, !length_setUint32. lia. }
  rewrite Htotal.
  destruct (Z.ltb_spec (8 + flen f) FILE_FRAME_HEADER_BYTES) as [Hlt|_];
    [unfold FILE_FRAME_HEADER_BYTES in Hlt; lia|].
  destruct blobArrayBuffer; [|exact Hbuf].
  assert (Hhead : sliceBytes (frameBlob f) 0 FILE_FRAME_HEADER_BYTES
                  = setUint32 (fseq f) ++ setUint32 (flen f) ++ []).
  { reflexivity. }
  rewrite Hhead, getUint32_setUint32, getUint32_second.
  rewrite !Z.mod_small by (unfold FILE_CHUNK_SIZE in HCmax; lia).
  assert (Hfl : frameLen (flen f) (8 + flen f) = flen f).
  { unfold frameLen, FILE_FRAME_HEADER_BYTES.
    replace (Z.max 0 (8 + flen f - 8)) with (flen f) by lia.
    destruct (_ && _)%bool; reflexivity. }
  rewrite Hfl.
  assert (Hpay : sliceBytes (frameBlob f)
                   FILE_FRAME_HEADER_BYTES (FILE_FRAME_HEADER_BYTES + flen f)
                 = fpayload f).
  { unfold sliceBytes, FILE_FRAME_HEADER_BYTES, frameBlob.
    change (Z.to_nat 8) with 8%nat. cbn [setUint32 List.app List.skipn].
    replace (Z.to_nat (8 + flen f - 8)) with (List.length (fpayload f))
      by (unfold byteLength in Hlen; lia).
    apply List.firstn_all. }
  rewrite Hpay. unfold expected. destruct (markPeerActivity now pst). reflexivity.
Qed.

End FrameSpec.

(** ** Pacing and message sizes *)
Module PacingSpec.
Import PeerClient Sender SenderSpec FrameSpec.

Section Watermarks.
Variables (file : list byte) (C : Z) (budget : Z) (env : Env) (top : Z).

(** The watermarks of a running pump: the high one between its floor and
    where it started, the low one computed from it. *)
Definition Marks (st : SendState) : Prop :=
  minHighWaterMark C <= highWaterMark st <= top
  /\ lowWaterMark st = lowFor (highWaterMark st).

Lemma Marks_tickOf st : Marks st -> Marks (tickOf st).
Proof. intros H. exact H. Qed.

Lemma halve_le high : minHighWaterMark C <= high -> halveHighWaterMark C high <= high.
Proof.
  intros H. unfold halveHighWaterMark.
  pose proof (minHighWaterMark_floor C) as Hfl. unfold MiB in Hfl.
  assert (high / 2 <= high) by (apply Z.div_le_upper_bound; lia). lia.
Qed.

Lemma innerIter_Marks deadline st :
  Marks st -> Marks (iterState (innerIter file C env deadline st)).
Proof.
  intros HM. pose proof HM as ((Hlo & Hhi) & Hlow). unfold innerIter.
  cbn [tickOf offset seq rrIndex highWaterMark lowWaterMark tick sent].
  destruct (negb _); [exact HM|].
  destruct (aborted (env (tick st))); [exact HM|].
  destruct (ctrlOpen (env (tick st))); cbn [negb]; [|exact HM].
  destruct (pickChannel _ _ _) as [[idx rr']|]; [|exact HM].
  destruct (sendOutcome (env (tick st))) as [|message]; [exact HM|].
  destruct (isDcSendQueueFullError message); cbn [negb]; [|exact HM].
  assert (HM' : forall rr t s,
             Marks (mkSendState (offset st) (seq st) rr
                      (halveHighWaterMark C (highWaterMark st))
                      (lowFor (halveHighWaterMark C (highWaterMark st))) t s)).
  { intros rr t s. split; [|reflexivity]. cbn [highWaterMark].
    pose proof (halveHighWaterMark_floor C (highWaterMark st)).
    pose proof (halve_le (highWaterMark st) Hlo). lia. }
  destruct (waitRejects _ _ _); apply HM'.
Qed.

Lemma inner_Marks fuel deadline st :
  Marks st -> Marks (iterState (inner file C env fuel deadline st)).
Proof.
  revert st. induction fuel as [|fuel IH]; intros st HM; [exact HM|].
  cbn [inner]. pose proof (innerIter_Marks deadline st HM) as Hstep.
  destruct (innerIter file C env deadline st) as [st'|st' hit|err st'];
    [apply IH; exact Hstep|exact Hstep|exact Hstep].
Qed.

Lemma outer_Marks fuel st :
  Marks st -> Marks (resultState (outer file C budget env fuel st)).
Proof.
  revert st. induction fuel as [|fuel IH]; intros st HM; [exact HM|].
  cbn [outer].
  destruct (offset st <? Sender.size file)%Z; cbn [negb]; [|exact HM].
  destruct (aborted (env (tick st))); [exact HM|].
  destruct (ctrlOpen (env (tick st))); cbn [negb]; [|exact HM].
  destruct (Nat.eqb _ 0); [exact HM|].
  destruct (hasBackpressureEverywhere _ _) as [[|]|]; [| |exact HM].
  - destruct (waitRejects _ _ _); [exact HM|]. apply IH. exact HM.
  - pose proof (inner_Marks (innerFuel file (tickOf st))
                  (nowMs (env (tick st)) + budget) (tickOf st)
                  (Marks_tickOf st HM)) as Hin.
    destruct (inner _ _ _ _ _ _) as [st'|st' hit|err st']; cbn [iterState] in Hin;
      [exact Hin| |exact Hin].
    destruct (Sender.size file <=? offset st')%Z; [exact Hin|].
    destruct hit.
    + destruct (waitRejects _ _ _); [exact Hin|]. apply IH. exact Hin.
    + apply IH. exact Hin.
Qed.

Lemma sendEmptyHeader_Marks fuel dc0 st :
  Marks st -> Marks (resultState (sendEmptyHeader env fuel dc0 st)).
Proof.
  revert st. induction fuel as [|fuel IH]; intros st HM; [exact HM|].
  cbn [sendEmptyHeader].
  destruct (aborted (env (tick st))); [exact HM|].
  destruct (sendOutcome (env (tick st))) as [|message]; [exact HM|].
  destruct (isDcSendQueueFullError message); cbn [negb]; [|exact HM].
  destruct (waitForBufferRejects _ _ _ _); [exact HM|].
  apply IH. exact HM.
Qed.

End Watermarks.

(** X11. Pacing. Once [sendFileChunks] is past its entry checks (the control
    channel is open, a file channel is open, no abort), then however it
    ends its high watermark lies between the floor
    [max(1 MiB, 4 * chunkSize)] and the value it started with, and its low
    watermark is [max(512 KiB, floor(high / 4))], which is below the high
    one. *)
Theorem watermarks_stay_in_range
    (file : list byte) (maxMessageSize dcHigh : Z) (useFastTransfer : bool)
    (env : Env) (fuel : nat) :
  let C := getSendChunkSize maxMessageSize FILE_FRAME_HEADER_BYTES in
  let st := resultState (sendFileChunks file C (timeBudgetMs useFastTransfer)
                           env dcHigh fuel) in
  let n := Z.of_nat (List.length (openChannels (channels (env O)))) in
  ctrlOpen (env O) = true -> 0 < n -> aborted (env O) = false ->
  minHighWaterMark C <= highWaterMark st <= initialHighWaterMark dcHigh C n
  /\ lowWaterMark st = Z.max (512 * 1024) (highWaterMark st / 4)
  /\ lowWaterMark st < highWaterMark st.
Proof.
  intros C st n Hctrl Hn Hab.
  assert (HM : Marks C (initialHighWaterMark dcHigh C n) st).
  { unfold st, sendFileChunks. rewrite Hctrl, Hab. cbn [negb]. fold n.
    destruct (Z.eqb_spec n 0) as [|_]; [lia|].
    set (st0 := mkSendState 0 0 O _ _ 1 []).
    assert (HM0 : Marks C (initialHighWaterMark dcHigh C n) st0).
    { split; [|reflexivity]. unfold st0. cbn [highWaterMark].
      pose proof (initialHighWaterMark_floor dcHigh C n). lia. }
    destruct (Sender.size file =? 0)%Z.
    - destruct (firstOpen _ _) as [dc0|]; [|exact HM0].
      destruct (waitForBufferRejects _ _ _ _); [exact HM0|].
      apply sendEmptyHeader_Marks. exact HM0.
    - apply outer_Marks. exact HM0. }
  destruct HM as ((Hlo & Hhi) & Hlow).
  split; [split; assumption|]. split; [exact Hlow|].
  rewrite Hlow. unfold lowFor.
  pose proof (minHighWaterMark_floor C) as Hfl. unfold MiB in Hfl.
  assert (highWaterMark st / 4 < highWaterMark st)
    by (apply Z.div_lt_upper_bound; lia).
  lia.
Qed.

(** X12. No message is too large for the channel. Every message the pump
    hands to [dc.send] has at most [FILE_CHUNK_SIZE] bytes, header
    included, and at most [maxMessageSize] bytes when the channel
    announces a maximum above the 8 bytes of the header. *)
Theorem sent_messages_fit_the_channel
    (file : list byte) (maxMessageSize dcHigh : Z) (useFastTransfer : bool)
    (env : Env) (fuel : nat) (f : Frame) :
  let C := getSendChunkSize maxMessageSize FILE_FRAME_HEADER_BYTES in
  let st := resultState (sendFileChunks file C (timeBudgetMs useFastTransfer)
                           env dcHigh fuel) in
  f ∈ sent st ->
  FILE_FRAME_HEADER_BYTES <= byteLength (frameBlob f) <= FILE_CHUNK_SIZE
  /\ (FILE_FRAME_HEADER_BYTES < maxMessageSize ->
      byteLength (frameBlob f) <= maxMessageSize).
Proof.
  intros C st Hf.
  assert (HC : 1 <= C) by apply getSendChunkSize_pos.
  destruct (sendFileChunks_Shape file C HC (timeBudgetMs useFastTransfer) env dcHigh fuel)
    as (n & Hsent & Hn).
  fold st in Hsent.
  assert (Hshape : flen f = byteLength (fpayload f) /\ 0 <= flen f <= C).
  { apply list_elem_of_In, (List.in_map frameContent) in Hf. rewrite Hsent in Hf.
    unfold planned in Hf. apply List.in_map_iff in Hf. destruct Hf as (i & Hi & Hin).
    apply List.in_seq in Hin.
    pose proof (planned_shape file C HC n i Hn ltac:(lia)) as Hs.
    rewrite Hi in Hs. unfold frameContent in Hs. tauto. }
  destruct Hshape as (Hlen & Hrange).
  assert (Htotal : byteLength (frameBlob f) = 8 + flen f).
  { unfold frameBlob, byteLength in *. rewrite !List.length_app, !length_setUint32. lia. }
  rewrite Htotal. unfold FILE_FRAME_HEADER_BYTES, FILE_CHUNK_SIZE in *.
  assert (HCdef : C = getSendChunkSize maxMessageSize 8) by reflexivity.
  unfold getSendChunkSize, FILE_CHUNK_SIZE in HCdef.
  split.
  - revert HCdef.
    repeat match goal with |- context [if ?b then _ else _] => destruct b end; lia.
  - intros Hmax. revert HCdef.
    destruct (Z.ltb_spec 0 maxMessageSize) as [_|]; [|lia].
    destruct (Z.eqb_spec maxMessageSize 0) as [|_]; [lia|]. cbn [negb]. lia.
Qed.

End PacingSpec.

(** ** Connection codes *)
Module CodeSpec.
Import PeerClient JsFacts SignalSpec Base32Spec.

Local Arguments String.append : simpl nomatch.

(** X13. White space around a connection code does not matter:
    [decodeSignal] returns, or throws, as for the code alone. *)
Theorem decodeSignal_ignores_outer_white_space
    (dec : Platform) (before code after : string) :
  Js.allChars Js.isWhiteSpace before = true ->
  Js.allChars Js.isWhiteSpace after = true ->
  decodeSignal dec (before ++ code ++ after) = decodeSignal dec code.
Proof.
  intros Hb Ha. unfold decodeSignal. rewrite (trim_around _ _ _ Hb Ha). reflexivity.
Qed.

Lemma startsWith_drop p s :
  Js.startsWith p s = true -> s = (p ++ Js.drop (String.length p) s)%string.
Proof.
  revert s. induction p as [|c p IH]; intros s; simpl; [reflexivity|].
  destruct s as [|d s]; [discriminate|].
  intros H. apply andb_true_iff in H. destruct H as (Hc & Hp).
  apply Ascii.eqb_eq in Hc. subst d. simpl. f_equal. apply IH. exact Hp.
Qed.

(** X14. [decodeSignal] returns a result only for a code that, once trimmed,
    starts with one of the four prefixes [SHR2:], [SHR3:], [SHR1:] and
    [SHR0:] (an empty code and any other text make it throw), and for the
    two gzip prefixes only in a browser with stream compression. *)
Theorem decodeSignal_needs_known_prefix
    (dec : Platform) (code : string) (r : DecodedSignal) :
  decodeSignal dec code = Some r ->
  exists prefix body,
    Js.trim code = (prefix ++ body)%string
    /\ (prefix = SIGNAL_PREFIX_GZIP_B32 /\ hasStreamCompression dec = true
        \/ prefix = SIGNAL_PREFIX_RAW_B32
        \/ prefix = SIGNAL_PREFIX_GZIP /\ hasStreamCompression dec = true
        \/ prefix = SIGNAL_PREFIX_RAW).
Proof.
  unfold decodeSignal. set (t := Js.trim code).
  destruct (Js.isEmpty t); [discriminate|].
  destruct (Js.startsWith SIGNAL_PREFIX_GZIP_B32 t) eqn:H2.
  { destruct (hasStreamCompression dec) eqn:Hc; cbn [negb]; [|discriminate].
    intros _. exists SIGNAL_PREFIX_GZIP_B32, (Js.drop 5 t).
    split; [exact (startsWith_drop _ _ H2)|]. left. split; reflexivity. }
  destruct (Js.startsWith SIGNAL_PREFIX_RAW_B32 t) eqn:H3.
  { intros _. exists SIGNAL_PREFIX_RAW_B32, (Js.drop 5 t).
    split; [exact (startsWith_drop _ _ H3)|]. right. left. reflexivity. }
  destruct (Js.startsWith SIGNAL_PREFIX_GZIP t) eqn:H1.
  { destruct (hasStreamCompression dec) eqn:Hc; cbn [negb]; [|discriminate].
    intros _. exists SIGNAL_PREFIX_GZIP, (Js.drop 5 t).
    split; [exact (startsWith_drop _ _ H1)|]. right. right. left. split; reflexivity. }
  destruct (Js.startsWith SIGNAL_PREFIX_RAW t) eqn:H0; [|discriminate].
  intros _. exists SIGNAL_PREFIX_RAW, (Js.drop 5 t).
  split; [exact (startsWith_drop _ _ H0)|]. right. right. right. reflexivity.
Qed.

(** X15. [encodeSignal] throws exactly when the description is missing or
    lacks a type or an SDP. Otherwise its code is [SHR2:] or [SHR3:]
    followed by characters of the base 32 alphabet only, [SHR2:] only when
    compression is enabled and the browser has it; the code holds no white
    space, so trimming leaves it alone. *)
Theorem encodeSignal_code_shape
    (enc : Platform) (cfg : WebrtcConfig) (desc : option SessionDescription) :
  match encodeSignal enc cfg desc with
  | None =>
      desc = None \/ exists d, desc = Some d /\ (descType d = "" \/ sdp d = "")
  | Some code =>
      exists d body,
        desc = Some d /\ descType d <> "" /\ sdp d <> ""
        /\ Js.allChars inAlphabet body = true
        /\ Js.trim code = code
        /\ (code = (SIGNAL_PREFIX_GZIP_B32 ++ body)%string
            /\ (useSignalCompression cfg && hasStreamCompression enc)%bool = true
            \/ code = (SIGNAL_PREFIX_RAW_B32 ++ body)%string)
  end.
Proof.
  unfold encodeSignal. destruct desc as [d|]; [|left; reflexivity].
  destruct (descType d) as [|t0 t] eqn:Et.
  { right. exists d. split; [reflexivity|left; exact Et]. }
  destruct (sdp d) as [|s0 s] eqn:Es.
  { right. exists d. split; [reflexivity|right; exact Es]. }
  cbn [Js.isEmpty orb]. rewrite <- Et, <- Es.
  set (payload := jsonBytes enc _).
  assert (Hbody : forall bytes, Js.allChars inAlphabet (base32EncodeBytes bytes) = true).
  { intros bytes. destruct (base32EncodeBytes_spec bytes) as (_ & _ & _ & _ & Hal).
    revert Hal. apply allChars_impl. intros c Hc.
    rewrite <- isAlphabetChar_inAlphabet. exact Hc. }
  assert (Htrim : forall prefix bytes,
             Js.allChars (fun c => negb (Js.isWhiteSpace c)) prefix = true ->
             prefix <> "" ->
             Js.trim (prefix ++ base32EncodeBytes bytes)
             = (prefix ++ base32EncodeBytes bytes)%string).
  { intros prefix bytes Hp Hne. apply trim_signal; [exact Hp|exact Hne|].
    destruct (base32EncodeBytes_spec bytes) as (_ & _ & _ & _ & Hal). exact Hal. }
  assert (Hraw : exists d0 body,
             Some d = Some d0 /\ descType d0 <> "" /\ sdp d0 <> ""
             /\ Js.allChars inAlphabet body = true
             /\ Js.trim (SIGNAL_PREFIX_RAW_B32 ++ base32EncodeBytes payload)
                = (SIGNAL_PREFIX_RAW_B32 ++ base32EncodeBytes payload)%string
             /\ ((SIGNAL_PREFIX_RAW_B32 ++ base32EncodeBytes payload
                  = SIGNAL_PREFIX_GZIP_B32 ++ body)%string
                 /\ (useSignalCompression cfg && hasStreamCompression enc)%bool = true
                 \/ (SIGNAL_PREFIX_RAW_B32 ++ base32EncodeBytes payload
                     = SIGNAL_PREFIX_RAW_B32 ++ body)%string)).
  { exists d, (base32EncodeBytes payload). rewrite Et, Es.
    repeat split; try discriminate; [apply Hbody|apply Htrim; [reflexivity|discriminate]|].
    right. reflexivity. }
  destruct (useSignalCompression cfg && hasStreamCompression enc)%bool eqn:Hc;
    [|exact Hraw].
  destruct (gzip enc payload) as [buf|]; [|exact Hraw].
  exists d, (base32EncodeBytes buf). rewrite Et, Es.
  repeat split; try discriminate; [apply Hbody|apply Htrim; [reflexivity|discriminate]|].
  left. split; reflexivity.
Qed.

End CodeSpec.

(** ** The receiver and its writer *)
Module SinkSpec.
Import PeerClient Main MainSpec.

(** The bytes of a commit log, in the order of the log. *)
Definition payloadOf (log : list (Z * list byte)) : list byte :=
  List.concat (List.map snd log).

(** The bytes waiting in the write queue. *)
Definition queued (r : Incoming) : list byte :=
  List.concat (List.map fst (writeQueue r)).

(** What ties a state object to its writer: nothing is taken in before the
    user accepted, and while the writer is open everything committed waits
    in the write queue, in order. *)
Definition SinkInv (r : Incoming) : Prop :=
  needsAccept r = true
  /\ (accepted r = false -> committed r = [] /\ pendingChunks r = ∅)
  /\ match writer r with
     | None => writeQueue r = [] /\ writeQueueStart r = O
     | Some w =>
         closed w = false ->
         written w = [] /\ writeQueueStart r = O /\ queued r = payloadOf (committed r)
     end.

Definition SinkApp (app : App) : Prop :=
  (forall ref r, objs app !! ref = Some r -> SinkInv r)
  /\ (forall ref r w,
        receiving app = Some ref -> objs app !! ref = Some r ->
        writer r = Some w -> closed w = false).

(** The fields of a state object that committing chunks leaves alone. *)
Definition frame (r : Incoming) :=
  (fileId r, streamId r, size r, name r, needsAccept r, accepted r, cancelled r,
   writer r, writeQueueStart r).

Lemma payloadOf_app l1 l2 : payloadOf (l1 ++ l2) = payloadOf l1 ++ payloadOf l2.
Proof. unfold payloadOf. rewrite List.map_app, List.concat_app. reflexivity. Qed.

Lemma commitChunk_sink k data r w :
  writer r = Some w ->
  frame (commitChunk k data r) = frame r
  /\ queued (commitChunk k data r) = queued r ++ data.
Proof.
  intros Hw. unfold commitChunk.
  destruct (Z.leb_spec (byteLength data) 0) as [Hle|Hgt].
  - split; [reflexivity|].
    assert (data = []) by (destruct data; [reflexivity|unfold byteLength in Hle; simpl in Hle; lia]).
    subst data. rewrite List.app_nil_r. reflexivity.
  - cbn [set_committed writer chunks]. rewrite Hw. split; [reflexivity|].
    unfold queued.
    cbn [set_received set_writeQueuedBytes set_writeQueue set_committed writeQueue].
    rewrite List.map_app, List.concat_app. cbn. rewrite List.app_nil_r. reflexivity.
Qed.

Lemma commitChunk_view k data r w :
  writer r = Some w ->
  frame (commitChunk k data r) = frame r
  /\ queued (commitChunk k data r) = queued r ++ data
  /\ committed (commitChunk k data r) = committed r ++ [(k, data)]
  /\ pendingChunks (commitChunk k data r) = pendingChunks r
  /\ expectedSeq (commitChunk k data r) = expectedSeq r.
Proof.
  intros Hw. destruct (commitChunk_sink k data r w Hw) as (Hf & Hq).
  pose proof (commitChunk_progress k data r) as Hp.
  unfold progress in Hp. injection Hp as Hc Hc2 Hc3 _.
  repeat split; assumption.
Qed.

(** One pass of the drain loop, and the step before the loop, as a
    function on state objects. *)
Definition commitNext (k : Z) (data : list byte) (pending : gmap Z (list byte))
    (r : Incoming) : Incoming :=
  let r0 := commitChunk k data (set_pendingChunks pending r) in
  set_expectedSeq (expectedSeq r0 + 1) r0.

Lemma commitNext_view k data pending r w :
  writer r = Some w ->
  frame (commitNext k data pending r) = frame r
  /\ queued (commitNext k data pending r) = queued r ++ data
  /\ committed (commitNext k data pending r) = committed r ++ [(k, data)]
  /\ pendingChunks (commitNext k data pending r) = pending
  /\ expectedSeq (commitNext k data pending r) = expectedSeq r + 1
  /\ writer (commitNext k data pending r) = Some w.
Proof.
  intros Hw. unfold commitNext.
  destruct (commitChunk_view k data (set_pendingChunks pending r) w Hw)
    as (Hf & Hq & Hc & Hp & He).
  set (r0 := commitChunk k data (set_pendingChunks pending r)) in *.
  assert (Hw0 : writer r0 = Some w).
  { unfold frame in Hf. cbn [set_pendingChunks writer] in Hf. congruence. }
  repeat split.
  - exact Hf.
  - exact Hq.
  - exact Hc.
  - exact Hp.
  - cbn [set_expectedSeq expectedSeq]. rewrite He. reflexivity.
  - exact Hw0.
Qed.

Lemma drainPending_sink fuel r w :
  writer r = Some w ->
  let run := successors (pendingChunks r) (expectedSeq r) fuel in
  frame (drainPending fuel r) = frame r
  /\ queued (drainPending fuel r) = queued r ++ payloadOf run
  /\ committed (drainPending fuel r) = committed r ++ run.
Proof.
  revert r. induction fuel as [|fuel IH]; intros r Hw; cbn [drainPending successors].
  - cbn. rewrite !List.app_nil_r. repeat split; reflexivity.
  - destruct (pendingChunks r !! expectedSeq r) as [next|] eqn:Hnext.
    + change (drainPending fuel _)
        with (drainPending fuel
                (commitNext (expectedSeq r) next
                   (delete (expectedSeq r) (pendingChunks r)) r)).
      destruct (commitNext_view (expectedSeq r) next
                  (delete (expectedSeq r) (pendingChunks r)) r w Hw)
        as (E3 & E4 & E5 & E1 & E2 & Hw1).
      set (r1 := commitNext _ _ _ _) in *.
      destruct (IH r1 Hw1) as (If & Iq & Ic).
      rewrite E1, E2, successors_delete in Iq, Ic by lia.
      repeat split.
      * rewrite If. exact E3.
      * rewrite Iq, E4. unfold payloadOf. cbn [List.map snd List.concat].
        rewrite <- List.app_assoc. reflexivity.
      * rewrite Ic, E5, <- List.app_assoc. reflexivity.
    + cbn. rewrite !List.app_nil_r. repeat split; reflexivity.
Qed.

Lemma commitAndDrain_sink chunk r w :
  writer r = Some w ->
  let run := (expectedSeq r, chunk)
             :: successors (pendingChunks r) (expectedSeq r + 1)
                  (stdpp.base.size (pendingChunks r)) in
  let r' := commitAndDrain (expectedSeq r) chunk r in
  frame r' = frame r
  /\ queued r' = queued r ++ payloadOf run
  /\ committed r' = committed r ++ run.
Proof.
  intros Hw run r'. unfold r', commitAndDrain.
  destruct (commitChunk_view (expectedSeq r) chunk r w Hw) as (Hf & Hq & Hc & Hp & He).
  set (rc := commitChunk (expectedSeq r) chunk r) in *.
  set (r1 := set_expectedSeq (expectedSeq rc + 1) rc).
  assert (Hw1 : writer r1 = Some w).
  { unfold frame in Hf. change (writer r1) with (writer rc). congruence. }
  destruct (drainPending_sink (stdpp.base.size (pendingChunks r1)) r1 w Hw1)
    as (If & Iq & Ic).
  change (pendingChunks r1) with (pendingChunks rc) in *.
  change (expectedSeq r1) with (expectedSeq rc + 1) in *.
  change (frame r1) with (frame rc) in If.
  change (queued r1) with (queued rc) in Iq.
  change (committed r1) with (committed rc) in Ic.
  rewrite Hp, He in Iq, Ic. rewrite Hp in If |- *.
  repeat split.
  - rewrite If. exact Hf.
  - rewrite Iq, Hq. unfold run, payloadOf. cbn [List.map snd List.concat].
    rewrite <- List.app_assoc. reflexivity.
  - rewrite Ic, Hc, <- List.app_assoc. reflexivity.
Qed.

(** *** The store under each operation *)

Definition SinkStore (m : gmap nat Incoming) (recv : option nat) : Prop :=
  (forall ref r, m !! ref = Some r -> SinkInv r)
  /\ (forall ref r w,
        recv = Some ref -> m !! ref = Some r -> writer r = Some w -> closed w = false).

Lemma SinkApp_store app : SinkApp app <-> SinkStore (objs app) (receiving app).
Proof. reflexivity. Qed.

Lemma SinkStore_alter m recv recv' ref f :
  (recv' = recv \/ recv' = None) ->
  (forall r, m !! ref = Some r -> SinkInv r ->
             (recv = Some ref -> forall w, writer r = Some w -> closed w = false) ->
             SinkInv (f r)
             /\ (recv' = Some ref -> forall w', writer (f r) = Some w' -> closed w' = false)) ->
  SinkStore m recv -> SinkStore (alter f ref m) recv'.
Proof.
  intros Hrecv Hf (HA & HR). split.
  - intros ref' r'. destruct (decide (ref = ref')) as [<-|Hne].
    + rewrite lookup_alter_eq. destruct (m !! ref) as [r|] eqn:Hr; [|discriminate].
      intros [= <-]. apply (Hf r eq_refl (HA ref r Hr)).
      intros E w. exact (HR ref r w E Hr).
    + rewrite lookup_alter_ne by exact Hne. apply HA.
  - intros ref' r' w' E. destruct (decide (ref = ref')) as [<-|Hne].
    + rewrite lookup_alter_eq. destruct (m !! ref) as [r|] eqn:Hr; [|discriminate].
      intros [= <-]. apply (Hf r eq_refl (HA ref r Hr)); [|exact E].
      intros E0 w. exact (HR ref r w E0 Hr).
    + rewrite lookup_alter_ne by exact Hne.
      destruct Hrecv as [-> | ->]; [|discriminate]. exact (HR ref' r' w' E).
Qed.

Lemma SinkStore_recv m recv recv' :
  (recv' = recv \/ recv' = None) -> SinkStore m recv -> SinkStore m recv'.
Proof.
  intros Hrecv (HA & HR). split; [exact HA|].
  intros ref r w E. destruct Hrecv as [-> | ->]; [|discriminate]. exact (HR ref r w E).
Qed.

(** What [cancelIncomingFile] does to the object it finds. *)
Definition dropped (r : Incoming) : Incoming :=
  set_writeQueuedBytes 0
    (set_writeQueueStart O
       (set_writeQueue []
          (set_writer None (set_acceptResendTimer false (set_cancelled true r))))).

Lemma SinkInv_dropped r : SinkInv r -> SinkInv (dropped r).
Proof.
  intros (H1 & H2 & _). repeat split; try assumption; apply H2; assumption.
Qed.

Lemma receiving_tryPeerSend b msg app :
  receiving (tryPeerSend b msg app) = receiving app.
Proof.
  unfold tryPeerSend, peerSend. destruct (ctrlOpen b), (ctrlThrows b); reflexivity.
Qed.

Lemma receiving_closeFileChannels prefix app :
  receiving (closeFileChannelsByPrefix prefix app) = receiving app.
Proof. unfold closeFileChannelsByPrefix. destruct (Js.isEmpty _); reflexivity. Qed.

Lemma cancelIncomingFile_store b id notifyPeer reason app :
  let app' := cancelIncomingFile b id notifyPeer reason app in
  (objs app' = objs app /\ receiving app' = receiving app)
  \/ exists ref r,
       incomingFiles app !! Js.trim id = Some ref
       /\ objs app !! ref = Some r
       /\ objs app' = alter dropped ref (objs app)
       /\ (receiving app' = receiving app \/ receiving app' = None).
Proof.
  cbv zeta. unfold cancelIncomingFile.
  destruct (Js.isEmpty (Js.trim id)); [left; split; reflexivity|].
  destruct (incomingFiles app !! Js.trim id) as [ref|]; [|left; split; reflexivity].
  destruct (objs app !! ref) as [state|] eqn:Hstate; [|left; split; reflexivity].
  right. exists ref, state. split; [reflexivity|]. split; [exact Hstate|].
  set (app1 := set_incomingFiles _ _).
  set (app2 := match receiving app1 with Some _ => _ | None => _ end).
  set (app3 := if (notifyPeer && ctrlOpen b)%bool then _ else app2).
  set (app4 := if negb _ then _ else app3).
  assert (H4 : objs app4 = objs app3 /\ receiving app4 = receiving app3).
  { unfold app4. destruct (negb _);
      [split; [apply objs_closeFileChannels|apply receiving_closeFileChannels]
      |split; reflexivity]. }
  assert (H3 : objs app3 = objs app2 /\ receiving app3 = receiving app2).
  { unfold app3. destruct (_ && _)%bool;
      [split; [apply objs_tryPeerSend|apply receiving_tryPeerSend]|split; reflexivity]. }
  assert (H2 : objs app2 = objs app1
               /\ (receiving app2 = receiving app1 \/ receiving app2 = None)).
  { unfold app2. destruct (receiving app1) as [cur|] eqn:Hcur;
      [|split; [reflexivity|left; exact Hcur]].
    destruct (objs app1 !! cur) as [r|]; [|split; [reflexivity|left; exact Hcur]].
    destruct (String.eqb _ _);
      [split; [reflexivity|right; reflexivity]|split; [reflexivity|left; exact Hcur]]. }
  destruct H4 as (H4o & H4r), H3 as (H3o & H3r), H2 as (H2o & H2r).
  split.
  - cbn [update objs set_objs]. rewrite H4o, H3o, H2o. unfold app1.
    cbn [update objs set_objs set_incomingFiles]. rewrite alter_alter_eq. reflexivity.
  - cbn [update receiving set_objs]. rewrite H4r, H3r.
    destruct H2r as [-> | ->]; [left|right]; reflexivity.
Qed.

Lemma SinkApp_cancelIncomingFile b id notifyPeer reason app :
  SinkApp app -> SinkApp (cancelIncomingFile b id notifyPeer reason app).
Proof.
  intros HS. apply SinkApp_store.
  destruct (cancelIncomingFile_store b id notifyPeer reason app)
    as [(Ho & Hr)|(ref & r & _ & _ & Ho & Hr)]; rewrite Ho.
  - rewrite Hr. exact HS.
  - apply (SinkStore_alter _ (receiving app)); [exact Hr| |exact HS].
    intros r0 _ HI _. split; [apply SinkInv_dropped; exact HI|].
    intros _ w' Hw'. discriminate.
Qed.

Lemma SinkApp_same app app' :
  objs app' = objs app -> receiving app' = receiving app ->
  SinkApp app -> SinkApp app'.
Proof. intros Ho Hr HS. apply SinkApp_store. rewrite Ho, Hr. exact HS. Qed.

Lemma SinkApp_update ref f app :
  (forall r, objs app !! ref = Some r -> SinkInv r ->
             (receiving app = Some ref -> forall w, writer r = Some w -> closed w = false) ->
             SinkInv (f r)
             /\ (receiving app = Some ref ->
                 forall w', writer (f r) = Some w' -> closed w' = false)) ->
  SinkApp app -> SinkApp (update ref f app).
Proof.
  intros Hf HS. apply SinkApp_store. cbn [update objs receiving set_objs].
  apply (SinkStore_alter _ (receiving app)); [left; reflexivity|exact Hf|exact HS].
Qed.

Lemma SinkApp_onFileMeta id sid sc name' size' app :
  SinkApp app -> SinkApp (onFileMeta id sid sc name' size' app).
Proof.
  intros HS. unfold onFileMeta.
  destruct (receiving app) eqn:Hrecv; [exact HS|].
  destruct (_ || _)%bool; [exact HS|].
  destruct HS as (HA & HR). split.
  - intros ref r. app_fields.
    destruct (decide (nextRef app = ref)) as [<-|Hne].
    + rewrite lookup_insert_eq. intros [= <-]. repeat split; reflexivity.
    + rewrite lookup_insert_ne by exact Hne. apply HA.
  - intros ref r w. cbn [receiving set_receiving]. intros [= <-]. app_fields.
    rewrite lookup_insert_eq. intros [= <-]. discriminate.
Qed.

(** The two things [acceptFile] does to the object. *)
Definition picked (r : Incoming) : Incoming :=
  set_chunks None (set_writer (Some (mkSink [] false false)) r).

Definition confirmed (r : Incoming) : Incoming :=
  set_acceptResendTimer true (set_acceptAcked false (set_accepted true r)).

Lemma SinkInv_picked r :
  accepted r = false -> writer r = None -> SinkInv r -> SinkInv (picked r).
Proof.
  intros Ha Hw (H1 & H2 & H3). rewrite Hw in H3. destruct H3 as (Hq & Hs).
  destruct (H2 Ha) as (Hc & Hp).
  repeat split; try assumption.
  cbn. unfold queued. cbn [picked set_chunks set_writer writeQueue].
  rewrite Hq, Hc. reflexivity.
Qed.

Lemma SinkInv_confirmed r : SinkInv r -> SinkInv (confirmed r).
Proof.
  intros (H1 & H2 & H3). repeat split; [exact H1|discriminate|discriminate|exact H3].
Qed.

Lemma SinkApp_acceptFile b id app : SinkApp app -> SinkApp (acceptFile b id app).
Proof.
  intros HS. unfold acceptFile.
  destruct (Js.isEmpty (Js.trim id)); [exact HS|].
  destruct (incomingFiles app !! Js.trim id) as [ref|]; [|exact HS].
  destruct (objs app !! ref) as [state|] eqn:Hstate; [|exact HS].
  destruct (accepted state) eqn:Hacc; [exact HS|].
  assert (Hsend : forall app0,
             SinkApp app0 ->
             SinkApp
               (if negb (ctrlOpen b) then app0
                else match peerSend b (MsgFileAccept (Js.trim id)) app0 with
                     | Some app1 => update ref confirmed app1
                     | None => app0
                     end)).
  { intros app0 HS0. destruct (negb (ctrlOpen b)); [exact HS0|].
    destruct (peerSend b (MsgFileAccept (Js.trim id)) app0) as [app1|] eqn:Hp;
      [|exact HS0].
    apply SinkApp_update.
    - intros r _ HI HR. split; [apply SinkInv_confirmed; exact HI|exact HR].
    - unfold peerSend in Hp.
      destruct (ctrlOpen b), (ctrlThrows b); try discriminate; injection Hp as <-;
        exact HS0. }
  destruct (writer state) eqn:Hw; [apply Hsend; exact HS|].
  destruct (negb (hasPicker b)); [exact HS|].
  destruct (negb (pickerOk b)); [exact HS|].
  apply Hsend. apply SinkApp_update; [|exact HS].
  intros r Hr HI _. rewrite Hstate in Hr. injection Hr as <-.
  split; [apply SinkInv_picked; assumption|].
  intros _ w'. cbn. intros [= <-]. reflexivity.
Qed.

Lemma objs_completionUiOp b id app : objs (completionUiOp b id app) = objs app.
Proof.
  unfold completionUiOp. destruct (negb _); [reflexivity|].
  destruct (incomingFiles app !! id); reflexivity.
Qed.

Lemma receiving_completionUiOp b id app :
  receiving (completionUiOp b id app) = receiving app.
Proof.
  unfold completionUiOp. destruct (negb _); [reflexivity|].
  destruct (incomingFiles app !! id); reflexivity.
Qed.

(** Closing the writer, and writing what is queued before that. *)
Definition closeWriter (r : Incoming) : Incoming :=
  match writer r with
  | Some w => set_writer (Some (mkSink (written w) true (sinkAborted w))) r
  | None => r
  end.

Lemma SinkInv_closeWriter r :
  needsAccept r = true ->
  (accepted r = false -> committed r = [] /\ pendingChunks r = ∅) ->
  (writer r = None -> writeQueue r = [] /\ writeQueueStart r = O) ->
  SinkInv (closeWriter r).
Proof.
  intros H1 H2 H3. unfold closeWriter. destruct (writer r) as [w|] eqn:Hw.
  - split; [exact H1|]. split; [exact H2|]. cbn. discriminate.
  - split; [exact H1|]. split; [exact H2|]. rewrite Hw. apply H3. reflexivity.
Qed.

(** The object store after [completeTransfer]: the object is closed, after
    its queue was written or the transfer was cancelled on a failed
    write. *)
Lemma completeTransfer_store b ref app :
  let app' := completeTransfer b ref app in
  receiving app' = None \/ (objs app !! ref = None /\ app' = app).
Proof.
  cbv zeta. unfold completeTransfer.
  set (app1 := match objs app !! ref with Some _ => _ | None => _ end).
  destruct (objs app1 !! ref) as [r|] eqn:Hr1.
  - left. destruct (listAttached b).
    + rewrite receiving_completionUiOp. reflexivity.
    + reflexivity.
  - right. unfold app1 in *. destruct (objs app !! ref) as [r|] eqn:Hr; [|split; reflexivity].
    exfalso. destruct (writer r); [|congruence].
    cbn [update objs set_objs] in Hr1. rewrite lookup_alter_eq in Hr1.
    pose proof (Framed_flushFileWrites b ref app ref) as HF. unfold snapshotOf in HF.
    rewrite Hr in HF. destruct (objs (flushFileWrites b ref app) !! ref); discriminate.
Qed.

Lemma flushFileWrites_store b ref app :
  objs (flushFileWrites b ref app) = objs app
  \/ (exists id reason,
        objs (flushFileWrites b ref app)
        = objs (cancelIncomingFile b id true reason app))
  \/ exists r w,
       objs app !! ref = Some r /\ writer r = Some w /\ writeFails b = false
       /\ objs (flushFileWrites b ref app)
          = alter (fun r0 =>
                     set_writeQueuedBytes
                       (Z.max 0 (writeQueuedBytes r0
                                 - List.fold_right Z.add 0
                                     (List.map snd (List.skipn (writeQueueStart r) (writeQueue r)))))
                       (set_writeQueueStart (List.length (writeQueue r0))
                          (set_writer
                             (Some (mkSink
                                      (written w
                                       ++ List.concat
                                            (List.map fst
                                               (List.skipn (writeQueueStart r) (writeQueue r))))
                                      (closed w) (sinkAborted w)))
                             r0)))
               ref (objs app).
Proof.
  unfold flushFileWrites.
  destruct (objs app !! ref) as [state|] eqn:Hr; [|left; reflexivity].
  destruct (writer state) as [w|] eqn:Hw; [|left; reflexivity].
  destruct (List.skipn _ _) as [|item items] eqn:Hitems; [left; reflexivity|].
  destruct (writeFails b) eqn:Hfail.
  - right. left. eexists _, _. reflexivity.
  - right. right. exists state, w. rewrite Hitems.
    split; [reflexivity|]. split; [exact Hw|]. split; reflexivity.
Qed.

Lemma SinkAll_completeTransfer b ref app :
  SinkApp app -> SinkApp (completeTransfer b ref app).
Proof.
  intros HS.
  destruct (completeTransfer_store b ref app) as [Hrecv|(_ & ->)]; [|exact HS].
  split; [|rewrite Hrecv; discriminate].
  unfold completeTransfer.
  set (app1 := match objs app !! ref with Some _ => _ | None => _ end).
  assert (H1 : forall ref' r', objs app1 !! ref' = Some r' -> SinkInv r').
  { unfold app1. destruct (objs app !! ref) as [r|] eqn:Hr; [|apply HS].
    destruct (writer r) as [w|] eqn:Hw; [|apply HS].
    cbn [update objs set_objs]. fold closeWriter.
    destruct (flushFileWrites_store b ref app) as [E|[(id & reason & E)|(r0 & w0 & Hr0 & Hw0 & _ & E)]];
      rewrite E.
    - apply (SinkStore_alter _ (receiving app) None); [right; reflexivity| |exact HS].
      intros r1 _ (I1 & I2 & I3) _. split; [|discriminate].
      apply SinkInv_closeWriter; [exact I1|exact I2|].
      intros Hn. rewrite Hn in I3. exact I3.
    - pose proof (SinkApp_cancelIncomingFile b id true reason app HS) as HC.
      apply (SinkStore_alter _ (receiving (cancelIncomingFile b id true reason app)) None);
        [right; reflexivity| |exact HC].
      intros r1 _ (I1 & I2 & I3) _. split; [|discriminate].
      apply SinkInv_closeWriter; [exact I1|exact I2|].
      intros Hn. rewrite Hn in I3. exact I3.
    - rewrite alter_alter_eq.
      apply (SinkStore_alter _ (receiving app) None); [right; reflexivity| |exact HS].
      intros r1 _ (I1 & I2 & I3) _. split; [|discriminate].
      unfold compose, closeWriter. cbn [writer set_writeQueuedBytes set_writeQueueStart set_writer].
      split; [exact I1|]. split; [exact I2|]. cbn. discriminate. }
  clearbody app1.
  destruct (objs app1 !! ref) as [r|]; [|exact H1].
  assert (H2 : forall appx, objs appx = objs app1 ->
                 forall ref' r', objs appx !! ref' = Some r' -> SinkInv r').
  { intros appx ->. exact H1. }
  destruct (listAttached b).
  - apply H2. rewrite objs_completionUiOp. cbn [objs set_receiving].
    rewrite objs_tryPeerSend. destruct (writer r); reflexivity.
  - apply H2. cbn [objs set_pendingUiOps set_receiving].
    rewrite objs_tryPeerSend. destruct (writer r); reflexivity.
Qed.

Definition acked (r : Incoming) : Incoming :=
  set_acceptResendTimer false (set_acceptAcked true r).

Lemma SinkInv_frame r r' :
  frame r' = frame r -> committed r' = committed r -> pendingChunks r' = pendingChunks r ->
  writeQueue r' = writeQueue r ->
  SinkInv r -> SinkInv r'.
Proof.
  unfold frame, SinkInv, queued. intros [= _ _ _ _ -> -> _ -> ->] -> -> ->. exact id.
Qed.

Lemma SinkInv_bufferChunk seqNo chunk r :
  accepted r = true -> SinkInv r -> SinkInv (bufferChunk seqNo chunk r).
Proof.
  intros Ha (H1 & H2 & H3). unfold bufferChunk.
  destruct (pendingChunks r !! seqNo); [exact (conj H1 (conj H2 H3))|].
  split; [exact H1|]. split; [|exact H3].
  cbn [set_pendingChunks accepted]. rewrite Ha. discriminate.
Qed.

Lemma SinkInv_commitAndDrain chunk r w :
  accepted r = true -> writer r = Some w -> SinkInv r ->
  SinkInv (commitAndDrain (expectedSeq r) chunk r)
  /\ writer (commitAndDrain (expectedSeq r) chunk r) = Some w.
Proof.
  intros Ha Hw (H1 & H2 & H3).
  destruct (commitAndDrain_sink chunk r w Hw) as (Hf & Hq & Hc).
  set (r' := commitAndDrain (expectedSeq r) chunk r) in *.
  unfold frame in Hf. injection Hf as _ _ _ _ F1 F2 _ F3 F4.
  split; [|congruence].
  split; [congruence|]. split; [rewrite F2, Ha; discriminate|].
  rewrite F3, Hw. rewrite Hw in H3. intros Hopen.
  destruct (H3 Hopen) as (I1 & I2 & I3).
  split; [exact I1|]. split; [congruence|].
  rewrite Hq, Hc, payloadOf_app, I3. reflexivity.
Qed.

Lemma SinkApp_onFileChunk b sid seqNo chunk app :
  SinkApp app -> SinkApp (onFileChunk b sid seqNo chunk app).
Proof.
  intros HS. unfold onFileChunk.
  destruct (receiving app) as [ref|] eqn:Hrecv; [|exact HS].
  destruct (objs app !! ref) as [r|] eqn:Hr; [|exact HS].
  destruct (cancelled r); [exact HS|].
  destruct (needsAccept r && negb (accepted r))%bool eqn:Hg1; [exact HS|].
  destruct (accepted r && negb (bool_decide (is_Some (writer r))))%bool eqn:Hg2;
    [apply SinkApp_cancelIncomingFile; exact HS|].
  pose proof (proj1 HS ref r Hr) as HI. pose proof HI as (Hneeds & _ & _).
  assert (Hacc : accepted r = true).
  { rewrite Hneeds in Hg1. destruct (accepted r); [reflexivity|discriminate]. }
  assert (Hw : exists w, writer r = Some w).
  { rewrite Hacc in Hg2. cbn [andb] in Hg2. apply negb_false_iff in Hg2.
    apply bool_decide_eq_true_1 in Hg2. exact Hg2. }
  destruct Hw as (w & Hw).
  set (app1 := if negb (acceptAcked r) then _ else app).
  assert (H1 : SinkApp app1 /\ receiving app1 = Some ref /\
               exists r1, objs app1 !! ref = Some r1 /\ accepted r1 = true
                          /\ writer r1 = Some w /\ expectedSeq r1 = expectedSeq r).
  { unfold app1. destruct (negb (acceptAcked r)).
    - split; [|split; [exact Hrecv|]].
      + apply SinkApp_update; [|exact HS]. intros r0 _ HI0 HR0.
        split; [revert HI0; apply SinkInv_frame; reflexivity|exact HR0].
      + exists (acked r). cbn [update objs set_objs]. rewrite lookup_alter_eq, Hr.
        repeat split; assumption.
    - split; [exact HS|]. split; [exact Hrecv|]. exists r. repeat split; assumption. }
  destruct H1 as (HS1 & Hrecv1 & r1 & Hr1 & Hacc1 & Hw1 & He1). clearbody app1.
  destruct (negb (Js.isEmpty (streamId r)) && negb (Js.isEmpty (Js.trim sid))
            && negb (streamIdMatchesBase (streamId r) (Js.trim sid)))%bool;
    [exact HS1|].
  destruct (seqNo <? 0); [exact HS1|].
  destruct (Z.ltb_spec seqNo (expectedSeq r)) as [Hlt|Hge]; [exact HS1|].
  destruct (Z.ltb_spec (expectedSeq r) seqNo) as [Hgt|Hle].
  - apply SinkApp_update; [|exact HS1]. intros r0 Hr0 HI0 HR0.
    rewrite Hr1 in Hr0. injection Hr0 as <-.
    split; [apply SinkInv_bufferChunk; assumption|].
    unfold bufferChunk. destruct (pendingChunks r1 !! seqNo); exact HR0.
  - assert (seqNo = expectedSeq r1) by lia. subst seqNo.
    set (app2 := update ref _ app1).
    assert (HS2 : SinkApp app2).
    { apply SinkApp_update; [|exact HS1]. intros r0 Hr0 HI0 HR0.
      rewrite Hr1 in Hr0. injection Hr0 as <-.
      destruct (SinkInv_commitAndDrain chunk r1 w Hacc1 Hw1 HI0) as (HI' & Hw').
      split; [exact HI'|]. intros E w'. rewrite Hw'. intros [= <-].
      exact (HR0 E w Hw1). }
    destruct (objs app2 !! ref) as [r2|]; [|exact HS2].
    destruct (size r2 <=? received r2); [|exact HS2].
    apply SinkAll_completeTransfer. exact HS2.
Qed.

Lemma cancelOutgoingFile_store b id notifyPeer reason app :
  objs (cancelOutgoingFile b id notifyPeer reason app) = objs app
  /\ receiving (cancelOutgoingFile b id notifyPeer reason app) = receiving app.
Proof.
  unfold cancelOutgoingFile.
  destruct (Js.isEmpty (Js.trim id)); [split; reflexivity|].
  destruct (_ && _)%bool; [split; reflexivity|].
  cbn [outgoingTransfers set_fileAcceptEarly].
  destruct (outgoingTransfers app !! Js.trim id) as [state|].
  - rewrite objs_closeFileChannels, receiving_closeFileChannels.
    cbn [objs receiving set_outgoingTransfers set_fileDoneWaiters set_fileAcceptWaiters].
    destruct (_ && _)%bool; [|split; reflexivity].
    rewrite objs_tryPeerSend, receiving_tryPeerSend. split; reflexivity.
  - cbn [outgoingQueue]. destruct (removeFirst _ _); split; reflexivity.
Qed.

Lemma flushUiOps_store b app :
  objs (flushUiOps b app) = objs app /\ receiving (flushUiOps b app) = receiving app.
Proof.
  unfold flushUiOps. destruct (negb _); [split; reflexivity|].
  cbn [objs receiving set_pendingUiOps].
  generalize (pendingUiOps app). intros ops. revert app.
  induction ops as [|op ops IH]; intros app; [split; reflexivity|].
  cbn [List.fold_left]. destruct (IH (completionUiOp b op app)) as (-> & ->).
  rewrite objs_completionUiOp, receiving_completionUiOp. split; reflexivity.
Qed.

Lemma SinkApp_onPeerData b msg app : SinkApp app -> SinkApp (onPeerData b msg app).
Proof.
  intros HS. destruct msg; cbn [onPeerData].
  - exact HS.
  - apply SinkApp_onFileMeta. exact HS.
  - destruct (Js.isEmpty _); [exact HS|].
    apply (SinkApp_same app); [| |exact HS].
    + rewrite objs_tryPeerSend. unfold resolveFileAccept.
      destruct (Js.isEmpty _); [reflexivity|].
      destruct (bool_decide _); [reflexivity|]. destruct (bool_decide _); reflexivity.
    + rewrite receiving_tryPeerSend. unfold resolveFileAccept.
      destruct (Js.isEmpty _); [reflexivity|].
      destruct (bool_decide _); [reflexivity|]. destruct (bool_decide _); reflexivity.
  - destruct (Js.isEmpty _); [exact HS|].
    destruct (incomingFiles app !! _); [|exact HS].
    apply SinkApp_update; [|exact HS]. intros r0 _ HI0 HR0.
    split; [revert HI0; apply SinkInv_frame; reflexivity|exact HR0].
  - destruct (Js.isEmpty _); exact HS.
  - destruct (Js.isEmpty _); [exact HS|].
    apply SinkApp_cancelIncomingFile.
    destruct (cancelOutgoingFile_store b (Js.trim id)
                false (if Js.isEmpty (Js.trim reason)
                       then "Canceled by the other side" else Js.trim reason) app)
      as (Ho & Hr).
    exact (SinkApp_same _ _ Ho Hr HS).
  - destruct (receiving app) as [ref|]; [|exact HS].
    destruct (objs app !! ref) as [r|]; [|exact HS].
    destruct (_ && _)%bool; [|exact HS].
    apply SinkApp_cancelIncomingFile. exact HS.
  - apply SinkApp_onFileChunk. exact HS.
Qed.

Lemma SinkApp_step b ev app : SinkApp app -> SinkApp (step b ev app).
Proof.
  intros HS. destruct ev; cbn [step].
  - apply SinkApp_onPeerData. exact HS.
  - apply SinkApp_acceptFile. exact HS.
  - destruct (cancelOutgoingFile_store b id true "Canceled" app) as (Ho & Hr).
    exact (SinkApp_same _ _ Ho Hr HS).
  - apply SinkApp_cancelIncomingFile. exact HS.
  - destruct (flushUiOps_store b app) as (Ho & Hr).
    exact (SinkApp_same _ _ Ho Hr HS).
Qed.

Lemma SinkApp_initial txId : SinkApp (initialApp txId).
Proof.
  split.
  - intros ref r Hr. cbn in Hr. rewrite lookup_empty in Hr. discriminate.
  - intros ref r w Hrecv. discriminate.
Qed.

Lemma SinkApp_run events app : SinkApp app -> SinkApp (run events app).
Proof.
  revert app. induction events as [|[b ev] events IH]; intros app HS; [exact HS|].
  cbn [run List.fold_left]. apply IH. apply SinkApp_step. exact HS.
Qed.

(** X16. Before the user has accepted a transfer, every chunk for it is
    thrown away: in every state the module can reach, a transfer that is
    not accepted has nothing committed, nothing kept for later, a byte
    count of 0 and still expects sequence number 0. *)
Theorem nothing_taken_before_accept
    (events : list (Browser * Event)) (txId : string) (ref : nat) (r : Incoming) :
  objs (run events (initialApp txId)) !! ref = Some r ->
  accepted r = false ->
  committed r = [] /\ pendingChunks r = ∅ /\ received r = 0 /\ expectedSeq r = 0.
Proof.
  intros Hr Ha.
  destruct (SinkApp_run events _ (SinkApp_initial txId)) as (HA & _).
  destruct (HA ref r Hr) as (_ & H2 & _). destruct (H2 Ha) as (Hc & Hp).
  destruct (AppInv_run events _ (AppInv_initial txId) ref r Hr) as (H0 & Hlog & _ & Hrec).
  rewrite Hc in Hlog, Hrec. split; [exact Hc|]. split; [exact Hp|]. split; [exact Hrec|].
  apply (f_equal (@List.length Z)) in Hlog. unfold seqZ in Hlog.
  rewrite !List.length_map, List.length_seq in Hlog. simpl in Hlog. lia.
Qed.

Lemma completeTransfer_saves b ref app r w :
  objs app !! ref = Some r -> writer r = Some w ->
  written w = [] -> writeQueueStart r = O -> writeFails b = false ->
  exists r',
    objs (completeTransfer b ref app) !! ref = Some r'
    /\ committed r' = committed r
    /\ writer r' = Some (mkSink (queued r) true (sinkAborted w)).
Proof.
  intros Hr Hw Hwritten Hstart Hfail. unfold completeTransfer.
  set (app1 := match objs app !! ref with Some _ => _ | None => _ end).
  assert (H1 : exists r', objs app1 !! ref = Some r' /\ committed r' = committed r
                          /\ writer r' = Some (mkSink (queued r) true (sinkAborted w))).
  { assert (Happ1 : app1 = update ref closeWriter (flushFileWrites b ref app)).
    { unfold app1. rewrite Hr, Hw. reflexivity. }
    rewrite Happ1. clear Happ1.
    destruct (writeQueue r) as [|item items] eqn:Hq.
    - eexists. split; [|split].
      + unfold flushFileWrites. rewrite Hr, Hw, Hstart, Hq. cbn [List.skipn].
        cbn [update objs set_objs]. rewrite lookup_alter_eq, Hr. reflexivity.
      + unfold closeWriter. rewrite Hw. reflexivity.
      + unfold closeWriter. rewrite Hw. cbn. unfold queued. rewrite Hq, Hwritten.
        reflexivity.
    - eexists. split; [|split].
      + unfold flushFileWrites. rewrite Hr, Hw, Hstart, Hq, Hfail. cbn [List.skipn].
        cbn [update objs set_objs]. rewrite !lookup_alter_eq, Hr. reflexivity.
      + unfold closeWriter. reflexivity.
      + unfold closeWriter. cbn. unfold queued. rewrite Hq, Hwritten. reflexivity. }
  destruct H1 as (r' & Hr' & Hc' & Hw'). clearbody app1.
  rewrite Hr'. exists r'. split; [|split; assumption].
  rewrite Hw'. destruct (listAttached b).
  - rewrite objs_completionUiOp. cbn [objs set_receiving]. rewrite objs_tryPeerSend. exact Hr'.
  - cbn [objs set_pendingUiOps set_receiving]. rewrite objs_tryPeerSend. exact Hr'.
Qed.




End SinkSpec.

(** ** Delivery in any order *)
Module DeliverySpec.
Import PeerClient Main MainSpec SinkSpec.

Lemma ctrlOut_completionUiOp b id app : ctrlOut (completionUiOp b id app) = ctrlOut app.
Proof.
  unfold completionUiOp. destruct (negb _); [reflexivity|].
  destruct (incomingFiles app !! id); reflexivity.
Qed.

(** With a working write and an open control channel, completing a
    transfer adds exactly its [file-done]. *)
Lemma completeTransfer_ctrlOut b ref app r w :
  objs app !! ref = Some r -> writer r = Some w ->
  writeFails b = false -> ctrlOpen b = true -> ctrlThrows b = false ->
  ctrlOut (completeTransfer b ref app) = ctrlOut app ++ [MsgFileDone (fileId r)].
Proof.
  intros Hr Hw Hfail Hopen Hthrow. unfold completeTransfer.
  set (app1 := match objs app !! ref with Some _ => _ | None => _ end).
  assert (H1 : ctrlOut app1 = ctrlOut app /\
               exists r1, objs app1 !! ref = Some r1 /\ fileId r1 = fileId r
                          /\ is_Some (writer r1)).
  { assert (Happ1 : app1 = update ref closeWriter (flushFileWrites b ref app)).
    { unfold app1. rewrite Hr, Hw. reflexivity. }
    rewrite Happ1. clear Happ1.
    assert (Hflush : ctrlOut (flushFileWrites b ref app) = ctrlOut app
                     /\ exists r0, objs (flushFileWrites b ref app) !! ref = Some r0
                                   /\ fileId r0 = fileId r /\ is_Some (writer r0)).
    { unfold flushFileWrites. rewrite Hr, Hw.
      destruct (List.skipn _ _) as [|item items].
      - split; [reflexivity|]. exists r. rewrite Hw. repeat split; [exact Hr|eauto].
      - rewrite Hfail. split; [reflexivity|].
        cbn [update objs set_objs]. rewrite lookup_alter_eq, Hr.
        eexists. split; [reflexivity|]. split; [reflexivity|]. cbn. eauto. }
    destruct Hflush as (Hout & r0 & Hr0 & Hid0 & (w0 & Hw0)).
    split; [exact Hout|].
    cbn [update objs set_objs]. rewrite lookup_alter_eq, Hr0.
    eexists. split; [reflexivity|]. unfold closeWriter. rewrite Hw0.
    split; [exact Hid0|]. cbn. eauto. }
  destruct H1 as (Hout1 & r1 & Hr1 & Hid1 & (w1 & Hw1)). clearbody app1.
  rewrite Hr1, Hw1.
  assert (Hsend : ctrlOut (tryPeerSend b (MsgFileDone (fileId r1)) app1)
                  = ctrlOut app ++ [MsgFileDone (fileId r)]).
  { unfold tryPeerSend, peerSend. rewrite Hopen, Hthrow. cbn. rewrite Hout1, Hid1. reflexivity. }
  destruct (listAttached b).
  - rewrite ctrlOut_completionUiOp. exact Hsend.
  - exact Hsend.
Qed.

Section Reassembly.

(** The chunk of each sequence number, their count, and the size that
    [file-meta] announced. *)
Variables (D : Z -> list byte) (n : nat) (sz : Z).
Variables (b : Browser) (ref : nat) (base id' : string) (out0 : list PeerMsg).

Definition prefixBytes (e : nat) : list byte :=
  List.concat (List.map D (seqZ 0 e)).

Definition logOf (e : nat) : list (Z * list byte) :=
  List.map (fun k => (k, D k)) (seqZ 0 e).

Hypothesis n_pos : (1 <= n)%nat.
Hypothesis part : forall e, (0 < e < n)%nat -> byteLength (prefixBytes e) < sz.
Hypothesis full : sz <= byteLength (prefixBytes n).
Hypothesis write_ok : writeFails b = false.
Hypothesis ctrl_open : ctrlOpen b = true.
Hypothesis ctrl_ok : ctrlThrows b = false.

Definition streamOk (sid : string) : Prop :=
  (Js.isEmpty base || Js.isEmpty (Js.trim sid)
   || streamIdMatchesBase base (Js.trim sid))%bool = true.

Lemma seqZ_gen from m :
  seqZ from m = List.map (fun i => from + i) (seqZ 0 m).
Proof. unfold seqZ. rewrite List.map_map. reflexivity. Qed.

Lemma payloadOf_log (l : list Z) :
  payloadOf (List.map (fun k => (k, D k)) l) = List.concat (List.map D l).
Proof. unfold payloadOf. rewrite List.map_map. reflexivity. Qed.

Lemma totalBytes_log (l : list Z) :
  totalBytes (List.map (fun k => (k, D k)) l) = byteLength (List.concat (List.map D l)).
Proof.
  induction l as [|k l IH]; [reflexivity|].
  cbn [List.map List.concat]. rewrite totalBytes_cons, IH.
  unfold byteLength. rewrite List.length_app. lia.
Qed.

Lemma logOf_app e m :
  logOf (e + m) = logOf e ++ List.map (fun k => (k, D k)) (seqZ (Z.of_nat e) m).
Proof.
  unfold logOf. rewrite seqZ_app, List.map_app. reflexivity.
Qed.

Lemma prefixBytes_app e m :
  prefixBytes (e + m) = prefixBytes e ++ List.concat (List.map D (seqZ (Z.of_nat e) m)).
Proof.
  unfold prefixBytes. rewrite seqZ_app, List.map_app, List.concat_app. reflexivity.
Qed.

Lemma successors_data (P : gmap Z (list byte)) from fuel :
  (forall k c, P !! k = Some c -> c = D k) ->
  successors P from fuel
  = List.map (fun k => (k, D k)) (seqZ from (List.length (successors P from fuel))).
Proof.
  intros HP. revert from. induction fuel as [|fuel IH]; intros from; simpl; [reflexivity|].
  destruct (P !! from) as [c|] eqn:Hc; [|reflexivity].
  cbn [List.length]. rewrite (HP _ _ Hc).
  change (S (List.length (successors P (from + 1) fuel)))
    with (1 + List.length (successors P (from + 1) fuel))%nat.
  rewrite (seqZ_app from 1), List.map_app. unfold seqZ at 1.
  cbn [List.seq List.map List.app]. rewrite Z.add_0_r. f_equal. apply IH.
Qed.

Lemma successors_bound (P : gmap Z (list byte)) (N : Z) from fuel :
  (forall k c, P !! k = Some c -> k < N) ->
  from + Z.of_nat (List.length (successors P from fuel)) <= Z.max from N.
Proof.
  intros HP. revert from. induction fuel as [|fuel IH]; intros from; simpl; [lia|].
  destruct (P !! from) as [c|] eqn:Hc; [|simpl; lia].
  pose proof (HP _ _ Hc). specialize (IH (from + 1)). simpl. lia.
Qed.

Lemma successors_present (P : gmap Z (list byte)) from fuel (i : nat) :
  (i < List.length (successors P from fuel))%nat ->
  is_Some (P !! (from + Z.of_nat i)).
Proof.
  revert from i. induction fuel as [|fuel IH]; intros from i;
    cbn [successors List.length]; [intros; lia|].
  destruct (P !! from) as [c|] eqn:Hc; cbn [List.length]; [|intros; lia].
  intros Hi. destruct i as [|i].
  - change (Z.of_nat 0) with 0. rewrite Z.add_0_r, Hc. eauto.
  - rewrite Nat2Z.inj_succ.
    replace (from + Z.succ (Z.of_nat i)) with (from + 1 + Z.of_nat i) by lia.
    apply IH. lia.
Qed.

(** The transfer is running: [e] chunks are committed and queued for
    the writer, every kept chunk is the right one for its number, and the
    numbers that have arrived are the ones committed or kept. *)
Definition Rx (arrived : list Z) (app : App) : Prop :=
  exists r (e : nat),
    receiving app = Some ref /\ objs app !! ref = Some r
    /\ cancelled r = false /\ needsAccept r = true /\ accepted r = true
    /\ writer r = Some (mkSink [] false false) /\ writeQueueStart r = O
    /\ streamId r = base /\ fileId r = id' /\ size r = sz
    /\ (e < n)%nat /\ expectedSeq r = Z.of_nat e
    /\ committed r = logOf e /\ queued r = prefixBytes e
    /\ received r = byteLength (prefixBytes e)
    /\ (forall k c, pendingChunks r !! k = Some c ->
                    c = D k /\ Z.of_nat e < k < Z.of_nat n)
    /\ (forall k, k ∈ arrived -> k < Z.of_nat e \/ is_Some (pendingChunks r !! k))
    /\ ctrlOut app = out0
    /\ (forall k, 0 <= k < Z.of_nat e \/ is_Some (pendingChunks r !! k) -> k ∈ arrived)
    /\ incomingFiles app !! id' = Some ref.

(** The transfer is complete, and every number has arrived. *)
Definition Finished (arrived : list Z) (app : App) : Prop :=
  receiving app = None
  /\ (forall k, 0 <= k < Z.of_nat n -> k ∈ arrived)
  /\ exists r,
       objs app !! ref = Some r /\ fileId r = id'
       /\ committed r = logOf n
       /\ writer r = Some (mkSink (prefixBytes n) true false)
       /\ ctrlOut app = out0 ++ [MsgFileDone id'].

Lemma chunk_step arrived app sid k :
  Rx arrived app -> 0 <= k < Z.of_nat n -> streamOk sid ->
  let app' := onFileChunk b sid k (D k) app in
  Rx (k :: arrived) app' \/ Finished (k :: arrived) app'.
Proof.
  intros (r & e & Hrecv & Hr & Hcan & Hneeds & Hacc & Hw & Hstart & Hsid & Hid & Hsize
          & He & Hexp & Hlog & Hq & Hrec & Hpend & Hcov & Hout & Hconv & Hinc) Hk Hstream.
  cbv zeta. unfold onFileChunk. rewrite Hrecv, Hr, Hcan, Hneeds, Hacc, Hw.
  cbn [negb andb]. rewrite bool_decide_eq_true_2 by eauto. cbn [negb].
  set (app1 := if negb (acceptAcked r) then _ else app).
  assert (H1 : receiving app1 = Some ref /\ ctrlOut app1 = out0 /\
               incomingFiles app1 !! id' = Some ref /\
               exists r1, objs app1 !! ref = Some r1
                          /\ frame r1 = frame r /\ progress r1 = progress r
                          /\ writeQueue r1 = writeQueue r).
  { unfold app1. destruct (negb (acceptAcked r)).
    - split; [exact Hrecv|]. split; [exact Hout|]. split; [exact Hinc|]. exists (acked r).
      cbn [update objs set_objs]. rewrite lookup_alter_eq, Hr. repeat split.
    - split; [exact Hrecv|]. split; [exact Hout|]. split; [exact Hinc|].
      exists r. repeat split. exact Hr. }
  destruct H1 as (Hrecv1 & Hout1 & Hinc1 & r1 & Hr1 & Hf1 & Hp1 & Hq1). clearbody app1.
  assert (Hstr : (negb (Js.isEmpty (streamId r)) && negb (Js.isEmpty (Js.trim sid))
                  && negb (streamIdMatchesBase (streamId r) (Js.trim sid)))%bool = false).
  { unfold streamOk in Hstream. rewrite Hsid.
    destruct (Js.isEmpty base), (Js.isEmpty (Js.trim sid)),
      (streamIdMatchesBase base (Js.trim sid)); simpl in *; congruence. }
  rewrite Hstr.
  destruct (Z.ltb_spec k 0) as [|_]; [lia|].
  unfold frame in Hf1. injection Hf1 as F1 F2 F3 F4 F5 F6 F7 F8 F9.
  unfold progress in Hp1. injection Hp1 as P1 P2 P3 P4.
  assert (Hqueued1 : queued r1 = queued r) by (unfold queued; rewrite Hq1; reflexivity).
  rewrite Hexp.
  destruct (Z.ltb_spec k (Z.of_nat e)) as [Hlt|Hge].
  { (* behind its turn: dropped *)
    left. exists r1, e. rewrite P1, P2, P3, P4, F1, F2, F3, F5, F6, F7, F8, F9, Hqueued1.
    repeat split; try assumption.
    - apply Hpend. assumption.
    - apply Hpend in H. lia.
    - apply Hpend in H. lia.
    - intros k0 Hin. apply elem_of_cons in Hin. destruct Hin as [->|Hin];
        [left; exact Hlt|apply Hcov; exact Hin].
    - intros k0 Hk0. apply elem_of_cons. right. apply Hconv. exact Hk0. }
  destruct (Z.ltb_spec (Z.of_nat e) k) as [Hgt|Hle].
  { (* ahead of its turn: kept *)
    left. exists (bufferChunk k (D k) r1), e.
    assert (Hb : frame (bufferChunk k (D k) r1) = frame r1
                 /\ committed (bufferChunk k (D k) r1) = committed r1
                 /\ expectedSeq (bufferChunk k (D k) r1) = expectedSeq r1
                 /\ received (bufferChunk k (D k) r1) = received r1
                 /\ queued (bufferChunk k (D k) r1) = queued r1
                 /\ pendingChunks (bufferChunk k (D k) r1)
                    = match pendingChunks r1 !! k with
                      | Some _ => pendingChunks r1
                      | None => <[k := D k]> (pendingChunks r1)
                      end).
    { unfold bufferChunk. destruct (pendingChunks r1 !! k); repeat split. }
    destruct Hb as (B1 & B2 & B3 & B4 & B5 & B6).
    unfold frame in B1. injection B1 as G1 G2 G3 G4 G5 G6 G7 G8 G9.
    cbn [update objs receiving ctrlOut incomingFiles set_objs]. rewrite lookup_alter_eq, Hr1.
    rewrite G1, G2, G3, G5, G6, G7, G8, G9, B2, B3, B4, B5, B6.
    rewrite P1, P2, P3, P4, F1, F2, F3, F5, F6, F7, F8, F9, Hqueued1.
    assert (Hlook : forall k0 c,
               match pendingChunks r !! k with
               | Some _ => pendingChunks r
               | None => <[k := D k]> (pendingChunks r)
               end !! k0 = Some c ->
               c = D k0 /\ Z.of_nat e < k0 < Z.of_nat n).
    { intros k0 c. destruct (pendingChunks r !! k) eqn:Hk0; [apply Hpend|].
      destruct (decide (k = k0)) as [<-|Hne].
      - rewrite lookup_insert_eq. intros [= <-]. split; [reflexivity|lia].
      - rewrite lookup_insert_ne by exact Hne. apply Hpend. }
    repeat split; try assumption.
    - apply (Hlook k0 c). assumption.
    - apply (Hlook k0 c) in H. lia.
    - apply (Hlook k0 c) in H. lia.
    - intros k0 Hin. apply elem_of_cons in Hin. destruct Hin as [->|Hin].
      + right. destruct (pendingChunks r !! k) eqn:Hk0; [eauto|].
        rewrite lookup_insert_eq. eauto.
      + destruct (Hcov k0 Hin) as [Hlt0|Hsome]; [left; exact Hlt0|right].
        destruct (pendingChunks r !! k) eqn:Hk0; [exact Hsome|].
        destruct (decide (k = k0)) as [<-|Hne];
          [rewrite lookup_insert_eq; eauto|rewrite lookup_insert_ne by exact Hne; exact Hsome].
    - intros k0 [Hlt0|Hsome]; [apply elem_of_cons; right; apply Hconv; left; exact Hlt0|].
      destruct (pendingChunks r !! k) eqn:Hk0;
        [apply elem_of_cons; right; apply Hconv; right; exact Hsome|].
      destruct (decide (k = k0)) as [<-|Hne]; [apply elem_of_cons; left; reflexivity|].
      rewrite lookup_insert_ne in Hsome by exact Hne.
      apply elem_of_cons. right. apply Hconv. right. exact Hsome. }
  (* its turn: committed, with the kept chunks that follow *)
  assert (k = expectedSeq r1) by lia. subst k.
  assert (Hw1 : writer r1 = Some (mkSink [] false false)) by congruence.
  destruct (commitAndDrain_progress (D (expectedSeq r1)) r1) as (C1 & C2 & C3 & C4 & C5).
  destruct (commitAndDrain_sink (D (expectedSeq r1)) r1 _ Hw1) as (S1 & S2 & S3).
  set (r2 := commitAndDrain (expectedSeq r1) (D (expectedSeq r1)) r1) in *.
  set (tail := successors (pendingChunks r1) (expectedSeq r1 + 1)
                 (stdpp.base.size (pendingChunks r1))) in *.
  cbv zeta in C1, C2, C3, C5, S2, S3. cbn [List.length] in C2.
  assert (Hdata : forall k c, pendingChunks r1 !! k = Some c -> c = D k).
  { intros k c Hkc. rewrite P3 in Hkc. apply (Hpend k c Hkc). }
  assert (Htail : tail = List.map (fun k => (k, D k))
                           (seqZ (expectedSeq r1 + 1) (List.length tail))).
  { unfold tail. apply successors_data. exact Hdata. }
  assert (Hbound : expectedSeq r1 + 1 + Z.of_nat (List.length tail) <= Z.of_nat n).
  { pose proof (successors_bound (pendingChunks r1) (Z.of_nat n) (expectedSeq r1 + 1)
                  (stdpp.base.size (pendingChunks r1))) as Hb.
    fold tail in Hb. rewrite Z.max_r in Hb by lia. apply Hb.
    intros k c Hkc. rewrite P3 in Hkc. apply (Hpend k c) in Hkc. lia. }
  set (e' := (e + S (List.length tail))%nat).
  assert (He' : expectedSeq r2 = Z.of_nat e') by (rewrite C2; unfold e'; lia).
  assert (Hrun : (expectedSeq r1, D (expectedSeq r1)) :: tail
                 = List.map (fun k => (k, D k)) (seqZ (Z.of_nat e) (S (List.length tail)))).
  { change (S (List.length tail)) with (1 + List.length tail)%nat.
    rewrite seqZ_app, List.map_app. unfold seqZ at 1. cbn [List.seq List.map List.app].
    rewrite Z.add_0_r, P2, Hexp. f_equal.
    rewrite Htail at 1. rewrite P2, Hexp. do 2 f_equal. }
  assert (Hlog2 : committed r2 = logOf e').
  { rewrite S3, P1, Hlog, Hrun. unfold e'. rewrite logOf_app. reflexivity. }
  assert (Hq2 : queued r2 = prefixBytes e').
  { rewrite S2, Hqueued1, Hq, Hrun, payloadOf_log. unfold e'.
    rewrite prefixBytes_app. reflexivity. }
  assert (Hrec2 : received r2 = byteLength (prefixBytes e')).
  { rewrite C3, P4, Hrec, Hrun, totalBytes_log. unfold e'. rewrite prefixBytes_app.
    unfold byteLength. rewrite List.length_app. lia. }
  unfold frame in S1. injection S1 as T1 T2 T3 T4 T5 T6 T7 T8 T9.
  set (app2 := update ref _ app1).
  assert (Hr2 : objs app2 !! ref = Some r2).
  { unfold app2. cbn [update objs set_objs]. rewrite lookup_alter_eq, Hr1. reflexivity. }
  rewrite Hr2.
  assert (Hle' : (e' <= n)%nat) by lia.
  assert (Hinc2 : incomingFiles app2 !! id' = Some ref) by exact Hinc1.
  assert (Hconv2 : forall k0,
             0 <= k0 < Z.of_nat e' \/ is_Some (pendingChunks r2 !! k0) ->
             k0 ∈ expectedSeq r1 :: arrived).
  { intros k0 Hk0. apply elem_of_cons.
    destruct (decide (k0 = expectedSeq r1)) as [->|Hne]; [left; reflexivity|right].
    apply Hconv.
    destruct (Z.lt_ge_cases k0 (Z.of_nat e)) as [Hlt|Hge0].
    - destruct Hk0 as [Hk0|Hsome]; [left; lia|].
      right. rewrite C5 in Hsome. rewrite bool_decide_eq_false_2 in Hsome by lia.
      rewrite P3 in Hsome. exact Hsome.
    - right. destruct (Z.lt_ge_cases k0 (Z.of_nat e')) as [Hlt'|Hge'].
      + pose proof (successors_present (pendingChunks r1) (expectedSeq r1 + 1)
                      (stdpp.base.size (pendingChunks r1))
                      (Z.to_nat (k0 - expectedSeq r1 - 1))) as Hp.
        fold tail in Hp. rewrite Z2Nat.id in Hp by lia.
        replace (expectedSeq r1 + 1 + (k0 - expectedSeq r1 - 1)) with k0 in Hp by lia.
        rewrite P3 in Hp. apply Hp. unfold e' in Hlt'. lia.
      + destruct Hk0 as [Hk0|Hsome]; [lia|].
        rewrite C5 in Hsome. rewrite bool_decide_eq_false_2 in Hsome by lia.
        rewrite P3 in Hsome. exact Hsome. }
  destruct (Nat.eq_dec e' n) as [Hfin|Hmore].
  - (* the last chunk: the transfer completes *)
    right.
    assert (Hdone : (size r2 <=? received r2)%Z = true).
    { apply Z.leb_le. rewrite T3, F3, Hsize, Hrec2, Hfin. exact full. }
    rewrite Hdone.
    assert (Hw2 : writer r2 = Some (mkSink [] false false)) by congruence.
    destruct (completeTransfer_saves b ref app2 r2 _ Hr2 Hw2 eq_refl
                ltac:(congruence) write_ok) as (r' & Hr' & Hc' & Hw').
    pose proof (completeTransfer_ctrlOut b ref app2 r2 _ Hr2 Hw2 write_ok ctrl_open ctrl_ok)
      as Hout'.
    pose proof (Framed_completeTransfer b ref app2 ref) as Hsnap.
    unfold snapshotOf in Hsnap. rewrite Hr2, Hr' in Hsnap.
    unfold snapshot in Hsnap. simpl in Hsnap. injection Hsnap as Hid' _ _ _ _ _.
    split; [|split].
    + destruct (completeTransfer_store b ref app2) as [E|(E & _)]; [exact E|congruence].
    + intros k0 Hk0. apply Hconv2. left. lia.
    + exists r'. split; [exact Hr'|]. split; [congruence|].
      split; [rewrite Hc', Hlog2, Hfin; reflexivity|].
      split; [rewrite Hw', Hq2, Hfin; reflexivity|].
      rewrite Hout'. unfold app2. cbn [update ctrlOut set_objs].
      rewrite Hout1. do 2 f_equal. congruence.
  - (* more to come *)
    left.
    assert (Hnot : (size r2 <=? received r2)%Z = false).
    { apply Z.leb_gt. rewrite T3, F3, Hsize, Hrec2. apply part. unfold e'. lia. }
    rewrite Hnot. exists r2, e'.
    split; [exact Hrecv1|]. split; [exact Hr2|].
    split; [congruence|]. split; [congruence|]. split; [congruence|].
    split; [congruence|]. split; [congruence|]. split; [congruence|].
    split; [congruence|]. split; [congruence|]. split; [lia|].
    split; [exact He'|]. split; [exact Hlog2|]. split; [exact Hq2|]. split; [exact Hrec2|].
    split; [|split; [|split; [exact Hout1|split; [exact Hconv2|exact Hinc2]]]].
    + intros k c Hkc. rewrite C5 in Hkc.
      destruct (bool_decide (expectedSeq r1 + 1 <= k < expectedSeq r2)) eqn:Hin;
        [discriminate|].
      apply bool_decide_eq_false_1 in Hin. rewrite P3 in Hkc.
      destruct (Hpend k c Hkc) as (Hc & Hrange). split; [exact Hc|].
      destruct (decide (k = expectedSeq r2)) as [->|Hne].
      * rewrite C5 in C4. rewrite bool_decide_eq_false_2 in C4 by lia.
        rewrite P3 in C4. congruence.
      * lia.
    + intros k Hin. apply elem_of_cons in Hin.
      destruct (Z.lt_ge_cases k (Z.of_nat e')) as [Hlt|Hge']; [left; exact Hlt|right].
      destruct Hin as [->|Hin]; [lia|].
      destruct (Hcov k Hin) as [Hlt0|Hsome]; [lia|].
      rewrite C5, bool_decide_eq_false_2 by lia. rewrite P3. exact Hsome.
Qed.

(** Once complete, later chunks change nothing. *)
Lemma chunk_after_finish arrived app sid k data :
  Finished arrived app -> onFileChunk b sid k data app = app.
Proof. intros (Hrecv & _). unfold onFileChunk. rewrite Hrecv. reflexivity. Qed.

Definition chunkEvent (a : string * Z) : Browser * Event :=
  (b, PeerData (MsgFileChunk a.1 a.2 (D a.2))).

Lemma Finished_more k arrived app : Finished arrived app -> Finished (k :: arrived) app.
Proof.
  intros (Hrecv & Hall & Hr). split; [exact Hrecv|]. split; [|exact Hr].
  intros k0 Hk0. apply elem_of_cons. right. apply Hall. exact Hk0.
Qed.

Lemma chunks_run arrivals : forall arrived app,
  Rx arrived app \/ Finished arrived app ->
  (forall a, a ∈ arrivals -> 0 <= a.2 < Z.of_nat n /\ streamOk a.1) ->
  Rx (List.rev (List.map snd arrivals) ++ arrived) (run (List.map chunkEvent arrivals) app)
  \/ Finished (List.rev (List.map snd arrivals) ++ arrived)
       (run (List.map chunkEvent arrivals) app).
Proof.
  induction arrivals as [|a arrivals IH]; intros arrived app Hst Hok; [exact Hst|].
  cbn [List.map List.rev]. rewrite <- List.app_assoc. cbn [List.app].
  change (run (chunkEvent a :: List.map chunkEvent arrivals) app)
    with (run (List.map chunkEvent arrivals) (onFileChunk b a.1 a.2 (D a.2) app)).
  apply IH.
  - destruct Hst as [Hrx|Hfin].
    + destruct (Hok a) as (Hk & Hs); [left|].
      apply (chunk_step arrived app a.1 a.2 Hrx Hk Hs).
    + right. rewrite (chunk_after_finish arrived) by exact Hfin.
      apply Finished_more. exact Hfin.
  - intros a' Hin. apply Hok. right. exact Hin.
Qed.

(** When every number has arrived, the transfer cannot still be running. *)
Lemma all_arrived_not_running arrived app :
  (forall k, 0 <= k < Z.of_nat n -> k ∈ arrived) -> Rx arrived app -> False.
Proof.
  intros Hall (r & e & _ & _ & _ & _ & _ & _ & _ & _ & _ & _ & He & _ & _ & _ & _
               & Hpend & Hcov & _ & _ & _).
  destruct (Hcov (Z.of_nat e)) as [Hlt|(c & Hc)]; [apply Hall; lia|lia|].
  apply Hpend in Hc. lia.
Qed.

End Reassembly.

(** After [file-meta] and the user's accept, the transfer is running with
    nothing received. *)
Lemma accepted_start (D : Z -> list byte) (n : nat) (sz : Z) (b : Browser)
    (rxId id sid name' : string) (sc : Z) :
  (1 <= n)%nat -> 0 <= sz -> Js.trim id <> EmptyString ->
  hasPicker b = true -> pickerOk b = true -> ctrlOpen b = true -> ctrlThrows b = false ->
  Rx D n sz O (Js.trim sid) (Js.trim id) [MsgFileAccept (Js.trim id)] []
    (acceptFile b id (onFileMeta id sid sc name' sz (initialApp rxId))).
Proof.
  intros Hn Hsz Hid Hpick Hpok Hopen Hthrow.
  assert (Hne : Js.isEmpty (Js.trim id) = false).
  { destruct (Js.trim id); [congruence|reflexivity]. }
  unfold Rx, acceptFile, onFileMeta, initialApp.
  set (i := Js.trim id) in *. set (s := Js.trim sid). clearbody i s.
  simpl. rewrite Hne.
  destruct (Z.ltb_spec sz 0) as [|_]; [lia|]. simpl.
  assert (E : (<[i := O]> (∅ : gmap string nat)) !! i = Some O) by apply lookup_insert_eq.
  rewrite E. clear E. rewrite lookup_insert_eq. simpl.
  rewrite Hpick, Hpok, Hopen. simpl. unfold peerSend. rewrite Hopen, Hthrow. simpl.
  eexists _, O.
  rewrite !lookup_alter_eq, lookup_insert_eq. simpl.
  repeat split; try lia.
  - simpl in H. rewrite lookup_empty in H. discriminate.
  - simpl in H. rewrite lookup_empty in H. discriminate.
  - simpl in H. rewrite lookup_empty in H. discriminate.
  - intros k Hin. apply elem_of_nil in Hin. contradiction.
  - intros k [Hk|(c & Hc)]; [lia|]. simpl in Hc. rewrite lookup_empty in Hc. discriminate.
  - apply lookup_insert_eq.
Qed.

Lemma reassembly
    (D : Z -> list byte) (n : nat) (sz : Z) (b : Browser)
    (rxId id sid name' : string) (sc : Z) (arrivals : list (string * Z)) :
  (1 <= n)%nat -> 0 <= sz ->
  (forall e, (0 < e < n)%nat -> byteLength (prefixBytes D e) < sz) ->
  sz <= byteLength (prefixBytes D n) ->
  Js.trim id <> EmptyString ->
  hasPicker b = true -> pickerOk b = true ->
  ctrlOpen b = true -> ctrlThrows b = false -> writeFails b = false ->
  (forall a, a ∈ arrivals ->
     0 <= a.2 < Z.of_nat n /\ streamOk (Js.trim sid) a.1) ->
  (forall k, 0 <= k < Z.of_nat n -> exists s, (s, k) ∈ arrivals) ->
  let events :=
    (b, PeerData (MsgFileMeta id sid sc name' sz)) :: (b, AcceptFile id)
    :: List.map (chunkEvent D b) arrivals in
  let final := run events (initialApp rxId) in
  receiving final = None
  /\ ctrlOut final = [MsgFileAccept (Js.trim id); MsgFileDone (Js.trim id)]
  /\ exists r,
       objs final !! O = Some r
       /\ List.map fst (committed r) = seqZ 0 n
       /\ writer r = Some (mkSink (List.concat (List.map D (seqZ 0 n))) true false).
Proof.
  intros Hn Hsz Hpart Hfull Hid Hpick Hpok Hopen Hthrow Hwrite Hok Hall events final.
  pose proof (accepted_start D n sz b rxId id sid name' sc Hn Hsz Hid Hpick Hpok Hopen Hthrow)
    as Hstart.
  pose proof (chunks_run D n sz b O (Js.trim sid) (Js.trim id) [MsgFileAccept (Js.trim id)]
                Hn Hpart Hfull Hwrite Hopen Hthrow arrivals [] _ (or_introl Hstart) Hok)
    as Hend.
  change (run (List.map (chunkEvent D b) arrivals)
            (acceptFile b id (onFileMeta id sid sc name' sz (initialApp rxId))))
    with final in Hend.
  destruct Hend as [Hrx|(Hrecv & _ & r & Hr & _ & Hlog & Hw & Hout)].
  - exfalso. eapply all_arrived_not_running; try eassumption.
    intros k Hk. destruct (Hall k Hk) as (s & Hin).
    rewrite List.app_nil_r. apply list_elem_of_In. rewrite <- List.in_rev.
    apply List.in_map_iff. exists (s, k). split; [reflexivity|].
    apply list_elem_of_In. exact Hin.
  - split; [exact Hrecv|]. split; [exact Hout|].
    exists r. split; [exact Hr|]. split; [|exact Hw].
    rewrite Hlog. unfold logOf. rewrite List.map_map. apply List.map_id.
Qed.



(** X18. Reassembly: after [file-meta] and the user's accept, let the chunks
    of a file arrive in any order, any of them more than once, on any
    channel of the transfer. When every chunk has arrived at least once, the
    receiver has committed them once each in the order of their numbers, has
    written exactly their concatenation to the file and closed it, and has
    answered with [file-accept] and one [file-done]. ([D k] is the chunk
    numbered [k]; the announced size is reached with the last chunk and not
    before.) *)
Theorem chunks_in_any_order_are_reassembled
    (D : Z -> list byte) (n : nat) (sz : Z) (b : Browser)
    (rxId id sid name' : string) (sc : Z) (arrivals : list (string * Z)) :
  (1 <= n)%nat -> 0 <= sz ->
  (forall e, (0 < e < n)%nat -> byteLength (prefixBytes D e) < sz) ->
  sz <= byteLength (prefixBytes D n) ->
  Js.trim id <> EmptyString ->
  hasPicker b = true -> pickerOk b = true ->
  ctrlOpen b = true -> ctrlThrows b = false -> writeFails b = false ->
  (forall a, a ∈ arrivals ->
     0 <= a.2 < Z.of_nat n /\ streamOk (Js.trim sid) a.1) ->
  (forall k, 0 <= k < Z.of_nat n -> exists s, (s, k) ∈ arrivals) ->
  let events :=
    (b, PeerData (MsgFileMeta id sid sc name' sz)) :: (b, AcceptFile id)
    :: List.map (chunkEvent D b) arrivals in
  let final := run events (initialApp rxId) in
  receiving final = None
  /\ ctrlOut final = [MsgFileAccept (Js.trim id); MsgFileDone (Js.trim id)]
  /\ exists r,
       objs final !! O = Some r
       /\ List.map fst (committed r) = seqZ 0 n
       /\ writer r = Some (mkSink (List.concat (List.map D (seqZ 0 n))) true false).
Proof. apply reassembly. Qed.


(** *** A completed send, received *)

Section Completed.
Variables (file : list byte) (C : Z).
Hypothesis C_pos : 1 <= C.

Local Abbreviation sz := (byteLength file).

(** The payload of chunk [k]. *)
Definition chunkData (k : Z) : list byte :=
  sliceBytes file (k * C) (Z.min ((k + 1) * C) sz).

Lemma chunkFrame_data k : (Sender.chunkFrame file C k).2 = chunkData k.
Proof. reflexivity. Qed.

Lemma chunkFrame_seq k : (Sender.chunkFrame file C k).1.1 = k.
Proof. reflexivity. Qed.

(** The first [e] chunks, put together, are the first [min(e*C, S)] bytes. *)
Lemma prefixBytes_chunks (e : nat) :
  prefixBytes chunkData e = List.firstn (Z.to_nat (Z.min (Z.of_nat e * C) sz)) file.
Proof.
  induction e as [|e IH].
  - unfold prefixBytes, seqZ. cbn [List.seq List.map List.concat].
    change (Z.of_nat 0 * C) with 0. rewrite Z.min_l by (unfold byteLength; lia).
    reflexivity.
  - unfold prefixBytes in *. rewrite seqZ_S, List.map_app, List.concat_app, IH.
    cbn [List.map List.concat]. rewrite List.app_nil_r, Z.add_0_l.
    unfold chunkData, sliceBytes.
    set (a := Z.of_nat e * C). replace (Z.of_nat (S e) * C) with (a + C) by lia.
    replace ((Z.of_nat e + 1) * C) with (a + C) by lia.
    assert (Ha : 0 <= a) by lia.
    destruct (Z.le_gt_cases a sz) as [Hle|Hgt].
    + rewrite (Z.min_l a sz) by exact Hle.
      rewrite <- (List.firstn_skipn (Z.to_nat a)
                    (List.firstn (Z.to_nat (Z.min (a + C) sz)) file)).
      rewrite List.firstn_firstn, List.skipn_firstn_comm.
      f_equal; f_equal; lia.
    + rewrite !Z.min_r by lia.
      rewrite List.skipn_all2 by (unfold byteLength in Hgt; lia).
      rewrite List.firstn_nil, List.app_nil_r. reflexivity.
Qed.

Lemma length_prefixBytes_chunks (e : nat) :
  byteLength (prefixBytes chunkData e) = Z.min (Z.of_nat e * C) sz.
Proof.
  rewrite prefixBytes_chunks. unfold byteLength. rewrite List.length_firstn. lia.
Qed.

(** When [sendFileChunks] returns it has sent [n] frames, the chunks [0] to
    [n-1] of the file, and they cover the file: [n] is 1 for the empty
    file. *)
Lemma returned_plan budget env dcHigh fuel st :
  Sender.sendFileChunks file C budget env dcHigh fuel = Sender.Returned st ->
  exists n : nat,
    List.map Sender.frameContent (Sender.sent st) = FrameSpec.planned file C n
    /\ (1 <= n)%nat
    /\ (forall e, (0 < e < n)%nat -> Z.of_nat e * C < sz)
    /\ sz <= Z.of_nat n * C.
Proof.
  unfold Sender.sendFileChunks, Sender.size.
  destruct (Sender.ctrlOpen (env O)); cbn [negb]; [|discriminate].
  destruct (Z.of_nat (List.length (Sender.openChannels (Sender.channels (env O)))) =? 0)%Z;
    [discriminate|].
  destruct (Sender.aborted (env O)); [discriminate|].
  destruct (Z.eqb_spec sz 0) as [Hz|Hnz].
  - destruct (Sender.firstOpen (Sender.channels (env O)) O) as [dc0|]; [|discriminate].
    destruct (Sender.waitForBufferRejects _ _ _ _); [discriminate|].
    intros Hrun. exists 1%nat.
    assert (Hfile : file = [])
      by (destruct file; [reflexivity|unfold byteLength in Hz; simpl in Hz; lia]).
    split; [|split; [lia|split; [lia|lia]]].
    assert (Hsent : Sender.sent st = [Sender.mkFrame dc0 0 0 []]).
    { set (st0 := Sender.tickOf _) in Hrun.
      assert (Hst0 : Sender.sent st0 = []) by reflexivity.
      clearbody st0. revert st0 Hst0 Hrun.
      induction fuel as [|fuel IH]; intros st0 Hst0; [discriminate|].
      cbn [Sender.sendEmptyHeader].
      destruct (Sender.aborted (env (Sender.tick st0))); [discriminate|].
      destruct (Sender.sendOutcome (env (Sender.tick st0))) as [|message].
      - intros [= <-]. cbn [Sender.sent Sender.tickOf]. rewrite Hst0. reflexivity.
      - destruct (isDcSendQueueFullError message); cbn [negb]; [|discriminate].
        destruct (Sender.waitForBufferRejects _ _ _ _); [discriminate|].
        apply IH. exact Hst0. }
    rewrite Hsent. unfold FrameSpec.planned, Sender.chunkFrame, Sender.frameContent.
    cbn [List.map List.seq Sender.fseq Sender.flen Sender.fpayload].
    rewrite Hz, Hfile. change (Z.of_nat 0) with 0. unfold sliceBytes.
    rewrite List.skipn_nil, List.firstn_nil.
    replace (Z.min ((0 + 1) * C) 0 - 0 * C) with 0 by lia. reflexivity.
  - intros Hrun.
    set (st0 := Sender.mkSendState 0 0 O _ _ 1 []) in Hrun.
    assert (HI0 : SenderSpec.Inv file C st0).
    { unfold SenderSpec.Inv, st0. cbn [Sender.seq Sender.offset Sender.sent].
      repeat split; try lia. unfold byteLength. lia. }
    pose proof (SenderSpec.outer_Inv file C budget env C_pos fuel st0 HI0) as HI.
    rewrite Hrun in HI. cbn [SenderSpec.resultState] in HI.
    pose proof (SenderSpec.outer_Returned_done file C budget env fuel st0 st Hrun) as Hdone.
    assert (Hpos : 0 < sz) by (unfold byteLength in *; lia).
    destruct HI as (Hseq & Hoff & Hlast & Hsent).
    exists (Z.to_nat (Sender.seq st)).
    split; [exact Hsent|].
    rewrite Z2Nat.id by exact Hseq.
    assert (Hne : Sender.seq st <> 0) by (intros E; rewrite E in Hoff; lia).
    destruct Hlast as [E|Hlt]; [contradiction|].
    split; [lia|]. split; [|lia].
    intros e He. assert (Z.of_nat e <= Sender.seq st - 1) by lia. nia.
Qed.

End Completed.

Lemma streamOk_index txId j :
  streamOk (Js.trim txId) (fileStreamIdForIndex txId j).
Proof.
  unfold streamOk.
  destruct (Js.isEmpty (Js.trim txId)) eqn:He; [reflexivity|].
  assert (Hne : Js.trim txId <> EmptyString) by (intros E; rewrite E in He; discriminate).
  destruct (StreamSpec.stream_id_matches txId j Hne) as (Hm & Ht & _).
  rewrite Ht. unfold streamIdMatchesBase in *. rewrite JsFacts.trim_idem, Ht in *.
  rewrite Hm. apply orb_true_r.
Qed.

(** X19. A completed send, received. When [sendFileChunks] has returned, let
    the receiver get [file-meta] with the file's size, the user's accept, and
    then the frames the sender handed to the channels: in any order, any of
    them more than once, each on any channel of the transfer. Then the
    receiver writes exactly the bytes of the sender's file, closes it, and
    answers with [file-accept] and one [file-done]. This holds for the empty
    file too. *)
Theorem completed_send_is_saved
    (file : list byte) (maxMessageSize dcHigh : Z) (useFastTransfer : bool)
    (env : Sender.Env) (fuel : nat) (st : Sender.SendState)
    (b : Browser) (rxId id txId name' : string) (sc : Z)
    (arrivals : list (Z * Sender.Frame)) :
  let C := Sender.getSendChunkSize maxMessageSize FILE_FRAME_HEADER_BYTES in
  Sender.sendFileChunks file C (Sender.timeBudgetMs useFastTransfer) env dcHigh fuel
  = Sender.Returned st ->
  Js.trim id <> EmptyString ->
  hasPicker b = true -> pickerOk b = true ->
  ctrlOpen b = true -> ctrlThrows b = false -> writeFails b = false ->
  (forall a, a ∈ arrivals -> a.2 ∈ Sender.sent st) ->
  (forall f, f ∈ Sender.sent st -> exists j, (j, f) ∈ arrivals) ->
  let chunk (a : Z * Sender.Frame) :=
    (b, PeerData (MsgFileChunk (fileStreamIdForIndex txId a.1)
                    (Sender.fseq a.2) (Sender.fpayload a.2))) in
  let events :=
    (b, PeerData (MsgFileMeta id txId sc name' (byteLength file)))
    :: (b, AcceptFile id) :: List.map chunk arrivals in
  let final := run events (initialApp rxId) in
  receiving final = None
  /\ ctrlOut final = [MsgFileAccept (Js.trim id); MsgFileDone (Js.trim id)]
  /\ exists r,
       objs final !! O = Some r
       /\ writer r = Some (mkSink file true false).
Proof.
  intros C Hrun Hid Hpick Hpok Hopen Hthrow Hwrite Hfrom Hcover chunk events final.
  assert (HC : 1 <= C) by apply SenderSpec.getSendChunkSize_pos.
  destruct (returned_plan file C HC _ env dcHigh fuel st Hrun)
    as (n & Hsent & Hn & Hpart & Hfull).
  set (D := chunkData file C).
  assert (Hin : forall f, f ∈ Sender.sent st ->
                  0 <= Sender.fseq f < Z.of_nat n /\ Sender.fpayload f = D (Sender.fseq f)).
  { intros f Hf. apply list_elem_of_In, (List.in_map Sender.frameContent) in Hf.
    rewrite Hsent in Hf. unfold FrameSpec.planned in Hf.
    apply List.in_map_iff in Hf. destruct Hf as (i & Hi & Hi').
    apply List.in_seq in Hi'. unfold Sender.frameContent, Sender.chunkFrame in Hi.
    injection Hi as <- _ <-. split; [lia|reflexivity]. }
  set (arrivals' := List.map (fun a : Z * Sender.Frame =>
                                (fileStreamIdForIndex txId a.1, Sender.fseq a.2)) arrivals).
  assert (Hevents : List.map chunk arrivals = List.map (chunkEvent D b) arrivals').
  { unfold arrivals'. rewrite List.map_map. apply List.map_ext_in.
    intros a Ha. unfold chunk, chunkEvent. cbn [fst snd].
    apply list_elem_of_In, Hfrom, Hin in Ha. destruct Ha as (_ & ->). reflexivity. }
  assert (Hsz : 0 <= byteLength file) by (unfold byteLength; lia).
  pose proof (reassembly D n (byteLength file) b rxId id txId name' sc arrivals' Hn Hsz)
    as Hre.
  cbv zeta in Hre. unfold final, events. rewrite Hevents.
  destruct Hre as (Hrecv & Hout & r & Hr & _ & Hw); try assumption.
  - intros e He. unfold D. rewrite length_prefixBytes_chunks by exact HC.
    specialize (Hpart e He). lia.
  - unfold D. rewrite length_prefixBytes_chunks by exact HC. lia.
  - intros a Ha. unfold arrivals' in Ha.
    apply list_elem_of_In, List.in_map_iff in Ha. destruct Ha as (a0 & <- & Ha0).
    cbn [fst snd]. split; [|apply streamOk_index].
    apply list_elem_of_In, Hfrom, Hin in Ha0. tauto.
  - intros k Hk.
    assert (Hf : exists f, f ∈ Sender.sent st /\ Sender.fseq f = k).
    { assert (Hk' : List.In (Sender.chunkFrame file C k)
                      (List.map Sender.frameContent (Sender.sent st))).
      { rewrite Hsent. unfold FrameSpec.planned. apply List.in_map_iff.
        exists (Z.to_nat k). split; [rewrite Z2Nat.id by lia; reflexivity|].
        apply List.in_seq. lia. }
      apply List.in_map_iff in Hk'. destruct Hk' as (f & Hf & Hf').
      exists f. split; [apply list_elem_of_In; exact Hf'|].
      unfold Sender.frameContent, Sender.chunkFrame in Hf. congruence. }
    destruct Hf as (f & Hf & <-). destruct (Hcover f Hf) as (j & Hj).
    exists (fileStreamIdForIndex txId j). unfold arrivals'.
    apply list_elem_of_In, List.in_map_iff. exists (j, f).
    split; [reflexivity|apply list_elem_of_In; exact Hj].
  - split; [exact Hrecv|]. split; [exact Hout|]. exists r. split; [exact Hr|].
    rewrite Hw. do 2 f_equal.
    change (List.concat (List.map D (seqZ 0 n))) with (prefixBytes D n).
    unfold D. rewrite prefixBytes_chunks by exact HC.
    rewrite Z.min_r by lia. unfold byteLength. rewrite Nat2Z.id. apply List.firstn_all.
Qed.

End DeliverySpec.

(** ** Liveness, and the reports of signaling errors *)
Module LivenessSpec.
Import PeerClient.

(** The status reports a heartbeat may make, starting from [timedOut]:
    ["peer-timeout"] when the peer was not timed out, ["connected"] when it
    was, in turns. The result is the flag after the last report. *)
Fixpoint alternates (timedOut : bool) (calls : list Upcall) : option bool :=
  match calls with
  | [] => Some timedOut
  | OnStatusChange status :: rest =>
      if timedOut
      then if String.eqb status "connected" then alternates false rest else None
      else if String.eqb status "peer-timeout" then alternates true rest else None
  | OnData _ :: _ => None
  end.

Lemma alternates_app b calls1 calls2 b1 :
  alternates b calls1 = Some b1 ->
  alternates b (calls1 ++ calls2) = alternates b1 calls2.
Proof.
  revert b. induction calls1 as [|call calls1 IH]; intros b H.
  - injection H as <-. reflexivity.
  - destruct call as [status|msg]; [|discriminate]. cbn [List.app alternates] in *.
    destruct b.
    + destruct (String.eqb status "connected"); [apply IH; exact H|discriminate].
    + destruct (String.eqb status "peer-timeout"); [apply IH; exact H|discriminate].
Qed.

Lemma livenessStep_alternates ev st :
  alternates (peerTimedOut st) (livenessStep ev st).2
  = Some (peerTimedOut (livenessStep ev st).1).
Proof.
  destruct ev as [now dcOpen|now]; cbn [livenessStep].
  - unfold heartbeatTick. destruct dcOpen; cbn [negb]; [|reflexivity].
    destruct (HEARTBEAT_TIMEOUT_MS <? now - lastPeerActivityAt st); cbn [andb];
      [|reflexivity].
    destruct (peerTimedOut st) eqn:Ht; cbn [negb snd fst alternates peerTimedOut].
    + rewrite Ht. reflexivity.
    + reflexivity.
  - unfold markPeerActivity. destruct (peerTimedOut st) eqn:Ht; reflexivity.
Qed.

Lemma livenessRun_cons ev rest st :
  livenessRun (ev :: rest) st
  = ((livenessRun rest (livenessStep ev st).1).1,
     (livenessStep ev st).2 ++ (livenessRun rest (livenessStep ev st).1).2).
Proof.
  cbn [livenessRun]. destruct (livenessStep ev st) as [st1 calls1].
  cbn [fst snd]. destruct (livenessRun rest st1) as [st2 calls2]. reflexivity.
Qed.

Lemma livenessRun_app events1 events2 st :
  livenessRun (events1 ++ events2) st
  = ((livenessRun events2 (livenessRun events1 st).1).1,
     (livenessRun events1 st).2 ++ (livenessRun events2 (livenessRun events1 st).1).2).
Proof.
  revert st. induction events1 as [|ev events1 IH]; intros st.
  - cbn [List.app livenessRun fst snd]. destruct (livenessRun events2 st). reflexivity.
  - cbn [List.app]. rewrite !livenessRun_cons, IH. cbn [fst snd].
    rewrite List.app_assoc. reflexivity.
Qed.

(** X20. Whatever ticks and arrivals a heartbeat sees, the status it reports
    alternates: ["peer-timeout"] is reported once when the peer falls
    silent and not again until ["connected"] has been reported, and
    ["connected"] is reported once when the peer is heard again. The flag
    [_peerTimedOut] says which report came last. *)
Theorem status_reports_alternate (events : list LivenessEvent) (st : PeerState) :
  alternates (peerTimedOut st) (livenessRun events st).2
  = Some (peerTimedOut (livenessRun events st).1).
Proof.
  revert st. induction events as [|ev events IH]; intros st; [reflexivity|].
  rewrite livenessRun_cons. cbn [fst snd].
  rewrite (alternates_app _ _ _ _ (livenessStep_alternates ev st)). apply IH.
Qed.

(** Every tick comes at most [HEARTBEAT_TIMEOUT_MS] after the last arrival
    before it ([last] at the start). *)
Fixpoint timely (last : Z) (events : list LivenessEvent) : bool :=
  match events with
  | [] => true
  | Tick now _ :: rest => (now - last <=? HEARTBEAT_TIMEOUT_MS) && timely last rest
  | Activity now :: rest => timely now rest
  end.

Lemma timely_quiet events : forall st,
  peerTimedOut st = false ->
  timely (lastPeerActivityAt st) events = true ->
  (livenessRun events st).2 = [] /\ peerTimedOut (livenessRun events st).1 = false.
Proof.
  induction events as [|ev events IH]; intros st Hst Hq; [split; [reflexivity|exact Hst]|].
  rewrite livenessRun_cons. cbn [fst snd].
  destruct ev as [now dcOpen|now]; cbn [timely] in Hq.
  - apply andb_true_iff in Hq. destruct Hq as (Hnow & Hq).
    apply Z.leb_le in Hnow.
    assert (Hstep : livenessStep (Tick now dcOpen) st = (st, [])).
    { cbn [livenessStep]. unfold heartbeatTick. destruct dcOpen; cbn [negb]; [|reflexivity].
      destruct (Z.ltb_spec HEARTBEAT_TIMEOUT_MS (now - lastPeerActivityAt st)); [lia|].
      reflexivity. }
    rewrite Hstep. cbn [fst snd List.app]. apply IH; assumption.
  - assert (Hstep : livenessStep (Activity now) st = (mkPeerState now false, [])).
    { cbn [livenessStep]. unfold markPeerActivity. rewrite Hst. reflexivity. }
    rewrite Hstep. cbn [fst snd List.app]. apply IH; [reflexivity|exact Hq].
Qed.

(** X21. No false alarm, and no silence missed. While every tick comes at
    most 30 seconds after the last arrival, the heartbeat reports nothing;
    the first tick on an open control channel that comes later than that
    reports ["peer-timeout"], once. *)
Theorem timeout_reported_on_silence_only
    (events : list LivenessEvent) (st : PeerState) (now : Z) :
  peerTimedOut st = false ->
  timely (lastPeerActivityAt st) events = true ->
  HEARTBEAT_TIMEOUT_MS < now - lastPeerActivityAt (livenessRun events st).1 ->
  (livenessRun events st).2 = []
  /\ (livenessRun (events ++ [Tick now true]) st).2 = [OnStatusChange "peer-timeout"]
  /\ peerTimedOut (livenessRun (events ++ [Tick now true]) st).1 = true.
Proof.
  intros Hst Hq Hlate.
  destruct (timely_quiet events st Hst Hq) as (Hcalls & Hflag).
  split; [exact Hcalls|].
  rewrite livenessRun_app. cbn [fst snd]. rewrite Hcalls. cbn [List.app].
  set (st1 := (livenessRun events st).1) in *.
  cbn [livenessRun livenessStep]. unfold heartbeatTick. cbn [negb].
  destruct (Z.ltb_spec HEARTBEAT_TIMEOUT_MS (now - lastPeerActivityAt st1)); [|lia].
  rewrite Hflag. cbn [negb andb]. split; reflexivity.
Qed.

Lemma timeout_reported_on_silence_only_witness :
  (livenessRun [Activity 1000; Tick 2200 true; Tick 3400 true]
     (startHeartbeat 0)).2 = []
  /\ (livenessRun ([Activity 1000; Tick 2200 true; Tick 3400 true] ++ [Tick 40000 true])
        (startHeartbeat 0)).2 = [OnStatusChange "peer-timeout"]
  /\ peerTimedOut
       (livenessRun ([Activity 1000; Tick 2200 true; Tick 3400 true] ++ [Tick 40000 true])
          (startHeartbeat 0)).1 = true.
Proof.
  apply (timeout_reported_on_silence_only
           [Activity 1000; Tick 2200 true; Tick 3400 true] (startHeartbeat 0) 40000).
  - reflexivity.
  - reflexivity.
  - vm_compute. reflexivity.
Defined.

End LivenessSpec.

Module ErrorReportSpec.
Import SignalingService.

(** Each call follows the one before it (at first the message and time
    in the fields) with another message, or 4 seconds or more later. *)
Fixpoint spaced (lastMsg : string) (lastAt : Z) (calls : list (string * Z)) : Prop :=
  match calls with
  | [] => True
  | (m, t) :: rest => (m <> lastMsg \/ 4000 <= t - lastAt) /\ spaced m t rest
  end.

Lemma emitErrors_cons msg now rest st :
  emitErrors ((msg, now) :: rest) st
  = ((emitErrors rest (emitError msg now st).1).1,
     if (emitError msg now st).2
     then (msg, now) :: (emitErrors rest (emitError msg now st).1).2
     else (emitErrors rest (emitError msg now st).1).2).
Proof.
  cbn [emitErrors]. destruct (emitError msg now st) as [st1 called].
  cbn [fst snd]. destruct (emitErrors rest st1) as [st2 calls]. reflexivity.
Qed.

Lemma emitErrors_spaced errs : forall st,
  spaced (lastErrorMsg st) (lastErrorAt st) (emitErrors errs st).2.
Proof.
  induction errs as [|[msg now] rest IH]; intros st; [exact I|].
  rewrite emitErrors_cons. cbn [snd]. unfold emitError.
  destruct (String.eqb_spec msg (lastErrorMsg st)) as [Heq|Hne]; cbn [andb].
  - destruct (Z.ltb_spec (now - lastErrorAt st) 4000) as [Hlt|Hge]; cbn [fst snd].
    + apply IH.
    + split; [right; lia|]. apply (IH (mkErrorState now msg)).
  - cbn [fst snd]. split; [left; exact Hne|]. apply (IH (mkErrorState now msg)).
Qed.

Lemma spaced_adjacent calls : forall lastMsg lastAt i m t m' t',
  spaced lastMsg lastAt calls ->
  calls !! i = Some (m, t) -> calls !! S i = Some (m', t') ->
  m' <> m \/ 4000 <= t' - t.
Proof.
  induction calls as [|[m0 t0] calls IH]; intros lastMsg lastAt i m t m' t' Hs Hi Hi';
    [discriminate|].
  destruct Hs as (_ & Hs). destruct i as [|i].
  - injection Hi as -> ->. destruct calls as [|[m1 t1] calls]; [discriminate|].
    injection Hi' as -> ->. destruct Hs as (H & _). exact H.
  - apply (IH m0 t0 i m t m' t' Hs Hi Hi').
Qed.

(** After an error, the message kept is that error's. *)
Lemma emitError_keeps_message msg now st :
  lastErrorMsg (emitError msg now st).1 = msg.
Proof.
  unfold emitError. destruct (String.eqb_spec msg (lastErrorMsg st)) as [Heq|Hne]; cbn [andb].
  - destruct (now - lastErrorAt st <? 4000); [symmetry; exact Heq|reflexivity].
  - reflexivity.
Qed.

Lemma emitErrors_incl msg now rest st c :
  c ∈ (emitErrors rest (emitError msg now st).1).2 ->
  c ∈ (emitErrors ((msg, now) :: rest) st).2.
Proof.
  intros H. rewrite emitErrors_cons. cbn [snd].
  destruct (emitError msg now st).2; [right; exact H|exact H].
Qed.

(** X22. [emitError] throttles repeats and nothing else. In any sequence
    of errors, two calls of [onError] in a row carry different messages or
    are 4 seconds or more apart; and an error whose message differs from
    the error just before it always reaches [onError]. *)
Theorem repeated_errors_are_throttled (errs : list (string * Z)) (st : ErrorState) :
  let calls := (emitErrors errs st).2 in
  (forall i m t m' t',
      calls !! i = Some (m, t) -> calls !! S i = Some (m', t') ->
      m' <> m \/ 4000 <= t' - t)
  /\ (forall i m t m' t',
        errs !! i = Some (m, t) -> errs !! S i = Some (m', t') ->
        m' <> m -> (m', t') ∈ calls).
Proof.
  cbv zeta. split.
  - intros i m t m' t'. apply spaced_adjacent with (lastMsg := lastErrorMsg st)
                                                   (lastAt := lastErrorAt st).
    apply emitErrors_spaced.
  - revert st. induction errs as [|[m0 t0] rest IH]; intros st i m t m' t' Hi Hi' Hne;
      [discriminate|].
    destruct i as [|i].
    + injection Hi as -> ->. destruct rest as [|[m1 t1] rest]; [discriminate|].
      injection Hi' as -> ->. apply emitErrors_incl.
      rewrite emitErrors_cons. cbn [snd].
      assert (Hcalled : (emitError m' t' (emitError m t st).1).2 = true).
      { unfold emitError at 1. rewrite emitError_keeps_message.
        destruct (String.eqb_spec m' m) as [E|_]; [contradiction|reflexivity]. }
      rewrite Hcalled. left.
    + apply emitErrors_incl. apply (IH _ i m t m' t' Hi Hi' Hne).
Qed.

End ErrorReportSpec.

(** ** The page, the channels of a transfer, and the ICE configuration *)
Module PageSpec.
Import Main JsFacts.
Local Arguments String.append : simpl nomatch.

(** *** escapeHtml *)

(** The characters [escapeHtml] replaces. *)
Definition isMarkup (c : ascii) : bool :=
  (Ascii.eqb c "&"%char || Ascii.eqb c "<"%char || Ascii.eqb c ">"%char
   || Ascii.eqb c (ascii_of_nat 34) || Ascii.eqb c "'"%char)%bool.

(** The characters that begin or end a tag or an attribute value. *)
Definition isDelimiter (c : ascii) : bool :=
  (Ascii.eqb c "<"%char || Ascii.eqb c ">"%char
   || Ascii.eqb c (ascii_of_nat 34) || Ascii.eqb c "'"%char)%bool.

Lemma escapeChar_cases c :
  (c = "&"%char /\ escapeChar c = "&amp;")
  \/ (c = "<"%char /\ escapeChar c = "&lt;")
  \/ (c = ">"%char /\ escapeChar c = "&gt;")
  \/ (c = ascii_of_nat 34 /\ escapeChar c = "&quot;")
  \/ (c = "'"%char /\ escapeChar c = "&#39;")
  \/ (isMarkup c = false /\ escapeChar c = String c "").
Proof.
  unfold escapeChar, isMarkup.
  destruct (Ascii.eqb_spec c "&"%char) as [->|H1]; [left; split; reflexivity|].
  destruct (Ascii.eqb_spec c "<"%char) as [->|H2]; [right; left; split; reflexivity|].
  destruct (Ascii.eqb_spec c ">"%char) as [->|H3];
    [right; right; left; split; reflexivity|].
  destruct (Ascii.eqb_spec c (ascii_of_nat 34)) as [->|H4];
    [right; right; right; left; split; reflexivity|].
  destruct (Ascii.eqb_spec c "'"%char) as [->|H5];
    [right; right; right; right; left; split; reflexivity|].
  right; right; right; right; right. split; reflexivity.
Qed.

Lemma escapeChar_harmless c :
  Js.allChars (fun d => negb (isDelimiter d)) (escapeChar c) = true.
Proof.
  destruct (escapeChar_cases c) as [(_ & ->)|[(_ & ->)|[(_ & ->)|[(_ & ->)|[(_ & ->)|(H & ->)]]]]];
    try reflexivity.
  cbn [Js.allChars]. rewrite andb_true_r. apply negb_true_iff.
  unfold isMarkup in H. unfold isDelimiter.
  destruct (Ascii.eqb c "&"%char); [discriminate|exact H].
Qed.

(** What stands for a character tells the character, whatever follows. *)
Lemma escapeChar_prefix_free c1 c2 r1 r2 :
  (escapeChar c1 ++ r1)%string = (escapeChar c2 ++ r2)%string -> c1 = c2 /\ r1 = r2.
Proof.
  destruct (escapeChar_cases c1)
    as [(E1 & ->)|[(E1 & ->)|[(E1 & ->)|[(E1 & ->)|[(E1 & ->)|(H1 & ->)]]]]];
  destruct (escapeChar_cases c2)
    as [(E2 & ->)|[(E2 & ->)|[(E2 & ->)|[(E2 & ->)|[(E2 & ->)|(H2 & ->)]]]]];
  cbn [String.append]; intros E; try discriminate E;
  try (subst c1 c2; injection E as <-; split; reflexivity).
  - injection E as <- _. subst c1. discriminate H2.
  - injection E as <- _. subst c1. discriminate H2.
  - injection E as <- _. subst c1. discriminate H2.
  - injection E as <- _. subst c1. discriminate H2.
  - injection E as <- _. subst c1. discriminate H2.
  - injection E as -> _. subst c2. discriminate H1.
  - injection E as -> _. subst c2. discriminate H1.
  - injection E as -> _. subst c2. discriminate H1.
  - injection E as -> _. subst c2. discriminate H1.
  - injection E as -> _. subst c2. discriminate H1.
  - injection E as -> ->. split; reflexivity.
Qed.

Lemma escapeChar_nonempty c r : (escapeChar c ++ r)%string <> "".
Proof.
  destruct (escapeChar_cases c)
    as [(_ & ->)|[(_ & ->)|[(_ & ->)|[(_ & ->)|[(_ & ->)|(_ & ->)]]]]]; discriminate.
Qed.

Lemma escapeHtml_plain s :
  Js.allChars (fun c => negb (isMarkup c)) s = true -> escapeHtml s = s.
Proof.
  unfold escapeHtml. induction s as [|c s IH]; [reflexivity|].
  cbn [Js.allChars Js.replaceEach]. intros H. apply andb_true_iff in H.
  destruct H as (Hc & Hs). rewrite (IH Hs). apply negb_true_iff in Hc.
  destruct (escapeChar_cases c)
    as [(-> & _)|[(-> & _)|[(-> & _)|[(-> & _)|[(-> & _)|(_ & ->)]]]]];
    try discriminate Hc.
  reflexivity.
Qed.

(** X23. [escapeHtml] makes a text harmless and loses nothing. Its result
    holds none of the characters [<], [>], double quote and single quote;
    two different texts never give the same result; and a text without
    these characters and without [&] is returned as it is. *)
Theorem escapeHtml_harmless_and_lossless (s : string) :
  Js.allChars (fun c => negb (isDelimiter c)) (escapeHtml s) = true
  /\ (forall s', escapeHtml s = escapeHtml s' -> s = s')
  /\ escapeHtml (Js.filterChars (fun c => negb (isMarkup c)) s)
     = Js.filterChars (fun c => negb (isMarkup c)) s.
Proof.
  split; [|split].
  - unfold escapeHtml. induction s as [|c s IH]; [reflexivity|].
    cbn [Js.replaceEach]. rewrite allChars_app, escapeChar_harmless, IH. reflexivity.
  - unfold escapeHtml. induction s as [|c s IH]; intros s' E.
    + destruct s' as [|c' s']; [reflexivity|].
      cbn [Js.replaceEach] in E. symmetry in E. apply escapeChar_nonempty in E.
      contradiction.
    + destruct s' as [|c' s'].
      * cbn [Js.replaceEach] in E. apply escapeChar_nonempty in E. contradiction.
      * cbn [Js.replaceEach] in E. apply escapeChar_prefix_free in E.
        destruct E as (-> & E). f_equal. apply IH. exact E.
  - apply escapeHtml_plain. induction s as [|c s IH]; [reflexivity|].
    cbn [Js.filterChars]. destruct (negb (isMarkup c)) eqn:Hc; [|exact IH].
    cbn [Js.allChars]. rewrite Hc, IH. reflexivity.
Qed.

(** *** The room code field *)

Lemma allChars_filterChars p s : Js.allChars p (Js.filterChars p s) = true.
Proof.
  induction s as [|c s IH]; [reflexivity|].
  cbn [Js.filterChars]. destruct (p c) eqn:Hc; [|exact IH].
  cbn [Js.allChars]. rewrite Hc, IH. reflexivity.
Qed.

Lemma filterChars_all p s : Js.allChars p s = true -> Js.filterChars p s = s.
Proof.
  induction s as [|c s IH]; [reflexivity|].
  cbn [Js.allChars Js.filterChars]. intros H. apply andb_true_iff in H.
  destruct H as (Hc & Hs). rewrite Hc, (IH Hs). reflexivity.
Qed.

Lemma allChars_take p n s : Js.allChars p s = true -> Js.allChars p (Js.take n s) = true.
Proof.
  revert s. induction n as [|n IH]; intros s H; [destruct s; reflexivity|].
  destruct s as [|c s]; [reflexivity|].
  cbn [Js.take Js.allChars] in *. apply andb_true_iff in H. destruct H as (Hc & Hs).
  rewrite Hc, (IH s Hs). reflexivity.
Qed.

Lemma length_take n s : String.length (Js.take n s) = Nat.min n (String.length s).
Proof.
  revert s. induction n as [|n IH]; intros s; [destruct s; reflexivity|].
  destruct s as [|c s]; [reflexivity|].
  cbn [Js.take String.length]. rewrite IH. reflexivity.
Qed.

Lemma take_all n s : (String.length s <= n)%nat -> Js.take n s = s.
Proof.
  revert s. induction n as [|n IH]; intros s H.
  - destruct s; [reflexivity|simpl in H; lia].
  - destruct s as [|c s]; [reflexivity|].
    cbn [Js.take]. rewrite IH; [reflexivity|simpl in H; lia].
Qed.

(** X24. The room code field keeps digits only, six at most: whatever is
    typed or pasted, the value written back is the first six digits of the
    input, in their order. The connect button is enabled exactly when six
    digits are there, and a value that is already a code of up to six
    digits is left as it is. *)
Theorem room_code_field_keeps_six_digits (value : string) :
  let val := (handleCloudInput value).1 in
  let disabled := (handleCloudInput value).2 in
  val = Js.take 6 (Js.filterChars Js.isDigit value)
  /\ Js.allChars Js.isDigit val = true
  /\ (String.length val <= 6)%nat
  /\ (disabled = false <-> (6 <= String.length (Js.filterChars Js.isDigit value))%nat)
  /\ handleCloudInput val = (val, disabled).
Proof.
  cbv zeta. unfold handleCloudInput. cbn [fst snd].
  set (digits := Js.filterChars Js.isDigit value).
  assert (Hd : Js.allChars Js.isDigit (Js.take 6 digits) = true)
    by apply allChars_take, allChars_filterChars.
  assert (Hl : String.length (Js.take 6 digits) = Nat.min 6 (String.length digits))
    by apply length_take.
  split; [reflexivity|]. split; [exact Hd|]. split; [lia|]. split.
  - rewrite Hl. rewrite negb_false_iff, Nat.eqb_eq. lia.
  - rewrite (filterChars_all _ _ Hd). rewrite (take_all 6 (Js.take 6 digits)) by lia.
    reflexivity.
Qed.

End PageSpec.

Module ChannelSpec.
Import PeerClient Main JsFacts.
Local Arguments String.append : simpl nomatch.

Definition matchesPrefix (base id : string) : bool :=
  (String.eqb id base || Js.startsWith (base ++ ":")%string id)%bool.

Lemma own_id_matches base j :
  Js.trim base <> "" ->
  matchesPrefix (Js.trim base) (fileStreamIdForIndex base j) = true.
Proof.
  intros Hne. unfold matchesPrefix, fileStreamIdForIndex.
  assert (He : Js.isEmpty (Js.trim base) = false)
    by (destruct (Js.trim base); [contradiction|reflexivity]).
  rewrite He. destruct (j <=? 0).
  - rewrite String.eqb_refl. reflexivity.
  - rewrite <- append_assoc, startsWith_app. apply orb_true_r.
Qed.

Lemma lacks_app sep s t : lacks sep (s ++ t) = (lacks sep s && lacks sep t)%bool.
Proof. apply allChars_app. Qed.

(** Two texts without a colon that agree up to their first colon are the
    same. *)
Lemma before_colon_inj a b x y :
  lacks ":" a = true -> lacks ":" b = true ->
  (a ++ ":" ++ x)%string = (b ++ ":" ++ y)%string -> a = b.
Proof.
  revert b. induction a as [|c a IH]; intros b Ha Hb E.
  - destruct b as [|d b]; [reflexivity|].
    change ("" ++ ":" ++ x)%string with (String ":" x) in E.
    change (String d b ++ ":" ++ y)%string with (String d (b ++ ":" ++ y)) in E.
    injection E as <- _. unfold lacks in Hb. cbn [Js.allChars] in Hb. discriminate Hb.
  - destruct b as [|d b].
    + change ("" ++ ":" ++ y)%string with (String ":" y) in E.
      change (String c a ++ ":" ++ x)%string with (String c (a ++ ":" ++ x)) in E.
      injection E as -> _. unfold lacks in Ha. cbn [Js.allChars] in Ha. discriminate Ha.
    + change (String c a ++ ":" ++ x)%string with (String c (a ++ ":" ++ x)) in E.
      change (String d b ++ ":" ++ y)%string with (String d (b ++ ":" ++ y)) in E.
      injection E as -> E. f_equal.
      unfold lacks in Ha, Hb. cbn [Js.allChars] in Ha, Hb.
      apply andb_true_iff in Ha, Hb. apply (IH b); tauto.
Qed.

Lemma other_id_differs base other j :
  Js.trim base <> "" -> Js.trim other <> "" ->
  lacks ":" (Js.trim base) = true -> lacks ":" (Js.trim other) = true ->
  Js.trim other <> Js.trim base ->
  matchesPrefix (Js.trim base) (fileStreamIdForIndex other j) = false.
Proof.
  intros Hb Ho Lb Lo Hne. unfold matchesPrefix, fileStreamIdForIndex.
  assert (He : Js.isEmpty (Js.trim other) = false)
    by (destruct (Js.trim other); [contradiction|reflexivity]).
  rewrite He. apply orb_false_iff.
  destruct (j <=? 0).
  - split; [apply String.eqb_neq; exact Hne|].
    destruct (Js.startsWith (Js.trim base ++ ":") (Js.trim other)) eqn:Hs; [|reflexivity].
    apply startsWith_inv in Hs. destruct Hs as (t & Hs).
    rewrite Hs, append_assoc, !lacks_app in Lo.
    cbn in Lo. rewrite andb_false_r in Lo. discriminate Lo.
  - split.
    + apply String.eqb_neq. intros E. rewrite <- E, !lacks_app in Lb.
      cbn in Lb. rewrite andb_false_r in Lb. discriminate Lb.
    + destruct (Js.startsWith _ _) eqn:Hs; [|reflexivity].
      apply startsWith_inv in Hs. destruct Hs as (t & Hs).
      rewrite append_assoc in Hs. apply before_colon_inj in Hs; [contradiction| |];
        assumption.
Qed.

Lemma own_ids_closed base app j :
  Js.trim base <> "" ->
  fileStreamIdForIndex base j ∉ fileChannels (closeFileChannelsByPrefix base app).
Proof.
  intros Hne Hin.
  assert (He : Js.isEmpty (Js.trim base) = false)
    by (destruct (Js.trim base); [contradiction|reflexivity]).
  unfold closeFileChannelsByPrefix in Hin. rewrite He in Hin.
  cbn [fileChannels set_fileChannels] in Hin.
  apply list_elem_of_In, List.filter_In in Hin. destruct Hin as (_ & Hin).
  fold (matchesPrefix (Js.trim base) (fileStreamIdForIndex base j)) in Hin.
  rewrite own_id_matches in Hin by exact Hne. discriminate Hin.
Qed.

(** X25. Closing by prefix is per transfer. After
    [closeFileChannelsByPrefix(base)] none of the channels
    [ensureFileTxChannels] opens for [base] is registered any more, whatever
    their number; and the channels of another transfer stay registered, as
    long as neither base id holds a colon (the ids the client makes for
    itself do not). *)
Theorem close_by_prefix_is_per_transfer (base other : string) (app : App) :
  Js.trim base <> "" ->
  let app' := closeFileChannelsByPrefix base app in
  (forall j, fileStreamIdForIndex base j ∉ fileChannels app')
  /\ (forall count id, id ∈ fileTxChannelIds base count -> id ∉ fileChannels app')
  /\ (Js.trim other <> "" -> Js.trim other <> Js.trim base ->
      lacks ":" (Js.trim base) = true -> lacks ":" (Js.trim other) = true ->
      forall j, fileStreamIdForIndex other j ∈ fileChannels app ->
                fileStreamIdForIndex other j ∈ fileChannels app').
Proof.
  intros Hne app'.
  assert (He : Js.isEmpty (Js.trim base) = false)
    by (destruct (Js.trim base); [contradiction|reflexivity]).
  assert (Happ : fileChannels app'
                 = List.filter (fun id => negb (matchesPrefix (Js.trim base) id))
                     (fileChannels app)).
  { unfold app', closeFileChannelsByPrefix. rewrite He. reflexivity. }
  assert (Hown : forall j, fileStreamIdForIndex base j ∉ fileChannels app')
    by (intros j; apply own_ids_closed; exact Hne).
  split; [exact Hown|]. split.
  - intros count id Hid. unfold fileTxChannelIds in Hid.
    apply list_elem_of_In, List.in_map_iff in Hid. destruct Hid as (i & <- & _).
    apply Hown.
  - intros Ho Hdiff Lb Lo j Hin. rewrite Happ.
    apply list_elem_of_In, List.filter_In. split; [apply list_elem_of_In; exact Hin|].
    rewrite other_id_differs by assumption. reflexivity.
Qed.

End ChannelSpec.

Module IceSpec.
Import PeerClient.

(** X26. [setupPC] asks for relayed candidates only when it also hands the
    browser a TURN server to relay through: the policy is never ["relay"]
    with no relay in [iceServers]. No server is listed with an empty URL,
    and a user name or credential is set only when it is not empty. *)
Theorem relay_policy_has_a_turn_server (cfg : TurnConfig) :
  let pc := pcConfig cfg in
  (relayOnly pc = true ->
     mkIceServer (Js.trim (turnUrl cfg))
       (if Js.isEmpty (Js.trim (turnUsername cfg)) then None
        else Some (Js.trim (turnUsername cfg)))
       (if Js.isEmpty (turnCredential cfg) then None else Some (turnCredential cfg))
     ∈ iceServers pc)
  /\ (forall s, s ∈ iceServers pc ->
        urls s <> "" /\ username s <> Some "" /\ credential s <> Some "")
  /\ (relayOnly pc = false -> cfgUseStun cfg = true ->
      mkIceServer "stun:stun.l.google.com:19302" None None ∈ iceServers pc).
Proof.
  cbv zeta. unfold pcConfig. cbn [relayOnly iceServers].
  split; [|split].
  - intros H. apply andb_true_iff in H. destruct H as (H & Hurl).
    apply andb_true_iff in H. destruct H as (Hturn & _).
    rewrite Hturn, Hurl. apply elem_of_app. right.
    destruct (Js.isEmpty (Js.trim (turnUsername cfg))),
      (Js.isEmpty (turnCredential cfg)); left.
  - intros s Hs. apply elem_of_app in Hs. destruct Hs as [Hs|Hs].
    + destruct (cfgUseStun cfg); [|apply elem_of_nil in Hs; contradiction].
      apply list_elem_of_singleton in Hs. subst s. repeat split; discriminate.
    + destruct (useTurn cfg); [|apply elem_of_nil in Hs; contradiction].
      destruct (Js.isEmpty (Js.trim (turnUrl cfg))) eqn:Hurl; cbn [negb] in Hs;
        [apply elem_of_nil in Hs; contradiction|].
      apply list_elem_of_singleton in Hs. subst s. cbn [urls username credential].
      split; [intros E; rewrite E in Hurl; discriminate|]. split.
      * destruct (Js.isEmpty (Js.trim (turnUsername cfg))) eqn:Hu; cbn [negb];
          [discriminate|]. intros [= E]. rewrite E in Hu. discriminate.
      * destruct (Js.isEmpty (turnCredential cfg)) eqn:Hp; cbn [negb];
          [discriminate|]. intros [= E]. rewrite E in Hp. discriminate.
  - intros _ Hstun. rewrite Hstun. apply elem_of_app. left. left.
Qed.

End IceSpec.

(** ** Cancelling a transfer that is being received *)
Module CancelSpec.
Import PeerClient Main.

Definition isChunk (ev : Event) : bool :=
  match ev with
  | PeerData (MsgFileChunk _ _ _) => true
  | _ => false
  end.

Lemma chunks_without_receiver events : forall app,
  receiving app = None ->
  Forall (fun be : Browser * Event => isChunk be.2 = true) events ->
  run events app = app.
Proof.
  induction events as [|[b ev] events IH]; intros app Hrecv Hall; [reflexivity|].
  apply Forall_cons in Hall. destruct Hall as (Hev & Hall).
  change (run ((b, ev) :: events) app) with (run events (step b ev app)).
  destruct ev as [msg| | | |]; try discriminate Hev.
  destruct msg; try discriminate Hev.
  cbn [step onPeerData]. unfold onFileChunk. rewrite Hrecv. apply IH; assumption.
Qed.

Lemma fileChannels_update ref f app : fileChannels (update ref f app) = fileChannels app.
Proof. reflexivity. Qed.

Lemma fileChannels_tryPeerSend b msg app :
  fileChannels (tryPeerSend b msg app) = fileChannels app.
Proof.
  unfold tryPeerSend, peerSend. destruct (ctrlOpen b), (ctrlThrows b); reflexivity.
Qed.

Definition cancelFlags (r : Incoming) : Incoming :=
  set_acceptResendTimer false (set_cancelled true r).

Definition dropWriter (r : Incoming) : Incoming :=
  set_writeQueuedBytes 0 (set_writeQueueStart O (set_writeQueue [] (set_writer None r))).

(** What [cancelIncomingFile] makes of the module's variables, for the
    transfer that is being received. *)
Lemma cancel_shape (b : Browser) (app : App) (ref : nat) (r : Incoming)
    (notifyPeer : bool) (reason : string) :
  receiving app = Some ref ->
  objs app !! ref = Some r ->
  incomingFiles app !! fileId r = Some ref ->
  Js.trim (fileId r) = fileId r -> fileId r <> "" ->
  cancelIncomingFile b (fileId r) notifyPeer reason app
  = mkApp (alter dropWriter ref (alter cancelFlags ref (objs app)))
      (nextRef app) (delete (fileId r) (incomingFiles app)) None
      (receivedFiles app) (pendingUiOps app)
      (ctrlOut app
       ++ (if (notifyPeer && ctrlOpen b && negb (ctrlThrows b))%bool
           then [MsgFileCancel (fileId r) reason] else []))
      (if negb (Js.isEmpty (streamId r))
       then fileChannels (closeFileChannelsByPrefix (streamId r) app)
       else fileChannels app)
      (fileTxId app) (stagedFiles app) (outgoingQueue app) (outgoingQueuedIds app)
      (outgoingCancelledIds app) (outgoingTransfers app) (fileAcceptWaiters app)
      (fileAcceptEarly app) (fileDoneWaiters app).
Proof.
  intros Hrecv Hr Hin Htrim Hne.
  assert (He : Js.isEmpty (fileId r) = false)
    by (destruct (fileId r); [contradiction|reflexivity]).
  destruct app as [objs0 next inc cur files ops out chans tx staged q qids cids outs aw ae dw].
  cbn [receiving objs incomingFiles] in Hrecv, Hr, Hin. subst cur.
  unfold cancelIncomingFile. rewrite Htrim, He. cbn [incomingFiles]. rewrite Hin.
  cbn [objs]. rewrite Hr.
  cbn [update set_incomingFiles receiving set_objs objs incomingFiles nextRef
       receivedFiles pendingUiOps ctrlOut fileChannels fileTxId stagedFiles
       outgoingQueue outgoingQueuedIds outgoingCancelledIds outgoingTransfers
       fileAcceptWaiters fileAcceptEarly fileDoneWaiters].
  rewrite lookup_alter_eq, Hr. cbn [fmap option_fmap option_map].
  cbn [fileId set_acceptResendTimer set_cancelled]. rewrite String.eqb_refl.
  unfold tryPeerSend, peerSend, closeFileChannelsByPrefix.
  destruct notifyPeer, (ctrlOpen b), (ctrlThrows b), (Js.isEmpty (streamId r));
    try destruct (Js.isEmpty (Js.trim (streamId r)));
    cbn [negb andb default set_receiving update set_incomingFiles receiving set_objs objs
         incomingFiles nextRef receivedFiles pendingUiOps ctrlOut fileChannels fileTxId
         stagedFiles outgoingQueue outgoingQueuedIds outgoingCancelledIds
         outgoingTransfers fileAcceptWaiters fileAcceptEarly fileDoneWaiters
         set_ctrlOut set_fileChannels];
    rewrite ?List.app_nil_r; reflexivity.
Qed.

(** X27. Cancelling the transfer that is being received stops it, whoever
    cancels (the user, the peer, a failed write, a closed channel). The
    entry and [peer.receiving] are cleared, the writer and what waited for
    it are dropped, the channels of its stream are closed, the peer is told
    exactly when asked to and the control channel takes the message, and
    from then on chunks that still arrive
    change nothing: nothing more is written and no [file-done] is sent. *)
Theorem cancelled_transfer_takes_no_more_chunks
    (b : Browser) (app : App) (ref : nat) (r : Incoming)
    (notifyPeer : bool) (reason : string) (later : list (Browser * Event)) :
  receiving app = Some ref ->
  objs app !! ref = Some r ->
  incomingFiles app !! fileId r = Some ref ->
  Js.trim (fileId r) = fileId r -> fileId r <> "" ->
  Forall (fun be : Browser * Event => isChunk be.2 = true) later ->
  let app' := cancelIncomingFile b (fileId r) notifyPeer reason app in
  receiving app' = None
  /\ incomingFiles app' !! fileId r = None
  /\ (exists r', objs app' !! ref = Some r'
                 /\ cancelled r' = true /\ writer r' = None /\ writeQueue r' = []
                 /\ committed r' = committed r)
  /\ ctrlOut app'
     = ctrlOut app
       ++ (if (notifyPeer && ctrlOpen b && negb (ctrlThrows b))%bool
           then [MsgFileCancel (fileId r) reason] else [])
  /\ (Js.trim (streamId r) <> "" ->
      forall j, fileStreamIdForIndex (streamId r) j ∉ fileChannels app')
  /\ run later app' = app'.
Proof.
  intros Hrecv Hr Hin Htrim Hne Hlater app'.
  assert (Happ : app' = _) by exact (cancel_shape b app ref r notifyPeer reason
                                       Hrecv Hr Hin Htrim Hne).
  assert (Hrecv' : receiving app' = None) by (rewrite Happ; reflexivity).
  split; [exact Hrecv'|]. split; [|split; [|split; [|split]]].
  - rewrite Happ. cbn [incomingFiles]. apply lookup_delete_eq.
  - rewrite Happ. cbn [objs]. rewrite !lookup_alter_eq, Hr.
    eexists. split; [reflexivity|]. repeat split.
  - rewrite Happ. reflexivity.
  - intros Hsid j. rewrite Happ. cbn [fileChannels].
    assert (Hs : Js.isEmpty (streamId r) = false).
    { destruct (streamId r); [contradiction Hsid; reflexivity|reflexivity]. }
    rewrite Hs. cbn [negb]. apply ChannelSpec.own_ids_closed. exact Hsid.
  - apply chunks_without_receiver; assumption.
Qed.

End CancelSpec.

(** ** Striping over the channels *)
Module StripingSpec.
Import PeerClient Sender SenderSpec.


Section RoundRobin.
Variables (file : list byte) (C : Z) (budget : Z) (env : Env) (chs : list Channel).

(** Whenever the pump looks, it sees the same channels, all open and with
    less than 1 MiB buffered, and no send throws. *)
Hypothesis same_channels : forall t, channels (env t) = chs.
Hypothesis all_ready :
  Forall (fun dc => readyOpen dc = true /\ bufferedAmount dc < 1 * MiB) chs.
Hypothesis sends_ok : forall t, sendOutcome (env t) = SendOk.
Hypothesis some_channel : chs <> [].

Local Abbreviation n := (List.length chs).










End RoundRobin.




End StripingSpec.

(** ** A write that fails at the end *)
Module WriteFailureSpec.
Import PeerClient Main MainSpec SinkSpec.

(** The completion block when the write it waits for is rejected. *)
Lemma completeTransfer_failed b ref app r w :
  receiving app = Some ref -> objs app !! ref = Some r ->
  incomingFiles app !! fileId r = Some ref ->
  Js.trim (fileId r) = fileId r -> fileId r <> "" ->
  writer r = Some w ->
  List.skipn (writeQueueStart r) (writeQueue r) <> [] ->
  writeFails b = true -> ctrlOpen b = true -> ctrlThrows b = false ->
  let app' := completeTransfer b ref app in
  ctrlOut app'
  = ctrlOut app ++ [MsgFileCancel (fileId r) "Failed to write file"; MsgFileDone (fileId r)]
  /\ receiving app' = None
  /\ incomingFiles app' !! fileId r = None
  /\ receivedFiles app' !! fileId r = Some (default [] (chunks r), name r)
  /\ exists r', objs app' !! ref = Some r'
                /\ writer r' = None /\ cancelled r' = true
                /\ committed r' = committed r.
Proof.
  intros Hrecv Hr Hin Htrim Hne Hw Hq Hfail Hopen Hthrow app'.
  unfold app', completeTransfer. rewrite Hr, Hw.
  unfold flushFileWrites. rewrite Hr, Hw.
  destruct (List.skipn (writeQueueStart r) (writeQueue r)) as [|item items];
    [contradiction|].
  rewrite Hfail.
  rewrite (CancelSpec.cancel_shape b app ref r true "Failed to write file"
             Hrecv Hr Hin Htrim Hne).
  rewrite Hopen, Hthrow. cbn [andb negb].
  simpl. rewrite !lookup_alter_eq, Hr. simpl.
  unfold tryPeerSend, peerSend, completionUiOp. rewrite Hopen, Hthrow.
  destruct (listAttached b), (elementPresent b); simpl;
    rewrite ?lookup_delete_eq; simpl;
    rewrite <- List.app_assoc, ?lookup_alter_eq, ?Hr; simpl;
    (split; [reflexivity|]); (split; [reflexivity|]);
    (split; [reflexivity || apply lookup_delete_eq|]);
    (split; [apply lookup_insert_eq|]);
    eexists; (split; [reflexivity|]); repeat split.
Qed.

Lemma drainPending_none fuel r :
  pendingChunks r !! expectedSeq r = None -> drainPending fuel r = r.
Proof. intros H. destruct fuel; cbn [drainPending]; [reflexivity|]. rewrite H. reflexivity. Qed.

Lemma skipn_app_last {A} (start : nat) (q : list A) (x : A) :
  (start <= List.length q)%nat -> List.skipn start (q ++ [x]) <> [].
Proof.
  intros H. rewrite List.skipn_app.
  replace (start - List.length q)%nat with O by lia. cbn [List.skipn].
  destruct (List.skipn start q); discriminate.
Qed.

(** The last chunk of a transfer arrives in its turn, and the write the
    completion block waits for is rejected. *)
Lemma final_chunk_failed b app ref r w sid data :
  receiving app = Some ref -> objs app !! ref = Some r ->
  incomingFiles app !! fileId r = Some ref ->
  Js.trim (fileId r) = fileId r -> fileId r <> "" ->
  cancelled r = false -> needsAccept r = true -> accepted r = true -> writer r = Some w ->
  DeliverySpec.streamOk (streamId r) sid ->
  0 <= expectedSeq r -> pendingChunks r !! (expectedSeq r + 1) = None ->
  (writeQueueStart r <= List.length (writeQueue r))%nat ->
  0 < byteLength data -> size r <= received r + byteLength data ->
  writeFails b = true -> ctrlOpen b = true -> ctrlThrows b = false ->
  let app' := onFileChunk b sid (expectedSeq r) data app in
  ctrlOut app'
  = ctrlOut app ++ [MsgFileCancel (fileId r) "Failed to write file"; MsgFileDone (fileId r)]
  /\ receiving app' = None
  /\ incomingFiles app' !! fileId r = None
  /\ exists r', objs app' !! ref = Some r'
                /\ writer r' = None /\ cancelled r' = true
                /\ committed r' = committed r ++ [(expectedSeq r, data)].
Proof.
  intros Hrecv Hr Hin Htrim Hne Hcan Hneeds Hacc Hw Hstream Hexp Hnext Hstart Hdata Hsize
         Hfail Hopen Hthrow.
  cbv zeta. unfold onFileChunk. rewrite Hrecv, Hr, Hcan, Hneeds, Hacc, Hw.
  cbn [negb andb]. rewrite bool_decide_eq_true_2 by eauto. cbn [negb].
  set (app1 := if negb (acceptAcked r) then _ else app).
  set (r1 := if negb (acceptAcked r) then acked r else r).
  assert (H1 : receiving app1 = Some ref /\ ctrlOut app1 = ctrlOut app
               /\ incomingFiles app1 = incomingFiles app
               /\ objs app1 !! ref = Some r1).
  { unfold app1, r1. destruct (negb (acceptAcked r)).
    - split; [exact Hrecv|]. split; [reflexivity|]. split; [reflexivity|].
      cbn [update objs set_objs]. rewrite lookup_alter_eq, Hr. reflexivity.
    - split; [exact Hrecv|]. split; [reflexivity|]. split; [reflexivity|]. exact Hr. }
  destruct H1 as (Hrecv1 & Hout1 & Hinc1 & Hr1).
  assert (Hsame : fileId r1 = fileId r /\ writer r1 = writer r
                  /\ writeQueue r1 = writeQueue r /\ writeQueueStart r1 = writeQueueStart r
                  /\ pendingChunks r1 = pendingChunks r /\ expectedSeq r1 = expectedSeq r
                  /\ received r1 = received r /\ size r1 = size r
                  /\ committed r1 = committed r /\ cancelled r1 = cancelled r).
  { unfold r1. destruct (negb (acceptAcked r)); repeat split. }
  destruct Hsame as (E1 & E2 & E3 & E4 & E5 & E6 & E7 & E8 & E9 & E10).
  clearbody app1 r1.
  assert (Hstr : (negb (Js.isEmpty (streamId r)) && negb (Js.isEmpty (Js.trim sid))
                  && negb (streamIdMatchesBase (streamId r) (Js.trim sid)))%bool = false).
  { unfold DeliverySpec.streamOk in Hstream.
    destruct (Js.isEmpty (streamId r)), (Js.isEmpty (Js.trim sid)),
      (streamIdMatchesBase (streamId r) (Js.trim sid)); simpl in *; congruence. }
  rewrite Hstr.
  destruct (Z.ltb_spec (expectedSeq r) 0) as [|_]; [lia|].
  rewrite Z.ltb_irrefl.
  set (app2 := update ref _ app1).
  set (r2 := commitAndDrain (expectedSeq r) data r1).
  assert (Hr2 : objs app2 !! ref = Some r2).
  { unfold app2. cbn [update objs set_objs]. rewrite lookup_alter_eq, Hr1. reflexivity. }
  assert (Hr2' : r2 = set_expectedSeq (expectedSeq r + 1)
                        (commitChunk (expectedSeq r) data r1)).
  { unfold r2, commitAndDrain.
    assert (Hc : pendingChunks (commitChunk (expectedSeq r) data r1) = pendingChunks r1
                 /\ expectedSeq (commitChunk (expectedSeq r) data r1) = expectedSeq r1).
    { unfold commitChunk. destruct (byteLength data <=? 0); [split; reflexivity|].
      cbn [set_committed writer chunks]. rewrite E2, Hw. split; reflexivity. }
    destruct Hc as (Hc1 & Hc2). rewrite Hc2, E6.
    apply drainPending_none.
    cbn [set_expectedSeq pendingChunks expectedSeq]. rewrite Hc1, E5. exact Hnext. }
  assert (Hfacts : fileId r2 = fileId r /\ writer r2 = Some w
                   /\ writeQueue r2 = writeQueue r ++ [(data, byteLength data)]
                   /\ writeQueueStart r2 = writeQueueStart r
                   /\ received r2 = received r + byteLength data
                   /\ size r2 = size r
                   /\ committed r2 = committed r ++ [(expectedSeq r, data)]).
  { rewrite Hr2'. unfold commitChunk.
    destruct (Z.leb_spec (byteLength data) 0) as [|_]; [lia|].
    cbn [set_committed writer chunks]. rewrite E2, Hw.
    cbn [set_expectedSeq set_received set_writeQueuedBytes set_writeQueue set_committed
         fileId writer writeQueue writeQueueStart received size committed].
    rewrite E1, E2, E3, E4, E7, E8, E9, Hw. repeat split. }
  destruct Hfacts as (F1 & F2 & F3 & F4 & F5 & F6 & F7).
  clearbody r2. rewrite Hr2.
  destruct (Z.leb_spec (size r2) (received r2)) as [_|Hlt]; [|lia].
  assert (Hrecv2 : receiving app2 = Some ref) by exact Hrecv1.
  assert (Hin2 : incomingFiles app2 !! fileId r2 = Some ref).
  { unfold app2. cbn [update incomingFiles set_objs]. rewrite Hinc1, F1. exact Hin. }
  assert (Hq2 : List.skipn (writeQueueStart r2) (writeQueue r2) <> []).
  { rewrite F3, F4. apply skipn_app_last. exact Hstart. }
  destruct (completeTransfer_failed b ref app2 r2 w Hrecv2 Hr2 Hin2
              ltac:(rewrite F1; exact Htrim) ltac:(rewrite F1; exact Hne) F2 Hq2
              Hfail Hopen Hthrow)
    as (Hout' & Hrecv' & Hin' & _ & r' & Hr' & Hw' & Hcan' & Hcom').
  rewrite F1 in Hout', Hin'.
  split; [rewrite Hout'; unfold app2; cbn [update ctrlOut set_objs]; rewrite Hout1;
          reflexivity|].
  split; [exact Hrecv'|]. split; [exact Hin'|].
  exists r'. split; [exact Hr'|]. split; [exact Hw'|]. split; [exact Hcan'|].
  rewrite Hcom'. exact F7.
Qed.

(** X29. A write that fails at the very end. Let a file that is not empty
    be accepted and all its chunks but the last arrive (in any order, on any
    channel of the transfer), and let the browser reject the write when the
    last chunk arrives. Then the receiver cancels the transfer, drops the
    writer and tells the peer [file-cancel] with the reason
    ["Failed to write file"]; and the completion block, which goes on after
    the failed write, still sends [file-done] for the same transfer. *)
Theorem failed_last_write_is_still_reported_done
    (D : Z -> list byte) (n : nat) (sz : Z) (good bad : Browser)
    (rxId id sid name' lastSid : string) (sc : Z) (earlier : list (string * Z)) :
  (1 <= n)%nat -> 0 < sz ->
  (forall e, (0 < e < n)%nat -> byteLength (DeliverySpec.prefixBytes D e) < sz) ->
  sz <= byteLength (DeliverySpec.prefixBytes D n) ->
  Js.trim id <> EmptyString ->
  hasPicker good = true -> pickerOk good = true ->
  ctrlOpen good = true -> ctrlThrows good = false -> writeFails good = false ->
  writeFails bad = true -> ctrlOpen bad = true -> ctrlThrows bad = false ->
  (forall a, a ∈ earlier ->
     0 <= a.2 < Z.of_nat n - 1 /\ DeliverySpec.streamOk (Js.trim sid) a.1) ->
  (forall k, 0 <= k < Z.of_nat n - 1 -> exists s, (s, k) ∈ earlier) ->
  DeliverySpec.streamOk (Js.trim sid) lastSid ->
  let events :=
    (good, PeerData (MsgFileMeta id sid sc name' sz)) :: (good, AcceptFile id)
    :: List.map (DeliverySpec.chunkEvent D good) earlier
    ++ [(bad, PeerData (MsgFileChunk lastSid (Z.of_nat n - 1) (D (Z.of_nat n - 1))))] in
  let final := run events (initialApp rxId) in
  ctrlOut final
  = [MsgFileAccept (Js.trim id);
     MsgFileCancel (Js.trim id) "Failed to write file";
     MsgFileDone (Js.trim id)]
  /\ receiving final = None
  /\ incomingFiles final !! Js.trim id = None
  /\ exists r,
       objs final !! O = Some r
       /\ writer r = None /\ cancelled r = true
       /\ List.map fst (committed r) = seqZ 0 n.
Proof.
  intros Hn Hsz Hpart Hfull Hid Hpick Hpok Hopen Hthrow Hwrite Hfail Hopen' Hthrow'
         Hok Hall Hlast events final.
  pose proof (DeliverySpec.accepted_start D n sz good rxId id sid name' sc Hn
                ltac:(lia) Hid Hpick Hpok Hopen Hthrow) as Hstart.
  assert (Hok' : forall a, a ∈ earlier ->
                   0 <= a.2 < Z.of_nat n /\ DeliverySpec.streamOk (Js.trim sid) a.1).
  { intros a Ha. destruct (Hok a Ha). split; [lia|assumption]. }
  pose proof (DeliverySpec.chunks_run D n sz good O (Js.trim sid) (Js.trim id)
                [MsgFileAccept (Js.trim id)] Hn Hpart Hfull Hwrite Hopen Hthrow
                earlier [] _ (or_introl Hstart) Hok') as Hmid.
  set (mid := run (List.map (DeliverySpec.chunkEvent D good) earlier)
                (acceptFile good id (onFileMeta id sid sc name' sz (initialApp rxId))))
    in *.
  assert (Hfinal : final = onFileChunk bad lastSid (Z.of_nat n - 1) (D (Z.of_nat n - 1)) mid).
  { unfold final, events, mid, run.
    cbn [List.fold_left fst snd step onPeerData].
    rewrite List.fold_left_app. reflexivity. }
  assert (Hearly : forall k, k ∈ List.rev (List.map snd earlier) ++ [] ->
                     0 <= k < Z.of_nat n - 1).
  { intros k Hk. rewrite List.app_nil_r in Hk.
    apply list_elem_of_In in Hk. rewrite <- List.in_rev in Hk.
    apply List.in_map_iff in Hk. destruct Hk as (a & <- & Ha).
    apply list_elem_of_In in Ha. apply (Hok a Ha). }
  destruct Hmid as [Hrx|(_ & Hcov & _)].
  2:{ exfalso. specialize (Hcov (Z.of_nat n - 1) ltac:(lia)). apply Hearly in Hcov. lia. }
  destruct Hrx as (r & e & Hrecv & Hr & Hcan & Hneeds & Hacc & Hw & Hstart0 & Hsid & Hfid
                   & Hsize & He & Hexp & Hlog & Hq & Hrec & Hpend & Hcov & Hout & Hconv
                   & Hinc).
  assert (Ee : Z.of_nat e = Z.of_nat n - 1).
  { destruct (Z.lt_ge_cases (Z.of_nat e) (Z.of_nat n - 1)) as [Hlt|Hge]; [exfalso|lia].
    destruct (Hall (Z.of_nat e) ltac:(lia)) as (s & Hs).
    assert (Hin : Z.of_nat e ∈ List.rev (List.map snd earlier) ++ []).
    { rewrite List.app_nil_r. apply list_elem_of_In. rewrite <- List.in_rev.
      apply List.in_map_iff. exists (s, Z.of_nat e). split; [reflexivity|].
      apply list_elem_of_In. exact Hs. }
    destruct (Hcov _ Hin) as [Hlt'|(c & Hc)]; [lia|]. apply Hpend in Hc. lia. }
  assert (Hnext : pendingChunks r !! (expectedSeq r + 1) = None).
  { destruct (pendingChunks r !! (expectedSeq r + 1)) as [c|] eqn:Hc; [|reflexivity].
    apply Hpend in Hc. lia. }
  assert (Hsplit : DeliverySpec.prefixBytes D n
                   = DeliverySpec.prefixBytes D e ++ D (Z.of_nat n - 1)).
  { replace n with (e + 1)%nat at 1 by lia.
    rewrite DeliverySpec.prefixBytes_app. unfold seqZ.
    cbn [List.seq List.map List.concat]. rewrite List.app_nil_r, Z.add_0_r, Ee.
    reflexivity. }
  assert (Hlen : byteLength (DeliverySpec.prefixBytes D n)
                 = byteLength (DeliverySpec.prefixBytes D e)
                   + byteLength (D (Z.of_nat n - 1))).
  { rewrite Hsplit. unfold byteLength. rewrite List.length_app. lia. }
  assert (Hdata : 0 < byteLength (D (Z.of_nat n - 1))).
  { destruct (Nat.eq_dec e O) as [E0|Hpos].
    - rewrite E0 in Hlen. change (byteLength (DeliverySpec.prefixBytes D 0)) with 0 in Hlen.
      lia.
    - specialize (Hpart e ltac:(lia)). lia. }
  rewrite <- Hfid in Hinc.
  assert (Htrim : Js.trim (fileId r) = fileId r)
    by (rewrite Hfid; apply JsFacts.trim_idem).
  assert (Hne : fileId r <> "") by (rewrite Hfid; exact Hid).
  rewrite <- Hsid in Hlast. rewrite <- Ee, <- Hexp in Hfinal.
  pose proof (final_chunk_failed bad mid O r _ lastSid (D (expectedSeq r))
                Hrecv Hr Hinc Htrim Hne Hcan Hneeds Hacc Hw Hlast ltac:(lia) Hnext
                ltac:(rewrite Hstart0; lia)
                ltac:(rewrite Hexp, Ee; exact Hdata)
                ltac:(rewrite Hsize, Hrec, Hexp, Ee; lia)
                Hfail Hopen' Hthrow') as Hres.
  cbv zeta in Hres. rewrite <- Hfinal in Hres.
  destruct Hres as (Hout' & Hrecv' & Hin' & r' & Hr' & Hw' & Hcan' & Hcom').
  rewrite Hfid in Hout', Hin'. rewrite Hout in Hout'.
  split; [exact Hout'|]. split; [exact Hrecv'|]. split; [exact Hin'|].
  exists r'. split; [exact Hr'|]. split; [exact Hw'|]. split; [exact Hcan'|].
  rewrite Hcom', Hlog, List.map_app. unfold DeliverySpec.logOf. rewrite List.map_map.
  cbn [List.map fst]. rewrite List.map_id.
  replace n with (e + 1)%nat at 1 by lia. rewrite seqZ_app. unfold seqZ at 3.
  cbn [List.seq List.map]. rewrite Hexp, Z.add_0_r. reflexivity.
Qed.

End WriteFailureSpec.

(** ** Instances *)
Module Examples.
Import PeerClient.

(** *** Addresses, stream ids, base32 *)

Definition hostCandidate : string :=
  "a=candidate:1 1 udp 2113937151 abcd.local 54321 typ host".

Lemma rewritten_candidate_keeps_fields_witness :
  Js.split " " "a=candidate:1 1 udp 2113937151 192.168.1.20 54321 typ host"
  = <[4%nat := normalizeLanIpOverride (Some "192.168.1.20")]> (Js.split " " hostCandidate)
  /\ (exists addr, Js.split " " hostCandidate !! 4%nat = Some addr
                   /\ Js.endsWith ".local" addr = true)
  /\ rewriteCandidateLine (normalizeLanIpOverride (Some "192.168.1.20"))
       "a=candidate:1 1 udp 2113937151 192.168.1.20 54321 typ host" = None.
Proof.
  apply (AddressSpec.rewritten_candidate_keeps_fields (Some "192.168.1.20") hostCandidate).
  - vm_compute. reflexivity.
  - vm_compute. discriminate.
Defined.

Lemma transfer_channel_ids_witness :
  let ids := fileTxChannelIds "tx" (Main.sendStreamCount true true 32 8) in
  (1 <= List.length ids <= 4)%nat
  /\ ((true && true)%bool = false -> ids = [Js.trim "tx"])
  /\ ids !! 0%nat = Some (Js.trim "tx")
  /\ NoDup ids
  /\ Forall (fun id => streamIdMatchesBase "tx" id = true) ids.
Proof.
  apply (StreamSpec.transfer_channel_ids "tx" true true 32 8).
  vm_compute. discriminate.
Defined.

Lemma base32_decode_rejects_foreign_char_witness :
  base32DecodeToBytes ("MZXW" ++ String "!"%char "6YQ") = None.
Proof.
  apply (Base32Spec.base32_decode_rejects_foreign_char "MZXW" "6YQ" "!"%char);
    vm_compute; reflexivity.
Defined.

Lemma base32_decode_skips_white_space_witness :
  base32DecodeToBytes
    (Js.filterChars (fun c => negb (Base32Spec.isSkipped c)) "MZ XW 6YQ")
  = base32DecodeToBytes "MZ XW 6YQ".
Proof.
  apply (Base32Spec.base32_decode_skips_white_space "MZ XW 6YQ").
  vm_compute. reflexivity.
Defined.

(** *** The sender *)

Definition fiveBytes : list byte := [x01; x02; x03; x04; x05].

(** The second of the three frames of [fiveBytes] in chunks of 2. *)
Definition secondFrame : Sender.Frame := Sender.mkFrame 0 1 2 [x03; x04].

Lemma secondFrame_sent :
  secondFrame
  ∈ Sender.sent
      (SenderSpec.resultState
         (Sender.sendFileChunks fiveBytes
            (Sender.getSendChunkSize 10 FILE_FRAME_HEADER_BYTES)
            (Sender.timeBudgetMs true) Sender.calmEnv 0 1)).
Proof. apply list_elem_of_In. vm_compute. right. left. reflexivity. Qed.

Lemma sent_frame_is_parsed_back_witness :
  handleFileFrame true 5 (mkPeerState 0 false) "tx" (DataBlob (Sender.frameBlob secondFrame))
  = Returned (markPeerActivity 5 (mkPeerState 0 false)).1
      ((markPeerActivity 5 (mkPeerState 0 false)).2
       ++ [OnData (MsgFileChunk "tx" (Sender.fseq secondFrame) (Sender.fpayload secondFrame))])
  /\ handleFileFrame true 5 (mkPeerState 0 false) "tx"
       (DataArrayBuffer (Sender.frameBlob secondFrame))
     = Returned (markPeerActivity 5 (mkPeerState 0 false)).1
         ((markPeerActivity 5 (mkPeerState 0 false)).2
          ++ [OnData (MsgFileChunk "tx" (Sender.fseq secondFrame)
                        (Sender.fpayload secondFrame))]).
Proof.
  apply (FrameSpec.sent_frame_is_parsed_back fiveBytes 10 0 true Sender.calmEnv 1
           secondFrame true 5 (mkPeerState 0 false) "tx").
  - exact secondFrame_sent.
  - reflexivity.
Defined.

Lemma watermarks_stay_in_range_witness :
  let C := Sender.getSendChunkSize 10 FILE_FRAME_HEADER_BYTES in
  let st := SenderSpec.resultState
              (Sender.sendFileChunks fiveBytes C (Sender.timeBudgetMs true)
                 Sender.calmEnv 0 1) in
  let n := Z.of_nat (List.length (Sender.openChannels (Sender.channels (Sender.calmEnv O)))) in
  Sender.minHighWaterMark C <= Sender.highWaterMark st
  <= Sender.initialHighWaterMark 0 C n
  /\ Sender.lowWaterMark st = Z.max (512 * 1024) (Sender.highWaterMark st / 4)
  /\ Sender.lowWaterMark st < Sender.highWaterMark st.
Proof.
  apply (PacingSpec.watermarks_stay_in_range fiveBytes 10 0 true Sender.calmEnv 1).
  - reflexivity.
  - reflexivity.
  - reflexivity.
Defined.

Lemma sent_messages_fit_the_channel_witness :
  (FILE_FRAME_HEADER_BYTES <= byteLength (Sender.frameBlob secondFrame) <= FILE_CHUNK_SIZE)
  /\ (FILE_FRAME_HEADER_BYTES < 10 -> byteLength (Sender.frameBlob secondFrame) <= 10).
Proof.
  apply (PacingSpec.sent_messages_fit_the_channel fiveBytes 10 0 true Sender.calmEnv 1
           secondFrame).
  exact secondFrame_sent.
Defined.

(** *** Connection codes *)

Definition samplePlatform : Platform :=
  SignalSpec.loopback (SignalSpec.signalPayload SignalSpec.sampleConfig SignalSpec.sampleOffer).

Lemma decodeSignal_ignores_outer_white_space_witness :
  decodeSignal samplePlatform ("  " ++ "SHR3:NFUA" ++ String Js.LF "")
  = decodeSignal samplePlatform "SHR3:NFUA".
Proof.
  apply (CodeSpec.decodeSignal_ignores_outer_white_space samplePlatform
           "  " "SHR3:NFUA" (String Js.LF "")).
  - reflexivity.
  - reflexivity.
Defined.

Lemma decodeSignal_needs_known_prefix_witness :
  exists prefix body,
    Js.trim "SHR3:NFUA" = (prefix ++ body)%string
    /\ ((prefix = SIGNAL_PREFIX_GZIP_B32 /\ hasStreamCompression samplePlatform = true)
        \/ prefix = SIGNAL_PREFIX_RAW_B32
        \/ (prefix = SIGNAL_PREFIX_GZIP /\ hasStreamCompression samplePlatform = true)
        \/ prefix = SIGNAL_PREFIX_RAW).
Proof.
  apply (CodeSpec.decodeSignal_needs_known_prefix samplePlatform "SHR3:NFUA"
           (decoded (SignalSpec.signalPayload SignalSpec.sampleConfig SignalSpec.sampleOffer))).
  vm_compute. reflexivity.
Defined.

(** *** The receiver *)

Import Main MainSpec.

(** [file-meta] has arrived and a chunk after it, but the user has not
    accepted yet. *)
Definition unansweredOffer : list (Browser * Event) :=
  [(okBrowser, PeerData (MsgFileMeta "f" "tx" 1 "a.bin" 3));
   (okBrowser, PeerData (MsgFileChunk "tx" 0 [x01; x02; x03]))].

Definition offeredState : Incoming :=
  mkIncoming "f" "tx" 1 "a.bin" 3 false false 0 0 ∅ true false false None None [] O 0 [].

Lemma nothing_taken_before_accept_witness :
  committed offeredState = []
  /\ pendingChunks offeredState = ∅
  /\ received offeredState = 0
  /\ expectedSeq offeredState = 0.
Proof.
  apply (SinkSpec.nothing_taken_before_accept unansweredOffer "me" O offeredState).
  - vm_compute. reflexivity.
  - reflexivity.
Defined.


(** A 3-byte file in two chunks. *)
Definition twoChunks (k : Z) : list byte :=
  if (k =? 0)%Z then [x01; x02] else [x03].

(** Chunk 1 arrives first, and once more after chunk 0. *)
Definition shuffled : list (string * Z) := [("tx:1", 1); ("tx", 0); ("tx:1", 1)].

Lemma chunks_in_any_order_are_reassembled_witness :
  let events :=
    (okBrowser, PeerData (MsgFileMeta "f" "tx" 2 "a.bin" 3)) :: (okBrowser, AcceptFile "f")
    :: List.map (DeliverySpec.chunkEvent twoChunks okBrowser) shuffled in
  let final := run events (initialApp "me") in
  receiving final = None
  /\ ctrlOut final = [MsgFileAccept (Js.trim "f"); MsgFileDone (Js.trim "f")]
  /\ exists r,
       objs final !! O = Some r
       /\ List.map fst (committed r) = seqZ 0 2
       /\ writer r = Some (mkSink (List.concat (List.map twoChunks (seqZ 0 2))) true false).
Proof.
  apply (DeliverySpec.chunks_in_any_order_are_reassembled twoChunks 2 3 okBrowser
           "me" "f" "tx" "a.bin" 2 shuffled).
  - lia.
  - lia.
  - intros e He. assert (E : e = 1%nat) by lia. rewrite E. vm_compute. reflexivity.
  - apply Z.leb_le. vm_compute. reflexivity.
  - vm_compute. discriminate.
  - reflexivity.
  - reflexivity.
  - reflexivity.
  - reflexivity.
  - reflexivity.
  - intros a Ha. apply list_elem_of_In in Ha. cbn [shuffled List.In] in Ha.
    destruct Ha as [<-|[<-|[<-|[]]]]; (split; [cbn; lia|vm_compute; reflexivity]).
  - intros k Hk. assert (E : k = 0 \/ k = 1) by lia.
    destruct E as [-> | ->]; [exists "tx"|exists "tx:1"];
      apply list_elem_of_In; cbn [shuffled List.In]; auto.
Defined.

(** What [sendFileChunks] leaves when it has sent [fiveBytes] in chunks of
    2 over one calm channel. *)
Definition sentState : Sender.SendState :=
  SenderSpec.resultState
    (Sender.sendFileChunks fiveBytes (Sender.getSendChunkSize 10 FILE_FRAME_HEADER_BYTES)
       (Sender.timeBudgetMs true) Sender.calmEnv 0 1).

(** Its three frames arrive last first, the first one twice. *)
Definition arrived : list (Z * Sender.Frame) :=
  [(0, Sender.mkFrame 0 2 1 [x05]);
   (1, Sender.mkFrame 0 0 2 [x01; x02]);
   (0, Sender.mkFrame 0 1 2 [x03; x04]);
   (1, Sender.mkFrame 0 0 2 [x01; x02])].

Lemma completed_send_is_saved_witness :
  let chunk (a : Z * Sender.Frame) :=
    (okBrowser, PeerData (MsgFileChunk (fileStreamIdForIndex "tx" a.1)
                            (Sender.fseq a.2) (Sender.fpayload a.2))) in
  let events :=
    (okBrowser, PeerData (MsgFileMeta "f" "tx" 2 "a.bin" (byteLength fiveBytes)))
    :: (okBrowser, AcceptFile "f") :: List.map chunk arrived in
  let final := run events (initialApp "me") in
  receiving final = None
  /\ ctrlOut final = [MsgFileAccept (Js.trim "f"); MsgFileDone (Js.trim "f")]
  /\ exists r,
       objs final !! O = Some r
       /\ writer r = Some (mkSink fiveBytes true false).
Proof.
  apply (DeliverySpec.completed_send_is_saved fiveBytes 10 0 true Sender.calmEnv 1
           sentState okBrowser "me" "f" "tx" "a.bin" 2 arrived).
  - vm_compute. reflexivity.
  - vm_compute. discriminate.
  - reflexivity.
  - reflexivity.
  - reflexivity.
  - reflexivity.
  - reflexivity.
  - intros a Ha. apply list_elem_of_In in Ha. cbn [arrived List.In] in Ha.
    apply list_elem_of_In.
    destruct Ha as [<-|[<-|[<-|[<-|[]]]]]; vm_compute; auto.
  - intros f Hf. apply list_elem_of_In in Hf. vm_compute in Hf.
    destruct Hf as [<-|[<-|[<-|[]]]]; [exists 1|exists 0|exists 0];
      apply list_elem_of_In; cbn [arrived List.In]; auto.
Defined.

(** *** Channels and cancelling *)

Definition fourChannels : App :=
  set_fileChannels ["tx"; "tx:1"; "ab"; "ab:1"] (initialApp "tx").

Lemma close_by_prefix_is_per_transfer_witness :
  let app' := closeFileChannelsByPrefix "tx" fourChannels in
  (forall j, fileStreamIdForIndex "tx" j ∉ fileChannels app')
  /\ (forall count id, id ∈ fileTxChannelIds "tx" count -> id ∉ fileChannels app')
  /\ (Js.trim "ab" <> "" -> Js.trim "ab" <> Js.trim "tx" ->
      JsFacts.lacks ":" (Js.trim "tx") = true -> JsFacts.lacks ":" (Js.trim "ab") = true ->
      forall j, fileStreamIdForIndex "ab" j ∈ fileChannels fourChannels ->
                fileStreamIdForIndex "ab" j ∈ fileChannels app').
Proof.
  apply (ChannelSpec.close_by_prefix_is_per_transfer "tx" "ab" fourChannels).
  vm_compute. discriminate.
Defined.

(** The state object of [acceptedApp]. *)
Definition acceptedState : Incoming :=
  mkIncoming "f" "tx" 1 "a.bin" 3 false true 0 0 ∅ true true false None
    (Some (mkSink [] false false)) [] O 0 [].

Lemma cancelled_transfer_takes_no_more_chunks_witness :
  let later := [(okBrowser, PeerData (MsgFileChunk "tx" 0 [x01; x02; x03]))] in
  let app' := cancelIncomingFile okBrowser (fileId acceptedState) true "Canceled"
                acceptedApp in
  receiving app' = None
  /\ incomingFiles app' !! fileId acceptedState = None
  /\ (exists r', objs app' !! O = Some r'
                 /\ cancelled r' = true /\ writer r' = None /\ writeQueue r' = []
                 /\ committed r' = committed acceptedState)
  /\ ctrlOut app'
     = ctrlOut acceptedApp
       ++ (if (true && ctrlOpen okBrowser && negb (ctrlThrows okBrowser))%bool
           then [MsgFileCancel (fileId acceptedState) "Canceled"] else [])
  /\ (Js.trim (streamId acceptedState) <> "" ->
      forall j, fileStreamIdForIndex (streamId acceptedState) j ∉ fileChannels app')
  /\ run later app' = app'.
Proof.
  apply (CancelSpec.cancelled_transfer_takes_no_more_chunks okBrowser acceptedApp O
           acceptedState true "Canceled"
           [(okBrowser, PeerData (MsgFileChunk "tx" 0 [x01; x02; x03]))]).
  - vm_compute. reflexivity.
  - vm_compute. reflexivity.
  - vm_compute. reflexivity.
  - vm_compute. reflexivity.
  - vm_compute. discriminate.
  - repeat constructor.
Defined.

(** *** A failed write *)

(** A browser that rejects the write. *)
Definition fullDisk : Browser := mkBrowser true false true true true true true.

Lemma failed_last_write_is_still_reported_done_witness :
  let events :=
    (okBrowser, PeerData (MsgFileMeta "f" "tx" 2 "a.bin" 3)) :: (okBrowser, AcceptFile "f")
    :: List.map (DeliverySpec.chunkEvent twoChunks okBrowser) [("tx", 0)]
    ++ [(fullDisk, PeerData (MsgFileChunk "tx:1" (Z.of_nat 2 - 1)
                               (twoChunks (Z.of_nat 2 - 1))))] in
  let final := run events (initialApp "me") in
  ctrlOut final
  = [MsgFileAccept (Js.trim "f");
     MsgFileCancel (Js.trim "f") "Failed to write file";
     MsgFileDone (Js.trim "f")]
  /\ receiving final = None
  /\ incomingFiles final !! Js.trim "f" = None
  /\ exists r,
       objs final !! O = Some r
       /\ writer r = None /\ cancelled r = true
       /\ List.map fst (committed r) = seqZ 0 2.
Proof.
  apply (WriteFailureSpec.failed_last_write_is_still_reported_done twoChunks 2 3
           okBrowser fullDisk "me" "f" "tx" "a.bin" "tx:1" 2 [("tx", 0)]).
  - lia.
  - lia.
  - intros e He. assert (E : e = 1%nat) by lia. rewrite E. vm_compute. reflexivity.
  - apply Z.leb_le. vm_compute. reflexivity.
  - vm_compute. discriminate.
  - reflexivity.
  - reflexivity.
  - reflexivity.
  - reflexivity.
  - reflexivity.
  - reflexivity.
  - reflexivity.
  - reflexivity.
  - intros a Ha. apply list_elem_of_In in Ha. cbn [List.In] in Ha.
    destruct Ha as [<-|[]]. split; [cbn; lia|vm_compute; reflexivity].
  - intros k Hk. assert (E : k = 0) by lia. rewrite E. exists "tx".
    apply list_elem_of_In. cbn [List.In]. auto.
  - vm_compute. reflexivity.
Defined.

End Examples.
